(* ===== verification/_CoqProject ===== *)
-Q . S2P
Prelude.v
GoStr.v
Api.v
Slots.v
Layout.v
LayoutFacts.v
Json.v
Effects.v
History.v
Simulation.v
Kube.v
Fixtures.v
Topology.v
Fencing.v
FencingFacts.v
Failover.v
Status.v
StatusFacts.v
Reshard.v
ReshardFacts.v
Convergence.v
RollingUpdate.v
RollingUpdateFacts.v
Resources.v
Replication.v
Url.v
Lifecycle.v
Pods.v
Reconcile.v
Footprints.v
ReconcileFacts.v
PodsFacts.v
LifecycleFacts.v
ResourcesFacts.v
Protocol.v
Webhooks.v
WebhooksFacts.v
Backups.v
BackupsFacts.v
ReplicationFacts.v
Storage.v
Paths.v
InstanceManager.v
Webserver.v
BackupUpload.v
Restore.v
InstanceFixtures.v
RestoreFacts.v
StorageFacts.v
WebserverFacts.v
Migration.v
InstanceFacts.v
Startup.v
StartupFacts.v
Pki.v
PkiFacts.v
Collector.v
Metrics.v
Commands.v
