(* ===== verification/Prelude.v ===== *)
(** * A verification of the redis operator

    The repository is a Kubernetes operator for Redis.  Two programs share it.
    The controller manager watches [RedisCluster], [RedisBackup] and
    [RedisScheduledBackup] objects and keeps pods, services, secrets, volumes
    and the cluster topology in shape.  The instance manager runs inside every
    data pod: it starts Redis, serves HTTP to the controller, follows the
    cluster's status and takes backups; before it, an init container may
    restore a backup.  The two meet in three places: the status and the fencing
    annotation of the [RedisCluster] object (written by the controller, obeyed
    by the instance), the HTTP endpoints (called by the controller, answered by
    the instance), and the object store (written by the backup endpoint, read by
    the restore command).

    ** How programs are modelled

    A pure Go function is a Gallina function.  A handler is a [prog] over a
    signature of operations ([Effects]): it returns, fails with an error, or
    issues one operation and continues with the response.  There are seven
    signatures: [kube] for the cluster controller ([Kube]), [backups] for the
    backup controllers ([Backups]), [inst] for the instance manager
    ([InstanceManager]), [rest] for the restore command ([Restore]), [pki] for
    the operator's start-up and the webhook certificates ([Pki]), [prom] for the
    collector ([Collector]) and [copy] for the installation of the binary
    ([Commands]).
    Responses are arbitrary: a theorem about all runs covers every behaviour of
    the API server, of Redis, of the network and of concurrent writers,
    including a failure at any call.  Where a property needs more (a patch
    returns the object it was sent, a Redis command answers), that is a
    hypothesis on the responses, and its witness runs an executable environment
    ([Fixtures], [InstanceFixtures]) where it holds.

    An object that Go handlers share and mutate is passed in and returned.  A
    loop over a Go map takes its order from an oracle, and theorems hold for all
    orders.  Fixed-width integers are [Z] with the wrap-around written where the
    code computes.  A panic is an error value.  Times are nanoseconds.

    ** Files

    Foundations.
    - [Prelude]: results, tactics, hints, list and arithmetic lemmas.
    - [GoStr], [Json], [Paths], [Url]: what the code uses of [strings],
      [strconv], [encoding/json], [path/filepath] and [net/url].
    - [Effects]: programs, runs, executable environments, bounds on what a
      program issues.  [History]: a program logic with the events so far.
      [Simulation]: refinement of an abstract machine.
    - [Api]: [api/v1] and the Kubernetes objects.  [Kube]: operations of the
      cluster controller, the listings of [pods.go], [postClusterJSON].

    The cluster controller ([internal/controller/cluster]).
    - [Slots], [Layout]: slot arithmetic of [cluster_bootstrap.go] and the
      planner of [cluster_layout.go]; [LayoutFacts], [Topology].
    - [Fencing]: [fencing.go], [cluster_handover.go], [switchover];
      [FencingFacts], [Failover], [Protocol].
    - [Status]: [status.go]; [StatusFacts].
    - [Reshard]: [cluster_bootstrap.go], [cluster_reshard.go]; [ReshardFacts],
      [Convergence].
    - [RollingUpdate]: [rolling_update.go]; [RollingUpdateFacts].
    - [Resources]: [rbac.go], [pdb.go], [services.go], [secrets.go],
      [connection_secret.go]; [ResourcesFacts].
    - [Lifecycle]: [pvcs.go], [hibernate.go], [maintenance.go],
      [replica_mode.go], [sentinel.go]; [LifecycleFacts].
    - [Pods]: [pods.go]; [PodsFacts].
    - [Reconcile]: [reconciler.go], the composition of all steps;
      [Footprints] (what each step may write), [ReconcileFacts].
    - [Webhooks]: [webhooks/rediscluster_*.go]; [WebhooksFacts].
    - [Metrics]: the gauges of [metrics.go], with their theorems.
    - [Backups]: [internal/controller/backup] and the schedule validator;
      [BackupsFacts].
    - [Pki]: [pki.go], [pki_reconciler.go] and [controller.go] under
      [internal/cmd/manager/controller]; [PkiFacts].
    - [Commands]: [cmd/manager/main.go], the subcommands of the binary, with
      their theorems.

    The instance manager ([internal/instance-manager]).
    - [Replication]: the parsers of Redis replies and the commands;
      [ReplicationFacts].
    - [InstanceManager]: [reconciler/reconciler.go]; [InstanceFacts].
    - [Webserver]: [webserver/server.go]; [WebserverFacts], [Migration].
    - [Startup]: [run/run.go], [run/sentinel.go]; [StartupFacts].
    - [Storage], [BackupUpload]: [webserver/backup.go]; [StorageFacts].
    - [Restore]: [internal/cmd/manager/restore/restore.go]; [RestoreFacts].
    - [Collector]: [metrics/collector.go], with its theorems.

    ** What is proved

    Failover ([Failover], [Protocol], [ReconcileFacts]).  Whatever fails, an
    instance is promoted only after the API server accepted the fence of the
    former primary; a failed attempt leaves the fence in place; a resumed
    attempt promotes only when that is safe.  [switchover] refines an abstract
    machine (fence, observe, promote, record, release) in which the primary
    that is recorded is the listed pod that was promoted; [failover] refines the
    variant that may also record a candidate without promotion, when no listed
    pod of its name has an address.  With responsive servers the sequence
    completes.

    The other end of the fence ([InstanceFacts], [StartupFacts],
    [WebserverFacts]).  A hard-fenced instance stops Redis and does nothing
    else; roles change only the way the status says; a server is started only
    after its configuration is written, and outside cluster mode a pod that is
    not the recorded primary only with the directive that makes it a replica; a
    liveness failure of a running server means that neither the API server nor
    any of the peers answered; a fenced pod is not ready.

    Cluster mode ([Topology], [ReshardFacts], [Convergence], [Migration],
    [PodsFacts]).  The layout partitions the pods for every map order; requests
    of the reshard are safe; passes that plan the same primaries, and whose
    requests are carried out, end the reshard within 16384 passes; a migration
    issues its commands in the order that loses no key and, between two nodes
    that follow the documented commands ([RedisPair]), ends with every key
    moved; pods that serve slots are not removed while the cluster is healthy,
    and can be when it is not.

    Backups ([BackupsFacts], [StorageFacts], [RestoreFacts]).  Completion of a
    new backup is recorded only after the acknowledgement of every reachable
    shard, while one in a phase the operator does not know is completed without
    any; schedules fire when due; limits delete the oldest first and keep the
    newest backups; the validator accepts exactly the schedules the
    controller can follow; a restore finds the object the backup uploaded; an
    archive is extracted inside the staging directory, in bounds, and gives the
    files back.

    Lifecycle, admission, certificates, metrics ([LifecycleFacts],
    [WebhooksFacts], [ResourcesFacts], [RollingUpdateFacts], [PkiFacts],
    [Metrics], [Collector]).  Hibernation deletes pods only, maintenance leaves
    them alone outside replica mode, claims only grow; defaulting keeps every
    field that is set; admitted objects satisfy what the controller
    needs; replicas are updated before primaries; connection secrets of others
    are not touched; a serving certificate is signed for the names of the service
    by the authority the pass works with, and bundles are published only once it
    is stored or was found good; a scrape cannot panic.

    ** Bounds and fuel

    Most recursion is structural.  The exceptions take fuel.  Slot loops run over the 16384 slots
    and have fuel for all of them.  [migrate_slot] and the drain
    loop read a batch of keys until none is left: [Migration] proves that one
    unit per slot and key is enough.  Loops that wait for another process
    (a background save, the next entry of an archive, certificate reloads,
    periodic reconciliation) have no bound in the code either: with the fuel
    spent the model answers [None], still running, and the theorems about their
    operations hold for every amount.

    ** Not modelled

    - The parsing of command-line flags and the controller runtime: a
      registration with it is one operation.
    - [zz_generated.deepcopy.go]: generated; the model has values, not pointers.
    - Scheduling fields copied verbatim from a spec into pods.
    - Concurrency inside one process: a handler runs to its end against
      arbitrary responses, so interference between processes is covered, data
      races on Go memory are not.
    - Closing of files and responses whose error is ignored, and logging.
    - JSON request bodies arrive decoded; cron expressions, the time-zone
      database, SHA-256, X.509, PEM, the floating-point parser and the Prometheus
      client are parameters.
    - The order [sort.Slice] gives elements neither of which is less than the
      other: the model keeps the order they come in. *)
From stdpp Require Export base tactics option list gmap strings pretty sorting.
From Stdlib Require Export ZArith Lia.

#[export] Set Default Goal Selector "!".
#[global] Unset Program Cases.

Declare Scope redis_scope.
Delimit Scope redis_scope with redis.
#[global] Open Scope Z_scope.

(** ** Go results *)

(** A Go call returning [(T, error)]: exactly one of the two is meaningful in
    this code base, so the pair is a tagged union. *)
Inductive result (E A : Type) : Type :=
| Ok (a : A)
| Err (e : E).
Arguments Ok {E A} a.
Arguments Err {E A} e.

Definition result_map {E A B} (f : A → B) (x : result E A) : result E B :=
  match x with Ok a => Ok (f a) | Err e => Err e end.

Lemma result_map_Ok {E A B} (f : A → B) (x : result E A) b :
  result_map f x = Ok b → ∃ a, x = Ok a ∧ f a = b.
Proof. destruct x as [a|e]; simpl; [|done]. intros [= <-]. by exists a. Qed.

Definition is_ok {E A} (x : result E A) : bool :=
  match x with Ok _ => true | Err _ => false end.

(** ** Machine integers *)

(** Two's complement wrap-around of Go's [int32] and [int64]. *)
Definition wrap (bits : Z) (z : Z) : Z :=
  let m := 2 ^ bits in
  let r := z mod m in
  if bool_decide (r < 2 ^ (bits - 1)) then r else r - m.

Definition int32 (z : Z) : Z := wrap 32 z.
Definition int64 (z : Z) : Z := wrap 64 z.

Definition in_int32 (z : Z) : Prop := - 2 ^ 31 ≤ z < 2 ^ 31.
Definition in_int64 (z : Z) : Prop := - 2 ^ 63 ≤ z < 2 ^ 63.

Lemma wrap_small bits z :
  0 < bits → - 2 ^ (bits - 1) ≤ z < 2 ^ (bits - 1) → wrap bits z = z.
Proof.
  intros Hb Hz. unfold wrap.
  assert (2 ^ bits = 2 * 2 ^ (bits - 1)) as Hp.
  { rewrite <- Z.pow_succ_r by lia. f_equal. lia. }
  destruct (decide (0 ≤ z)) as [Hpos|Hneg].
  - rewrite Z.mod_small by lia. rewrite bool_decide_true by lia. done.
  - rewrite <- (Z.mod_unique z (2 ^ bits) (-1) (z + 2 ^ bits)) by lia.
    rewrite bool_decide_false by lia. lia.
Qed.

Lemma wrap_range bits z : 0 < bits → - 2 ^ (bits - 1) ≤ wrap bits z < 2 ^ (bits - 1).
Proof.
  intros Hb. unfold wrap.
  assert (2 ^ bits = 2 * 2 ^ (bits - 1)) as Hp.
  { rewrite <- Z.pow_succ_r by lia. f_equal. lia. }
  assert (0 < 2 ^ (bits - 1)) by (apply Z.pow_pos_nonneg; lia).
  pose proof (Z.mod_pos_bound z (2 ^ bits) ltac:(lia)).
  case_bool_decide; lia.
Qed.

Lemma int32_small z : in_int32 z → int32 z = z.
Proof. intros H. apply wrap_small; [lia|]. exact H. Qed.

Lemma int64_small z : in_int64 z → int64 z = z.
Proof. intros H. apply wrap_small; [lia|]. exact H. Qed.

Lemma int32_range z : in_int32 (int32 z).
Proof. apply (wrap_range 32). lia. Qed.

(** ** Iteration *)

(** [zrange lo n] is [lo, lo+1, ..., lo+n-1]: the index sequence of
    [for i := lo; i < lo+n; i++]. *)
Definition zrange (lo : Z) (n : nat) : list Z := (λ i : nat, lo + Z.of_nat i) <$> seq 0 n.

(** [for i := 0; i < n; i++] over a Go [int]: empty when [n <= 0]. *)
Definition upto (n : Z) : list Z := zrange 0 (Z.to_nat n).

Lemma elem_of_zrange lo n z : z ∈ zrange lo n ↔ lo ≤ z < lo + Z.of_nat n.
Proof.
  unfold zrange. rewrite list_elem_of_fmap. split.
  - intros (i & -> & Hi%elem_of_seq). lia.
  - intros Hz. exists (Z.to_nat (z - lo)). rewrite elem_of_seq. lia.
Qed.

Lemma elem_of_upto n z : z ∈ upto n ↔ 0 ≤ z < n.
Proof. unfold upto. rewrite elem_of_zrange. lia. Qed.

Lemma NoDup_zrange lo n : NoDup (zrange lo n).
Proof. unfold zrange. apply NoDup_fmap_2; [intros x y ?; lia|apply NoDup_seq]. Qed.

Lemma NoDup_upto n : NoDup (upto n).
Proof. apply NoDup_zrange. Qed.

Lemma length_zrange lo n : length (zrange lo n) = n.
Proof. unfold zrange. by rewrite length_fmap, length_seq. Qed.

Lemma length_upto n : length (upto n) = Z.to_nat n.
Proof. apply length_zrange. Qed.

Lemma zrange_S lo n : zrange lo (S n) = lo :: zrange (lo + 1) n.
Proof.
  unfold zrange. simpl. f_equal; [lia|].
  rewrite <- fmap_S_seq, <- list_fmap_compose. apply list_fmap_ext.
  intros i x _. simpl. lia.
Qed.

Lemma zrange_app lo n m : zrange lo (n + m) = zrange lo n ++ zrange (lo + Z.of_nat n) m.
Proof.
  revert lo; induction n as [|n IH]; intros lo.
  - simpl. by rewrite Z.add_0_r.
  - cbn [Nat.add]. rewrite !zrange_S, IH. simpl. do 3 f_equal. lia.
Qed.

Lemma lookup_zrange lo n i z :
  zrange lo n !! i = Some z ↔ z = lo + Z.of_nat i ∧ (i < n)%nat.
Proof.
  unfold zrange. rewrite list_lookup_fmap_Some. setoid_rewrite lookup_seq.
  split; [intros (y & -> & -> & ?)|intros [-> ?]; exists i]; split; lia || done.
Qed.

(** Loop invariants. *)
Lemma foldl_inv {A B} (P : A → Prop) (f : A → B → A) (l : list B) (a : A) :
  P a → (∀ a x, x ∈ l → P a → P (f a x)) → P (foldl f a l).
Proof.
  revert a; induction l as [|x l IH]; intros a Ha Hf; simpl; [done|].
  apply IH; [apply Hf; [apply list_elem_of_here|done]|].
  intros b y Hy. apply Hf. by apply list_elem_of_further.
Qed.

(** ** Sorting *)

(** Go's [sort.Slice] with a strict comparison [less].  The algorithm is an
    insertion sort: on inputs whose elements [less] separates, every correct
    sort returns this list. *)
Section go_sort.
Context {A : Type} (less : A → A → bool).

Fixpoint sort_insert (x : A) (l : list A) : list A :=
  match l with
  | [] => [x]
  | y :: l' => if less y x then y :: sort_insert x l' else x :: l
  end.

Definition sort_slice (l : list A) : list A := foldr sort_insert [] l.

Lemma sort_insert_perm x l : sort_insert x l ≡ₚ x :: l.
Proof.
  induction l as [|y l IH]; simpl; [done|].
  destruct (less y x); [|done]. by rewrite IH, Permutation_swap.
Qed.

Lemma sort_slice_perm l : sort_slice l ≡ₚ l.
Proof.
  induction l as [|x l IH]; simpl; [done|]. by rewrite sort_insert_perm, IH.
Qed.

Lemma elem_of_sort_slice x l : x ∈ sort_slice l ↔ x ∈ l.
Proof. by rewrite sort_slice_perm. Qed.

(** [le x y]: [y] is not strictly before [x]. *)
Let le (x y : A) : Prop := less y x = false.

Lemma sort_insert_sorted x l :
  (∀ a b, less a b = true → less b a = false) →
  Sorted le l → Sorted le (sort_insert x l).
Proof.
  intros Hasym. induction 1 as [|y l Hs IH Hhd]; simpl.
  - repeat constructor.
  - destruct (less y x) eqn:Hyx.
    + constructor; [done|].
      destruct l as [|z l]; simpl in *.
      * constructor. by apply Hasym.
      * destruct (less z x); constructor; [by inversion Hhd|by apply Hasym].
    + repeat constructor; done.
Qed.

Lemma sort_slice_sorted l :
  (∀ a b, less a b = true → less b a = false) → Sorted le (sort_slice l).
Proof.
  intros Hasym. induction l as [|x l IH]; simpl; [constructor|].
  by apply sort_insert_sorted.
Qed.
End go_sort.

(** ** Map iteration order *)

(** Go ranges over a map in an unspecified order.  The order is an oracle: a
    list of picks, each selecting one of the remaining entries. *)
Fixpoint take_nth {A} (n : nat) (l : list A) : option (A * list A) :=
  match l, n with
  | [], _ => None
  | x :: l', O => Some (x, l')
  | x :: l', S n' =>
      match take_nth n' l' with
      | Some (y, rest) => Some (y, x :: rest)
      | None => Some (x, l')
      end
  end.

Fixpoint shuffle {A} (fuel : nat) (picks : list nat) (l : list A) : list A :=
  match fuel with
  | O => l
  | S fuel' =>
      match take_nth (hd 0%nat picks) l with
      | Some (x, rest) => x :: shuffle fuel' (tl picks) rest
      | None => []
      end
  end.

Lemma take_nth_perm {A} n (l : list A) x rest :
  take_nth n l = Some (x, rest) → l ≡ₚ x :: rest.
Proof.
  revert n x rest; induction l as [|y l IH]; intros [|n] x rest; simpl; intros H; simplify_eq; [done|].
  destruct (take_nth n l) as [[z r]|] eqn:E; simplify_eq; [|done].
  rewrite (IH _ _ _ E). apply Permutation_swap.
Qed.

Lemma take_nth_None {A} n (l : list A) : take_nth n l = None → l = [].
Proof. destruct l, n; simpl; [done..|]. by destruct (take_nth n l) as [[]|]. Qed.

Lemma shuffle_perm {A} fuel picks (l : list A) : shuffle fuel picks l ≡ₚ l.
Proof.
  revert picks l; induction fuel as [|fuel IH]; intros picks l; simpl; [done|].
  destruct (take_nth _ l) as [[x rest]|] eqn:E.
  - by rewrite IH, (take_nth_perm _ _ _ _ E).
  - by rewrite (take_nth_None _ _ E).
Qed.

Lemma take_nth_mid {A} (l1 l2 : list A) x :
  take_nth (length l1) (l1 ++ x :: l2) = Some (x, l1 ++ l2).
Proof. induction l1 as [|y l1 IH]; simpl; [done|]. by rewrite IH. Qed.

(** Every order is reachable: the oracle really is arbitrary. *)
Lemma shuffle_complete {A} (l l' : list A) :
  l ≡ₚ l' → ∃ picks, shuffle (length l) picks l = l'.
Proof.
  revert l; induction l' as [|x l' IH]; intros l Hp.
  - apply Permutation_nil_r in Hp as ->. by exists [].
  - destruct (list_elem_of_split l x) as (l1 & l2 & ->); [rewrite Hp; set_solver|].
    rewrite <- Permutation_middle in Hp. apply Permutation_cons_inv in Hp.
    destruct (IH _ Hp) as [picks Hpicks]. exists (length l1 :: picks).
    rewrite length_app. simpl. rewrite Nat.add_succ_r. simpl.
    rewrite take_nth_mid, <- length_app, Hpicks. done.
Qed.

(** The entries of a map in the order an oracle picks. *)
Definition range_map `{Countable K} {V} (picks : list nat) (m : gmap K V) : list (K * V) :=
  shuffle (size m) picks (map_to_list m).

Lemma range_map_perm `{Countable K} {V} picks (m : gmap K V) :
  range_map picks m ≡ₚ map_to_list m.
Proof. apply shuffle_perm. Qed.

Lemma elem_of_range_map `{Countable K} {V} picks (m : gmap K V) k v :
  (k, v) ∈ range_map picks m ↔ m !! k = Some v.
Proof. rewrite range_map_perm. apply elem_of_map_to_list. Qed.

(** The orders of the successive [range] statements of one call. *)
Definition oracle := nat → list nat.
Definition oracle_shift (n : nat) (ord : oracle) : oracle := λ k, ord (n + k)%nat.

(** ** Automation *)

Create HintDb redis discriminated.
#[export] Hint Resolve sort_slice_perm shuffle_perm range_map_perm : redis.

(** Boolean connectives and [bool_decide] in hypotheses and goals, as
    propositions. *)
Ltac bsimpl :=
  repeat match goal with
  | H : _ && _ = true |- _ => apply andb_true_iff in H as [? ?]
  | H : negb _ = true |- _ => apply negb_true_iff in H
  | H : negb _ = false |- _ => apply negb_false_iff in H
  | H : bool_decide _ = true |- _ => apply bool_decide_eq_true in H
  | H : bool_decide _ = false |- _ => apply bool_decide_eq_false in H
  | H : _ || _ = false |- _ => apply orb_false_iff in H as [? ?]
  end.

(** Split every [match] and [if] of the goal, closing absurd branches. *)
Ltac split_matches :=
  repeat (case_match; simplify_eq/=; try done).
