(* ===== verification/GoStr.v ===== *)
(** * Go strings and numbers

    What the operator uses of Go's [strconv], [strings] and [fmt]: decimal
    printing ([fmt.Sprintf("%d")], [strconv.Itoa]), [strconv.ParseInt] and
    [strconv.Atoi] with their error values, [strings.TrimSpace],
    [strings.ToLower], [strings.HasPrefix], [strings.Contains], [strings.Cut],
    [strings.Split] and [strings.Join].

    Strings are byte strings, as in Go.  White space and letter case are those
    of ASCII: the values the operator trims and lowers are Kubernetes names and
    annotation keywords. *)
From S2P Require Import Prelude.
From Stdlib Require Import Ascii.



#[global] Open Scope Z_scope.

(** ** Decimal numbers *)

Definition itoa (z : Z) : string := pretty z.

Inductive NumError := ErrSyntax | ErrRange.
#[export] Instance NumError_eq_dec : EqDecision NumError.
Proof. solve_decision. Defined.

Definition digit_val (c : ascii) : option Z :=
  let n := Z.of_N (N_of_ascii c) in
  if bool_decide (48 ≤ n ≤ 57) then Some (n - 48) else None.

(** The loop of [strconv.ParseUint] in base 10: a digit that takes the value
    past [maxVal] ends the scan with [ErrRange], a non-digit with [ErrSyntax]. *)
Fixpoint parse_uint_loop (maxVal : Z) (n : Z) (s : string) : Z * option NumError :=
  match s with
  | EmptyString => (n, None)
  | String c s' =>
      match digit_val c with
      | None => (0, Some ErrSyntax)
      | Some d =>
          let n1 := n * 10 + d in
          if bool_decide (maxVal < n1) then (maxVal, Some ErrRange)
          else parse_uint_loop maxVal n1 s'
      end
  end.

Definition ParseUint (s : string) (bits : Z) : Z * option NumError :=
  match s with
  | EmptyString => (0, Some ErrSyntax)
  | _ => parse_uint_loop (2 ^ bits - 1) 0 s
  end.

(** [strconv.ParseInt(s, 10, bits)]: the value is meaningful together with a
    range error (it is clamped) and zero together with a syntax error. *)
Definition ParseInt (s : string) (bits : Z) : Z * option NumError :=
  let '(neg, body) :=
    match s with
    | String "+" s' => (false, s')
    | String "-" s' => (true, s')
    | _ => (false, s)
    end%char in
  let cutoff := 2 ^ (bits - 1) in
  match ParseUint body bits with
  | (_, Some ErrSyntax) => (0, Some ErrSyntax)
  | (un, _) =>
      if negb neg && bool_decide (cutoff ≤ un) then (cutoff - 1, Some ErrRange)
      else if neg && bool_decide (cutoff < un) then (- cutoff, Some ErrRange)
      else ((if neg then - un else un), None)
  end.

Definition Atoi (s : string) : Z * option NumError := ParseInt s 64.

(** ** Text *)

Definition is_space (c : ascii) : bool :=
  match c with
  | "009" | "010" | "011" | "012" | "013" | " " => true
  | _ => false
  end%char.

Fixpoint trim_left (s : string) : string :=
  match s with
  | String c s' => if is_space c then trim_left s' else s
  | EmptyString => EmptyString
  end.

(** Drop the trailing white space. *)
Fixpoint trim_right (s : string) : string :=
  match s with
  | EmptyString => EmptyString
  | String c s' =>
      match trim_right s' with
      | EmptyString => if is_space c then EmptyString else String c EmptyString
      | t => String c t
      end
  end.

Definition TrimSpace (s : string) : string := trim_right (trim_left s).

Definition lower_char (c : ascii) : ascii :=
  let n := N_of_ascii c in
  if bool_decide (65 ≤ n ≤ 90)%N then ascii_of_N (n + 32) else c.

Fixpoint ToLower (s : string) : string :=
  match s with
  | EmptyString => EmptyString
  | String c s' => String (lower_char c) (ToLower s')
  end.

(** [strings.EqualFold]. *)
Definition EqualFold (s t : string) : bool := bool_decide (ToLower s = ToLower t).

Definition HasPrefix (s p : string) : bool := String.prefix p s.

(** [strings.TrimPrefix] *)
Fixpoint TrimPrefix (s p : string) : string :=
  match p, s with
  | EmptyString, _ => s
  | String c p', String d s' =>
      if HasPrefix s p then TrimPrefix s' p' else s
  | String _ _, EmptyString => s
  end.

(** [strings.TrimSuffix] *)
Fixpoint TrimSuffix (s p : string) : string :=
  if bool_decide (s = p) then EmptyString else
  match s with
  | EmptyString => EmptyString
  | String c s' => String c (TrimSuffix s' p)
  end.

(** [strings.TrimSuffix] of one character. *)
Fixpoint trim_suffix_char (s : string) (c : ascii) : string :=
  match s with
  | EmptyString => EmptyString
  | String d EmptyString => if bool_decide (d = c) then EmptyString else s
  | String d s' => String d (trim_suffix_char s' c)
  end.

(** [strings.Trim] with a cutset of one character. *)
Fixpoint trim_char_left (s : string) (c : ascii) : string :=
  match s with
  | EmptyString => EmptyString
  | String d s' => if bool_decide (d = c) then trim_char_left s' c else s
  end.

Fixpoint trim_char_right (s : string) (c : ascii) : string :=
  match s with
  | EmptyString => EmptyString
  | String d s' =>
      match trim_char_right s' c with
      | EmptyString => if bool_decide (d = c) then EmptyString else String d EmptyString
      | t => String d t
      end
  end.

Definition trim_char (s : string) (c : ascii) : string := trim_char_right (trim_char_left s c) c.

Definition upper_char (c : ascii) : ascii :=
  let n := N_of_ascii c in if bool_decide (97 ≤ n ≤ 122)%N then ascii_of_N (n - 32) else c.

(** [strings.ToUpper] on ASCII. *)
Fixpoint ToUpper (s : string) : string :=
  match s with EmptyString => EmptyString | String c s' => String (upper_char c) (ToUpper s') end.

(** [strings.Contains] of a one-character separator. *)
Fixpoint contains_char (s : string) (c : ascii) : bool :=
  match s with
  | EmptyString => false
  | String d s' => bool_decide (d = c) || contains_char s' c
  end.

(** [strings.Cut] at a one-character separator. *)
Fixpoint cut_char (s : string) (c : ascii) : option (string * string) :=
  match s with
  | EmptyString => None
  | String d s' =>
      if bool_decide (d = c) then Some (EmptyString, s')
      else match cut_char s' c with
           | Some (a, b) => Some (String d a, b)
           | None => None
           end
  end.

(** [strings.Split] at a one-character separator: never empty. *)
Fixpoint split_char (s : string) (c : ascii) : list string :=
  match s with
  | EmptyString => [EmptyString]
  | String d s' =>
      if bool_decide (d = c) then EmptyString :: split_char s' c
      else match split_char s' c with
           | w :: ws => String d w :: ws
           | [] => [String d EmptyString]
           end
  end.

(** [s[n:]]: Go panics when [n > len(s)]. *)
Fixpoint slice_from (s : string) (n : nat) : option string :=
  match n, s with
  | O, _ => Some s
  | S n', String _ s' => slice_from s' n'
  | S _, EmptyString => None
  end.

(** [%q] of a string of printable ASCII without quotes and backslashes. *)
Definition quoted (s : string) : string := String (ascii_of_nat 34) (s +:+ String (ascii_of_nat 34) EmptyString).

(** ** Printing and parsing agree *)

Lemma digit_val_pretty x : (x < 10)%N → digit_val (pretty_N_char x) = Some (Z.of_N x).
Proof.
  intros Hx.
  assert (x = 0 ∨ x = 1 ∨ x = 2 ∨ x = 3 ∨ x = 4 ∨ x = 5 ∨ x = 6 ∨ x = 7 ∨ x = 8 ∨ x = 9)%N by lia.
  destruct_or!; subst; reflexivity.
Qed.

Lemma parse_uint_loop_digits maxVal x s :
  Z.of_N x ≤ maxVal →
  parse_uint_loop maxVal 0 (pretty_N_go x s) = parse_uint_loop maxVal (Z.of_N x) s.
Proof.
  revert s; induction (N.lt_wf_0 x) as [x _ IH]; intros s Hx.
  destruct (decide (x = 0)%N) as [->|Hnz]; [by rewrite pretty_N_go_0|].
  rewrite pretty_N_go_step by lia.
  pose proof (N.div_mod' x 10). pose proof (N.mod_lt x 10 ltac:(lia)).
  assert (Z.of_N (x `div` 10) * 10 + Z.of_N (x `mod` 10) = Z.of_N x) as Hsum.
  { rewrite H at 3. lia. }
  pose proof (N2Z.is_nonneg (x `mod` 10)).
  rewrite IH; [|apply N.div_lt; lia|lia]. simpl.
  rewrite digit_val_pretty by done.
  rewrite Hsum.
  by rewrite bool_decide_false by lia.
Qed.

Lemma pretty_N_go_head x s : (0 < x)%N → ∃ d s', (d < 10)%N ∧ pretty_N_go x s = String (pretty_N_char d) s'.
Proof.
  revert s; induction (N.lt_wf_0 x) as [x _ IH]; intros s Hx.
  rewrite pretty_N_go_step by lia.
  destruct (decide (x `div` 10 = 0)%N) as [->|].
  - rewrite pretty_N_go_0. exists (x `mod` 10)%N, s. split; [apply N.mod_lt; lia|done].
  - apply IH; [apply N.div_lt; lia|by apply N.neq_0_lt_0].
Qed.

(** [strconv.ParseInt] reads back what [%d] prints. *)
Lemma ParseInt_itoa bits z : 0 < bits → 0 ≤ z < 2 ^ (bits - 1) → ParseInt (itoa z) bits = (z, None).
Proof.
  intros Hb Hz. unfold itoa.
  assert (2 ^ bits = 2 * 2 ^ (bits - 1)) as Hpow by (rewrite <- Z.pow_succ_r by lia; f_equal; lia).
  destruct z as [|p|p]; [| |lia].
  { unfold ParseInt, ParseUint. simpl. rewrite bool_decide_false by lia. simpl. by rewrite bool_decide_false by lia. }
  change (pretty (Z.pos p)) with (pretty_N_go (N.pos p) "").
  destruct (pretty_N_go_head (N.pos p) "" ltac:(lia)) as (d & s' & Hd & Heq).
  pose proof (parse_uint_loop_digits (2 ^ bits - 1) (N.pos p) "" ltac:(simpl; lia)) as Hloop.
  rewrite Heq in Hloop |- *.
  unfold ParseInt, ParseUint.
  assert (d = 0 ∨ d = 1 ∨ d = 2 ∨ d = 3 ∨ d = 4 ∨ d = 5 ∨ d = 6 ∨ d = 7 ∨ d = 8 ∨ d = 9)%N as Hds by lia.
  assert (pretty_N_char d ≠ "+"%char ∧ pretty_N_char d ≠ "-"%char) as [Hp Hm].
  { destruct_or!; subst; done. }
  destruct (pretty_N_char d) as [[] [] [] [] [] [] [] []] eqn:Ec; try congruence;
    rewrite Hloop; simpl; rewrite bool_decide_false by lia; reflexivity.
Qed.

Lemma Atoi_itoa z : 0 ≤ z < 2 ^ 63 → Atoi (itoa z) = (z, None).
Proof. intros Hz. by apply (ParseInt_itoa 64). Qed.

(** Every character satisfies [P]. *)
Fixpoint all_chars (P : ascii → bool) (s : string) : bool :=
  match s with EmptyString => true | String c s' => P c && all_chars P s' end.

Lemma all_chars_app P a b : all_chars P (a +:+ b) = all_chars P a && all_chars P b.
Proof.
  induction a as [|c a IH]; [done|]. change (String c a +:+ b) with (String c (a +:+ b)). cbn [all_chars].
  by rewrite IH, andb_assoc.
Qed.

Lemma all_chars_mono (P Q : ascii → bool) s :
  (∀ c, P c = true → Q c = true) → all_chars P s = true → all_chars Q s = true.
Proof.
  intros HPQ. induction s as [|c s IH]; [done|]. cbn [all_chars]. rewrite !andb_true_iff.
  intros [? ?]. split; auto.
Qed.

Lemma contains_char_all P s c : all_chars P s = true → P c = false → contains_char s c = false.
Proof.
  intros Hs Hc. induction s as [|d s IH]; [done|]. cbn in *. apply andb_true_iff in Hs as [Hd Hs].
  rewrite (IH Hs), orb_false_r. apply bool_decide_eq_false. congruence.
Qed.

Definition is_digit (c : ascii) : bool := if digit_val c is Some _ then true else false.

Lemma pretty_digits x s : all_chars is_digit s = true → all_chars is_digit (pretty_N_go x s) = true.
Proof.
  revert s; induction (N.lt_wf_0 x) as [x _ IH]; intros s Hs.
  destruct (decide (x = 0)%N) as [->|Hnz]; [by rewrite pretty_N_go_0|].
  rewrite pretty_N_go_step by lia. apply IH; [apply N.div_lt; lia|]. cbn [all_chars].
  unfold is_digit at 1. by rewrite digit_val_pretty by (apply N.mod_lt; lia).
Qed.

Lemma itoa_digits z : 0 ≤ z → all_chars is_digit (itoa z) = true.
Proof. intros Hz. destruct z as [|p|p]; [done| |lia]. by apply pretty_digits. Qed.

Lemma itoa_nonempty z : itoa z ≠ "".
Proof.
  destruct z as [|p|p]; [done| |by intros [=]]. unfold itoa. change (pretty (Z.pos p)) with (pretty_N_go (N.pos p) "").
  destruct (pretty_N_go_head (N.pos p) "" ltac:(lia)) as (d & s' & _ & ->). done.
Qed.

Lemma slice_from_append s t : slice_from (s +:+ t) (String.length s) = Some t.
Proof. induction s as [|c s IH]; [by destruct t|done]. Qed.

Lemma slice_from_None s n : slice_from s n = None ↔ (String.length s < n)%nat.
Proof.
  revert n; induction s as [|c s IH]; intros [|n]; simpl; [split; [done|lia]| |split; [done|lia]|].
  - split; [lia|done].
  - rewrite IH. lia.
Qed.

Lemma slice_from_Some s n t : slice_from s n = Some t → ∃ p, s = p +:+ t ∧ String.length p = n.
Proof.
  revert n; induction s as [|c s IH]; intros [|n] H; simpl in *; simplify_eq.
  - by exists "".
  - by exists "".
  - destruct (IH _ H) as (p & -> & <-). by exists (String c p).
Qed.

Lemma itoa_inj x y : itoa x = itoa y → x = y.
Proof. apply (inj pretty). Qed.

Lemma append_inj_l (s t u : string) : s +:+ t = s +:+ u → t = u.
Proof. intros H. by apply (inj (String.append s)). Qed.

Lemma append_assoc (s t u : string) : (s +:+ t) +:+ u = s +:+ t +:+ u.
Proof. induction s as [|c s IH]; [done|]. change (String c ((s +:+ t) +:+ u) = String c (s +:+ t +:+ u)). by rewrite IH. Qed.

Lemma contains_char_app a b d : contains_char (a +:+ b) d = contains_char a d || contains_char b d.
Proof.
  induction a as [|c a IH]; [done|]. change (String c a +:+ b) with (String c (a +:+ b)).
  cbn [contains_char]. by rewrite IH, orb_assoc.
Qed.

(** Cutting at the separator that was put in. *)
Lemma cut_char_app a b d : contains_char a d = false → cut_char (a +:+ String d b) d = Some (a, b).
Proof.
  induction a as [|c a IH]; [by simpl; rewrite bool_decide_true|].
  change (String c a +:+ String d b) with (String c (a +:+ String d b)). cbn [contains_char cut_char].
  intros [Hc Ha]%orb_false_iff. by rewrite Hc, IH.
Qed.

(** ** Sorting names *)

(** [less] of [sort.Strings]. *)
Definition string_less (a b : string) : bool := negb (String.leb b a).

#[export] Instance string_less_trans : Transitive (λ x y, string_less y x = false).
Proof.
  intros x y z. unfold string_less. rewrite !negb_false_iff, <- !Is_true_true. apply (transitivity (R := String.le)).
Qed.

#[export] Instance string_less_antisymm : AntiSymm (=) (λ x y, string_less y x = false).
Proof. intros x y. unfold string_less. rewrite !negb_false_iff. apply String.leb_antisym. Qed.

Lemma string_less_asym a b : string_less a b = true → string_less b a = false.
Proof.
  unfold string_less. rewrite negb_true_iff, negb_false_iff. intros H.
  destruct (String.leb_total a b); congruence.
Qed.

Lemma sort_strings_perm l1 l2 : l1 ≡ₚ l2 → sort_slice string_less l1 = sort_slice string_less l2.
Proof.
  intros Hp. apply (StronglySorted_unique (λ x y, string_less y x = false)).
  - apply Sorted_StronglySorted; [apply string_less_trans|]. apply sort_slice_sorted, string_less_asym.
  - apply Sorted_StronglySorted; [apply string_less_trans|]. apply sort_slice_sorted, string_less_asym.
  - by rewrite !sort_slice_perm.
Qed.

(** ** Splitting *)

Lemma split_char_line a b c : contains_char a c = false → split_char (a +:+ String c b) c = a :: split_char b c.
Proof.
  induction a as [|d a IH]; [by simpl; rewrite bool_decide_true|].
  change (String d a +:+ String c b) with (String d (a +:+ String c b)). cbn [contains_char split_char].
  intros [Hd Ha]%orb_false_iff. by rewrite Hd, IH.
Qed.

Lemma split_char_none a c : contains_char a c = false → split_char a c = [a].
Proof.
  induction a as [|d a IH]; [done|]. cbn. intros [Hd Ha]%orb_false_iff. by rewrite Hd, IH.
Qed.

Lemma concat_cons sep w v l : String.concat sep (w :: v :: l) = w +:+ sep +:+ String.concat sep (v :: l).
Proof. done. Qed.

Lemma split_char_concat c l :
  l ≠ [] → Forall (λ w, contains_char w c = false) l → split_char (String.concat (String c "") l) c = l.
Proof.
  intros Hne Hl. induction Hl as [|w l Hw Hl IH]; [done|]. destruct l as [|v l]; [by apply split_char_none|].
  rewrite concat_cons. change (String c "" +:+ String.concat (String c "") (v :: l))
    with (String c (String.concat (String c "") (v :: l))). by rewrite split_char_line, IH.
Qed.

Lemma HasPrefix_app p s : HasPrefix (p +:+ s) p = true.
Proof.
  unfold HasPrefix. induction p as [|c p IH]; [by destruct s|].
  change (String c p +:+ s) with (String c (p +:+ s)). cbn [String.prefix]. by destruct (ascii_dec c c).
Qed.
