(* ===== verification/Api.v ===== *)
(** * The API types ([api/v1]) and the Kubernetes objects the operator reads

    [RedisCluster], [RedisBackup] and their specs and statuses, with the
    methods the Go types carry ([DesiredDataInstances],
    [ResolveMaxMemoryBytes], [BackupDestination.Validate],
    [ClusterHandoverPods], ...), and the fields of Pods, Services, PVCs, PDBs
    and Secrets that the controllers inspect.

    Conventions.  [int32] and [int64] fields are [Z]; arithmetic that can leave
    the width is wrapped where the code computes it.  Pointers to optional
    values are [option].  A Go map is a [gmap]; the nil map and the empty map
    are identified, since the code only looks keys up in it.  Scheduling fields
    that are copied verbatim into pods and never inspected (node selector,
    affinity, tolerations, spread constraints) are left out. *)
From S2P Require Import Prelude GoStr.
From Stdlib Require Import Ascii.

(** ** Enumerations *)

(** The CRD schema admits the three modes; [ModeUnset] is the Go zero value. *)
Inductive ClusterMode :=
| ModeUnset | ClusterModeStandalone | ClusterModeSentinel | ClusterModeCluster.
#[export] Instance ClusterMode_eq_dec : EqDecision ClusterMode.
Proof. solve_decision. Defined.

Inductive StorageType := StorageTypeUnset | StorageTypePVC | StorageTypeEmptyDir.
#[export] Instance StorageType_eq_dec : EqDecision StorageType.
Proof. solve_decision. Defined.

Inductive PrimaryUpdateStrategy :=
| PrimaryUpdateStrategyUnset
| PrimaryUpdateStrategyUnsupervised
| PrimaryUpdateStrategySupervised.
#[export] Instance PrimaryUpdateStrategy_eq_dec : EqDecision PrimaryUpdateStrategy.
Proof. solve_decision. Defined.

(** The phase is an open string, empty before the first pass. *)
Definition ClusterPhase := string.
Definition ClusterPhaseNone : ClusterPhase := "".
Definition ClusterPhaseCreating : ClusterPhase := "Creating".
Definition ClusterPhaseHealthy : ClusterPhase := "Healthy".
Definition ClusterPhaseDegraded : ClusterPhase := "Degraded".
Definition ClusterPhaseReplicating : ClusterPhase := "Replicating".
Definition ClusterPhaseFailingOver : ClusterPhase := "FailingOver".
Definition ClusterPhaseScaling : ClusterPhase := "Scaling".
Definition ClusterPhaseUpdating : ClusterPhase := "Updating".
Definition ClusterPhaseWaitingForUser : ClusterPhase := "WaitingForUser".
Definition ClusterPhaseDeleting : ClusterPhase := "Deleting".
Definition ClusterPhaseHibernating : ClusterPhase := "Hibernating".

Inductive ConditionStatus := ConditionTrue | ConditionFalse | ConditionUnknown.
#[export] Instance ConditionStatus_eq_dec : EqDecision ConditionStatus.
Proof. solve_decision. Defined.

(** ** Well-known names *)

Definition ConditionReady := "Ready".
Definition ConditionPrimaryAvailable := "PrimaryAvailable".
Definition ConditionReplicationHealthy := "ReplicationHealthy".
Definition ConditionReplicaMode := "ReplicaMode".
Definition ConditionPrimaryUpdateWaiting := "PrimaryUpdateWaiting".
Definition ConditionHibernated := "Hibernated".
Definition ConditionMaintenanceInProgress := "MaintenanceInProgress".
Definition ConditionPVCResizeInProgress := "PVCResizeInProgress".

Definition FencingAnnotationKey := "redis.io/fencedInstances".
Definition AnnotationHibernation := "redis.io/hibernation".
Definition AnnotationApprovePrimaryUpdate := "redis.io/approve-primary-update".
Definition ClusterHandoverAnnotation := "redis.io/cluster-handover".

Definition LabelCluster := "redis.io/cluster".
Definition LabelInstance := "redis.io/instance".
Definition LabelRole := "redis.io/role".
Definition LabelShard := "redis.io/shard".
Definition LabelShardRole := "redis.io/shard-role".
Definition LabelRolePrimary := "primary".
Definition LabelRoleReplica := "replica".
Definition LabelRoleSentinel := "sentinel".
Definition LabelWorkload := "redis.io/workload".
Definition LabelWorkloadData := "data".
Definition LabelWorkloadSentinel := "sentinel".

Definition SentinelPort : Z := 26379.
Definition SentinelInstances : Z := 3.

(** ** Values of the Kubernetes libraries *)

(** A [resource.Quantity] is represented by what the code observes of it: the
    exact amount ([Cmp], [IsZero]; in units of 1e-9), the rounded byte count
    [Value()] and the canonical text [String()]. *)
Record Quantity := mkQuantity {
  q_amount : Z;
  q_Value : Z;
  q_String : string
}.
#[export] Instance Quantity_eq_dec : EqDecision Quantity.
Proof. solve_decision. Defined.

Definition q_Cmp (a b : Quantity) : comparison := q_amount a ?= q_amount b.
Definition q_IsZero (q : Quantity) : bool := bool_decide (q_amount q = 0).
Definition quantity_zero : Quantity := mkQuantity 0 0 "0".
(** [resource.MustParse("1Gi")]. *)
Definition quantity_1Gi : Quantity := mkQuantity (2 ^ 30 * 10 ^ 9) (2 ^ 30) "1Gi".

Definition ResourceMemory := "memory".
Definition ResourceCPU := "cpu".
Definition ResourceStorage := "storage".

Record Condition := mkCondition {
  c_Type : string;
  c_Status : ConditionStatus;
  c_LastTransitionTime : Z;
  c_Reason : string;
  c_Message : string
}.
#[export] Instance Condition_eq_dec : EqDecision Condition.
Proof. solve_decision. Defined.

(** ** RedisCluster: spec *)

Record StorageSpec := mkStorage {
  sto_Type : StorageType;
  sto_Size : Quantity;
  sto_StorageClassName : option string
}.

Definition IsEphemeral (s : StorageSpec) : bool :=
  bool_decide (sto_Type s = StorageTypeEmptyDir).

Record MemorySpec := mkMemory {
  mem_MaxMemory : option Quantity;
  mem_MaxMemoryPercent : option Z;
  mem_MaxMemoryPolicy : string
}.

Record NodeMaintenanceWindow := mkMaintenance {
  nmw_InProgress : bool;
  nmw_ReusePVC : option bool
}.

Record ReplicaSourceSpec := mkReplicaSource {
  rs_ClusterName : string;
  rs_Host : string;
  rs_Port : Z;
  rs_AuthSecretName : string
}.

Record ReplicaModeSpec := mkReplicaMode {
  rm_Enabled : bool;
  rm_Source : option ReplicaSourceSpec;
  rm_Promote : bool
}.

Record PrimaryIsolationSpec := mkIsolation {
  pi_Enabled : option bool;
  pi_APIServerTimeout : option Z;
  pi_PeerTimeout : option Z
}.

Record RedisClusterSpec := mkSpec {
  Spec_Instances : Z;
  Spec_Mode : ClusterMode;
  Spec_Shards : Z;
  Spec_ReplicasPerShard : Z;
  Spec_PrimaryUpdateStrategy : PrimaryUpdateStrategy;
  Spec_ImageName : string;
  Spec_Storage : StorageSpec;
  Spec_Redis : gmap string string;
  Spec_Limits : gmap string Quantity;
  Spec_Requests : option (gmap string Quantity);
  Spec_Memory : option MemorySpec;
  Spec_MinSyncReplicas : Z;
  Spec_MaxSyncReplicas : Z;
  Spec_EnablePodDisruptionBudget : option bool;
  Spec_AuthSecret : option string;
  Spec_ACLConfigSecret : option string;
  Spec_TLSSecret : option string;
  Spec_CASecret : option string;
  Spec_BackupCredentialsSecret : option string;
  Spec_PrimaryIsolation : option PrimaryIsolationSpec;
  Spec_Bootstrap : option string;
  Spec_NodeMaintenanceWindow : option NodeMaintenanceWindow;
  Spec_ReplicaMode : option ReplicaModeSpec;
  Spec_ConnectionSecret : option string
}.

(** ** RedisCluster: status *)

Record SlotRange := mkSlotRange { sr_Start : Z; sr_End : Z }.
#[export] Instance SlotRange_eq_dec : EqDecision SlotRange.
Proof. solve_decision. Defined.

Record InstanceStatus := mkInstanceStatus {
  is_Role : string;
  is_Connected : bool;
  is_ReplicationOffset : Z;
  is_ReplicaLagBytes : Z;
  is_ConnectedReplicas : Z;
  is_MasterLinkStatus : string;
  is_NodeID : string;
  is_PrimaryNodeID : string;
  is_SlotsServed : list SlotRange;
  is_ClusterState : string;
  is_CurrentEpoch : Z;
  is_LastSeenAt : option Z
}.
#[export] Instance InstanceStatus_eq_dec : EqDecision InstanceStatus.
Proof. solve_decision. Defined.

(** The Go zero value, read from a map for a missing key. *)
Definition InstanceStatus_zero : InstanceStatus :=
  mkInstanceStatus "" false 0 0 0 "" "" "" [] "" 0 None.

Record ShardStatus := mkShardStatus {
  ss_PrimaryPod : string;
  ss_ReplicaPods : list string;
  ss_SlotRanges : list SlotRange;
  ss_PrimaryNodeID : string;
  ss_Epoch : Z
}.
#[export] Instance ShardStatus_eq_dec : EqDecision ShardStatus.
Proof. solve_decision. Defined.
Definition ShardStatus_zero : ShardStatus := mkShardStatus "" [] [] "" 0.

Record RedisClusterStatus := mkStatus {
  Status_Phase : ClusterPhase;
  Status_CurrentPrimary : string;
  Status_ReadyInstances : Z;
  Status_SentinelReadyInstances : Z;
  Status_Instances : Z;
  Status_InstancesStatus : gmap string InstanceStatus;
  Status_ClusterState : string;
  Status_SlotsAssigned : Z;
  Status_BootstrapCompleted : bool;
  Status_Shards : gmap string ShardStatus;
  Status_HealthyPVC : Z;
  Status_DanglingPVC : list string;
  Status_SecretsResourceVersion : gmap string string;
  Status_Conditions : list Condition
}.
#[export] Instance RedisClusterStatus_eq_dec : EqDecision RedisClusterStatus.
Proof. solve_decision. Defined.

Record RedisCluster := mkCluster {
  Name : string;
  Namespace : string;
  UID : string;
  Annotations : gmap string string;
  Spec : RedisClusterSpec;
  Status : RedisClusterStatus
}.

(** Field assignment on the shared cluster object. *)
Definition set_Annotations (c : RedisCluster) (a : gmap string string) : RedisCluster :=
  mkCluster (Name c) (Namespace c) (UID c) a (Spec c) (Status c).
Definition set_Spec (c : RedisCluster) (s : RedisClusterSpec) : RedisCluster :=
  mkCluster (Name c) (Namespace c) (UID c) (Annotations c) s (Status c).
Definition set_Status (c : RedisCluster) (s : RedisClusterStatus) : RedisCluster :=
  mkCluster (Name c) (Namespace c) (UID c) (Annotations c) (Spec c) s.

Definition set_CurrentPrimary (c : RedisCluster) (p : string) : RedisCluster :=
  let s := Status c in
  set_Status c (mkStatus (Status_Phase s) p (Status_ReadyInstances s)
    (Status_SentinelReadyInstances s) (Status_Instances s) (Status_InstancesStatus s)
    (Status_ClusterState s) (Status_SlotsAssigned s) (Status_BootstrapCompleted s)
    (Status_Shards s) (Status_HealthyPVC s) (Status_DanglingPVC s)
    (Status_SecretsResourceVersion s) (Status_Conditions s)).

Definition set_Phase (c : RedisCluster) (p : ClusterPhase) : RedisCluster :=
  let s := Status c in
  set_Status c (mkStatus p (Status_CurrentPrimary s) (Status_ReadyInstances s)
    (Status_SentinelReadyInstances s) (Status_Instances s) (Status_InstancesStatus s)
    (Status_ClusterState s) (Status_SlotsAssigned s) (Status_BootstrapCompleted s)
    (Status_Shards s) (Status_HealthyPVC s) (Status_DanglingPVC s)
    (Status_SecretsResourceVersion s) (Status_Conditions s)).

Definition set_Conditions (c : RedisCluster) (conds : list Condition) : RedisCluster :=
  let s := Status c in
  set_Status c (mkStatus (Status_Phase s) (Status_CurrentPrimary s) (Status_ReadyInstances s)
    (Status_SentinelReadyInstances s) (Status_Instances s) (Status_InstancesStatus s)
    (Status_ClusterState s) (Status_SlotsAssigned s) (Status_BootstrapCompleted s)
    (Status_Shards s) (Status_HealthyPVC s) (Status_DanglingPVC s)
    (Status_SecretsResourceVersion s) conds).

(** [cluster.Annotations[key]]: the empty string when the key is missing. *)
Definition annotation (c : RedisCluster) (key : string) : string :=
  default "" (Annotations c !! key).

(** [statuses[name]]. *)
Definition status_of (statuses : gmap string InstanceStatus) (name : string) : InstanceStatus :=
  default InstanceStatus_zero (statuses !! name).

(** ** Methods of the spec *)

(** [shards * (1 + replicasPerShard)] in [int32] arithmetic, with [shards]
    clamped to at least 3 and [replicasPerShard] to at least 0. *)
Definition DesiredDataInstances (s : RedisClusterSpec) : Z :=
  if bool_decide (Spec_Mode s ≠ ClusterModeCluster) then Spec_Instances s
  else
    let shards := if bool_decide (Spec_Shards s < 3) then 3 else Spec_Shards s in
    let replicasPerShard :=
      if bool_decide (Spec_ReplicasPerShard s < 0) then 0 else Spec_ReplicasPerShard s in
    int32 (shards * int32 (1 + replicasPerShard)).

Definition MemoryLimitBytes (s : RedisClusterSpec) : Z :=
  match Spec_Limits s !! ResourceMemory with
  | Some q => q_Value q
  | None => 0
  end.

(** [None] is Go's [(0, false)].  Go's division truncates towards zero. *)
Definition ResolveMaxMemoryBytes (s : RedisClusterSpec) : option Z :=
  match Spec_Memory s with
  | None => None
  | Some mem =>
      match mem_MaxMemory mem with
      | Some q => let v := q_Value q in if bool_decide (0 < v) then Some v else None
      | None =>
          match mem_MaxMemoryPercent mem with
          | Some pct =>
              let limit := MemoryLimitBytes s in
              if bool_decide (pct ≤ 0) || bool_decide (limit ≤ 0) then None
              else
                let bytes := Z.quot (int64 (limit * pct)) 100 in
                if bool_decide (0 < bytes) then Some bytes else None
          | None => None
          end
      end
  end.

Definition EffectiveMaxMemoryPolicy (s : RedisClusterSpec) : string :=
  match Spec_Memory s with
  | None => ""
  | Some mem => mem_MaxMemoryPolicy mem
  end.

(** The owner and heir of a planned handover; [None] is Go's [("", "")]. *)
Definition ClusterHandoverPods (c : RedisCluster) : option (string * string) :=
  if bool_decide (Spec_Mode (Spec c) ≠ ClusterModeCluster) then None
  else
    match cut_char (annotation c ClusterHandoverAnnotation) "/"%char with
    | None => None
    | Some (owner, replica) =>
        if bool_decide (owner = "") || bool_decide (replica = "") ||
           bool_decide (owner = replica) || contains_char replica "/"%char
        then None else Some (owner, replica)
    end.

(** ** RedisBackup *)

(** The phase is an open string: the status schema does not restrict it to the
    declared constants, and a new backup has none. *)
Definition BackupPhase := string.
Definition BackupPhaseNone : BackupPhase := "".
Definition BackupPhasePending : BackupPhase := "Pending".
Definition BackupPhaseRunning : BackupPhase := "Running".
Definition BackupPhaseCompleted : BackupPhase := "Completed".
Definition BackupPhaseFailed : BackupPhase := "Failed".

Inductive BackupTarget := BackupTargetUnset | BackupTargetPrimary | BackupTargetPreferReplica.
#[export] Instance BackupTarget_eq_dec : EqDecision BackupTarget.
Proof. solve_decision. Defined.

(** The method and artifact type keep their text: it is sent to the instance
    manager and compared with the empty string. *)
Definition BackupMethodRDB := "rdb".
Definition BackupMethodAOF := "aof".
Definition BackupArtifactTypeRDB := "rdb".
Definition BackupArtifactTypeAOFArchive := "aof-archive".

Record S3Destination := mkS3 {
  s3_Bucket : string; s3_Path : string; s3_Endpoint : string; s3_Region : string
}.
Record AzureBlobDestination := mkAzure {
  az_Container : string; az_Path : string; az_AccountName : string; az_Endpoint : string
}.
Record BackupDestination := mkDestination {
  bd_S3 : option S3Destination;
  bd_Azure : option AzureBlobDestination
}.

Inductive DestinationError :=
| DestinationRequired | DestinationNone | DestinationBoth | BucketRequired | ContainerRequired.
#[export] Instance DestinationError_eq_dec : EqDecision DestinationError.
Proof. solve_decision. Defined.

(** [BackupDestination.Validate] on a possibly nil destination; [None] is a nil
    error. *)
Definition Destination_Validate (d : option BackupDestination) : option DestinationError :=
  match d with
  | None => Some DestinationRequired
  | Some d =>
      let configured := ((if bd_S3 d is Some _ then 1 else 0) + (if bd_Azure d is Some _ then 1 else 0))%nat in
      if bool_decide (configured = 0)%nat then Some DestinationNone
      else if bool_decide (1 < configured)%nat then Some DestinationBoth
      else if match bd_S3 d with Some s => bool_decide (s3_Bucket s = "") | None => false end
      then Some BucketRequired
      else if match bd_Azure d with Some a => bool_decide (az_Container a = "") | None => false end
      then Some ContainerRequired
      else None
  end.

Record ShardBackupArtifact := mkShardArtifact {
  sba_TargetPod : string;
  sba_BackupPath : string;
  sba_BackupSize : Z;
  sba_ArtifactType : string;
  sba_ChecksumSHA256 : string
}.

Record RedisBackupSpec := mkBackupSpec {
  bs_ClusterName : string;
  bs_Target : BackupTarget;
  bs_Method : string;
  bs_Destination : option BackupDestination
}.

Record RedisBackupStatus := mkBackupStatus {
  bst_Phase : BackupPhase;
  bst_TargetPod : string;
  bst_StartedAt : option Z;
  bst_CompletedAt : option Z;
  bst_BackupSize : Z;
  bst_BackupPath : string;
  bst_ArtifactType : string;
  bst_ShardArtifacts : gmap string ShardBackupArtifact;
  bst_Error : string
}.

Record RedisBackup := mkBackup {
  b_Name : string;
  b_Namespace : string;
  b_Labels : gmap string string;
  b_CreationTimestamp : Z;
  b_Spec : RedisBackupSpec;
  b_Status : RedisBackupStatus
}.

(** ** Kubernetes objects *)

Inductive VolumeSource :=
| VolPVC (claim : string)
| VolEmptyDir (sizeLimit : option Quantity)
| VolProjected (sources : list (string * list (string * string))).

Record Volume := mkVolume { vol_Name : string; vol_Source : VolumeSource }.

Record VolumeMount := mkMount { vm_Name : string; vm_MountPath : string; vm_ReadOnly : bool }.

(** A literal value, or a field of the pod. *)
Inductive EnvVar := EnvValue (name value : string) | EnvFieldRef (name fieldPath : string).

(** An HTTP probe; zero stands for a field left to its Kubernetes default. *)
Record Probe := mkProbe {
  pr_Path : string;
  pr_Port : Z;
  pr_InitialDelaySeconds : Z;
  pr_PeriodSeconds : Z;
  pr_FailureThreshold : Z;
  pr_TimeoutSeconds : Z
}.

Record SecurityContext := mkSecurityContext {
  sec_RunAsNonRoot : bool;
  sec_AllowPrivilegeEscalation : bool;
  sec_ReadOnlyRootFilesystem : bool;
  sec_DropCapabilities : list string
}.

Record PodSecurityContext := mkPodSecurityContext {
  psc_RunAsNonRoot : bool;
  psc_RunAsUser : Z;
  psc_RunAsGroup : Z;
  psc_FSGroup : Z;
  psc_SeccompProfile : string
}.

Record Container := mkContainer {
  ct_Name : string;
  ct_Image : string;
  ct_Command : list string;
  ct_Args : list string;
  ct_Ports : list (string * Z);
  ct_Env : list EnvVar;
  ct_Limits : gmap string Quantity;
  ct_Requests : option (gmap string Quantity);
  ct_SecurityContext : SecurityContext;
  ct_VolumeMounts : list VolumeMount;
  ct_LivenessProbe : option Probe;
  ct_ReadinessProbe : option Probe
}.

(** The part of the pod spec that is written and never read back. *)
Record PodTemplate := mkTemplate {
  pt_ServiceAccountName : string;
  pt_SecurityContext : PodSecurityContext;
  pt_InitContainers : list Container;
  pt_Containers : list Container
}.

Record Pod := mkPod {
  p_Name : string;
  p_Labels : gmap string string;
  p_Annotations : gmap string string;
  p_Controller : option string;
  p_Volumes : list Volume;
  p_Template : PodTemplate;
  p_Phase : string;
  p_PodIP : string;
  p_Conditions : list (string * ConditionStatus)
}.

Definition pod_label (p : Pod) (key : string) : string := default "" (p_Labels p !! key).

Record ServicePort := mkServicePort {
  sp_Name : string;
  sp_Port : Z;
  sp_TargetPort : Z;
  sp_Protocol : string
}.
#[export] Instance ServicePort_eq_dec : EqDecision ServicePort.
Proof. solve_decision. Defined.

Record Service := mkService {
  svc_Name : string;
  svc_Labels : gmap string string;
  svc_Annotations : gmap string string;
  svc_Selector : gmap string string;
  svc_Ports : list ServicePort;
  svc_ClusterIP : string
}.

Record PersistentVolumeClaim := mkPVC {
  pvc_Name : string;
  pvc_Labels : gmap string string;
  pvc_StorageClassName : option string;
  pvc_Request : Quantity;
  pvc_Conditions : list (string * ConditionStatus);
  pvc_Deleting : bool
}.

Record StorageClass := mkStorageClass {
  sc_Name : string;
  sc_AllowVolumeExpansion : option bool
}.

Record PodDisruptionBudget := mkPDB {
  pdb_Name : string;
  pdb_Labels : gmap string string;
  pdb_MinAvailable : option Z;
  pdb_Selector : gmap string string
}.

Record ConfigMap := mkConfigMap {
  cm_Name : string;
  cm_Labels : gmap string string;
  cm_Data : gmap string string
}.

Record ServiceAccount := mkServiceAccount {
  sa_Name : string;
  sa_Labels : gmap string string;
  sa_Controller : option string
}.

Record PolicyRule := mkRule {
  ru_APIGroups : list string;
  ru_Resources : list string;
  ru_Verbs : list string
}.
#[export] Instance PolicyRule_eq_dec : EqDecision PolicyRule.
Proof. solve_decision. Defined.

Record Role := mkRole {
  ro_Name : string;
  ro_Labels : gmap string string;
  ro_Controller : option string;
  ro_Rules : list PolicyRule
}.

(** A subject and a role reference are a kind, a name and a namespace or an
    API group. *)
Record RoleBinding := mkBinding {
  rb_Name : string;
  rb_Labels : gmap string string;
  rb_Controller : option string;
  rb_Subjects : list (string * string * string);
  rb_RoleRef : string * string * string
}.

Record Secret := mkSecret {
  sec_Name : string;
  sec_Labels : gmap string string;
  sec_Controller : option string;
  sec_ResourceVersion : string;
  sec_Type : string;
  sec_Data : gmap string string
}.

(** ** Names derived from the cluster name *)

Definition podNameForIndex (clusterName : string) (index : Z) : string :=
  clusterName +:+ "-" +:+ itoa index.
Definition sentinelPodNameForIndex (clusterName : string) (index : Z) : string :=
  clusterName +:+ "-sentinel-" +:+ itoa index.
Definition pvcNameForIndex (clusterName : string) (index : Z) : string :=
  clusterName +:+ "-data-" +:+ itoa index.
Definition leaderServiceName (clusterName : string) : string := clusterName +:+ "-leader".
Definition replicaServiceName (clusterName : string) : string := clusterName +:+ "-replica".
Definition anyServiceName (clusterName : string) : string := clusterName +:+ "-any".
Definition sentinelServiceName (clusterName : string) : string := clusterName +:+ "-sentinel".
Definition clusterHeadlessServiceName (clusterName : string) : string := clusterName +:+ "-cluster".

(** [podName[len(clusterName)+1:]] read by [Atoi] with its error dropped.
    [None] is the slice-bounds panic of a name that is too short. *)
Definition podIndex (clusterName podName : string) : option Z :=
  match slice_from podName (String.length clusterName + 1)%nat with
  | Some suffix => Some (fst (Atoi suffix))
  | None => None
  end.

Lemma podNameForIndex_inj c i j : podNameForIndex c i = podNameForIndex c j → i = j.
Proof.
  unfold podNameForIndex. intros H%append_inj_l%append_inj_l. by apply itoa_inj.
Qed.

(** The ordinal printed into a pod name is the ordinal read back. *)
Lemma podIndex_podNameForIndex c i :
  0 ≤ i < 2 ^ 63 → podIndex c (podNameForIndex c i) = Some i.
Proof.
  intros Hi. unfold podIndex, podNameForIndex.
  assert (slice_from (c +:+ "-" +:+ itoa i) (String.length c + 1) = Some (itoa i)) as ->.
  { induction c as [|a c IH]; simpl; [by destruct (itoa i)|exact IH]. }
  by rewrite Atoi_itoa.
Qed.

(** ** Conditions *)

(** Replace the condition of the same type, or append it. *)
Fixpoint setCondition (conditions : list Condition) (condition : Condition) : list Condition :=
  match conditions with
  | [] => [condition]
  | c :: rest =>
      if bool_decide (c_Type c = c_Type condition) then condition :: rest
      else c :: setCondition rest condition
  end.

Definition FindStatusCondition (conditions : list Condition) (type : string) : option Condition :=
  List.find (λ c, bool_decide (c_Type c = type)) conditions.

Definition condition_types (conditions : list Condition) : list string := c_Type <$> conditions.

Lemma condition_types_setCondition conds c :
  condition_types (setCondition conds c) =
    if bool_decide (c_Type c ∈ condition_types conds) then condition_types conds
    else condition_types conds ++ [c_Type c].
Proof.
  unfold condition_types. induction conds as [|d conds IH]; [done|]. cbn [setCondition].
  destruct (bool_decide_reflect (c_Type d = c_Type c)) as [Hd|Hd]; rewrite !fmap_cons.
  - rewrite Hd. by rewrite bool_decide_true by apply list_elem_of_here.
  - rewrite IH. repeat case_bool_decide; set_solver.
Qed.

Lemma setCondition_find conds c : FindStatusCondition (setCondition conds c) (c_Type c) = Some c.
Proof.
  unfold FindStatusCondition. induction conds as [|d conds IH]; simpl.
  - by rewrite bool_decide_true.
  - case_bool_decide; simpl; [by rewrite bool_decide_true|]. by rewrite bool_decide_false.
Qed.

Lemma setCondition_find_ne conds c t :
  t ≠ c_Type c → FindStatusCondition (setCondition conds c) t = FindStatusCondition conds t.
Proof.
  intros Ht. unfold FindStatusCondition. induction conds as [|d conds IH]; simpl.
  - by rewrite bool_decide_false.
  - case_bool_decide as Hd; simpl.
    + rewrite Hd. by rewrite bool_decide_false.
    + by case_bool_decide.
Qed.
