(* ===== verification/Slots.v ===== *)
(** * Hash-slot arithmetic of cluster mode

    [cluster_bootstrap.go]: the even division of the 16384 hash slots
    ([calculateClusterSlotRanges]), the slots some instance serves
    ([calculateSlotCoverage]) and the gaps of a range
    ([calculateUncoveredSlotRanges]).  The Go arrays [[16384]bool] and
    [[16384]string] are a [gset Z] of the true indices and a [gmap Z string] of
    the non-empty entries; every index is clamped into the array first.

    The theorems: the ranges of [n] primaries, read in order, list every slot
    exactly once and their sizes differ by at most one; coverage is exactly the
    set of served slots and does not depend on the order in which the statuses
    are visited; the gaps of a range list exactly its uncovered slots, in order,
    as maximal runs. *)
From S2P Require Import Prelude GoStr Api.

Definition slotCount : Z := 16384.

(** The slots of an inclusive range, in order. *)
Definition range_slots (r : SlotRange) : list Z :=
  zrange (sr_Start r) (Z.to_nat (sr_End r - sr_Start r + 1)).

Definition ranges_slots (rs : list SlotRange) : list Z := mjoin (range_slots <$> rs).

(** ** calculateClusterSlotRanges *)

Fixpoint slot_ranges_loop (n : nat) (i base remainder start : Z) : list SlotRange :=
  match n with
  | O => []
  | S n' =>
      let size := if bool_decide (i < remainder) then base + 1 else base in
      let end_ := start + size - 1 in
      mkSlotRange start end_ :: slot_ranges_loop n' (i + 1) base remainder (end_ + 1)
  end.

Definition calculateClusterSlotRanges (primaryCount : Z) : list SlotRange :=
  if bool_decide (primaryCount ≤ 0) then []
  else
    slot_ranges_loop (Z.to_nat primaryCount) 0
      (slotCount / primaryCount) (slotCount mod primaryCount) 0.

(** ** calculateSlotCoverage *)

(** [start < 0 => 0], [end > 16383 => 16383]. *)
Definition clamp_range (r : SlotRange) : SlotRange :=
  mkSlotRange (if bool_decide (sr_Start r < 0) then 0 else sr_Start r)
    (if bool_decide (slotCount - 1 < sr_End r) then slotCount - 1 else sr_End r).

(** [for slot := start; slot <= end; slot++ { coverage[slot] = true }]. *)
Definition cover_range (coverage : gset Z) (r : SlotRange) : gset Z :=
  foldl (λ cov slot, {[slot]} ∪ cov) coverage (range_slots r).

Definition cover_served (coverage : gset Z) (served : list SlotRange) : gset Z :=
  foldl (λ cov r, cover_range cov (clamp_range r)) coverage served.

(** [statuses] in the order the map is ranged over. *)
Definition calculateSlotCoverage (statuses : list (string * InstanceStatus)) : gset Z :=
  foldl (λ cov e, cover_served cov (is_SlotsServed e.2)) ∅ statuses.

(** ** calculateUncoveredSlotRanges *)

(** [for slot <= end && !coverage[slot] { slot++ }] *)
Fixpoint skip_uncovered (fuel : nat) (coverage : gset Z) (slot end_ : Z) : Z :=
  match fuel with
  | O => slot
  | S fuel' =>
      if bool_decide (slot ≤ end_) && negb (bool_decide (slot ∈ coverage))
      then skip_uncovered fuel' coverage (slot + 1) end_
      else slot
  end.

Fixpoint uncovered_loop (fuel : nat) (coverage : gset Z) (slot end_ : Z) : list SlotRange :=
  match fuel with
  | O => []
  | S fuel' =>
      if bool_decide (slot ≤ end_) then
        if bool_decide (slot ∈ coverage) then uncovered_loop fuel' coverage (slot + 1) end_
        else
          let next := skip_uncovered fuel coverage slot end_ in
          mkSlotRange slot (next - 1) :: uncovered_loop fuel' coverage next end_
      else []
  end.

(** Each iteration advances [slot], so [end - start + 2] rounds are enough. *)
Definition calculateUncoveredSlotRanges (target : SlotRange) (coverage : gset Z) : list SlotRange :=
  let r := clamp_range target in
  if bool_decide (sr_End r < sr_Start r) then []
  else uncovered_loop (Z.to_nat (sr_End r - sr_Start r + 2)) coverage (sr_Start r) (sr_End r).

(** ** rankOwnersByOverlap *)

Record ownerMatch := mkOwnerMatch { om_pod : string; om_shard : Z; om_overlap : Z }.

Definition slot_overlap (served : list SlotRange) (target : SlotRange) : Z :=
  foldl (λ overlap r,
    let start := Z.max (sr_Start r) (sr_Start target) in
    let end_ := Z.min (sr_End r) (sr_End target) in
    if bool_decide (start ≤ end_) then int32 (overlap + (end_ - start + 1)) else overlap)
    0 served.

Definition match_less (a b : ownerMatch) : bool :=
  if bool_decide (om_overlap a ≠ om_overlap b) then bool_decide (om_overlap b < om_overlap a)
  else bool_decide (om_shard a < om_shard b).

Definition owner_matches (statuses : gmap string InstanceStatus) (ranges : list SlotRange)
    (name : string) : list ownerMatch :=
  mjoin (imap (λ shard target,
    let overlap := slot_overlap (is_SlotsServed (status_of statuses name)) target in
    if bool_decide (0 < overlap) then [mkOwnerMatch name (Z.of_nat shard) overlap] else []) ranges).

Definition rankOwnersByOverlap (owners : list string) (statuses : gmap string InstanceStatus)
    (ranges : list SlotRange) : list ownerMatch :=
  sort_slice match_less (mjoin (owner_matches statuses ranges <$> owners)).

(** ** Ranges of n primaries *)

Lemma slot_ranges_loop_length n i b r s : length (slot_ranges_loop n i b r s) = n.
Proof. revert i s; induction n as [|n IH]; intros i s; simpl; [done|]. by rewrite IH. Qed.

(** Total size of the first [n] ranges counted from index [i]. *)
Definition loop_total (n : nat) (i base remainder : Z) : Z :=
  Z.of_nat n * base + Z.max 0 (Z.min (Z.of_nat n) (remainder - i)).

Lemma slot_ranges_loop_slots n i b r s :
  0 ≤ b → ranges_slots (slot_ranges_loop n i b r s) = zrange s (Z.to_nat (loop_total n i b r)).
Proof.
  intros Hb. revert i s; induction n as [|n IH]; intros i s.
  - by replace (Z.to_nat _) with 0%nat by (unfold loop_total; lia).
  - cbn [slot_ranges_loop]. unfold ranges_slots in *. rewrite fmap_cons. simpl. rewrite IH.
    unfold range_slots. simpl.
    set (size := if bool_decide (i < r) then b + 1 else b).
    replace (Z.to_nat (loop_total (S n) i b r))
      with (Z.to_nat (s + size - 1 - s + 1) + Z.to_nat (loop_total n (i + 1) b r))%nat.
    + rewrite zrange_app. do 2 f_equal. unfold size. case_bool_decide; lia.
    + unfold loop_total, size. case_bool_decide; lia.
Qed.

Lemma slot_ranges_loop_sizes n i b r s x :
  x ∈ slot_ranges_loop n i b r s → sr_End x - sr_Start x + 1 = b ∨ sr_End x - sr_Start x + 1 = b + 1.
Proof.
  revert i s; induction n as [|n IH]; intros i s; simpl; [set_solver|].
  rewrite elem_of_cons. intros [->|H]; [|by eapply IH]. simpl. case_bool_decide; lia.
Qed.

Lemma calculateClusterSlotRanges_length n : 0 < n → length (calculateClusterSlotRanges n) = Z.to_nat n.
Proof.
  intros Hn. unfold calculateClusterSlotRanges. rewrite bool_decide_false by lia.
  apply slot_ranges_loop_length.
Qed.

Lemma calculateClusterSlotRanges_slots n :
  0 < n → ranges_slots (calculateClusterSlotRanges n) = upto slotCount.
Proof.
  intros Hn. unfold calculateClusterSlotRanges. rewrite bool_decide_false by lia.
  pose proof (Z.mod_pos_bound slotCount n Hn) as Hr.
  rewrite slot_ranges_loop_slots by (apply Z.div_pos; unfold slotCount; lia).
  unfold upto. do 2 f_equal. unfold loop_total.
  rewrite Z2Nat.id by lia. pose proof (Z_div_mod_eq_full slotCount n). lia.
Qed.

(** ** Coverage *)

Lemma elem_of_range_slots r z : z ∈ range_slots r ↔ sr_Start r ≤ z ≤ sr_End r.
Proof. unfold range_slots. rewrite elem_of_zrange. lia. Qed.

Lemma elem_of_cover_range cov r z : z ∈ cover_range cov r ↔ z ∈ cov ∨ sr_Start r ≤ z ≤ sr_End r.
Proof.
  rewrite <- elem_of_range_slots. unfold cover_range.
  generalize (range_slots r); intros l. revert cov; induction l as [|x l IH]; intros cov; simpl.
  - set_solver.
  - rewrite IH. set_solver.
Qed.

(** [slot] lies in the array and in one of the served ranges. *)
Definition serves (served : list SlotRange) (slot : Z) : Prop :=
  0 ≤ slot < slotCount ∧ ∃ r, r ∈ served ∧ sr_Start r ≤ slot ≤ sr_End r.

Lemma clamp_range_spec r z :
  sr_Start (clamp_range r) ≤ z ≤ sr_End (clamp_range r) ↔
  0 ≤ z < slotCount ∧ sr_Start r ≤ z ≤ sr_End r.
Proof. unfold clamp_range, slotCount. simpl. repeat case_bool_decide; lia. Qed.

Lemma elem_of_cover_served cov served z :
  z ∈ cover_served cov served ↔ z ∈ cov ∨ serves served z.
Proof.
  unfold cover_served, serves. revert cov; induction served as [|r served IH]; intros cov; simpl.
  - set_solver.
  - rewrite IH, elem_of_cover_range, clamp_range_spec. setoid_rewrite elem_of_cons.
    split.
    + intros [[?|[? ?]]|[? (x & ? & ?)]]; [by left|right; eauto 6..].
    + intros [?|[? (x & [->|?] & ?)]]; [by left; left|by left; right|right; eauto].
Qed.

Lemma elem_of_calculateSlotCoverage_aux statuses cov z :
  z ∈ foldl (λ cov e, cover_served cov (is_SlotsServed e.2)) cov statuses ↔
  z ∈ cov ∨ ∃ e, e ∈ statuses ∧ serves (is_SlotsServed (snd (A := string) e)) z.
Proof.
  revert cov; induction statuses as [|e statuses IH]; intros cov; simpl.
  - set_solver.
  - rewrite IH, elem_of_cover_served. setoid_rewrite elem_of_cons. naive_solver.
Qed.

Lemma elem_of_calculateSlotCoverage statuses z :
  z ∈ calculateSlotCoverage statuses ↔
  ∃ name st, (name, st) ∈ statuses ∧ serves (is_SlotsServed st) z.
Proof.
  unfold calculateSlotCoverage. rewrite elem_of_calculateSlotCoverage_aux.
  split; [intros [?|([name st] & ? & ?)]; [set_solver|]; eauto|].
  intros (name & st & ? & ?). right. by exists (name, st).
Qed.

#[export] Instance calculateSlotCoverage_proper : Proper ((≡ₚ) ==> (=)) calculateSlotCoverage.
Proof.
  intros l1 l2 Hp. apply set_eq. intros z. rewrite !elem_of_calculateSlotCoverage.
  by setoid_rewrite Hp.
Qed.

(** ** Gaps *)

Lemma skip_uncovered_spec fuel cov slot e :
  slot ≤ skip_uncovered fuel cov slot e ∧
  (∀ z, slot ≤ z < skip_uncovered fuel cov slot e → z ∉ cov ∧ z ≤ e) ∧
  (e - slot + 1 ≤ Z.of_nat fuel → 
     e < skip_uncovered fuel cov slot e ∨ skip_uncovered fuel cov slot e ∈ cov).
Proof.
  revert slot; induction fuel as [|fuel IH]; intros slot; simpl.
  - split; [lia|split; [lia|left; lia]].
  - case_bool_decide; simpl; [case_bool_decide; simpl|].
    + split; [lia|split; [lia|by right]].
    + destruct (IH (slot + 1)) as (H1 & H2 & H3). split; [lia|split].
      * intros z Hz. destruct (decide (z = slot)) as [->|]; [done|]. apply H2. lia.
      * intros ?. apply H3. lia.
    + split; [lia|split; [lia|left; lia]].
Qed.

Lemma skip_uncovered_progress fuel cov slot e :
  slot ≤ e → slot ∉ cov → slot < skip_uncovered (S fuel) cov slot e.
Proof.
  intros He Hc. simpl. rewrite (bool_decide_true (slot ≤ e)), (bool_decide_false (slot ∈ cov)) by done.
  simpl. pose proof (skip_uncovered_spec fuel cov (slot + 1) e). lia.
Qed.

Definition gap_slots (cov : gset Z) (slot : Z) (n : nat) : list Z :=
  filter (λ z, z ∉ cov) (zrange slot n).

Lemma gap_slots_all cov slot n :
  (∀ z, slot ≤ z < slot + Z.of_nat n → z ∉ cov) → gap_slots cov slot n = zrange slot n.
Proof.
  revert slot; induction n as [|n IH]; intros slot Hall; [done|].
  unfold gap_slots in *. rewrite zrange_S, filter_cons_True by (apply Hall; lia).
  f_equal. apply IH. intros z Hz. apply Hall. lia.
Qed.

Lemma gap_slots_app cov slot n m :
  gap_slots cov slot (n + m) = gap_slots cov slot n ++ gap_slots cov (slot + Z.of_nat n) m.
Proof. unfold gap_slots. by rewrite zrange_app, filter_app. Qed.

Lemma uncovered_loop_slots fuel cov slot e :
  e - slot + 2 ≤ Z.of_nat fuel →
  ranges_slots (uncovered_loop fuel cov slot e) = gap_slots cov slot (Z.to_nat (e - slot + 1)).
Proof.
  revert slot; induction fuel as [|fuel IH]; intros slot Hf.
  { simpl. by replace (Z.to_nat (e - slot + 1)) with 0%nat by lia. }
  cbn [uncovered_loop]. case_bool_decide as Hle; [|by replace (Z.to_nat _) with 0%nat by lia].
  case_bool_decide as Hc.
  - rewrite IH by lia. replace (Z.to_nat (e - slot + 1)) with (S (Z.to_nat (e - (slot + 1) + 1))) by lia.
    unfold gap_slots. rewrite zrange_S. by rewrite filter_cons_False by tauto.
  - pose proof (skip_uncovered_progress fuel cov slot e Hle Hc) as Hp.
    destruct (skip_uncovered_spec (S fuel) cov slot e) as (_ & Hrun & _).
    set (next := skip_uncovered (S fuel) cov slot e) in *.
    assert (next ≤ e + 1) by (destruct (Hrun (next - 1)); lia).
    unfold ranges_slots in *. rewrite fmap_cons. simpl. rewrite IH by lia.
    replace (Z.to_nat (e - slot + 1)) with (Z.to_nat (next - slot) + Z.to_nat (e - next + 1))%nat by lia.
    rewrite gap_slots_app. f_equal; [|f_equal; lia].
    rewrite gap_slots_all by (intros z Hz; apply Hrun; lia).
    unfold range_slots. simpl. f_equal. lia.
Qed.

(** A maximal run of uncovered slots: what follows it is covered or past the
    end. *)
Definition maximal_run (cov : gset Z) (e : Z) (r : SlotRange) : Prop :=
  sr_Start r ≤ sr_End r ∧ (sr_End r = e ∨ sr_End r + 1 ∈ cov).

Lemma uncovered_loop_maximal fuel cov slot e r :
  e - slot + 2 ≤ Z.of_nat fuel → r ∈ uncovered_loop fuel cov slot e → maximal_run cov e r.
Proof.
  revert slot; induction fuel as [|fuel IH]; intros slot Hf; [set_solver|].
  cbn [uncovered_loop]. case_bool_decide as Hle; [|set_solver].
  case_bool_decide as Hc; [apply IH; lia|].
  pose proof (skip_uncovered_progress fuel cov slot e Hle Hc) as Hp.
  destruct (skip_uncovered_spec (S fuel) cov slot e) as (_ & Hrun & Hend).
  set (next := skip_uncovered (S fuel) cov slot e) in *.
  rewrite elem_of_cons. intros [->|Hr].
  - split; simpl; [lia|]. destruct Hend as [?|?]; [lia| |].
    + left. destruct (Hrun (next - 1)); lia.
    + right. by replace (next - 1 + 1) with next by lia.
  - eapply IH; [|done]. lia.
Qed.

(** ** Overlap *)

Lemma match_less_asym a b : match_less a b = true → match_less b a = false.
Proof. unfold match_less. repeat case_bool_decide; try done; lia. Qed.
