(* ===== verification/Layout.v ===== *)
(** * The shard layout ([cluster_layout.go])

    [planShardLayout] maps data pods to shards from the live topology: slot
    owners claim the range they serve most of, replicas follow the primary they
    replicate, unobservable pods keep their label, spare survivors fill the
    shards that have no primary.  A pod is doomed when its ordinal is at or
    above the desired count: it is drained by a scale-down.

    The Go function mutates one [shardLayout] through closures; here the layout
    and the set of used shards are passed explicitly.  The three [range]
    statements over maps whose order is observable take their order from an
    [oracle].  [podIndex] panics on a pod name shorter than the cluster name
    plus one character; the sort of the (at least three) names evaluates it on
    each of them, so the planner panics, [None], when any name is too short.

    Proved here: the planner keeps the layout well formed through all its
    phases ([layout_ok]). *)
From S2P Require Import Prelude GoStr Api Slots.
From Stdlib Require Import Ascii.

Record shardLayout := mkLayout {
  shardOf : gmap string Z;
  primaryOf : gmap Z string;
  ownerOf : gmap Z string;
  members : gmap Z (list string);
  replicaMoves : gmap string Z
}.

Definition layout_empty : shardLayout := mkLayout ∅ ∅ ∅ ∅ ∅.

(** Map reads of a missing key give the zero value. *)
Definition primary_of (l : shardLayout) (shard : Z) : string := default "" (primaryOf l !! shard).
Definition owner_of (l : shardLayout) (shard : Z) : string := default "" (ownerOf l !! shard).
Definition members_of (l : shardLayout) (shard : Z) : list string := default [] (members l !! shard).

Definition handingOver (l : shardLayout) (shard : Z) : bool :=
  match ownerOf l !! shard with
  | Some owner => bool_decide (owner ≠ primary_of l shard)
  | None => false
  end.

Definition isPrimary (l : shardLayout) (podName : string) : bool :=
  match shardOf l !! podName with
  | Some shard => bool_decide (primary_of l shard = podName)
  | None => false
  end.

Definition shardName (index : Z) : string := "s" +:+ itoa index.

(** [None] is the nil map. *)
Definition labels (l : shardLayout) (podName : string) : option (gmap string string) :=
  match shardOf l !! podName with
  | None => None
  | Some shard =>
      let role := if bool_decide (primary_of l shard = podName)
                  then LabelRolePrimary else LabelRoleReplica in
      Some {[ LabelShard := shardName shard; LabelShardRole := role ]}
  end.

Definition desiredShardCount (cluster : RedisCluster) : Z :=
  if bool_decide (Spec_Shards (Spec cluster) < 3) then 3 else Spec_Shards (Spec cluster).

Definition parseShardLabel (pod : Pod) : option Z :=
  match p_Labels pod !! LabelShard with
  | Some (String "s" rest) =>
      match Atoi rest with
      | (index, None) => if bool_decide (index < 0) then None else Some index
      | (_, Some _) => None
      end
  | _ => None
  end%char.

(** ** Planning state *)

Record planState := mkPlan { pl : shardLayout; used : gset Z }.

Definition done_ (st : planState) (name : string) : bool :=
  bool_decide (is_Some (shardOf (pl st) !! name)).

(** The closure [assign]. *)
Definition assign (st : planState) (name : string) (shard : Z) : planState :=
  let l := pl st in
  mkPlan
    (mkLayout (<[name := shard]> (shardOf l)) (primaryOf l) (ownerOf l)
       (<[shard := members_of l shard ++ [name]]> (members l)) (replicaMoves l))
    ({[shard]} ∪ used st).

Definition set_primary (st : planState) (shard : Z) (name : string) : planState :=
  let l := pl st in
  mkPlan (mkLayout (shardOf l) (<[shard := name]> (primaryOf l)) (ownerOf l) (members l) (replicaMoves l))
    (used st).

Definition set_owner (st : planState) (shard : Z) (name : string) : planState :=
  let l := pl st in
  mkPlan (mkLayout (shardOf l) (primaryOf l) (<[shard := name]> (ownerOf l)) (members l) (replicaMoves l))
    (used st).

(** [for shard := 0; ; shard++ { if !used[shard] { return shard } }]: among the
    first [size used + 1] shards one is unused ([lowestUnused_fresh]). *)
Definition lowestUnused (st : planState) : Z :=
  default 0 (List.find (λ s, negb (bool_decide (s ∈ used st))) (zrange 0 (S (size (used st))))).

Section plan.
Context (cluster : RedisCluster) (pods : list Pod) (statuses : gmap string InstanceStatus).
Context (ord : oracle).

Let shardCount := desiredShardCount cluster.
Let desired := DesiredDataInstances (Spec cluster).

Definition index_of (name : string) : Z := default 0 (podIndex (Name cluster) name).
Definition doomed (name : string) : bool := bool_decide (desired ≤ index_of name).

(** The expected names, then the names of unexpected pods. *)
Definition plan_names : list string :=
  let expected := podNameForIndex (Name cluster) <$> upto desired in
  foldl (λ names pod, if bool_decide (p_Name pod ∈ names) then names else names ++ [p_Name pod])
    expected pods.

Definition sorted_names : list string :=
  sort_slice (λ a b, bool_decide (index_of a < index_of b)) plan_names.

Definition labelOf (name : string) : option Z :=
  foldl (λ acc pod, if bool_decide (p_Name pod = name)
                    then match parseShardLabel pod with Some i => Some i | None => acc end
                    else acc) None pods.

Definition primaryLabel (name : string) : bool :=
  foldl (λ acc pod, if bool_decide (p_Name pod = name)
                    then bool_decide (pod_label pod LabelShardRole = LabelRolePrimary)
                    else acc) false pods.

Definition owners : list string :=
  filter (λ name, is_SlotsServed (status_of statuses name) ≠ []) sorted_names.

(** The closure [claim]. *)
Definition claim (st : planState) (name : string) (shard : Z) : planState :=
  let st := set_owner (assign st name shard) shard name in
  if doomed name then st else set_primary st shard name.

Definition claim_match (st : planState) (m : ownerMatch) : planState :=
  if done_ st (om_pod m) || bool_decide (om_shard m ∈ used st) then st
  else claim st (om_pod m) (om_shard m).

Definition claim_rest (st : planState) (name : string) : planState :=
  if done_ st name then st else claim st name (lowestUnused st).

Definition claim_owners : planState :=
  let st := mkPlan layout_empty ∅ in
  let st := foldl claim_match st
              (rankOwnersByOverlap owners statuses (calculateClusterSlotRanges shardCount)) in
  foldl claim_rest st owners.

(** A later entry of the iteration overwrites an earlier one. *)
Definition podByNodeID : gmap string string :=
  foldl (λ acc e, if bool_decide (is_NodeID e.2 = "") then acc else <[is_NodeID e.2 := e.1]> acc)
    ∅ (range_map (ord 0%nat) statuses).

Definition attach (acc : planState * list string) (name : string) : planState * list string :=
  let '(st, free) := acc in
  if done_ st name then (st, free)
  else
    let status := status_of statuses name in
    let polled := bool_decide (is_Some (statuses !! name)) in
    let followed :=
      if bool_decide (is_Role status = "slave") && negb (bool_decide (is_PrimaryNodeID status = ""))
      then shardOf (pl st) !! default "" (podByNodeID !! is_PrimaryNodeID status)
      else None in
    match followed with
    | Some shard =>
        let empty := bool_decide (primary_of (pl st) shard = "") in
        let st := assign st name shard in
        (if empty && negb (doomed name) then set_primary st shard name else st, free)
    | None =>
        let observable :=
          polled && is_Connected status &&
          (negb (bool_decide (is_Role status = "slave")) ||
           negb (bool_decide (is_PrimaryNodeID status = ""))) in
        match labelOf name with
        | Some shard =>
            if negb observable && bool_decide (shard < shardCount) then
              let empty := bool_decide (primary_of (pl st) shard = "") in
              let st := assign st name shard in
              (if primaryLabel name && empty && negb (doomed name)
               then set_primary st shard name else st, free)
            else (st, free ++ [name])
        | None => (st, free ++ [name])
        end
    end.

(** [for shard := 0; shard < shardCount && len(survivors) > 0; shard++] *)
Fixpoint fill_primaries (st : planState) (shards : list Z) (survivors : list string)
    : planState * list string :=
  match shards, survivors with
  | [], _ | _, [] => (st, survivors)
  | shard :: shards', name :: survivors' =>
      if bool_decide (primary_of (pl st) shard ≠ "") then fill_primaries st shards' survivors
      else fill_primaries (set_primary (assign st name shard) shard name) shards' survivors'
  end.

(** The first member that is neither the primary nor doomed. *)
Definition spare_member (l : shardLayout) (shard : Z) (names : list string) : option string :=
  List.find (λ name, negb (bool_decide (name = primary_of l shard)) && negb (doomed name)) names.

(** [""] when there is none. *)
Definition spareSurvivor (l : shardLayout) (picks : list nat) : string :=
  fst (foldl (λ best e,
         if bool_decide (Z.of_nat (length e.2) ≤ best.2) then best
         else match spare_member l e.1 e.2 with
              | Some name => (name, Z.of_nat (length e.2))
              | None => best
              end) ("", 1) (range_map picks (members l))).

Fixpoint remove_first (name : string) (names : list string) : list string :=
  match names with
  | [] => []
  | x :: names' => if bool_decide (x = name) then names' else x :: remove_first name names'
  end.

Definition move (st : planState) (name : string) (shard : Z) : planState :=
  let l := pl st in
  let from := default 0 (shardOf l !! name) in
  let members1 :=
    if bool_decide (name ∈ members_of l from)
    then <[from := remove_first name (members_of l from)]> (members l) else members l in
  let members2 := <[shard := default [] (members1 !! shard) ++ [name]]> members1 in
  mkPlan (mkLayout (<[name := shard]> (shardOf l)) (primaryOf l) (ownerOf l) members2 (replicaMoves l))
    (used st).

Fixpoint appoint_heirs (k : nat) (st : planState) (shards : list Z) : planState :=
  match shards with
  | [] => st
  | shard :: shards' =>
      if bool_decide (primary_of (pl st) shard ≠ "") || bool_decide (owner_of (pl st) shard = "")
      then appoint_heirs (S k) st shards'
      else
        let heir := spareSurvivor (pl st) (ord k) in
        if bool_decide (heir = "") then st
        else appoint_heirs (S k) (set_primary (move st heir shard) shard heir) shards'
  end.

(** The first of the least populated shards. *)
Definition smallest_shard (l : shardLayout) : Z :=
  foldl (λ target shard,
    if bool_decide (length (members_of l shard) < length (members_of l target))%nat
    then shard else target) 0 (zrange 1 (Z.to_nat (shardCount - 1))).

Definition place_free (st : planState) (name : string) : planState :=
  assign st name (smallest_shard (pl st)).

Definition sort_members (l : shardLayout) : shardLayout :=
  mkLayout (shardOf l) (primaryOf l) (ownerOf l)
    (sort_slice (λ a b, bool_decide (index_of a < index_of b)) <$> members l) (replicaMoves l).

(** ** planReplicaMoves *)

Definition surviving_replicas (l : shardLayout) (shard : Z) : Z :=
  Z.of_nat (length (filter (λ name, doomed name = false ∧ isPrimary l name = false)
                           (members_of l shard))).

Definition count_of (counts : gmap Z Z) (shard : Z) : Z := default 0 (counts !! shard).

Definition movable (l : shardLayout) (name : string) : bool :=
  let status := status_of statuses name in
  negb (doomed name || isPrimary l name || negb (is_Connected status) ||
        negb (bool_decide (is_Role status = "slave")) ||
        bool_decide (is_PrimaryNodeID status = "") ||
        negb (bool_decide (is_SlotsServed status = []))).

(** One round of the innermost loop; its condition is tested each time. *)
Definition move_step (l : shardLayout) (want target source : Z)
    (acc : gmap string Z * gmap Z Z) (name : string) : gmap string Z * gmap Z Z :=
  let '(moves, counts) := acc in
  if bool_decide (want < count_of counts source) && bool_decide (count_of counts target < want) then
    if bool_decide (is_Some (moves !! name)) then acc
    else if negb (movable l name) then acc
    else
      let counts := <[source := count_of counts source - 1]> counts in
      (<[name := target]> moves, <[target := count_of counts target + 1]> counts)
  else acc.

Definition planReplicaMoves (l : shardLayout) : shardLayout :=
  let shards := upto shardCount in
  if existsb (λ shard, bool_decide (primary_of l shard = "") || handingOver l shard) shards then l
  else
    let counts0 := list_to_map ((λ shard, (shard, surviving_replicas l shard)) <$> shards) in
    let want := Spec_ReplicasPerShard (Spec cluster) in
    let '(moves, _) :=
      foldl (λ acc target,
        foldl (λ acc source,
          if bool_decide (count_of acc.2 target < want)
          then foldl (move_step l want target source) acc (rev (members_of l source))
          else acc) acc shards) (replicaMoves l, counts0) shards in
    mkLayout (shardOf l) (primaryOf l) (ownerOf l) (members l) moves.

(** ** planShardLayout *)

Definition plan_state : planState :=
  let '(st, free) := foldl attach (claim_owners, []) sorted_names in
  let survivors := filter (λ name, doomed name = false) free in
  let '(st, survivors) := fill_primaries st (upto shardCount) survivors in
  let free := survivors ++ filter (λ name, doomed name = true) free in
  let st := appoint_heirs 1 st (upto shardCount) in
  foldl place_free st free.

Definition planShardLayout : option shardLayout :=
  if existsb (λ name, bool_decide (podIndex (Name cluster) name = None)) plan_names then None
  else Some (planReplicaMoves (sort_members (pl plan_state))).
End plan.
