(* ===== verification/LayoutFacts.v ===== *)
(** * Well-formedness of the shard layout

    [plan_ok] is the invariant of the planner: [shardOf] and [members] describe
    the same assignment, without duplicates; a planned primary is a member of
    its shard and survives the scale-down; the current slot owner of a shard is
    a member of it, and is its planned primary unless it is doomed.  Every phase
    of [planShardLayout] keeps it. *)
From S2P Require Import Prelude GoStr Api Slots Layout.

Section facts.
Context (cluster : RedisCluster).

Record plan_ok (st : planState) : Prop := {
  ok_members n s : shardOf (pl st) !! n = Some s ↔ n ∈ members_of (pl st) s;
  ok_nodup s : NoDup (members_of (pl st) s);
  ok_used n s : shardOf (pl st) !! n = Some s → s ∈ used st;
  ok_primary s p :
    primaryOf (pl st) !! s = Some p →
    p ≠ "" ∧ shardOf (pl st) !! p = Some s ∧ doomed cluster p = false;
  ok_owner s o :
    ownerOf (pl st) !! s = Some o →
    shardOf (pl st) !! o = Some s ∧ (doomed cluster o = false → primaryOf (pl st) !! s = Some o)
}.

Lemma plan_ok_empty : plan_ok (mkPlan layout_empty ∅).
Proof.
  split; simpl; intros *; unfold members_of, layout_empty; simpl;
    rewrite ?lookup_empty; simpl; try done.
  - split; [done|]. by intros ?%elem_of_nil.
  - constructor.
Qed.

Lemma members_of_insert l s s' ms :
  members_of (mkLayout (shardOf l) (primaryOf l) (ownerOf l) (<[s := ms]> (members l)) (replicaMoves l)) s'
  = if decide (s = s') then ms else members_of l s'.
Proof. unfold members_of. simpl. rewrite lookup_insert. by case_decide. Qed.

(** ** Primitive steps *)

Lemma assign_ok st name shard :
  plan_ok st → shardOf (pl st) !! name = None → plan_ok (assign st name shard).
Proof.
  intros [Hm Hn Hu Hp Ho] Hfresh.
  assert (∀ s, name ∉ members_of (pl st) s) as Hnot.
  { intros s Hin. apply Hm in Hin. congruence. }
  split; unfold assign, members_of; simpl.
  - intros n s. rewrite !lookup_insert. repeat case_decide; simplify_eq; simpl.
    + split; [|done]. intros _. apply elem_of_app. right. apply list_elem_of_here.
    + split; [congruence|]. intros Hin. by destruct (Hnot s).
    + rewrite Hm, elem_of_app, list_elem_of_singleton. unfold members_of. naive_solver.
    + apply Hm.
  - intros s. rewrite lookup_insert. case_decide; [|apply Hn]. subst. simpl.
    apply NoDup_app. split; [apply Hn|]. split; [|apply NoDup_singleton].
    intros x Hx ->%list_elem_of_singleton. by apply (Hnot s).
  - intros n s. rewrite lookup_insert. case_decide; [set_solver|].
    intros Hx%Hu. set_solver.
  - intros s p H%Hp. destruct H as (? & Hs & ?).
    rewrite lookup_insert_ne by congruence. done.
  - intros s o H%Ho. destruct H as (Hs & ?).
    rewrite lookup_insert_ne by congruence. done.
Qed.

Lemma set_primary_ok st s name :
  plan_ok st → primaryOf (pl st) !! s = None → name ≠ "" →
  shardOf (pl st) !! name = Some s → doomed cluster name = false →
  plan_ok (set_primary st s name).
Proof.
  intros [Hm Hn Hu Hp Ho] Hnone Hne Hs Hd. split; simpl; try done.
  - intros s' p. rewrite lookup_insert. case_decide; [|apply Hp]. by intros [= <-]; subst.
  - intros s' o H%Ho. destruct H as [? Hpr]. split; [done|]. intros Hdo.
    specialize (Hpr Hdo). rewrite lookup_insert_ne; congruence.
Qed.

Lemma set_owner_ok st s name :
  plan_ok st → shardOf (pl st) !! name = Some s →
  (doomed cluster name = false → primaryOf (pl st) !! s = Some name) →
  plan_ok (set_owner st s name).
Proof.
  intros [Hm Hn Hu Hp Ho] Hs Hpr. split; simpl; try done.
  intros s' o. rewrite lookup_insert. case_decide; [|apply Ho]. by intros [= <-]; subst.
Qed.

Lemma primary_unused st s : plan_ok st → s ∉ used st → primaryOf (pl st) !! s = None.
Proof.
  intros Hok Hu. destruct (primaryOf (pl st) !! s) eqn:E; [|done].
  apply (ok_primary _ Hok) in E as (_ & E & _). apply (ok_used _ Hok) in E. done.
Qed.

Lemma claim_ok st name shard :
  plan_ok st → name ≠ "" → shardOf (pl st) !! name = None → shard ∉ used st →
  plan_ok (claim cluster st name shard).
Proof.
  intros Hok Hne Hs Hu. pose proof (primary_unused _ _ Hok Hu) as Hp.
  unfold claim. destruct (doomed cluster name) eqn:Hd.
  - apply set_owner_ok; [by apply assign_ok| |congruence]. simpl. apply lookup_insert_eq.
  - change (plan_ok (set_owner (set_primary (assign st name shard) shard name) shard name)).
    apply set_owner_ok; [apply set_primary_ok; [by apply assign_ok|..]|..];
      simpl; rewrite ?lookup_insert_eq; done.
Qed.

Lemma elem_of_remove_first name x l : NoDup l → x ∈ remove_first name l ↔ x ∈ l ∧ x ≠ name.
Proof.
  induction 1 as [|y l Hy Hnd IH]; simpl; [set_solver|].
  case_bool_decide; subst; set_solver.
Qed.

Lemma remove_first_nodup name l : NoDup l → NoDup (remove_first name l).
Proof.
  induction 1 as [|y l Hy Hnd IH]; simpl; [constructor|].
  case_bool_decide; [done|]. constructor; [|done].
  rewrite elem_of_remove_first by done. tauto.
Qed.

(** [move] of an assigned name, when the target shard is already in use. *)
Lemma move_ok st name from shard :
  plan_ok st → shardOf (pl st) !! name = Some from → shard ∈ used st →
  name ≠ primary_of (pl st) from → doomed cluster name = false →
  plan_ok (move st name shard).
Proof.
  intros Hok Hfrom Hused Hnp Hd. pose proof Hok as [Hm Hn Hu Hp Ho].
  assert (∀ s, primaryOf (pl st) !! s ≠ Some name) as Hnever.
  { intros s Hs. destruct (Hp _ _ Hs) as (_ & Hs' & _). rewrite Hfrom in Hs'. simplify_eq.
    apply Hnp. unfold primary_of. by rewrite Hs. }
  assert (∀ s, name ∈ members_of (pl st) s ↔ s = from) as Hwhere.
  { intros s. rewrite <- Hm, Hfrom. naive_solver. }
  unfold move. rewrite Hfrom. simpl. rewrite (bool_decide_true (name ∈ _)) by by apply Hwhere.
  set (ms1 := <[from := remove_first name (members_of (pl st) from)]> (members (pl st))).
  assert (∀ s n, n ∈ default [] (ms1 !! s) ↔ n ∈ members_of (pl st) s ∧ n ≠ name) as Hms1.
  { intros s n. unfold ms1. rewrite lookup_insert. case_decide; subst; simpl.
    - by apply elem_of_remove_first.
    - fold (members_of (pl st) s). split; [|tauto]. intros Hin. split; [done|].
      intros ->. apply Hwhere in Hin. done. }
  assert (∀ s, NoDup (default [] (ms1 !! s))) as Hnd1.
  { intros s. unfold ms1. rewrite lookup_insert. case_decide; simpl; [|apply Hn].
    by apply remove_first_nodup. }
  split; unfold members_of; simpl.
  - intros n s. rewrite !lookup_insert. repeat case_decide; simplify_eq; simpl.
    + split; [|done]. intros _. apply elem_of_app. right. apply list_elem_of_here.
    + split; [congruence|]. rewrite Hms1. tauto.
    + rewrite elem_of_app, Hms1, list_elem_of_singleton, Hm. naive_solver.
    + rewrite Hms1, Hm. naive_solver.
  - intros s. rewrite lookup_insert. case_decide; [|apply Hnd1]. simpl.
    apply NoDup_app. split; [apply Hnd1|]. split; [|apply NoDup_singleton].
    intros x Hx ->%list_elem_of_singleton. apply Hms1 in Hx. tauto.
  - intros n s. rewrite lookup_insert. case_decide; [congruence|]. apply Hu.
  - intros s p H. pose proof (Hp _ _ H) as (? & ? & ?).
    assert (p ≠ name) by (intros ->; by apply (Hnever s)).
    by rewrite lookup_insert_ne by congruence.
  - intros s o H. pose proof (Ho _ _ H) as (? & Hpr).
    assert (o ≠ name) by (intros ->; apply (Hnever s); by apply Hpr).
    by rewrite lookup_insert_ne by congruence.
Qed.

(** ** Claims *)

Lemma lowestUnused_fresh st : lowestUnused st ∉ used st.
Proof.
  unfold lowestUnused.
  destruct (List.find _ _) as [s|] eqn:E; simpl.
  - apply List.find_some in E as [_ E]. by bsimpl.
  - exfalso. assert (list_to_set (zrange 0 (S (size (used st)))) ⊆ used st) as Hsub.
    { intros s Hs%elem_of_list_to_set%list_elem_of_In.
      apply (List.find_none _ _ E) in Hs. by bsimpl. }
    apply subseteq_size in Hsub. rewrite size_list_to_set in Hsub.
    + rewrite length_zrange in Hsub. lia.
    + unfold zrange. apply NoDup_fmap_2; [|apply NoDup_seq]. intros x y ?. lia.
Qed.

(** During the claims, exactly the owners are assigned. *)
Definition claims_ok (st : planState) : Prop :=
  plan_ok st ∧ ∀ n s, shardOf (pl st) !! n = Some s → ownerOf (pl st) !! s = Some n.

Lemma ownerOf_claim st name shard :
  ownerOf (pl (claim cluster st name shard)) = <[shard := name]> (ownerOf (pl st)).
Proof. unfold claim. by destruct (doomed cluster name). Qed.

Lemma shardOf_claim st name shard :
  shardOf (pl (claim cluster st name shard)) = <[name := shard]> (shardOf (pl st)).
Proof. unfold claim. by destruct (doomed cluster name). Qed.

Lemma claims_ok_claim st name shard :
  claims_ok st → name ≠ "" → shardOf (pl st) !! name = None → shard ∉ used st →
  claims_ok (claim cluster st name shard).
Proof.
  intros [Hok Howned] Hne Hs Hu. split; [by apply claim_ok|].
  intros n s. rewrite ownerOf_claim, shardOf_claim, !lookup_insert.
  repeat case_decide; intros Hn; simplify_eq; try done; [|by apply Howned].
  by apply (ok_used _ Hok) in Hn.
Qed.

Lemma done_false st name : done_ st name = false → shardOf (pl st) !! name = None.
Proof. unfold done_. intros H%bool_decide_eq_false. by apply eq_None_not_Some. Qed.

Lemma elem_of_owner_matches statuses ranges name m :
  m ∈ owner_matches statuses ranges name → om_pod m = name.
Proof.
  unfold owner_matches. rewrite list_elem_of_join. intros (ms & Hm & Hin).
  rewrite elem_of_lookup_imap in Hin. destruct Hin as (i & x & -> & _).
  case_bool_decide; [|by apply elem_of_nil in Hm]. by apply list_elem_of_singleton in Hm as ->.
Qed.

Lemma rankOwners_pod os statuses ranges m :
  m ∈ rankOwnersByOverlap os statuses ranges → om_pod m ∈ os.
Proof.
  unfold rankOwnersByOverlap. rewrite elem_of_sort_slice, list_elem_of_join.
  intros (ms & Hm & Hin). apply list_elem_of_fmap in Hin as (name & -> & Hname).
  by apply elem_of_owner_matches in Hm as ->.
Qed.
End facts.

(** ** Phases of the planner *)
Section phases.
Context (cluster : RedisCluster) (pods : list Pod) (statuses : gmap string InstanceStatus).
Context (ord : oracle).

Abbreviation names := (plan_names cluster pods).
Abbreviation sorted := (sorted_names cluster pods).
Abbreviation plan_ok := (plan_ok cluster).

Lemma plan_names_nodup : NoDup names.
Proof.
  unfold plan_names. apply (foldl_inv (λ ns, NoDup ns)).
  - apply NoDup_fmap_2; [intros i j; apply podNameForIndex_inj|].
    unfold upto, zrange. apply NoDup_fmap_2; [intros x y ?; lia|apply NoDup_seq].
  - intros ns pod _ Hnd. case_bool_decide; [done|]. apply NoDup_app.
    split; [done|split; [|apply NoDup_singleton]]. intros x Hx ->%list_elem_of_singleton. done.
Qed.

Lemma elem_of_plan_names n :
  n ∈ names ↔
  (∃ i, 0 ≤ i < DesiredDataInstances (Spec cluster) ∧ n = podNameForIndex (Name cluster) i) ∨
  (∃ pod, pod ∈ pods ∧ n = p_Name pod).
Proof.
  assert (∀ ps acc, n ∈ foldl (λ names pod, if bool_decide (p_Name pod ∈ names) then names
                                            else names ++ [p_Name pod]) acc ps
                    ↔ n ∈ acc ∨ ∃ pod, pod ∈ ps ∧ n = p_Name pod) as Hfold.
  { induction ps as [|p ps IH]; intros acc; simpl; [set_solver|].
    rewrite IH. case_bool_decide; set_solver. }
  unfold plan_names. rewrite Hfold, list_elem_of_fmap. setoid_rewrite elem_of_upto. naive_solver.
Qed.

Lemma elem_of_sorted n : n ∈ sorted ↔ n ∈ names.
Proof. unfold sorted_names. apply elem_of_sort_slice. Qed.

Lemma sorted_nodup : NoDup sorted.
Proof. unfold sorted_names. rewrite sort_slice_perm. apply plan_names_nodup. Qed.

Hypothesis names_nonempty : ∀ n, n ∈ names → n ≠ "".

Lemma owners_nonempty n : n ∈ owners cluster pods statuses → n ≠ "" ∧ n ∈ sorted.
Proof.
  unfold owners. rewrite list_elem_of_filter. intros [_ Hn]. split; [|done].
  apply names_nonempty. by apply elem_of_sorted.
Qed.

Lemma claim_rest_fold_done os st n :
  n ∈ os ∨ is_Some (shardOf (pl st) !! n) →
  is_Some (shardOf (pl (foldl (claim_rest cluster) st os)) !! n).
Proof.
  revert st; induction os as [|o os IH]; intros st Hn; simpl; [set_solver|].
  apply IH. destruct (decide (n ∈ os)) as [|Hno]; [by left|right].
  unfold claim_rest. destruct (done_ st o) eqn:Hd.
  - destruct Hn as [Hn|]; [|done]. apply elem_of_cons in Hn as [->|]; [|done].
    by unfold done_ in Hd; bsimpl.
  - rewrite shardOf_claim, lookup_insert. case_decide as Ho; [by eexists|].
    destruct Hn as [Hn|]; [set_solver|done].
Qed.

Lemma claim_owners_ok :
  claims_ok cluster (claim_owners cluster pods statuses) ∧
  ∀ n, n ∈ owners cluster pods statuses →
    is_Some (shardOf (pl (claim_owners cluster pods statuses)) !! n).
Proof.
  unfold claim_owners. split; [|intros n Hn; apply claim_rest_fold_done; by left].
  apply foldl_inv; [apply foldl_inv|].
  - split; [apply plan_ok_empty|]. simpl. intros n s. by rewrite lookup_empty.
  - intros st m Hm Hst. apply rankOwners_pod, owners_nonempty in Hm as [? _].
    unfold claim_match. destruct (done_ st (om_pod m)) eqn:Hd; simpl; [done|].
    case_bool_decide; [done|]. apply claims_ok_claim; try done. by apply done_false.
  - intros st n Hn Hst. apply owners_nonempty in Hn as [? _]. unfold claim_rest.
    destruct (done_ st n) eqn:Hd; [done|].
    apply claims_ok_claim; try done; [by apply done_false|apply lowestUnused_fresh].
Qed.

(** What the attach loop keeps: [free] collects unassigned names that are not
    still to come. *)
Record attach_inv (todo : list string) (acc : planState * list string) : Prop := {
  at_ok : plan_ok acc.1;
  at_owner : ownerOf (pl acc.1) = ownerOf (pl (claim_owners cluster pods statuses));
  at_free n : n ∈ acc.2 → shardOf (pl acc.1) !! n = None ∧ n ≠ "" ∧ n ∉ todo;
  at_nodup : NoDup acc.2;
  at_all n : n ∈ sorted → n ∈ todo ∨ is_Some (shardOf (pl acc.1) !! n) ∨ n ∈ acc.2
}.

Lemma primary_of_empty st s : plan_ok st → primary_of (pl st) s = "" → primaryOf (pl st) !! s = None.
Proof.
  intros Hok Hp. unfold primary_of in Hp. destruct (primaryOf (pl st) !! s) eqn:E; [|done].
  apply (ok_primary _ _ Hok) in E as [? _]. done.
Qed.

(** Assign, then make primary when the shard had none. *)
Lemma assign_primary_ok st name s (b : bool) :
  plan_ok st → shardOf (pl st) !! name = None → name ≠ "" →
  (b = true → primary_of (pl st) s = "" ∧ doomed cluster name = false) →
  plan_ok (if b then set_primary (assign st name s) s name else assign st name s).
Proof.
  intros Hok Hs Hne Hb. pose proof (assign_ok _ _ name s Hok Hs) as Ha.
  destruct b; [|done]. destruct Hb as [Hp Hd]; [done|].
  apply set_primary_ok; try done; simpl; [by apply primary_of_empty|apply lookup_insert_eq].
Qed.

Lemma attach_inv_assign todo st free name s (b : bool) :
  attach_inv (name :: todo) (st, free) → name ∈ sorted → shardOf (pl st) !! name = None →
  (b = true → primary_of (pl st) s = "" ∧ doomed cluster name = false) →
  attach_inv todo (if b then set_primary (assign st name s) s name else assign st name s, free).
Proof.
  intros [Hok Hown Hfree Hnd Hall] Hin Hs Hb. simpl in *.
  assert (name ≠ "") as Hne by (apply names_nonempty; by apply elem_of_sorted).
  assert (shardOf (pl (if b then set_primary (assign st name s) s name else assign st name s))
          = <[name := s]> (shardOf (pl st))) as Heq by by destruct b.
  split; simpl; [by apply assign_primary_ok|by destruct b| |done|].
  - intros n Hn. destruct (Hfree _ Hn) as (? & ? & ?). rewrite Heq, lookup_insert_ne; set_solver.
  - intros n Hn. rewrite Heq. destruct (Hall _ Hn) as [Ht|[Hd|Hf]]; [|right; left|by right; right].
    + apply elem_of_cons in Ht as [->|Ht]; [|by left].
      right; left. rewrite lookup_insert_eq. by eexists.
    + rewrite lookup_insert. case_decide; [by eexists|done].
Qed.

Lemma attach_inv_free todo st free name :
  attach_inv (name :: todo) (st, free) → name ∈ sorted → name ∉ todo →
  shardOf (pl st) !! name = None → attach_inv todo (st, free ++ [name]).
Proof.
  intros [Hok Hown Hfree Hnd Hall] Hin Hnt Hs. simpl in *.
  assert (name ∉ free) as Hnf by (intros Hn; destruct (Hfree _ Hn) as (_&_&?); set_solver).
  split; simpl; try done.
  - intros n [Hn| ->%list_elem_of_singleton]%elem_of_app.
    + destruct (Hfree _ Hn) as (?&?&?). set_solver.
    + split; [done|split; [|done]]. apply names_nonempty. by apply elem_of_sorted.
  - apply NoDup_app. split; [done|split; [|apply NoDup_singleton]]. set_solver.
  - intros n Hn. destruct (Hall _ Hn) as [Ht|[Hd|Hf]]; set_solver.
Qed.

Lemma attach_step todo acc name :
  attach_inv (name :: todo) acc → name ∈ sorted → name ∉ todo →
  attach_inv todo (attach cluster pods statuses ord acc name).
Proof.
  intros Hinv Hin Hnt. destruct acc as [st free]. unfold attach.
  destruct (done_ st name) eqn:Hd.
  { destruct Hinv as [Hok Hown Hfree Hnd Hall]. simpl in *. split; simpl; try done.
    - intros n Hn. destruct (Hfree _ Hn) as (?&?&?). set_solver.
    - intros n Hn. destruct (Hall _ Hn) as [Ht|[?|?]]; [|by right; left|by right; right].
      apply elem_of_cons in Ht as [->|]; [|by left]. right; left.
      unfold done_ in Hd. by bsimpl. }
  apply done_false in Hd.
  destruct (if _ && _ then _ else _) as [shard|].
  { apply attach_inv_assign; try done. intros Hb. by bsimpl. }
  destruct (labelOf pods name) as [shard|]; [|by apply attach_inv_free].
  destruct (negb _ && _); [|by apply attach_inv_free].
  apply attach_inv_assign; try done. intros Hb. by bsimpl.
Qed.

Lemma attach_fold todo acc :
  attach_inv todo acc → NoDup todo → (∀ n, n ∈ todo → n ∈ sorted) →
  attach_inv [] (foldl (attach cluster pods statuses ord) acc todo).
Proof.
  revert acc; induction todo as [|n todo IH]; intros acc Hinv Hnd Hsub; simpl; [done|].
  apply NoDup_cons in Hnd as [Hn Hnd]. apply IH; [|done|set_solver].
  apply attach_step; [done|set_solver|done].
Qed.

Lemma attach_all :
  attach_inv [] (foldl (attach cluster pods statuses ord) (claim_owners cluster pods statuses, []) sorted).
Proof.
  apply attach_fold; [|apply sorted_nodup|done].
  destruct claim_owners_ok as [[Hok _] _].
  split; simpl; [done|done|set_solver|constructor|by left].
Qed.

(** ** Filling shards *)

Lemma fill_primaries_ok shards st survivors st' rest :
  plan_ok st → NoDup survivors →
  (∀ n, n ∈ survivors → shardOf (pl st) !! n = None ∧ n ≠ "" ∧ doomed cluster n = false) →
  fill_primaries st shards survivors = (st', rest) →
  plan_ok st' ∧ ownerOf (pl st') = ownerOf (pl st) ∧ NoDup rest ∧
  (∀ n, n ∈ rest → n ∈ survivors ∧ shardOf (pl st') !! n = None) ∧
  (∀ n, n ∉ survivors → shardOf (pl st') !! n = shardOf (pl st) !! n) ∧
  (∀ n, n ∈ survivors → n ∈ rest ∨ is_Some (shardOf (pl st') !! n)).
Proof.
  revert st survivors; induction shards as [|s shards IH]; intros st survivors Hok Hnd Hsv Hf.
  { simpl in Hf. simplify_eq. split_and!; try done; [set_solver|by left]. }
  destruct survivors as [|name survivors]; simpl in Hf.
  { simplify_eq. split_and!; try done; set_solver. }
  case_bool_decide as Hp; [by eapply IH|].
  apply NoDup_cons in Hnd as [Hn Hnd]. destruct (Hsv name) as (Hs & Hne & Hd); [set_solver|].
 
  apply IH in Hf as (Hok' & Hown & Hndr & Hrest & Hother & Hall); [..|done|].
  - split_and!; try done.
    + intros n Hnr. destruct (Hrest _ Hnr). set_solver.
    + intros n Hns. rewrite Hother by set_solver. simpl. rewrite lookup_insert_ne; set_solver.
    + intros n [->|Hns]%elem_of_cons; [|by apply Hall].
      right. rewrite Hother by done. simpl. rewrite lookup_insert_eq. by eexists.
  - by apply (assign_primary_ok st name s true).
  - intros n Hns. simpl. rewrite lookup_insert_ne by set_solver. apply Hsv. set_solver.
Qed.

Lemma spareSurvivor_spec l picks heir :
  spareSurvivor cluster l picks = heir → heir ≠ "" →
  ∃ s, heir ∈ members_of l s ∧ heir ≠ primary_of l s ∧ doomed cluster heir = false.
Proof.
  intros <-. unfold spareSurvivor.
  apply (foldl_inv (λ best, best.1 ≠ "" →
    ∃ s, best.1 ∈ members_of l s ∧ best.1 ≠ primary_of l s ∧ doomed cluster best.1 = false)); [done|].
  intros best [s ms] Hin Hbest. simpl. case_bool_decide; [done|].
  unfold spare_member. destruct (List.find _ ms) as [name|] eqn:E; [|done]. intros _. simpl.
  apply List.find_some in E as [Hname E]. bsimpl. exists s.
  apply elem_of_range_map in Hin. unfold members_of. rewrite Hin. simpl.
  by rewrite list_elem_of_In.
Qed.

Lemma appoint_heirs_ok k st shards :
  plan_ok st →
  plan_ok (appoint_heirs cluster ord k st shards) ∧
  ownerOf (pl (appoint_heirs cluster ord k st shards)) = ownerOf (pl st) ∧
  (∀ n, is_Some (shardOf (pl (appoint_heirs cluster ord k st shards)) !! n) ↔
        is_Some (shardOf (pl st) !! n)).
Proof.
  revert k st; induction shards as [|s shards IH]; intros k st Hok; simpl; [done|].
  case_bool_decide as Hp; simpl; [by apply IH|]. case_bool_decide as Ho; [by apply IH|].
  case_bool_decide as Hh; [done|].
  set (heir := spareSurvivor cluster (pl st) (ord k)) in *.
  destruct (spareSurvivor_spec (pl st) (ord k) heir eq_refl Hh) as (from & Hm & Hnp & Hd).
  apply (ok_members _ _ Hok) in Hm.
  assert (s ∈ used st) as Hused.
  { unfold owner_of in Ho. destruct (ownerOf (pl st) !! s) as [o|] eqn:Eo; [|done].
    apply (ok_owner _ _ Hok) in Eo as [Eo _]. by apply (ok_used _ _ Hok) in Eo. }
  pose proof (move_ok _ _ _ _ s Hok Hm Hused Hnp Hd) as Hmove.
  destruct (IH (S k) (set_primary (move st heir s) s heir)) as (H1 & H2 & H3).
  { apply set_primary_ok; try done; simpl; [by apply primary_of_empty|apply lookup_insert_eq]. }
  split_and!; try done. intros n. rewrite H3. simpl. rewrite lookup_insert.
  case_decide; [subst; rewrite Hm; split; by eexists|done].
Qed.

Lemma place_free_ok free st :
  plan_ok st → NoDup free → (∀ n, n ∈ free → shardOf (pl st) !! n = None) →
  plan_ok (foldl (place_free cluster) st free) ∧
  ownerOf (pl (foldl (place_free cluster) st free)) = ownerOf (pl st) ∧
  (∀ n, n ∈ free ∨ is_Some (shardOf (pl st) !! n) →
        is_Some (shardOf (pl (foldl (place_free cluster) st free)) !! n)).
Proof.
  revert st; induction free as [|n free IH]; intros st Hok Hnd Hfree; simpl; [set_solver|].
  apply NoDup_cons in Hnd as [Hn Hnd].
  destruct (IH (place_free cluster st n)) as (H1 & H2 & H3).
  - apply assign_ok; [done|]. apply Hfree. set_solver.
  - done.
  - intros m Hm. unfold place_free, assign. simpl. rewrite lookup_insert_ne by set_solver.
    apply Hfree. set_solver.
  - split_and!; try done. intros m Hm. apply H3.
    destruct (decide (m = n)) as [->|Hne].
    + right. unfold place_free, assign. simpl. rewrite lookup_insert_eq. by eexists.
    + destruct Hm as [Hm|Hm]; [left; set_solver|right].
      unfold place_free, assign. simpl. by rewrite lookup_insert_ne.
Qed.

Lemma plan_state_ok :
  plan_ok (plan_state cluster pods statuses ord) ∧
  ownerOf (pl (plan_state cluster pods statuses ord)) = ownerOf (pl (claim_owners cluster pods statuses)) ∧
  (∀ n, n ∈ names → is_Some (shardOf (pl (plan_state cluster pods statuses ord)) !! n)).
Proof.
  unfold plan_state. pose proof attach_all as Hat.
  destruct (foldl _ _ sorted) as [st free]. destruct Hat as [Hok Hown Hfree Hnd Hall]. simpl in *.
  destruct (fill_primaries st _ _) as [st1 rest] eqn:Hf.
  apply fill_primaries_ok in Hf as (Hok1 & Hown1 & Hnd1 & Hrest1 & Hother1 & Hall1); [|done|..].
  2: by apply NoDup_filter.
  2: { intros n [Hd Hn]%list_elem_of_filter. destruct (Hfree _ Hn) as (?&?&?). done. }
  destruct (appoint_heirs_ok 1 st1 (upto (desiredShardCount cluster)) Hok1) as (Hok2 & Hown2 & Hdom2).
  assert (∀ n, n ∈ rest ++ filter (λ name, doomed cluster name = true) free →
               shardOf (pl st1) !! n = None) as Hun.
  { intros n [Hn|[Hd Hn]%list_elem_of_filter]%elem_of_app.
    - by destruct (Hrest1 _ Hn).
    - rewrite Hother1; [by destruct (Hfree _ Hn)|].
      intros [? _]%list_elem_of_filter. congruence. }
  destruct (place_free_ok (rest ++ filter (λ name, doomed cluster name = true) free)
              (appoint_heirs cluster ord 1 st1 (upto (desiredShardCount cluster)))) as (Hok3 & Hown3 & Hdom3).
  - done.
  - apply NoDup_app. split; [done|split; [|by apply NoDup_filter]].
    intros n Hn [Hd _]%list_elem_of_filter. apply Hrest1 in Hn as [[? _]%list_elem_of_filter _]. congruence.
  - intros n Hn. apply eq_None_not_Some. rewrite Hdom2, <- eq_None_not_Some. by apply Hun.
  - split; [done|split; [congruence|]]. intros n Hn%elem_of_sorted. apply Hdom3.
    rewrite Hdom2, elem_of_app, !list_elem_of_filter.
    destruct (Hall _ Hn) as [?|[Hs|Hin]]; [set_solver| |].
    + right. destruct (decide (n ∈ filter (λ name, doomed cluster name = false) free)) as [Hd|Hd].
      * apply list_elem_of_filter in Hd as [_ Hd]. destruct (Hfree _ Hd) as [? _].
        destruct Hs; congruence.
      * by rewrite Hother1.
    + destruct (doomed cluster n) eqn:Hd; [by left; right|].
      destruct (Hall1 n) as [?|?]; [by apply list_elem_of_filter|by left; left|by right].
Qed.
(** ** Only the planned names are assigned *)

Definition within_plan (st : planState) : Prop := ∀ n s, shardOf (pl st) !! n = Some s → n ∈ sorted.

Lemma within_insert st st' name s :
  within_plan st → name ∈ sorted → shardOf (pl st') = <[name := s]> (shardOf (pl st)) → within_plan st'.
Proof. intros Hst Hn Heq n s'. rewrite Heq, lookup_insert. case_decide; [by subst|apply Hst]. Qed.

Lemma claim_owners_within : within_plan (claim_owners cluster pods statuses).
Proof.
  unfold claim_owners. apply foldl_inv; [apply foldl_inv|].
  - intros n s. simpl. by rewrite lookup_empty.
  - intros st m Hm Hst. apply rankOwners_pod, owners_nonempty in Hm as [_ Hm]. unfold claim_match.
    destruct (_ || _); [done|]. eapply within_insert; [done..|apply shardOf_claim].
  - intros st n Hn Hst. apply owners_nonempty in Hn as [_ Hn]. unfold claim_rest.
    destruct (done_ _ _); [done|]. eapply within_insert; [done..|apply shardOf_claim].
Qed.

Lemma attach_within acc name :
  within_plan acc.1 → (∀ n, n ∈ acc.2 → n ∈ sorted) → name ∈ sorted →
  within_plan (attach cluster pods statuses ord acc name).1 ∧
  ∀ n, n ∈ (attach cluster pods statuses ord acc name).2 → n ∈ sorted.
Proof.
  intros Hst Hfree Hn. destruct acc as [st free]. unfold attach. simpl in *.
  assert (∀ s (b : bool), within_plan (if b then set_primary (assign st name s) s name else assign st name s)) as Ha.
  { intros s b. by eapply within_insert; [..|destruct b]. }
  destruct (done_ st name); [done|]. destruct (if _ && _ then _ else _); simpl; [by split|].
  destruct (labelOf pods name); [destruct (negb _ && _)|]; simpl; split; auto; set_solver.
Qed.

Lemma fill_primaries_within shards st survivors :
  within_plan st → (∀ n, n ∈ survivors → n ∈ sorted) →
  within_plan (fill_primaries st shards survivors).1 ∧
  ∀ n, n ∈ (fill_primaries st shards survivors).2 → n ∈ sorted.
Proof.
  revert st survivors; induction shards as [|s shards IH]; intros st survivors Hst Hsv; [done|].
  destruct survivors as [|name survivors]; [done|]. simpl. case_bool_decide; [by apply IH|].
  apply IH; [|set_solver]. eapply within_insert; [done| |reflexivity]. set_solver.
Qed.

Lemma plan_state_within : within_plan (plan_state cluster pods statuses ord).
Proof.
  unfold plan_state.
  assert (let acc := foldl (attach cluster pods statuses ord) (claim_owners cluster pods statuses, []) sorted in
          within_plan acc.1 ∧ ∀ n, n ∈ acc.2 → n ∈ sorted) as [Hst Hfree].
  { apply (foldl_inv (λ acc, within_plan acc.1 ∧ ∀ n, n ∈ acc.2 → n ∈ sorted)).
    - split; [apply claim_owners_within|set_solver].
    - intros acc name Hn [? ?]. by apply attach_within. }
  pose proof attach_all as Hat. destruct (foldl _ _ sorted) as [st free]. simpl in *.
  destruct Hat as [Hok _ Hnone Hnd _]. simpl in *.
  destruct (fill_primaries_within (upto (desiredShardCount cluster)) st
              (filter (λ name, doomed cluster name = false) free)) as [Hst1 Hrest]; [done| |].
  { intros n [_ Hn]%list_elem_of_filter. by apply Hfree. }
  destruct (fill_primaries st _ _) as [st1 rest] eqn:Hf. simpl in *.
  apply fill_primaries_ok in Hf as (Hok1 & _); [|done|by apply NoDup_filter|].
  2: { intros n [Hd Hn]%list_elem_of_filter. by destruct (Hnone _ Hn) as (?&?&?). }
  destruct (appoint_heirs_ok 1 st1 (upto (desiredShardCount cluster)) Hok1) as (_ & _ & Hdom).
  apply (foldl_inv within_plan).
  - intros n s Hs. assert (is_Some (shardOf (pl st1) !! n)) as [s' Hs'] by (apply Hdom; by eexists). by eapply Hst1.
  - intros st2 n Hn Hst2. eapply within_insert; [done| |reflexivity].
    apply elem_of_app in Hn as [Hn|[_ Hn]%list_elem_of_filter]; auto.
Qed.
End phases.

(** ** Replica moves *)
Section moves.
Context (cluster : RedisCluster) (statuses : gmap string InstanceStatus) (l : shardLayout).

Let shards := upto (desiredShardCount cluster).
Let want := Spec_ReplicasPerShard (Spec cluster).

(** Every planned move is of a movable member of another shard. *)
Definition moves_ok (moves : gmap string Z) : Prop :=
  ∀ n t, moves !! n = Some t →
    t ∈ shards ∧ movable cluster statuses l n = true ∧ ∃ s, s ∈ shards ∧ n ∈ members_of l s.

Lemma move_step_ok target source acc name :
  moves_ok acc.1 → target ∈ shards → source ∈ shards → name ∈ members_of l source →
  moves_ok (move_step cluster statuses l want target source acc name).1.
Proof.
  intros Hok Ht Hs Hn. destruct acc as [moves counts]. unfold move_step.
  destruct (_ && _); [|done]. case_bool_decide; [done|].
  destruct (movable cluster statuses l name) eqn:Hm; simpl; [|done].
  intros n t. simpl in *. rewrite lookup_insert. case_decide; [|apply Hok].
  intros [= <-]. subst. split_and!; [done|done|]. by exists source.
Qed.

Lemma planReplicaMoves_ok :
  replicaMoves l = ∅ → moves_ok (replicaMoves (planReplicaMoves cluster statuses l)).
Proof.
  intros Hempty. unfold planReplicaMoves.
  destruct (existsb _ _). { rewrite Hempty. intros n t. by rewrite lookup_empty. }
  destruct (foldl _ _ _) as [moves counts] eqn:E. simpl.
  change moves with (moves, counts).1. rewrite <- E.
  apply (foldl_inv (λ acc, moves_ok acc.1)).
  { simpl. rewrite Hempty. intros n t. by rewrite lookup_empty. }
  intros acc target Ht Hacc. apply (foldl_inv (λ acc, moves_ok acc.1)); [done|].
  intros acc' source Hs Hacc'. case_bool_decide; [|done].
  apply (foldl_inv (λ acc, moves_ok acc.1)); [done|].
  intros acc'' name Hn Hacc''. apply move_step_ok; try done.
  by rewrite list_elem_of_In, <- List.in_rev, <- list_elem_of_In in Hn.
Qed.

(** *** Replica counts *)

Hypothesis members_disjoint : ∀ n s s', n ∈ members_of l s → n ∈ members_of l s' → s = s'.

Definition moved_out (moves : gmap string Z) (s : Z) : Z :=
  Z.of_nat (length (filter (λ e, e.1 ∈ members_of l s) (map_to_list moves))).
Definition moved_in (moves : gmap string Z) (t : Z) : Z :=
  Z.of_nat (length (filter (λ e, e.2 = t) (map_to_list moves))).

Lemma moved_out_insert moves name t s :
  moves !! name = None →
  moved_out (<[name := t]> moves) s = moved_out moves s + (if decide (name ∈ members_of l s) then 1 else 0).
Proof.
  intros Hn. unfold moved_out. rewrite map_to_list_insert by done.
  rewrite filter_cons. simpl. case_decide; simpl; lia.
Qed.

Lemma moved_in_insert moves name t s :
  moves !! name = None →
  moved_in (<[name := t]> moves) s = moved_in moves s + (if decide (t = s) then 1 else 0).
Proof.
  intros Hn. unfold moved_in. rewrite map_to_list_insert by done.
  rewrite filter_cons. simpl. case_decide; simpl; lia.
Qed.

(** The counts are those after the moves; no shard gives below [want] or takes
    above it. *)
Definition counts_ok (acc : gmap string Z * gmap Z Z) : Prop :=
  ∀ s, s ∈ shards →
    count_of acc.2 s = surviving_replicas cluster l s - moved_out acc.1 s + moved_in acc.1 s ∧
    (0 < moved_out acc.1 s → want ≤ count_of acc.2 s) ∧
    (0 < moved_in acc.1 s → count_of acc.2 s ≤ want).

Lemma count_of_insert counts s s' c :
  count_of (<[s := c]> counts) s' = if decide (s = s') then c else count_of counts s'.
Proof. unfold count_of. rewrite lookup_insert. by case_decide. Qed.

Lemma move_step_counts target source acc name :
  counts_ok acc → target ∈ shards → source ∈ shards → name ∈ members_of l source →
  counts_ok (move_step cluster statuses l want target source acc name).
Proof.
  intros Hok Ht Hs Hn. destruct acc as [moves counts]. unfold move_step.
  destruct (_ && _) eqn:Hc; [|done]. bsimpl. case_bool_decide as Hm; [done|].
  destruct (movable cluster statuses l name); simpl; [|done].
  apply eq_None_not_Some in Hm. intros s Hin. simpl. specialize (Hok s Hin). simpl in Hok.
  rewrite moved_out_insert, moved_in_insert, !count_of_insert by done.
  assert (name ∈ members_of l s → s = source) as Hsrc by (intros; by eapply members_disjoint).
  assert (source ≠ target) by (intros ->; lia).
  repeat case_decide; subst; simplify_eq; try (exfalso; specialize (Hsrc ltac:(done)); congruence); try lia.
Qed.

Lemma counts0_ok :
  counts_ok (∅, list_to_map ((λ shard, (shard, surviving_replicas cluster l shard)) <$> shards)).
Proof.
  intros s Hs. unfold moved_out, moved_in. simpl. rewrite map_to_list_empty. simpl.
  split; [|lia]. unfold count_of.
  rewrite (elem_of_list_to_map_1 _ s (surviving_replicas cluster l s)); [simpl; lia| |].
  - rewrite <- list_fmap_compose. unfold compose. simpl. rewrite list_fmap_id. apply NoDup_upto.
  - apply list_elem_of_fmap. eauto.
Qed.

Lemma planReplicaMoves_counts s :
  replicaMoves l = ∅ → s ∈ shards →
  let moves := replicaMoves (planReplicaMoves cluster statuses l) in
  let count := surviving_replicas cluster l s - moved_out moves s + moved_in moves s in
  (0 < moved_out moves s → want ≤ count) ∧ (0 < moved_in moves s → count ≤ want).
Proof.
  intros Hempty Hs. unfold planReplicaMoves. fold shards.
  destruct (existsb _ _).
  { simpl. rewrite Hempty. unfold moved_out, moved_in. rewrite map_to_list_empty. simpl. lia. }
  destruct (foldl _ _ _) as [moves counts] eqn:E. simpl.
  assert (counts_ok (moves, counts)) as Hok; [|specialize (Hok s Hs); simpl in Hok; lia].
  rewrite <- E, Hempty. apply (foldl_inv counts_ok); [apply counts0_ok|].
  intros acc target Ht Hacc. apply (foldl_inv counts_ok); [done|].
  intros acc' source Hs' Hacc'. case_bool_decide; [|done].
  apply (foldl_inv counts_ok); [done|].
  intros acc'' name Hn Hacc''. apply move_step_counts; try done.
  by rewrite list_elem_of_In, <- List.in_rev, <- list_elem_of_In in Hn.
Qed.
End moves.

(** *** Only the last phase plans moves *)

Lemma foldl_moves {B} (f : planState → B → planState) (xs : list B) st :
  (∀ st x, replicaMoves (pl (f st x)) = replicaMoves (pl st)) →
  replicaMoves (pl (foldl f st xs)) = replicaMoves (pl st).
Proof. intros Hf. revert st; induction xs as [|x xs IH]; intros st; simpl; [done|]. by rewrite IH. Qed.

Lemma claim_moves cluster st name shard :
  replicaMoves (pl (claim cluster st name shard)) = replicaMoves (pl st).
Proof. unfold claim. by destruct (doomed cluster name). Qed.

Lemma claim_owners_moves cluster pods statuses : replicaMoves (pl (claim_owners cluster pods statuses)) = ∅.
Proof.
  unfold claim_owners. rewrite !foldl_moves; [done| |].
  - intros st m. unfold claim_match. case_match; [done|]. apply claim_moves.
  - intros st name. unfold claim_rest. case_match; [done|]. apply claim_moves.
Qed.

Lemma attach_moves cluster pods statuses ord acc name :
  replicaMoves (pl (attach cluster pods statuses ord acc name).1) = replicaMoves (pl acc.1).
Proof. destruct acc as [st free]. unfold attach. repeat case_match; done. Qed.

Lemma fill_primaries_moves shards st survivors :
  replicaMoves (pl (fill_primaries st shards survivors).1) = replicaMoves (pl st).
Proof.
  revert st survivors; induction shards as [|s shards IH]; intros st [|n survivors]; simpl; try done.
  case_match; by rewrite IH.
Qed.

Lemma appoint_heirs_moves cluster ord k st shards :
  replicaMoves (pl (appoint_heirs cluster ord k st shards)) = replicaMoves (pl st).
Proof.
  revert k st; induction shards as [|s shards IH]; intros k st; simpl; [done|].
  repeat case_match; rewrite ?IH; done.
Qed.

Lemma plan_state_moves cluster pods statuses ord :
  replicaMoves (pl (plan_state cluster pods statuses ord)) = ∅.
Proof.
  unfold plan_state.
  assert (replicaMoves (pl (foldl (attach cluster pods statuses ord) (claim_owners cluster pods statuses, [])
    (sorted_names cluster pods)).1) = ∅) as Hat.
  { apply (foldl_inv (λ acc, replicaMoves (pl acc.1) = ∅)); [apply claim_owners_moves|].
    intros acc n _ <-. apply attach_moves. }
  destruct (foldl _ _ _) as [st free]. simpl in Hat.
  pose proof (fill_primaries_moves (upto (desiredShardCount cluster)) st
    (filter (λ name, doomed cluster name = false) free)) as Hf.
  destruct (fill_primaries _ _ _) as [st' survivors]. simpl in Hf.
  rewrite foldl_moves; [|done]. by rewrite appoint_heirs_moves, Hf, Hat.
Qed.

Lemma planReplicaMoves_same cluster statuses l :
  let l' := planReplicaMoves cluster statuses l in
  shardOf l' = shardOf l ∧ primaryOf l' = primaryOf l ∧ ownerOf l' = ownerOf l ∧ members l' = members l.
Proof. simpl. unfold planReplicaMoves. destruct (existsb _ _); [done|]. by destruct (foldl _ _ _). Qed.

Lemma members_of_sort_members cluster l s : members_of (sort_members cluster l) s ≡ₚ members_of l s.
Proof.
  unfold members_of, sort_members. simpl. rewrite lookup_fmap.
  destruct (members l !! s); simpl; [apply sort_slice_perm|done].
Qed.

(** ** The layout the planner returns *)

Lemma podIndex_Some_nonempty c n i : podIndex c n = Some i → n ≠ "".
Proof.
  unfold podIndex. intros H ->. rewrite Nat.add_1_r in H. done.
Qed.

Section planned.
Context (cluster : RedisCluster) (pods : list Pod) (statuses : gmap string InstanceStatus).
Context (ord : oracle) (l : shardLayout).
Hypothesis Hplan : planShardLayout cluster pods statuses ord = Some l.

Lemma planned_names n : n ∈ plan_names cluster pods → n ≠ "".
Proof.
  intros Hn. unfold planShardLayout in Hplan. destruct (existsb _ _) eqn:E; [done|].
  destruct (podIndex (Name cluster) n) eqn:Hi; [by eapply podIndex_Some_nonempty|].
  assert (existsb (λ name, bool_decide (podIndex (Name cluster) name = None))
            (plan_names cluster pods) = true); [|congruence].
  apply existsb_exists. exists n. rewrite <- list_elem_of_In. split; [done|]. by apply bool_decide_eq_true.
Qed.

Lemma planned_eq :
  l = planReplicaMoves cluster statuses (sort_members cluster (pl (plan_state cluster pods statuses ord))).
Proof. unfold planShardLayout in Hplan. destruct (existsb _ _); [done|]. by simplify_eq. Qed.

Lemma planned_fields :
  let st := plan_state cluster pods statuses ord in
  shardOf l = shardOf (pl st) ∧ primaryOf l = primaryOf (pl st) ∧ ownerOf l = ownerOf (pl st) ∧
  ∀ s, members_of l s ≡ₚ members_of (pl st) s.
Proof.
  simpl. rewrite planned_eq.
  destruct (planReplicaMoves_same cluster statuses
              (sort_members cluster (pl (plan_state cluster pods statuses ord)))) as (H1 & H2 & H3 & H4).
  split_and!; [by rewrite H1|by rewrite H2|by rewrite H3|].
  intros s. unfold members_of at 1. rewrite H4. apply members_of_sort_members.
Qed.

Lemma planned_members n s : shardOf l !! n = Some s ↔ n ∈ members_of l s.
Proof.
  destruct planned_fields as (-> & _ & _ & Hm). rewrite (Hm s).
  apply (ok_members cluster). by apply plan_state_ok, planned_names.
Qed.

Lemma planned_nodup s : NoDup (members_of l s).
Proof.
  destruct planned_fields as (_ & _ & _ & Hm). rewrite (Hm s).
  apply (ok_nodup cluster). by apply plan_state_ok, planned_names.
Qed.

Lemma planned_total n : n ∈ plan_names cluster pods → is_Some (shardOf l !! n).
Proof.
  destruct planned_fields as (-> & _). by apply plan_state_ok, planned_names.
Qed.

Lemma planned_only n s : shardOf l !! n = Some s → n ∈ plan_names cluster pods.
Proof.
  destruct planned_fields as (-> & _). intros Hs. apply elem_of_sorted.
  by eapply plan_state_within, Hs; apply planned_names.
Qed.

Lemma planned_primary s p :
  primaryOf l !! s = Some p → p ≠ "" ∧ shardOf l !! p = Some s ∧ doomed cluster p = false.
Proof.
  destruct planned_fields as (-> & -> & _).
  apply (ok_primary cluster). by apply plan_state_ok, planned_names.
Qed.

Lemma planned_owner s o :
  ownerOf l !! s = Some o →
  shardOf l !! o = Some s ∧ (doomed cluster o = false → primaryOf l !! s = Some o).
Proof.
  destruct planned_fields as (-> & -> & -> & _).
  apply (ok_owner cluster). by apply plan_state_ok, planned_names.
Qed.

(** Every pod that serves slots owns a shard. *)
Lemma planned_owned n :
  n ∈ plan_names cluster pods → is_SlotsServed (status_of statuses n) ≠ [] →
  ∃ s, ownerOf l !! s = Some n.
Proof.
  intros Hn Hslots. destruct planned_fields as (_ & _ & -> & _).
  destruct (plan_state_ok cluster pods statuses ord planned_names) as (_ & -> & _).
  destruct (claim_owners_ok cluster pods statuses planned_names) as [[_ Howned] Hall].
  destruct (Hall n) as [s Hs]; [|exists s; by apply Howned].
  apply list_elem_of_filter. split; [done|]. by apply elem_of_sorted.
Qed.

Lemma planned_disjoint n s s' : n ∈ members_of l s → n ∈ members_of l s' → s = s'.
Proof. intros H1%planned_members H2%planned_members. congruence. Qed.

Lemma planned_counts s :
  s ∈ upto (desiredShardCount cluster) →
  let moves := replicaMoves l in
  let count := surviving_replicas cluster l s - moved_out l moves s + moved_in moves s in
  (0 < moved_out l moves s → Spec_ReplicasPerShard (Spec cluster) ≤ count) ∧
  (0 < moved_in moves s → count ≤ Spec_ReplicasPerShard (Spec cluster)).
Proof.
  cbv zeta. intros Hs. pose proof planned_disjoint as Hd. revert Hd. pose proof planned_eq as Heq.
  set (l0 := sort_members cluster (pl (plan_state cluster pods statuses ord))) in Heq.
  destruct (planReplicaMoves_same cluster statuses l0) as (Hso & Hpo & _ & Hme).
  assert (∀ t, members_of l t = members_of l0 t) as Hm by (intros t; unfold members_of; by rewrite Heq, Hme).
  assert (surviving_replicas cluster l s = surviving_replicas cluster l0 s) as ->.
  { unfold surviving_replicas, isPrimary, primary_of. by rewrite Hm, Heq, Hso, Hpo. }
  assert (moved_out l (replicaMoves l) s = moved_out l0 (replicaMoves l) s) as ->
    by (unfold moved_out; by rewrite Hm).
  setoid_rewrite Hm. intros Hd. rewrite Heq.
  apply planReplicaMoves_counts; [done|apply plan_state_moves|done].
Qed.
End planned.
