(* ===== verification/Json.v ===== *)
(** * JSON lists of strings ([encoding/json] on [[]string])

    The fencing annotation is a JSON list of pod names.  [marshal_strings] is
    [json.Marshal] of a [[]string] and [unmarshal_strings] is [json.Unmarshal]
    into one; [None] is its error (a syntax error or an element that is neither
    a string nor null).  Bytes from 128 up are UTF-8: an invalid sequence is
    replaced by U+FFFD in both directions, as the Go package does.

    Proved here: decoding an encoded list gives it back, for ASCII strings (pod
    names are DNS labels). *)
From S2P Require Import Prelude GoStr.
From Stdlib Require Import Ascii.

Definition byte_val (c : ascii) : Z := Z.of_N (N_of_ascii c).
Definition chr (z : Z) : ascii := ascii_of_N (Z.to_N z).

(** A continuation byte in [lo, hi]. *)
Definition in_range (c : ascii) (lo hi : Z) : bool := bool_decide (lo ≤ byte_val c ≤ hi).

(** [utf8.DecodeRune] of a string starting with a byte >= 128: the bytes of the
    rune when the sequence is valid.  The accepted second-byte ranges exclude
    over-long forms and surrogates. *)
Definition rune_bytes (s : string) : option (string * string) :=
  match s with
  | String b0 (String b1 rest) =>
      let x := byte_val b0 in
      if bool_decide (194 ≤ x ≤ 223) && in_range b1 128 191
      then Some (String b0 (String b1 ""), rest)
      else
        let lo3 := if bool_decide (x = 224) then 160 else 128 in
        let hi3 := if bool_decide (x = 237) then 159 else 191 in
        let lo4 := if bool_decide (x = 240) then 144 else 128 in
        let hi4 := if bool_decide (x = 244) then 143 else 191 in
        match rest with
        | String b2 rest2 =>
            if bool_decide (224 ≤ x ≤ 239) && in_range b1 lo3 hi3 && in_range b2 128 191
            then Some (String b0 (String b1 (String b2 "")), rest2)
            else
              match rest2 with
              | String b3 rest3 =>
                  if bool_decide (240 ≤ x ≤ 244) && in_range b1 lo4 hi4 && in_range b2 128 191 &&
                     in_range b3 128 191
                  then Some (String b0 (String b1 (String b2 (String b3 ""))), rest3)
                  else None
              | EmptyString => None
              end
        | EmptyString => None
        end
  | _ => None
  end.

(** The UTF-8 encoding of a code point. *)
Definition encode_rune (r : Z) : string :=
  if bool_decide (r < 128) then String (chr r) ""
  else if bool_decide (r < 2048) then
    String (chr (192 + r / 64)) (String (chr (128 + r mod 64)) "")
  else if bool_decide (r < 65536) then
    String (chr (224 + r / 4096)) (String (chr (128 + (r / 64) mod 64)) (String (chr (128 + r mod 64)) ""))
  else
    String (chr (240 + r / 262144)) (String (chr (128 + (r / 4096) mod 64))
      (String (chr (128 + (r / 64) mod 64)) (String (chr (128 + r mod 64)) ""))).

Definition replacement : string := encode_rune 65533.

(** ** Encoding *)

Definition hex_digit (n : Z) : ascii := chr (if bool_decide (n < 10) then 48 + n else 87 + n).

Definition escape_u (z : Z) : string :=
  String "\" (String "u" (String (hex_digit (z / 4096)) (String (hex_digit ((z / 256) mod 16))
    (String (hex_digit ((z / 16) mod 16)) (String (hex_digit (z mod 16)) ""))))).

(** One ASCII byte.  The angle brackets and the ampersand are escaped too (HTML-safe encoding). *)
Definition encode_ascii (c : ascii) : string :=
  let z := byte_val c in
  if bool_decide (z = 34) then String "\" (String (chr 34) "")
  else if bool_decide (z = 92) then String "\" (String "\" "")
  else if bool_decide (z = 8) then "\b"
  else if bool_decide (z = 12) then "\f"
  else if bool_decide (z = 10) then "\n"
  else if bool_decide (z = 13) then "\r"
  else if bool_decide (z = 9) then "\t"
  else if bool_decide (z < 32) || bool_decide (z = 60) || bool_decide (z = 62) || bool_decide (z = 38)
  then escape_u z
  else String c "".

Fixpoint encode_body (fuel : nat) (s : string) : string :=
  match fuel, s with
  | O, _ | _, EmptyString => ""
  | S fuel', String c s' =>
      if bool_decide (byte_val c < 128) then encode_ascii c +:+ encode_body fuel' s'
      else
        match rune_bytes s with
        | Some (r, rest) =>
            let out :=
              if bool_decide (r = encode_rune 8232) then escape_u 8232
              else if bool_decide (r = encode_rune 8233) then escape_u 8233 else r in
            out +:+ encode_body fuel' rest
        | None => escape_u 65533 +:+ encode_body fuel' s'
        end
  end.

Definition quote : ascii := chr 34.

Definition encode_string (s : string) : string :=
  String quote (encode_body (String.length s) s +:+ String quote "").

Fixpoint encode_items (l : list string) : string :=
  match l with
  | [] => ""
  | [s] => encode_string s
  | s :: l' => encode_string s +:+ "," +:+ encode_items l'
  end.

(** [json.Marshal] of a non-nil slice (the nil slice encodes as null and is
    never written by the operator). *)
Definition marshal_strings (l : list string) : string := "[" +:+ encode_items l +:+ "]".

(** ** Decoding *)

Definition json_space (c : ascii) : bool :=
  match c with " " | "009" | "010" | "013" => true | _ => false end%char.

Fixpoint skip_ws (s : string) : string :=
  match s with
  | String c s' => if json_space c then skip_ws s' else s
  | EmptyString => ""
  end.

Definition hex_val (c : ascii) : option Z :=
  let z := byte_val c in
  if bool_decide (48 ≤ z ≤ 57) then Some (z - 48)
  else if bool_decide (97 ≤ z ≤ 102) then Some (z - 87)
  else if bool_decide (65 ≤ z ≤ 70) then Some (z - 55)
  else None.

Definition hex4 (s : string) : option (Z * string) :=
  match s with
  | String a (String b (String c (String d rest))) =>
      match hex_val a, hex_val b, hex_val c, hex_val d with
      | Some a, Some b, Some c, Some d => Some (((a * 16 + b) * 16 + c) * 16 + d, rest)
      | _, _, _, _ => None
      end
  | _ => None
  end.

(** A \u escape, with the low half of a surrogate pair; a lone half is U+FFFD. *)
Definition decode_u (s : string) : option (string * string) :=
  match hex4 s with
  | None => None
  | Some (r, rest) =>
      if bool_decide (55296 ≤ r < 57344) then
        match rest with
        | String "\" (String "u" rest') =>
            match hex4 rest' with
            | Some (r2, rest'') =>
                if bool_decide (r < 56320) && bool_decide (56320 ≤ r2 < 57344)
                then Some (encode_rune ((r - 55296) * 1024 + (r2 - 56320) + 65536), rest'')
                else Some (replacement, rest)
            | None => Some (replacement, rest)
            end
        | _ => Some (replacement, rest)
        end
      else Some (encode_rune r, rest)
  end%char.

(** The body of a string literal after its opening quote. *)
Fixpoint decode_body (fuel : nat) (s : string) : option (string * string) :=
  match fuel with
  | O => None
  | S fuel' =>
      let cont (out : string) (rest : string) :=
        match decode_body fuel' rest with
        | Some (t, r) => Some (out +:+ t, r)
        | None => None
        end in
      match s with
      | EmptyString => None
      | String c s' =>
          let z := byte_val c in
          if bool_decide (z = 34) then Some ("", s')
          else if bool_decide (z = 92) then
            match s' with
            | String e rest =>
                let y := byte_val e in
                if bool_decide (y = 34) || bool_decide (y = 92) || bool_decide (y = 47)
                then cont (String e "") rest
                else if bool_decide (y = 98) then cont (String (chr 8) "") rest
                else if bool_decide (y = 102) then cont (String (chr 12) "") rest
                else if bool_decide (y = 110) then cont (String (chr 10) "") rest
                else if bool_decide (y = 114) then cont (String (chr 13) "") rest
                else if bool_decide (y = 116) then cont (String (chr 9) "") rest
                else if bool_decide (y = 117) then
                  match decode_u rest with
                  | Some (out, rest') => cont out rest'
                  | None => None
                  end
                else None
            | EmptyString => None
            end
          else if bool_decide (z < 32) then None
          else if bool_decide (z < 128) then cont (String c "") s'
          else
            match rune_bytes s with
            | Some (r, rest) => cont r rest
            | None => cont replacement s'
            end
      end
  end.

(** An element: a string, or null, which leaves the empty string. *)
Definition decode_item (fuel : nat) (s : string) : option (string * string) :=
  match s with
  | String c s' =>
      if bool_decide (c = quote) then decode_body fuel s'
      else match s with
           | String "n" (String "u" (String "l" (String "l" rest))) => Some (EmptyString, rest)
           | _ => None
           end
  | EmptyString => None
  end%char.

(** Elements separated by commas, up to the closing bracket. *)
Fixpoint decode_items (fuel : nat) (s : string) : option (list string * string) :=
  match fuel with
  | O => None
  | S fuel' =>
      match decode_item fuel (skip_ws s) with
      | None => None
      | Some (x, rest) =>
          match skip_ws rest with
          | String "," rest' =>
              match decode_items fuel' rest' with
              | Some (xs, r) => Some (x :: xs, r)
              | None => None
              end
          | String "]" rest' => Some ([x], rest')
          | _ => None
          end
      end
  end%char.

(** Each step consumes a character, so the length of the text bounds the
    number of steps. *)
Definition unmarshal_strings (text : string) : option (list string) :=
  let at_end (l : list string) (rest : string) :=
    match skip_ws rest with EmptyString => Some l | _ => None end in
  match skip_ws text with
  | String "n" (String "u" (String "l" (String "l" rest))) => at_end [] rest
  | String "[" rest =>
      match skip_ws rest with
      | String "]" rest' => at_end [] rest'
      | _ =>
          match decode_items (S (String.length rest)) rest with
          | Some (l, rest') => at_end l rest'
          | None => None
          end
      end
  | _ => None
  end%char.

(** ** Round trip *)

Fixpoint is_ascii (s : string) : bool :=
  match s with
  | EmptyString => true
  | String c s' => bool_decide (byte_val c < 128) && is_ascii s'
  end.

Lemma string_app_assoc (a b c : string) : (a +:+ b) +:+ c = a +:+ (b +:+ c).
Proof. induction a as [|x a IH]; [done|]. exact (f_equal (String x) IH). Qed.

Lemma string_app_cons c a b : String c a +:+ b = String c (a +:+ b).
Proof. done. Qed.

Lemma string_length_app (a b : string) :
  String.length (a +:+ b) = (String.length a + String.length b)%nat.
Proof. induction a as [|x a IH]; [done|]. rewrite string_app_cons. simpl. by rewrite IH. Qed.

(** Decoding one encoded ASCII byte, for each of the 128 of them. *)
Lemma decode_encode_ascii c fuel rest :
  byte_val c < 128 →
  decode_body (S fuel) (encode_ascii c +:+ rest) =
    match decode_body fuel rest with Some (t, r) => Some (String c t, r) | None => None end.
Proof.
  destruct c as [[] [] [] [] [] [] [] []]; intros Hc;
    first [ exfalso; vm_compute in Hc; congruence
          | reflexivity ].
Qed.

Lemma decode_encode_body s n fuel rest :
  is_ascii s = true → (String.length s ≤ n)%nat → (String.length s < fuel)%nat →
  decode_body fuel (encode_body n s +:+ String quote rest) = Some (s, rest).
Proof.
  revert n fuel; induction s as [|c s IH]; intros n fuel Ha Hn Hf; simpl in *.
  - destruct fuel; [lia|]. by destruct n.
  - destruct n; [lia|]. destruct fuel; [lia|]. bsimpl.
    cbn [encode_body]. rewrite bool_decide_true by done.
    rewrite string_app_assoc, decode_encode_ascii, IH by (done || lia). done.
Qed.

Lemma decode_item_encode s fuel rest :
  is_ascii s = true → (String.length s < fuel)%nat →
  decode_item fuel (encode_string s +:+ rest) = Some (s, rest).
Proof.
  intros Ha Hf. unfold encode_string. rewrite string_app_cons. unfold decode_item.
  rewrite bool_decide_true by done. rewrite string_app_assoc, string_app_cons.
  by apply decode_encode_body.
Qed.

Lemma skip_ws_encode_string s rest : skip_ws (encode_string s +:+ rest) = encode_string s +:+ rest.
Proof. done. Qed.

Lemma length_encode_body s : is_ascii s = true →
  (String.length s ≤ String.length (encode_body (String.length s) s))%nat.
Proof.
  induction s as [|c s IH]; simpl; [lia|]. intros Ha. bsimpl.
  rewrite bool_decide_true by done. rewrite string_length_app.
  assert (1 ≤ String.length (encode_ascii c))%nat; [|specialize (IH ltac:(done)); lia].
  unfold encode_ascii. repeat case_match; simpl; lia.
Qed.

Lemma length_encode_string s : is_ascii s = true →
  (String.length s + 2 ≤ String.length (encode_string s))%nat.
Proof.
  intros Ha. pose proof (length_encode_body s Ha). unfold encode_string. simpl.
  rewrite string_length_app. simpl. lia.
Qed.

Lemma decode_items_encode l fuel rest :
  l ≠ [] → Forall (λ s, is_ascii s = true) l →
  (String.length (encode_items l) < fuel)%nat →
  decode_items fuel (encode_items l +:+ String "]" rest) = Some (l, rest).
Proof.
  revert fuel; induction l as [|s l IH]; intros fuel Hne Hall Hf; [done|].
  apply Forall_cons in Hall as [Hs Hall]. pose proof (length_encode_string s Hs).
  destruct fuel as [|fuel]; [lia|]. destruct l as [|s' l].
  - cbn [decode_items encode_items] in *.
    rewrite skip_ws_encode_string, decode_item_encode by (done || lia). done.
  - change (encode_items (s :: s' :: l)) with (encode_string s +:+ "," +:+ encode_items (s' :: l)) in *.
    rewrite !string_length_app in Hf. cbn [String.length] in Hf.
    rewrite !string_app_assoc, !string_app_cons. cbn [decode_items].
    rewrite skip_ws_encode_string, decode_item_encode by (done || lia). simpl skip_ws.
    cbv iota beta. change ("" +:+ ?x) with x. rewrite IH by (done || lia). done.
Qed.

Lemma unmarshal_marshal l :
  Forall (λ s, is_ascii s = true) l → unmarshal_strings (marshal_strings l) = Some l.
Proof.
  intros Hall. destruct l as [|s l]; [reflexivity|].
  unfold unmarshal_strings, marshal_strings. rewrite string_app_cons.
  change ("" +:+ ?x) with x. cbn [skip_ws json_space].
  set (txt := encode_items (s :: l) +:+ "]").
  assert (decode_items (S (String.length txt)) txt = Some (s :: l, "")) as Hd.
  { unfold txt. apply decode_items_encode; [done|done|]. rewrite string_length_app. simpl. lia. }
  assert (∃ t, skip_ws txt = String quote t) as [t Ht].
  { unfold txt. destruct l; eexists; reflexivity. }
  rewrite Ht. cbv iota. rewrite Hd. done.
Qed.
