(* ===== verification/Effects.v ===== *)
(** * Handlers as programs over an environment

    A reconciler talks to code that is not part of this repository: the
    Kubernetes API server, the instance managers' HTTP endpoints, the clock.  A
    handler is a [prog]: it returns, fails with an error, or issues one
    operation and continues with the response.  Nothing is assumed about the
    responses: [runs p tr out] holds for every response sequence, so a theorem
    about all runs is a theorem about every behaviour of the environment,
    including partial failures at any call and concurrent writers.  Where a
    property needs documented behaviour of the API server (a merge patch of the
    metadata does not change the status), it is a hypothesis on the trace.

    [interp] runs a program against an executable environment, for examples. *)
From S2P Require Import Prelude GoStr Api.
From Stdlib Require Ascii.

(** ** Errors *)

(** A panic unwinds the reconciliation; the controller runtime recovers it and
    reports it as an error.  Like an error it ends the handler. *)
Inductive error :=
| ENotFound (what : string)
| EAPI (msg : string)
| EHTTP (status : Z) (body : string)
| Errorf (msg : string)
| Panicked (msg : string)
| Wrap (ctx : string) (e : error)
| ErrorsJoin (e1 e2 : error).

(** [errors.IsNotFound] and [errors.As(err, *clusterHTTPError)] see through
    [%w]. *)
Fixpoint IsNotFound (e : error) : bool :=
  match e with
  | ENotFound _ => true
  | Wrap _ e' => IsNotFound e'
  | ErrorsJoin e1 e2 => IsNotFound e1 || IsNotFound e2
  | _ => false
  end.

Fixpoint http_status (e : error) : option Z :=
  match e with
  | EHTTP st _ => Some st
  | Wrap _ e' => http_status e'
  | ErrorsJoin e1 e2 => match http_status e1 with Some st => Some st | None => http_status e2 end
  | _ => None
  end.

(** [err.Error()]; [errors.Join] puts one message per line. *)
Fixpoint Error (e : error) : string :=
  match e with
  | ENotFound what => what +:+ " not found"
  | EAPI msg | Errorf msg | Panicked msg => msg
  | EHTTP st body => "returned status " +:+ itoa st +:+ ": " +:+ body
  | Wrap ctx e' => ctx +:+ ": " +:+ Error e'
  | ErrorsJoin e1 e2 => Error e1 +:+ String (Ascii.ascii_of_nat 10) (Error e2)
  end.

Abbreviation res A := (result error A).

(** ** Programs *)

Record sig := mkSig { op : Type; ret : op → Type }.

Inductive prog (S : sig) (A : Type) : Type :=
| Ret (a : A)
| Throw (e : error)
| Do (c : op S) (k : ret S c → prog S A).
Arguments Ret {S A} a.
Arguments Throw {S A} e.
Arguments Do {S A} c k.

#[export] Instance prog_ret S : MRet (prog S) := λ A a, Ret a.

#[export] Instance prog_bind S : MBind (prog S) := λ A B f,
  fix go (p : prog S A) : prog S B :=
    match p with
    | Ret a => f a
    | Throw e => Throw e
    | Do c k => Do c (λ r, go (k r))
    end.

Definition call {S} (c : op S) : prog S (ret S c) := Do c Ret.

(** [if err != nil { return fmt.Errorf("ctx: %w", err) }] *)
Fixpoint with_ctx {S A} (ctx : string) (p : prog S A) : prog S A :=
  match p with
  | Ret a => Ret a
  | Throw e => Throw (Wrap ctx e)
  | Do c k => Do c (λ r, with_ctx ctx (k r))
  end.

(** [if err != nil { return err }] *)
Definition check {S A} (r : res A) : prog S A :=
  match r with Ok a => Ret a | Err e => Throw e end.

Definition check_ctx {S A} (ctx : string) (r : res A) : prog S A :=
  match r with Ok a => Ret a | Err e => Throw (Wrap ctx e) end.

(** The caller inspects the error instead of returning it. *)
Fixpoint catch {S A} (p : prog S A) : prog S (res A) :=
  match p with
  | Ret a => Ret (Ok a)
  | Throw e => Ret (Err e)
  | Do c k => Do c (λ r, catch (k r))
  end.

(** [for _, x := range l { body }] *)
Fixpoint for_each {S A} (l : list A) (body : A → prog S unit) : prog S unit :=
  match l with
  | [] => Ret tt
  | x :: l' => body x ≫= λ _, for_each l' body
  end.

(** A loop that threads a value and may return early with [inr]. *)
Fixpoint for_state {S A B R} (l : list A) (b : B) (body : B → A → prog S (B + R)) : prog S (B + R) :=
  match l with
  | [] => Ret (inl b)
  | x :: l' =>
      body b x ≫= λ o, match o with inl b' => for_state l' b' body | inr r => Ret (inr r) end
  end.

(** ** Runs *)

Definition event (S : sig) : Type := sigT (ret S).
Abbreviation trace S := (list (event S)).
Definition ev {S} (c : op S) (r : ret S c) : event S := existT c r.

(** [tr] is a complete run of [p] ending with [out]. *)
Fixpoint runs {S A} (p : prog S A) (tr : trace S) (out : res A) : Prop :=
  match p with
  | Ret a => tr = [] ∧ out = Ok a
  | Throw e => tr = [] ∧ out = Err e
  | Do c k => ∃ r tr', tr = ev c r :: tr' ∧ runs (k r) tr' out
  end.

Section runs.
Context {S : sig}.

Lemma bind_ret {A B} (a : A) (f : A → prog S B) : (Ret a ≫= f) = f a.
Proof. done. Qed.

Lemma bind_mret {A B} (a : A) (f : A → prog S B) : (mret a ≫= f) = f a.
Proof. done. Qed.

Lemma runs_ret {A} (a : A) tr out : runs (S := S) (Ret a) tr out ↔ tr = [] ∧ out = Ok a.
Proof. done. Qed.

Lemma runs_call c tr out : runs (S := S) (call c) tr out ↔ ∃ r, tr = [ev c r] ∧ out = Ok r.
Proof.
  unfold call. simpl. split.
  - intros (r & tr' & -> & -> & ->). eauto.
  - intros (r & -> & ->). eauto.
Qed.

Lemma runs_bind {A B} (p : prog S A) (f : A → prog S B) tr out :
  runs (p ≫= f) tr out ↔
  (∃ e, runs p tr (Err e) ∧ out = Err e) ∨
  (∃ a tr1 tr2, tr = tr1 ++ tr2 ∧ runs p tr1 (Ok a) ∧ runs (f a) tr2 out).
Proof.
  revert tr; induction p as [a|e|c k IH]; intros tr; simpl.
  - split.
    + intros H. right. exists a, [], tr. done.
    + intros [(e & [_ ?] & _)|(a' & tr1 & tr2 & -> & [-> Ha] & Hf)]; [done|]. by simplify_eq.
  - split.
    + intros [-> ->]. left. by exists e.
    + intros [(e' & [-> He] & ->)|(a' & tr1 & tr2 & -> & [_ ?] & _)]; [|done]. by simplify_eq.
  - split.
    + intros (r & tr' & -> & Hr). apply IH in Hr as [(e & He & ->)|(a & tr1 & tr2 & -> & H1 & H2)].
      * left. exists e. split; [|done]. eauto.
      * right. exists a, (ev c r :: tr1), tr2. split; [done|]. split; [eauto|done].
    + intros [(e & (r & tr' & -> & H) & ->)|(a & tr1 & tr2 & -> & (r & tr' & -> & H1) & H2)].
      * exists r, tr'. split; [done|]. apply IH. left. eauto.
      * exists r, (tr' ++ tr2). split; [done|]. apply IH. right. eauto 6.
Qed.

Lemma runs_with_ctx {A} ctx (p : prog S A) tr out :
  runs (with_ctx ctx p) tr out ↔
  (∃ a, runs p tr (Ok a) ∧ out = Ok a) ∨ (∃ e, runs p tr (Err e) ∧ out = Err (Wrap ctx e)).
Proof.
  revert tr; induction p as [a|e|c k IH]; intros tr; simpl.
  - naive_solver.
  - naive_solver.
  - setoid_rewrite IH. naive_solver.
Qed.

Lemma runs_catch {A} (p : prog S A) tr out :
  runs (catch p) tr out ↔ ∃ x, runs p tr x ∧ out = Ok x.
Proof.
  revert tr; induction p as [a|e|c k IH]; intros tr; simpl.
  - naive_solver.
  - naive_solver.
  - setoid_rewrite IH. naive_solver.
Qed.

Lemma runs_check {A} (r : res A) tr out :
  runs (S := S) (check r) tr out ↔ tr = [] ∧ out = r.
Proof. destruct r; done. Qed.

Lemma runs_check_ctx {A} ctx (r : res A) tr out :
  runs (S := S) (check_ctx ctx r) tr out ↔
  tr = [] ∧ out = match r with Ok a => Ok a | Err e => Err (Wrap ctx e) end.
Proof. destruct r; done. Qed.
End runs.

Lemma runs_with_ctx_ok {S A} ctx (p : prog S A) tr a :
  runs (with_ctx ctx p) tr (Ok a) → runs p tr (Ok a).
Proof. intros [(a' & H & [= <-])|(e & _ & ?)]%runs_with_ctx; done. Qed.

Lemma runs_throw_mid {S A} e tr1 (x : event S) tr2 (out : res A) :
  ¬ runs (Throw e) (tr1 ++ x :: tr2) out.
Proof. intros [H _]. by destruct tr1. Qed.

(** ** What a program can ask for *)

(** Every operation [p] may issue, whatever the responses, satisfies [P]. *)
Fixpoint issues_only {S A} (P : op S → bool) (p : prog S A) : Prop :=
  match p with
  | Ret _ | Throw _ => True
  | Do c k => P c = true ∧ ∀ r, issues_only P (k r)
  end.

Section issues.
Context {S : sig} (P : op S → bool).

Lemma issues_bind {A B} (p : prog S A) (f : A → prog S B) :
  issues_only P p → (∀ a, issues_only P (f a)) → issues_only P (p ≫= f).
Proof.
  intros Hp Hf. induction p as [a|e|c k IH]; simpl in *; [apply Hf|done|].
  destruct Hp as [Hc Hk]. split; [done|]. intros r. by apply IH.
Qed.

Lemma issues_call c : P c = true → issues_only P (call c).
Proof. done. Qed.

Lemma issues_check {A} (r : res A) : issues_only P (check r).
Proof. by destruct r. Qed.

Lemma issues_check_ctx {A} ctx (r : res A) : issues_only P (check_ctx ctx r).
Proof. by destruct r. Qed.

Lemma issues_with_ctx {A} ctx (p : prog S A) : issues_only P p → issues_only P (with_ctx ctx p).
Proof.
  intros Hp. induction p as [a|e|c k IH]; simpl in *; [done..|].
  destruct Hp as [Hc Hk]. split; [done|]. intros r. by apply IH.
Qed.

Lemma issues_catch {A} (p : prog S A) : issues_only P p → issues_only P (catch p).
Proof.
  intros Hp. induction p as [a|e|c k IH]; simpl in *; [done..|].
  destruct Hp as [Hc Hk]. split; [done|]. intros r. by apply IH.
Qed.

Lemma issues_for_each {A} (l : list A) body :
  (∀ x, x ∈ l → issues_only P (body x)) → issues_only P (for_each l body).
Proof.
  induction l as [|x l IH]; intros Hb; simpl; [done|].
  apply issues_bind; [apply Hb; apply list_elem_of_here|].
  intros _. apply IH. intros y Hy. apply Hb. by apply list_elem_of_further.
Qed.

Lemma issues_for_state {A B R} (l : list A) (b : B) (body : B → A → prog S (B + R)) :
  (∀ b x, x ∈ l → issues_only P (body b x)) → issues_only P (for_state l b body).
Proof.
  revert b; induction l as [|x l IH]; intros b Hb; simpl; [done|].
  apply issues_bind; [apply Hb; apply list_elem_of_here|].
  intros [b'|r]; [|done]. apply IH. intros b'' y Hy. apply Hb. by apply list_elem_of_further.
Qed.

Lemma issues_runs {A} (p : prog S A) tr out :
  issues_only P p → runs p tr out → forallb (λ e, P (projT1 e)) tr = true.
Proof.
  revert tr; induction p as [a|e|c k IH]; intros tr Hp Hr; simpl in *.
  - by destruct Hr as [-> _].
  - by destruct Hr as [-> _].
  - destruct Hp as [Hc Hk], Hr as (r & tr' & -> & Hr). simpl. rewrite Hc. simpl. by eapply IH.
Qed.
End issues.

(** An operation that a prefix of the program never issues comes after a
    complete run of that prefix. *)
Lemma runs_bind_after {S A B} (P : op S → bool) (p : prog S A) (f : A → prog S B) tr1 e tr2 out :
  issues_only P p → P (projT1 e) = false → runs (p ≫= f) (tr1 ++ e :: tr2) out →
  ∃ a tra trb, tr1 = tra ++ trb ∧ runs p tra (Ok a) ∧ runs (f a) (trb ++ e :: tr2) out.
Proof.
  intros Hp He. revert tr1; induction p as [a|err|c k IH]; intros tr1 H.
  - exists a, [], tr1. done.
  - destruct H as [H _]. by destruct tr1.
  - destruct H as (r & tr' & Heq & H), Hp as [Hc Hk]. destruct tr1 as [|e' tr1]; simplify_eq/=; [congruence|].
    apply IH in H as (a & tra & trb & -> & Ha & Hb); [|done]. eexists a, (_ :: tra), trb.
    split; [done|]. split; [|done]. simpl. eauto.
Qed.

Lemma runs_issues_no {S A} (P : op S → bool) (p : prog S A) tr out e :
  issues_only P p → P (projT1 e) = false → runs p tr out → e ∉ tr.
Proof.
  intros Hp He Hr Hin%list_elem_of_In. eapply issues_runs in Hr; [|done].
  rewrite forallb_forall in Hr. rewrite Hr in He; done.
Qed.

#[export] Hint Resolve issues_bind issues_call issues_check issues_check_ctx issues_with_ctx
  issues_catch issues_for_each issues_for_state : redis.

(** Goals [issues_only P p] by the structure of [p]. *)
Ltac issues :=
  repeat first
    [ progress intros
    | apply issues_with_ctx | apply issues_catch | apply issues_check | apply issues_check_ctx
    | apply issues_for_each | apply issues_for_state
    | (apply issues_call; reflexivity)
    | exact I
    | apply issues_bind
    | progress cbn beta iota
    | match goal with |- issues_only _ (match ?x with _ => _ end) => destruct x end
    | match goal with |- issues_only _ (let '(_, _) := ?x in _) => destruct x end ].

(** Invert a run: one step per operation, one case per outcome. *)
Ltac run_step H :=
  lazymatch type of H with
  | runs (Ret _) _ _ => destruct H as [-> ->]
  | runs (Throw _) _ _ => destruct H as [-> ->]
  | runs (Do _ _) _ _ =>
      let r := fresh "r" in let tr := fresh "tr" in
      destruct H as (r & tr & -> & H); cbn beta in H
  | runs (mret _) _ _ => destruct H as [-> ->]
  | runs (call _ ≫= _) _ _ =>
      let r := fresh "r" in let tr := fresh "tr" in
      destruct H as (r & tr & -> & H); cbn beta in H
  | runs (check _ ≫= _) _ _ =>
      let r := lazymatch type of H with runs (check ?r ≫= _) _ _ => r end in
      destruct r; [change (runs (check (Ok ?a) ≫= ?f)) with (runs (f a)) in H; cbn beta in H
                  |destruct H as [-> ->]]
  | runs (check_ctx _ _ ≫= _) _ _ =>
      let r := lazymatch type of H with runs (check_ctx _ ?r ≫= _) _ _ => r end in
      destruct r; [change (runs (check_ctx ?c (Ok ?a) ≫= ?f)) with (runs (f a)) in H; cbn beta in H
                  |destruct H as [-> ->]]
  | runs (Ret _ ≫= _) _ _ => rewrite bind_ret in H; cbn beta in H
  | runs (check _) _ _ => apply runs_check in H as [-> ->]
  | runs (check_ctx _ _) _ _ => apply runs_check_ctx in H as [-> ->]
  | runs (call _) _ _ => apply runs_call in H as (? & -> & ->)
  end.

(** ** Safety *)

(** Every operation [p] may issue satisfies [P], and a value it returns is in
    [Q], whatever the responses. *)
Fixpoint does {S A} (P : op S → Prop) (p : prog S A) (Q : A → Prop) : Prop :=
  match p with
  | Ret a => Q a
  | Throw _ => True
  | Do c k => P c ∧ ∀ r, does P (k r) Q
  end.

Section does.
Context {S : sig} (P : op S → Prop).

Lemma does_bind {A B} (p : prog S A) (f : A → prog S B) (Q : A → Prop) Q' :
  does P p Q → (∀ a, Q a → does P (f a) Q') → does P (p ≫= f) Q'.
Proof.
  intros Hp Hf. induction p as [a|e|c k IH]; simpl in *; [auto|done|].
  destruct Hp as [Hc Hk]. split; [done|]. intros r. apply IH, Hk.
Qed.

Lemma does_mono {A} (p : prog S A) (Q Q' : A → Prop) : does P p Q → (∀ a, Q a → Q' a) → does P p Q'.
Proof.
  intros Hp HQ. induction p as [a|e|c k IH]; simpl in *; [auto|done|].
  destruct Hp as [Hc Hk]. split; [done|]. intros r. apply IH, Hk.
Qed.

Lemma does_with_ctx {A} ctx (p : prog S A) Q : does P p Q → does P (with_ctx ctx p) Q.
Proof.
  intros Hp. induction p as [a|e|c k IH]; simpl in *; [done..|].
  destruct Hp as [Hc Hk]. split; [done|]. intros r. apply IH, Hk.
Qed.

Lemma does_catch {A} (p : prog S A) Q : does P p Q → does P (catch p) (λ x, ∀ a, x = Ok a → Q a).
Proof.
  intros Hp. induction p as [a|e|c k IH]; simpl in *; [by intros ? [= <-]|done|].
  destruct Hp as [Hc Hk]. split; [done|]. intros r. apply IH, Hk.
Qed.

Lemma does_call {A} c (f : ret S c → prog S A) Q :
  P c → (∀ r, does P (f r) Q) → does P (call c ≫= f) Q.
Proof. done. Qed.

Lemma does_check {A} (r : res A) Q : (∀ a, r = Ok a → Q a) → does P (check r) Q.
Proof. destruct r; simpl; auto. Qed.

Lemma does_check_ctx {A} ctx (r : res A) Q : (∀ a, r = Ok a → Q a) → does P (check_ctx ctx r) Q.
Proof. destruct r; simpl; auto. Qed.

Lemma does_for_each {A} (l : list A) body :
  (∀ x, x ∈ l → does P (body x) (λ _, True)) → does P (for_each l body) (λ _, True).
Proof.
  induction l as [|x l IH]; intros Hb; simpl; [done|].
  eapply does_bind; [apply Hb; apply list_elem_of_here|].
  intros _ _. apply IH. intros y Hy. apply Hb. by apply list_elem_of_further.
Qed.

Lemma does_any {A} (p : prog S A) (Q : A → Prop) : (∀ c, P c) → (∀ a, Q a) → does P p Q.
Proof. intros HP HQ. induction p as [a|e|c k IH]; simpl; auto. Qed.

Lemma does_issues {A} (R : op S → bool) (p : prog S A) :
  issues_only R p → (∀ c, R c = true → P c) → does P p (λ _, True).
Proof.
  intros Hp HR. induction p as [a|e|c k IH]; simpl in *; [done..|].
  destruct Hp as [Hc Hk]. split; [by apply HR|]. intros r. apply IH, Hk.
Qed.

Lemma does_runs {A} (p : prog S A) Q tr out :
  does P p Q → runs p tr out → (∀ e, e ∈ tr → P (projT1 e)) ∧ ∀ a, out = Ok a → Q a.
Proof.
  revert tr; induction p as [a|e|c k IH]; intros tr Hp Hr; simpl in *.
  - destruct Hr as [-> ->]. split; [by intros e ?%elem_of_nil|]. by intros ? [= <-].
  - destruct Hr as [-> ->]. split; [by intros ? ?%elem_of_nil|]. done.
  - destruct Hp as [Hc Hk], Hr as (r & tr' & -> & Hr). destruct (IH r tr' (Hk r) Hr) as [H1 H2].
    split; [|done]. intros e [->|He]%elem_of_cons; [done|by apply H1].
Qed.
End does.

(** ** Counting operations *)

(** In every run [p] issues at most [n] operations that satisfy [P]. *)
Fixpoint at_most {S A} (P : op S → bool) (n : nat) (p : prog S A) : Prop :=
  match p with
  | Ret _ | Throw _ => True
  | Do c k =>
      if P c then match n with O => False | S n' => ∀ r, at_most P n' (k r) end
      else ∀ r, at_most P n (k r)
  end.

Section at_most.
Context {S : sig} (P : op S → bool).

Lemma at_most_mono {A} n m (p : prog S A) : at_most P n p → (n ≤ m)%nat → at_most P m p.
Proof.
  revert n m; induction p as [a|e|c k IH]; intros n m Hp Hnm; simpl in *; [done..|].
  destruct (P c); [|by intros r; eapply IH].
  destruct n as [|n]; [done|]. destruct m as [|m]; [lia|]. intros r. eapply IH; [apply Hp|lia].
Qed.

Lemma at_most_bind {A B} n m (p : prog S A) (f : A → prog S B) :
  at_most P n p → (∀ a, at_most P m (f a)) → at_most P (n + m) (p ≫= f).
Proof.
  intros Hp Hf. revert n Hp; induction p as [a|e|c k IH]; intros n Hp; simpl in *; [|done|].
  - eapply at_most_mono; [apply Hf|lia].
  - destruct (P c); [|intros r; by apply IH]. destruct n as [|n]; [done|]. intros r. by apply IH.
Qed.

Lemma at_most_none {A} n (p : prog S A) : issues_only (λ c, negb (P c)) p → at_most P n p.
Proof.
  induction p as [a|e|c k IH]; intros Hp; simpl in *; [done..|].
  destruct Hp as [Hc Hk]. apply negb_true_iff in Hc. rewrite Hc. intros r. apply IH, Hk.
Qed.

Lemma at_most_then {A B} n (p : prog S A) (f : A → prog S B) :
  issues_only (λ c, negb (P c)) p → (∀ a, at_most P n (f a)) → at_most P n (p ≫= f).
Proof. intros Hp Hf. apply (at_most_bind 0 n); [by apply at_most_none|done]. Qed.

Lemma at_most_with_ctx {A} n ctx (p : prog S A) : at_most P n p → at_most P n (with_ctx ctx p).
Proof.
  revert n; induction p as [a|e|c k IH]; intros n Hp; simpl in *; [done..|].
  destruct (P c); [|intros r; apply IH, Hp]. destruct n; [done|]. intros r. apply IH, Hp.
Qed.

Lemma at_most_catch {A} n (p : prog S A) : at_most P n p → at_most P n (catch p).
Proof.
  revert n; induction p as [a|e|c k IH]; intros n Hp; simpl in *; [done..|].
  destruct (P c); [|intros r; apply IH, Hp]. destruct n; [done|]. intros r. apply IH, Hp.
Qed.

Lemma at_most_runs {A} n (p : prog S A) tr out :
  at_most P n p → runs p tr out → (length (List.filter (λ e, P (projT1 e)) tr) ≤ n)%nat.
Proof.
  revert n tr; induction p as [a|e|c k IH]; intros n tr Hp Hr; simpl in *.
  - destruct Hr as [-> _]. simpl. lia.
  - destruct Hr as [-> _]. simpl. lia.
  - destruct Hr as (r & tr' & -> & Hr). simpl. destruct (P c).
    + destruct n as [|n]; [done|]. simpl. specialize (IH r n tr' (Hp r) Hr). lia.
    + by apply (IH r).
Qed.
End at_most.

(** ** Total correctness *)

(** Under every sequence of responses that satisfies [E], [p] returns a value
    in [Q]: it does not fail. *)
Fixpoint returns {S A} (E : event S → Prop) (p : prog S A) (Q : A → Prop) : Prop :=
  match p with
  | Ret a => Q a
  | Throw _ => False
  | Do c k => ∀ r, E (ev c r) → returns E (k r) Q
  end.

Section returns.
Context {S : sig} (E : event S → Prop).

Lemma returns_runs {A} (p : prog S A) Q tr out :
  returns E p Q → runs p tr out → Forall E tr → ∃ a, out = Ok a ∧ Q a.
Proof.
  revert tr; induction p as [a|e|c k IH]; intros tr Hp Hr He; simpl in *.
  - destruct Hr as [_ ->]. eauto.
  - done.
  - destruct Hr as (r & tr' & -> & Hr). apply Forall_cons in He as [He1 He2].
    by eapply IH; [apply Hp|..].
Qed.

Lemma runs_returns {A} (p : prog S A) Q :
  (∀ tr out, runs p tr out → Forall E tr → ∃ a, out = Ok a ∧ Q a) → returns E p Q.
Proof.
  induction p as [a|e|c k IH]; intros H; simpl.
  - destruct (H [] (Ok a)) as (a' & [= ->] & ?); done.
  - destruct (H [] (Err e)) as (a' & ? & ?); done.
  - intros r Hr. apply IH. intros tr out Hrun He.
    apply (H (ev c r :: tr) out); [simpl; eauto|by constructor].
Qed.

Lemma returns_mono {A} (p : prog S A) (Q Q' : A → Prop) :
  returns E p Q → (∀ a, Q a → Q' a) → returns E p Q'.
Proof. intros Hp HQ. induction p as [a|e|c k IH]; simpl in *; auto. Qed.

Lemma returns_bind {A B} (p : prog S A) (f : A → prog S B) (Q : A → Prop) Q' :
  returns E p Q → (∀ a, Q a → returns E (f a) Q') → returns E (p ≫= f) Q'.
Proof. intros Hp Hf. induction p as [a|e|c k IH]; simpl in *; [auto|done|]. intros r Hr. by apply IH, Hp. Qed.

(** The caller that inspects the error always gets a result. *)
Lemma returns_catch {A} (p : prog S A) : returns E (catch p) (λ _, True).
Proof. induction p as [a|e|c k IH]; simpl; auto. Qed.

Lemma returns_with_ctx {A} ctx (p : prog S A) Q : returns E p Q → returns E (with_ctx ctx p) Q.
Proof. intros Hp. induction p as [a|e|c k IH]; simpl in *; auto. Qed.

Lemma returns_call {A} c (f : ret S c → prog S A) Q :
  (∀ r, E (ev c r) → returns E (f r) Q) → returns E (call c ≫= f) Q.
Proof. done. Qed.
End returns.

(** ** Executable environments *)

(** An environment answers each operation from a state of its own. *)
Definition environment (S : sig) (W : Type) : Type := W → ∀ c : op S, ret S c * W.

Fixpoint interp {S W A} (env : environment S W) (w : W) (p : prog S A) : trace S * res A * W :=
  match p with
  | Ret a => ([], Ok a, w)
  | Throw e => ([], Err e, w)
  | Do c k =>
      let '(r, w') := env w c in
      let '(tr, out, w'') := interp env w' (k r) in
      (ev c r :: tr, out, w'')
  end.

Lemma interp_runs {S W A} (env : environment S W) w (p : prog S A) tr out w' :
  interp env w p = (tr, out, w') → runs p tr out.
Proof.
  revert w tr; induction p as [a|e|c k IH]; intros w tr; simpl; intros H.
  - by simplify_eq.
  - by simplify_eq.
  - destruct (env w c) as [r w1]. destruct (interp env w1 (k r)) as [[tr1 out1] w2] eqn:E.
    simplify_eq. eauto.
Qed.

(** ** Reasoning about a given environment *)

(** In [env], started from [w], [p] issues operations of [E] only and ends in
    [Q] with the state the environment is left in. *)
Fixpoint executes {S W A} (E : op S → bool) (env : environment S W) (w : W) (p : prog S A)
  (Q : res A → W → Prop) : Prop :=
  match p with
  | Ret a => Q (Ok a) w
  | Throw e => Q (Err e) w
  | Do c k => E c = true ∧ executes E env (env w c).2 (k (env w c).1) Q
  end.

Section executes.
Context {S : sig} {W : Type} (E : op S → bool) (env : environment S W).

Lemma executes_mono {A} w (p : prog S A) (Q Q' : res A → W → Prop) :
  executes E env w p Q → (∀ out w', Q out w' → Q' out w') → executes E env w p Q'.
Proof.
  intros H HQ. revert w H; induction p as [a|e|c k IH]; intros w; simpl; [auto..|].
  intros [Hc H]. split; [done|]. by apply IH.
Qed.

Lemma executes_bind {A B} w (p : prog S A) (f : A → prog S B) Q :
  executes E env w p (λ out w', match out with Ok a => executes E env w' (f a) Q | Err e => Q (Err e) w' end) →
  executes E env w (p ≫= f) Q.
Proof.
  revert w; induction p as [a|e|c k IH]; intros w; simpl; [done..|].
  intros [Hc H]. split; [done|]. by apply IH.
Qed.

Lemma executes_with_ctx {A} ctx w (p : prog S A) Q :
  executes E env w p (λ out w', Q (match out with Ok a => Ok a | Err e => Err (Wrap ctx e) end) w') →
  executes E env w (with_ctx ctx p) Q.
Proof.
  revert w; induction p as [a|e|c k IH]; intros w; simpl; [done..|].
  intros [Hc H]. split; [done|]. by apply IH.
Qed.

Lemma executes_interp {A} w (p : prog S A) Q tr out w' :
  executes E env w p Q → interp env w p = (tr, out, w') → Forall (λ e, E (projT1 e) = true) tr ∧ Q out w'.
Proof.
  revert w tr; induction p as [a|e|c k IH]; intros w tr; simpl.
  - intros HQ Hi. by simplify_eq.
  - intros HQ Hi. by simplify_eq.
  - intros [Hc H] Hi. destruct (env w c) as [r w1]. simpl in H.
    destruct (interp env w1 (k r)) as [[tr1 out1] w2] eqn:Hk. simplify_eq.
    destruct (IH _ _ _ H Hk) as [Htr HQ]. split; [by constructor|done].
Qed.
End executes.
