(* ===== verification/History.v ===== *)
(** * A program logic with history

    [does] bounds what a program asks for; some guarantees also depend on what
    happened before.  [safe G h p Q] says: run after the events [h], every
    operation [p] issues is allowed by [G] after the events up to it, and a
    value it returns is in [Q] after the whole run, whatever the responses.

    The reconciliation pass is verified with it component by component: each
    lemma takes the history of the components before it. *)
From S2P Require Import Prelude GoStr Api Effects.

Section safe.
Context {S : sig} (G : trace S → op S → Prop).

Fixpoint safe {A} (h : trace S) (p : prog S A) (Q : trace S → A → Prop) : Prop :=
  match p with
  | Ret a => Q h a
  | Throw _ => True
  | Do c k => G h c ∧ ∀ r, safe (h ++ [ev c r]) (k r) Q
  end.

Lemma safe_mono {A} h (p : prog S A) (Q Q' : trace S → A → Prop) :
  safe h p Q → (∀ h' a, h `prefix_of` h' → Q h' a → Q' h' a) → safe h p Q'.
Proof.
  revert h; induction p as [a|e|c k IH]; intros h Hp HQ; simpl in *; [by apply HQ|done|].
  destruct Hp as [Hc Hk]. split; [done|]. intros r. apply IH; [done|].
  intros h' a Hh. apply HQ. by eapply prefix_app_l.
Qed.

Lemma safe_bind {A B} h (p : prog S A) (f : A → prog S B) Q Q' :
  safe h p Q → (∀ h' a, h `prefix_of` h' → Q h' a → safe h' (f a) Q') → safe h (p ≫= f) Q'.
Proof.
  revert h; induction p as [a|e|c k IH]; intros h Hp Hf; simpl in *; [by apply Hf|done|].
  destruct Hp as [Hc Hk]. split; [done|]. intros r. apply IH; [done|].
  intros h' a Hh. apply Hf. by eapply prefix_app_l.
Qed.

Lemma safe_with_ctx {A} ctx h (p : prog S A) Q : safe h p Q → safe h (with_ctx ctx p) Q.
Proof.
  revert h; induction p as [a|e|c k IH]; intros h Hp; simpl in *; [done..|].
  destruct Hp as [Hc Hk]. split; [done|]. intros r. apply IH, Hk.
Qed.

Lemma safe_catch {A} h (p : prog S A) Q :
  safe h p Q → safe h (catch p) (λ h' x, ∀ a, x = Ok a → Q h' a).
Proof.
  revert h; induction p as [a|e|c k IH]; intros h Hp; simpl in *; [by intros ? [= <-]|done|].
  destruct Hp as [Hc Hk]. split; [done|]. intros r. apply IH, Hk.
Qed.

Lemma safe_call {A} h c (f : ret S c → prog S A) Q :
  G h c → (∀ r, safe (h ++ [ev c r]) (f r) Q) → safe h (call c ≫= f) Q.
Proof. done. Qed.

Lemma safe_check {A} h (r : res A) (Q : trace S → A → Prop) : (∀ a, r = Ok a → Q h a) → safe h (check r) Q.
Proof. destruct r; simpl; auto. Qed.

Lemma safe_check_ctx {A} ctx h (r : res A) (Q : trace S → A → Prop) :
  (∀ a, r = Ok a → Q h a) → safe h (check_ctx ctx r) Q.
Proof. destruct r; simpl; auto. Qed.

Lemma safe_for_each {A} (I : trace S → Prop) h (l : list A) body :
  I h → (∀ h' x, h `prefix_of` h' → x ∈ l → I h' → safe h' (body x) (λ h'' _, I h'')) →
  safe h (for_each l body) (λ h' _, I h').
Proof.
  revert h; induction l as [|x l IH]; intros h Hh Hb; simpl; [done|].
  eapply safe_bind; [apply (Hb h x); [done|apply list_elem_of_here|done]|].
  intros h' [] Hpre Hi. apply IH; [done|]. intros h'' y Hpre' Hy Hi'.
  apply Hb; [exact (transitivity Hpre Hpre')|by apply list_elem_of_further|done].
Qed.

(** Operations that are always allowed need no proof about the history. *)
Lemma safe_issues {A} (R : op S → bool) h (p : prog S A) (Q : trace S → A → Prop) :
  issues_only R p → (∀ h c, R c = true → G h c) → (∀ h' a, h `prefix_of` h' → Q h' a) → safe h p Q.
Proof.
  intros Hp HR. revert h; induction p as [a|e|c k IH]; intros h HQ; simpl in *; [by apply HQ|done|].
  destruct Hp as [Hc Hk]. split; [by apply HR|]. intros r. apply IH; [done|].
  intros h' a Hh. apply HQ. by eapply prefix_app_l.
Qed.

Lemma safe_runs {A} h (p : prog S A) Q tr out :
  safe h p Q → runs p tr out →
  (∀ tr1 e tr2, tr = tr1 ++ e :: tr2 → G (h ++ tr1) (projT1 e)) ∧ ∀ a, out = Ok a → Q (h ++ tr) a.
Proof.
  revert h tr; induction p as [a|e|c k IH]; intros h tr Hp Hr; simpl in *.
  - destruct Hr as [-> ->]. rewrite app_nil_r. split; [by intros [] ? ?|]. by intros ? [= <-].
  - destruct Hr as [-> ->]. split; [by intros [] ? ?|done].
  - destruct Hp as [Hc Hk], Hr as (r & tr' & -> & Hr).
    destruct (IH r (h ++ [ev c r]) tr' (Hk r) Hr) as [H1 H2].
    rewrite <- app_assoc in H2. split; [|done].
    intros [|e0 tr1] e tr2 Heq; simplify_eq/=; [by rewrite app_nil_r|].
    specialize (H1 tr1 e tr2 eq_refl). by rewrite <- app_assoc in H1.
Qed.
End safe.

Lemma safe_impl {S : sig} {A} (G G' : trace S → op S → Prop) h (p : prog S A) Q :
  (∀ h' c, G h' c → G' h' c) → safe G h p Q → safe G' h p Q.
Proof.
  intros HG. revert h; induction p as [a|e|c k IH]; intros h; simpl; [done..|].
  intros [Hc Hk]. split; [by apply HG|]. intros r. apply IH, Hk.
Qed.
