(* ===== verification/Simulation.v ===== *)
(** * Refinement of an abstract protocol

    An abstract machine has states and actions.  A program refines it when the
    events of every run, seen as actions or as nothing at all, are a run of the
    machine.  [refines] is the simulation, program by program; [refines_runs]
    turns it into a statement about whole runs. *)
From S2P Require Import Prelude GoStr Api Effects.

Section refines.
Context {S : sig} {St Act : Type}.
Context (abstracts : event S → option Act → Prop) (step : St → Act → St → Prop).

Definition moves (s : St) (oa : option Act) (s' : St) : Prop :=
  match oa with None => s' = s | Some a => step s a s' end.

Inductive path : St → list Act → St → Prop :=
| path_nil s : path s [] s
| path_cons s a s' l s'' : step s a s' → path s' l s'' → path s (a :: l) s''.

(** The actions a trace stands for. *)
Inductive abs_trace : trace S → list Act → Prop :=
| abs_nil : abs_trace [] []
| abs_silent e tr l : abstracts e None → abs_trace tr l → abs_trace (e :: tr) l
| abs_visible e tr a l : abstracts e (Some a) → abs_trace tr l → abs_trace (e :: tr) (a :: l).

Fixpoint refines {A} (s : St) (p : prog S A) (Q : St → A → Prop) : Prop :=
  match p with
  | Ret a => Q s a
  | Throw _ => True
  | Do c k => ∀ r, ∃ oa s', abstracts (ev c r) oa ∧ moves s oa s' ∧ refines s' (k r) Q
  end.

Lemma refines_bind {A B} s (p : prog S A) (f : A → prog S B) Q Q' :
  refines s p Q → (∀ s' a, Q s' a → refines s' (f a) Q') → refines s (p ≫= f) Q'.
Proof.
  revert s; induction p as [a|e|c k IH]; intros s Hp Hf; simpl in *; [by apply Hf|done|].
  intros r. destruct (Hp r) as (oa & s' & Ha & Hm & Hk). exists oa, s'. split_and!; [done..|]. by apply IH.
Qed.

Lemma refines_mono {A} s (p : prog S A) (Q Q' : St → A → Prop) :
  refines s p Q → (∀ s' a, Q s' a → Q' s' a) → refines s p Q'.
Proof.
  revert s; induction p as [a|e|c k IH]; intros s Hp HQ; simpl in *; [by apply HQ|done|].
  intros r. destruct (Hp r) as (oa & s' & Ha & Hm & Hk). exists oa, s'. split_and!; [done..|]. by apply IH.
Qed.

Lemma refines_with_ctx {A} ctx s (p : prog S A) Q : refines s p Q → refines s (with_ctx ctx p) Q.
Proof.
  revert s; induction p as [a|e|c k IH]; intros s Hp; simpl in *; [done..|].
  intros r. destruct (Hp r) as (oa & s' & Ha & Hm & Hk). exists oa, s'. split_and!; [done..|]. by apply IH.
Qed.

Lemma refines_silent {A} (P : op S → bool) s (p : prog S A) :
  issues_only P p → (∀ c r, P c = true → abstracts (ev c r) None) → refines s p (λ s' _, s' = s).
Proof.
  intros Hp HP. induction p as [a|e|c k IH]; simpl in *; [done..|]. destruct Hp as [Hc Hk].
  intros r. exists None, s. split_and!; [by apply HP|done|]. apply IH, Hk.
Qed.

Lemma refines_runs {A} s (p : prog S A) Q tr out :
  refines s p Q → runs p tr out →
  ∃ acts s', abs_trace tr acts ∧ path s acts s' ∧ ∀ a, out = Ok a → Q s' a.
Proof.
  revert s tr; induction p as [a|e|c k IH]; intros s tr Hp Hr; simpl in *.
  - destruct Hr as [-> ->]. exists [], s. split_and!; [constructor..|]. by intros ? [= <-].
  - destruct Hr as [-> ->]. exists [], s. split_and!; [constructor..|done].
  - destruct Hr as (r & tr' & -> & Hr), (Hp r) as (oa & s' & Ha & Hm & Hk).
    destruct (IH r s' tr' Hk Hr) as (acts & s'' & Ht & Hpath & HQ). destruct oa as [a|]; simpl in Hm.
    + exists (a :: acts), s''. split_and!; [by constructor| |done]. by econstructor.
    + subst. exists acts, s''. split_and!; [by constructor|done..].
Qed.

(** An invariant of the machine holds along every path. *)
Lemma path_inv (I : St → Prop) s l s' : (∀ s a s', I s → step s a s' → I s') → I s → path s l s' → I s'.
Proof. intros Hstep Hs. induction 1; eauto. Qed.
End refines.
