(* ===== verification/Kube.v ===== *)
(** * The operator's environment

    The operations the controllers issue: reads and writes of Kubernetes
    objects, HTTP requests to the instance managers, Sentinel queries, recorded
    events, the clock and the iteration order of Go maps.  Every request is made
    in the namespace of the object being reconciled, which is therefore not
    repeated.

    A patch names the object before and after the mutation (the client sends
    their difference) and its response is the object the server returns, which
    the client decodes over the caller's copy.  The shared readers
    [listClusterPods], [listDataPods] and [listSentinelPods] of [pods.go] and
    the HTTP wrapper [postClusterJSON] of [cluster_bootstrap.go] are here too. *)
From S2P Require Import Prelude GoStr Api Effects.

(** [podStatusResponse] of [status.go]. *)
Record podStatusResponse := mkPodStatus {
  ps_Role : string;
  ps_ReplicationOffset : Z;
  ps_ConnectedReplicas : Z;
  ps_MasterLinkStatus : string;
  ps_Connected : bool;
  ps_NodeID : string;
  ps_PrimaryNodeID : string;
  ps_ClusterState : string;
  ps_SlotsServed : list SlotRange;
  ps_Epoch : Z;
  ps_SlotsAssigned : Z
}.

(** [clusterMigrateRangePayload] of [cluster_reshard.go]. *)
Record clusterMigrateRangePayload := mkMigrate {
  mg_TargetIP : string;
  mg_TargetPort : Z;
  mg_TargetNodeID : string;
  mg_SourceNodeID : string;
  mg_Start : Z;
  mg_End : Z;
  mg_BatchSize : Z;
  mg_TimeoutMS : Z
}.

(** POST endpoints of the instance manager with their payloads. *)
Inductive instance_request :=
| PostPromote
| PostMeet (ip : string) (port : Z)
| PostAddSlots (start end_ : Z)
| PostReplicate (nodeID : string)
| PostMigrateRange (m : clusterMigrateRangePayload).

(** What [http.Client.Do] gives: a transport error, or a status and a body. *)
Inductive http_response := HttpError (msg : string) | HttpStatus (code : Z) (body : string).

(** A GET of the status endpoint: a transport error, or a status code and the
    decoded body (a failure of the JSON decoder is an error). *)
Inductive status_response := StatusError (msg : string) | StatusBody (code : Z) (body : res podStatusResponse).

Inductive event_type := EventNormal | EventWarning.

(** A Redis reply as the client library returns it. *)
Inductive redis_value :=
| RString (s : string) | RBytes (s : string) | RInteger (z : Z) | RNil | RArray (values : list redis_value).

(** [OSetController] is [controllerutil.SetControllerReference] on an object
    with the given controller: its response is the controller reference the
    object has afterwards.  [ORandomPassword] is 16 bytes of [crypto/rand] in
    hexadecimal; [OQuerySentinel] sends the command to the sentinel at an address,
    over TLS when the authorities to trust are given, and responds with the reply. *)
Inductive kube_op :=
| OEvent (type : event_type) (reason message : string)
| ONow
| OMapOrder
| OFailoverMetric
| OGetCluster
| OPatchCluster (optimisticLock : bool) (before after : RedisCluster)
| OPatchStatus (before after : RedisCluster)
| OListPods (selector : gmap string string)
| OGetPod (name : string)
| OCreatePod (pod : Pod)
| OPatchPod (before after : Pod)
| ODeletePod (name : string)
| OGetService (name : string)
| OCreateService (svc : Service)
| OPatchService (before after : Service)
| ODeleteService (name : string)
| OGetPVC (name : string)
| OCreatePVC (pvc : PersistentVolumeClaim)
| OPatchPVC (before after : PersistentVolumeClaim)
| ODeletePVC (name : string)
| OListPVCs (selector : gmap string string)
| OGetStorageClass (name : string)
| OGetPDB (name : string)
| OCreatePDB (pdb : PodDisruptionBudget)
| OPatchPDB (before after : PodDisruptionBudget)
| ODeletePDB (name : string)
| OGetBackup (name : string)
| OGetSecret (name : string)
| OCreateSecret (sec : Secret)
| OUpdateSecret (sec : Secret)
| ODeleteSecret (name : string)
| OListSecrets (selector : gmap string string)
| OGetConfigMap (name : string)
| OCreateConfigMap (cm : ConfigMap)
| OGetServiceAccount (name : string)
| OCreateServiceAccount (sa : ServiceAccount)
| OGetRole (name : string)
| OCreateRole (role : Role)
| OUpdateRole (role : Role)
| OGetRoleBinding (name : string)
| OCreateRoleBinding (rb : RoleBinding)
| OUpdateRoleBinding (rb : RoleBinding)
| ODeleteRoleBinding (name : string)
| OSetController (owner : RedisCluster) (current : option string)
| ORandomPassword
| OQuerySentinel (addr : string) (roots : option string) (args : list string)
| OGetStatus (ip : string)
| OPost (ip : string) (req : instance_request).

Definition kube_ret (c : kube_op) : Type :=
  match c with
  | OEvent _ _ _ => unit
  | ONow => Z
  | OMapOrder => oracle
  | OFailoverMetric => unit
  | OGetCluster => res RedisCluster
  | OPatchCluster _ _ _ => res RedisCluster
  | OPatchStatus _ _ => res RedisCluster
  | OListPods _ => res (list Pod)
  | OGetPod _ => res Pod
  | OCreatePod _ => res unit
  | OPatchPod _ _ => res Pod
  | ODeletePod _ => res unit
  | OGetService _ => res Service
  | OCreateService _ => res unit
  | OPatchService _ _ => res unit
  | ODeleteService _ => res unit
  | OGetPVC _ => res PersistentVolumeClaim
  | OCreatePVC _ => res unit
  | OPatchPVC _ _ => res PersistentVolumeClaim
  | ODeletePVC _ => res unit
  | OListPVCs _ => res (list PersistentVolumeClaim)
  | OGetStorageClass _ => res StorageClass
  | OGetPDB _ => res PodDisruptionBudget
  | OCreatePDB _ => res unit
  | OPatchPDB _ _ => res unit
  | ODeletePDB _ => res unit
  | OGetBackup _ => res RedisBackup
  | OGetSecret _ => res Secret
  | OCreateSecret _ => res unit
  | OUpdateSecret _ => res unit
  | ODeleteSecret _ => res unit
  | OListSecrets _ => res (list Secret)
  | OGetConfigMap _ => res ConfigMap
  | OCreateConfigMap _ => res unit
  | OGetServiceAccount _ => res ServiceAccount
  | OCreateServiceAccount _ => res unit
  | OGetRole _ => res Role
  | OCreateRole _ => res unit
  | OUpdateRole _ => res unit
  | OGetRoleBinding _ => res RoleBinding
  | OCreateRoleBinding _ => res unit
  | OUpdateRoleBinding _ => res unit
  | ODeleteRoleBinding _ => res unit
  | OSetController _ _ => res (option string)
  | ORandomPassword => res string
  | OQuerySentinel _ _ _ => res redis_value
  | OGetStatus _ => status_response
  | OPost _ _ => http_response
  end.

Definition kube : sig := mkSig kube_op kube_ret.
Abbreviation kprog := (prog kube).
Abbreviation kev c r := (ev (S := kube) c r).

Abbreviation kissues P p := (issues_only (S := kube) P p).

Definition ev_op (e : event kube) : kube_op := projT1 e.

(** What an event of each kind carries: equal events have equal views. *)
Definition view_patch (e : event kube) : option (bool * RedisCluster * RedisCluster * res RedisCluster) :=
  match e with existT c r =>
    match c return kube_ret c → option (bool * RedisCluster * RedisCluster * res RedisCluster) with
    | OPatchCluster lock b a => λ r, Some (lock, b, a, r) | _ => λ _, None end r
  end.
Definition view_status (e : event kube) : option (RedisCluster * RedisCluster * res RedisCluster) :=
  match e with existT c r =>
    match c return kube_ret c → option (RedisCluster * RedisCluster * res RedisCluster) with
    | OPatchStatus b a => λ r, Some (b, a, r) | _ => λ _, None end r
  end.
Definition view_post (e : event kube) : option (string * instance_request * http_response) :=
  match e with existT c r =>
    match c return kube_ret c → option (string * instance_request * http_response) with
    | OPost ip req => λ r, Some (ip, req, r) | _ => λ _, None end r
  end.
Definition view_pods (e : event kube) : option (gmap string string * res (list Pod)) :=
  match e with existT c r =>
    match c return kube_ret c → option (gmap string string * res (list Pod)) with
    | OListPods sel => λ r, Some (sel, r) | _ => λ _, None end r
  end.

(** [call] at this signature, with the response type reduced. *)
Definition kcall (c : kube_op) : kprog (kube_ret c) := call (S := kube) c.

Definition Event (type : event_type) (reason message : string) : kprog unit :=
  kcall (OEvent type reason message).

(** [r.Patch(ctx, cluster, client.MergeFrom(before))] *)
Definition Patch (before after : RedisCluster) : kprog RedisCluster :=
  kcall (OPatchCluster false before after) ≫= check.

(** The same with [MergeFromWithOptimisticLock]. *)
Definition PatchLocked (before after : RedisCluster) : kprog RedisCluster :=
  kcall (OPatchCluster true before after) ≫= check.

(** [r.Status().Patch(ctx, cluster, client.MergeFrom(before))] *)
Definition StatusPatch (before after : RedisCluster) : kprog RedisCluster :=
  kcall (OPatchStatus before after) ≫= check.

(** [if err := r.Delete(...); err != nil && !errors.IsNotFound(err)] *)
Definition delete_ignoring_not_found (r : res unit) : res unit :=
  match r with
  | Ok _ => Ok tt
  | Err e => if IsNotFound e then Ok tt else Err e
  end.

Definition listClusterPods (cluster : RedisCluster) : kprog (list Pod) :=
  kcall (OListPods {[ LabelCluster := Name cluster ]}) ≫= check.

Definition listDataPods (cluster : RedisCluster) : kprog (list Pod) :=
  allPods ← listClusterPods cluster;
  mret (filter (λ pod, pod_label pod LabelRole ≠ LabelRoleSentinel) allPods).

Definition listSentinelPods (cluster : RedisCluster) : kprog (list Pod) :=
  kcall (OListPods {[ LabelCluster := Name cluster; LabelRole := LabelRoleSentinel ]}) ≫= check.

(** An empty IP fails before any request; a status other than 200 is a
    [clusterHTTPError]. *)
Definition postClusterJSON (podIP : string) (req : instance_request) : kprog unit :=
  if bool_decide (podIP = "") then Throw (Errorf "pod IP is empty")
  else
    resp ← kcall (OPost podIP req);
    match resp with
    | HttpError msg => Throw (Errorf ("POST: " +:+ msg))
    | HttpStatus code body =>
        if bool_decide (code = 200) then mret tt else Throw (EHTTP code (TrimSpace body))
    end.

Definition pollPodStatus (podIP : string) : kprog podStatusResponse :=
  resp ← kcall (OGetStatus podIP);
  match resp with
  | StatusError msg => Throw (Errorf ("HTTP GET: " +:+ msg))
  | StatusBody code body =>
      if bool_decide (code ≠ 200) then Throw (Errorf ("HTTP GET returned " +:+ itoa code))
      else check_ctx "decoding status response" body
  end.

Definition promoteInstance (podIP : string) : kprog unit :=
  resp ← kcall (OPost podIP PostPromote);
  match resp with
  | HttpError msg => Throw (Errorf ("POST /v1/promote: " +:+ msg))
  | HttpStatus code _ =>
      if bool_decide (code = 200) then mret tt else Throw (Errorf ("POST /v1/promote returned " +:+ itoa code))
  end.

Lemma does_kcall {A} P (c : kube_op) (f : kube_ret c → kprog A) Q :
  P c → (∀ r, does (S := kube) P (f r) Q) → does (S := kube) P (kcall c ≫= f) Q.
Proof. done. Qed.

(** Decompose an equality of events; absurd ones close the goal. *)
Ltac ev_eq H :=
  let Hv := fresh in
  first
    [ pose proof (f_equal view_patch H) as Hv; cbn in Hv; (discriminate Hv || injection Hv as)
    | pose proof (f_equal view_status H) as Hv; cbn in Hv; (discriminate Hv || injection Hv as)
    | pose proof (f_equal view_post H) as Hv; cbn in Hv; (discriminate Hv || injection Hv as)
    | pose proof (f_equal view_pods H) as Hv; cbn in Hv; (discriminate Hv || injection Hv as)
    | pose proof (f_equal (@projT1 _ _) H) as Hv; cbn in Hv; discriminate Hv ];
  simplify_eq.

(** Membership of an event in an explicit trace. *)
Ltac ev_in H :=
  repeat (rewrite elem_of_app in H || rewrite elem_of_cons in H || rewrite list_elem_of_singleton in H);
  repeat match type of H with
  | _ ∨ _ => destruct H as [H|H]
  | _ ∈ [] => by apply elem_of_nil in H
  | _ = _ => ev_eq H
  end.

(** ** Small facts about pods *)

Definition isPodRunningAndReady (pod : Pod) : bool :=
  bool_decide (p_Phase pod = "Running") &&
  existsb (λ c, bool_decide (c.1 = "Ready") && bool_decide (c.2 = ConditionTrue)) (p_Conditions pod).

Definition specHashAnnotation := "redis.io/spec-hash".

Definition getPodSpecHash (pod : Pod) : string :=
  match p_Annotations pod !! specHashAnnotation with
  | Some hash => hash
  | None => default "" (p_Labels pod !! specHashAnnotation)
  end.

(** The names of the pods, with the pod found last under each name
    ([podsByName]). *)
Definition pods_by_name (pods : list Pod) : gmap string Pod :=
  foldl (λ m pod, <[p_Name pod := pod]> m) ∅ pods.

Lemma pods_by_name_lookup pods n pod :
  pods_by_name pods !! n = Some pod → pod ∈ pods ∧ p_Name pod = n.
Proof.
  unfold pods_by_name.
  assert (∀ ps (m : gmap string Pod), (∀ n pod, m !! n = Some pod → pod ∈ pods ∧ p_Name pod = n) →
            (∀ p, p ∈ ps → p ∈ pods) →
            ∀ n pod, foldl (λ m pod, <[p_Name pod := pod]> m) m ps !! n = Some pod →
            pod ∈ pods ∧ p_Name pod = n) as H; [|apply H; [|done]; intros n0 pod0; by rewrite lookup_empty].
  induction ps as [|p ps IH]; intros m Hm Hsub; simpl; [done|].
  apply IH; [|set_solver]. intros n' pod'. rewrite lookup_insert. case_decide; [|apply Hm].
  intros [= <-]. split; [apply Hsub; set_solver|done].
Qed.

Lemma pods_by_name_listed pods pod :
  NoDup (p_Name <$> pods) → pod ∈ pods → pods_by_name pods !! p_Name pod = Some pod.
Proof.
  unfold pods_by_name. intros Hnd Hin. induction pods as [|p pods IH] using rev_ind; [by apply elem_of_nil in Hin|].
  rewrite fmap_app in Hnd. apply NoDup_app in Hnd as (Hnd & Hne & _).
  rewrite foldl_app. simpl. rewrite lookup_insert. case_decide as Hn.
  - apply elem_of_app in Hin as [Hin|Hin%list_elem_of_singleton]; [|by subst].
    exfalso. apply (Hne (p_Name pod)); [by apply list_elem_of_fmap_2|]. simpl. rewrite Hn. apply list_elem_of_here.
  - apply elem_of_app in Hin as [Hin|Hin%list_elem_of_singleton]; [|by subst]. by apply IH.
Qed.

(** ** Service selectors ([services.go]) *)

Definition updateLeaderServiceSelector (cluster : RedisCluster) : kprog unit :=
  r ← kcall (OGetService (leaderServiceName (Name cluster)));
  svc ← check_ctx "getting leader service" r;
  let desiredSelector : gmap string string :=
    {[ LabelCluster := Name cluster; LabelInstance := Status_CurrentPrimary (Status cluster) ]} in
  if bool_decide (default "" (svc_Selector svc !! LabelInstance) = Status_CurrentPrimary (Status cluster))
  then mret tt
  else
    let svc' := mkService (svc_Name svc) (svc_Labels svc) (svc_Annotations svc) desiredSelector
                  (svc_Ports svc) (svc_ClusterIP svc) in
    kcall (OPatchService svc svc') ≫= check.

(** While hibernating no pod matches the leader selector. *)
Definition clearLeaderServiceSelector (cluster : RedisCluster) : kprog unit :=
  r ← kcall (OGetService (leaderServiceName (Name cluster)));
  match r with
  | Err e => if IsNotFound e then mret tt else Throw (Wrap "getting leader service" e)
  | Ok svc =>
      let svc' := mkService (svc_Name svc) (svc_Labels svc) (svc_Annotations svc)
                    {[ LabelCluster := Name cluster; LabelInstance := "none" ]}
                    (svc_Ports svc) (svc_ClusterIP svc) in
      kcall (OPatchService svc svc') ≫= check
  end.

(** ** Which requests a handler makes *)

Definition no_status_patch (c : kube_op) : bool :=
  match c with OPatchStatus _ _ => false | _ => true end.

Definition no_post (c : kube_op) : bool := match c with OPost _ _ => false | _ => true end.

Lemma listClusterPods_no_status c : kissues no_status_patch (listClusterPods c).
Proof. unfold listClusterPods, kcall. issues. Qed.
Lemma promoteInstance_no_status ip : kissues no_status_patch (promoteInstance ip).
Proof. unfold promoteInstance, kcall. issues. Qed.
Lemma updateLeader_no_status c : kissues no_status_patch (updateLeaderServiceSelector c).
Proof. unfold updateLeaderServiceSelector, kcall. issues. Qed.
Lemma listDataPods_no_status c : kissues no_status_patch (listDataPods c).
Proof. unfold listDataPods, listClusterPods, kcall. issues. Qed.
Lemma listSentinelPods_no_status c : kissues no_status_patch (listSentinelPods c).
Proof. unfold listSentinelPods, kcall. issues. Qed.

#[export] Hint Resolve listClusterPods_no_status promoteInstance_no_status updateLeader_no_status
  listDataPods_no_status listSentinelPods_no_status : redis.

Lemma promoteInstance_ok ip tr u :
  runs (promoteInstance ip) tr (Ok u) →
  ∃ body, tr = [kev (OPost ip PostPromote) (HttpStatus 200 body)].
Proof.
  intros (r & tr' & -> & H). destruct r as [msg|code body]; [by destruct H|]; simpl in H.
  case_bool_decide; [|by destruct H]. destruct H as [-> _]. subst. by exists body.
Qed.

Lemma listClusterPods_ok c tr pods :
  runs (listClusterPods c) tr (Ok pods) → ∃ sel, tr = [kev (OListPods sel) (Ok pods)].
Proof.
  intros (r & tr' & -> & H). apply runs_check in H as [-> <-]. eauto.
Qed.

Lemma postClusterJSON_posts ip req tr out ip' req' r :
  runs (postClusterJSON ip req) tr out → kev (OPost ip' req') r ∈ tr → ip' = ip ∧ req' = req ∧ ip ≠ "".
Proof.
  unfold postClusterJSON. case_bool_decide as Hip; [intros [-> _] ?%elem_of_nil; done|].
  intros (resp & tr' & -> & H) Hin. assert (tr' = []) as ->.
  { destruct resp; simpl in H; [by destruct H|]. case_bool_decide; by destruct H. }
  apply list_elem_of_singleton in Hin. by ev_eq Hin.
Qed.

(** Skip the part of a program that cannot issue the operation at hand: [Ha]
    is its complete run, with result [a]. *)
Tactic Notation "skip_past" constr(P) "in" hyp(H) "as" ident(a) ident(Ha) :=
  let tra := fresh "tra" in let trb := fresh "trb" in
  apply (runs_bind_after (S := kube) P) in H as (a & tra & trb & -> & Ha & H);
    [|auto with redis|done]; cbn beta in H.

(** The first status patch of a program that starts with one. *)
Lemma status_patch_first {A} ctx b0 a0 (f : RedisCluster → kprog A) tr1 b a r tr2 out :
  runs (with_ctx ctx (StatusPatch b0 a0) ≫= f) (tr1 ++ kev (OPatchStatus b a) r :: tr2) out →
  (∀ c, kissues no_status_patch (f c)) → a = a0.
Proof.
  intros H Hf. simpl in H. destruct H as (r' & tr' & Heq & H).
  destruct tr1 as [|e0 tr1]; simpl in Heq; [apply (f_equal (λ l, head l ≫= view_status)) in Heq; cbn in Heq; by injection Heq|].
  apply (f_equal tail) in Heq. simpl in Heq. subst tr'. exfalso.
  assert (kissues no_status_patch (with_ctx ctx (check r') ≫= f)) as Hi by (apply issues_bind; [by destruct r'|done]).
  eapply (runs_issues_no _ _ _ _ (kev (OPatchStatus b a) r)) in H; [|exact Hi|done]. set_solver.
Qed.

