(* ===== verification/Fixtures.v ===== *)
(** * Concrete clusters and an executable environment

    Small clusters, pods and statuses, and an environment that accepts every
    request and echoes the object it was sent: what an API server without
    concurrent writers does.  The witnesses of the theorems run the handlers
    in it. *)
From S2P Require Import Prelude GoStr Api Effects Kube.
From Stdlib Require Import Ascii.

Definition gib : Z := 2 ^ 30.
Definition quantity_of (v : Z) : Quantity := mkQuantity (v * 10 ^ 9) v (itoa v).

Definition base_spec (mode : ClusterMode) (instances shards replicas : Z) : RedisClusterSpec := {|
  Spec_Instances := instances; Spec_Mode := mode; Spec_Shards := shards;
  Spec_ReplicasPerShard := replicas;
  Spec_PrimaryUpdateStrategy := PrimaryUpdateStrategyUnsupervised;
  Spec_ImageName := "redis:7.4";
  Spec_Storage := mkStorage StorageTypePVC (quantity_of gib) None;
  Spec_Redis := ∅; Spec_Limits := ∅; Spec_Requests := None; Spec_Memory := None;
  Spec_MinSyncReplicas := 0; Spec_MaxSyncReplicas := 0;
  Spec_EnablePodDisruptionBudget := None; Spec_AuthSecret := None;
  Spec_ACLConfigSecret := None; Spec_TLSSecret := None; Spec_CASecret := None;
  Spec_BackupCredentialsSecret := None; Spec_PrimaryIsolation := None; Spec_Bootstrap := None;
  Spec_NodeMaintenanceWindow := None; Spec_ReplicaMode := None; Spec_ConnectionSecret := None |}.

Definition base_status (primary : string) (statuses : gmap string InstanceStatus) : RedisClusterStatus := {|
  Status_Phase := ClusterPhaseHealthy; Status_CurrentPrimary := primary;
  Status_ReadyInstances := 0; Status_SentinelReadyInstances := 0; Status_Instances := 0;
  Status_InstancesStatus := statuses; Status_ClusterState := ""; Status_SlotsAssigned := 0;
  Status_BootstrapCompleted := false; Status_Shards := ∅; Status_HealthyPVC := 0;
  Status_DanglingPVC := []; Status_SecretsResourceVersion := ∅; Status_Conditions := [] |}.

Definition base_cluster (spec : RedisClusterSpec) (status : RedisClusterStatus) : RedisCluster :=
  mkCluster "c" "default" "uid-1" ∅ spec status.

Definition replica_status (connected : bool) (offset : Z) : InstanceStatus :=
  mkInstanceStatus "slave" connected offset 0 0 "up" "" "" [] "" 0 None.
Definition primary_status (connected : bool) (offset : Z) : InstanceStatus :=
  mkInstanceStatus "master" connected offset 0 2 "" "" "" [] "" 0 None.

(** Three instances, the primary down, the two replicas at different offsets. *)
Definition three_statuses : gmap string InstanceStatus :=
  {[ "c-0" := primary_status false 0; "c-1" := replica_status true 90; "c-2" := replica_status true 120 ]}.
Definition three : RedisCluster :=
  base_cluster (base_spec ClusterModeStandalone 3 0 0) (base_status "c-0" three_statuses).

Definition mk_pod (name ip : string) (labels : gmap string string) (ready : bool) : Pod := {|
  p_Name := name; p_Labels := labels; p_Annotations := ∅; p_Controller := Some "uid-1";
  p_Volumes := [mkVolume "data" (VolPVC name)];
  p_Template := mkTemplate "c" (mkPodSecurityContext true 999 999 999 "RuntimeDefault") [] []; p_Phase := "Running"; p_PodIP := ip;
  p_Conditions := [("Ready", if ready then ConditionTrue else ConditionFalse)] |}.

Definition three_pods : list Pod :=
  [mk_pod "c-0" "10.0.0.1" ∅ false; mk_pod "c-1" "10.0.0.2" ∅ true; mk_pod "c-2" "10.0.0.3" ∅ true].

Definition leader_service : Service :=
  mkService "c-leader" ∅ ∅ {[ LabelCluster := "c"; LabelInstance := "c-0" ]} [mkServicePort "redis" 6379 6379 "TCP"] "".

(** What the environment holds besides the objects the handlers pass in. *)
Record world := mkWorld {
  w_cluster : RedisCluster;
  w_pods : list Pod;
  w_statuses : gmap string podStatusResponse
}.

Definition fake : environment kube world := λ w c,
  match c return kube_ret c * world with
  | OEvent _ _ _ => (tt, w)
  | ONow => (0, w)
  | OMapOrder => (λ _, [], w)
  | OFailoverMetric => (tt, w)
  | OGetCluster => (Ok (w_cluster w), w)
  | OPatchCluster _ _ a => (Ok a, mkWorld a (w_pods w) (w_statuses w))
  | OPatchStatus _ a => (Ok a, mkWorld a (w_pods w) (w_statuses w))
  | OListPods sel => (Ok (filter (λ p, map_Forall (λ k v, p_Labels p !! k = Some v) sel) (w_pods w)), w)
  | OGetPod name => (match List.find (λ p, bool_decide (p_Name p = name)) (w_pods w) with
                     | Some p => Ok p | None => Err (ENotFound name) end, w)
  | OCreatePod pod => (Ok tt, mkWorld (w_cluster w) (w_pods w ++ [pod]) (w_statuses w))
  | OPatchPod _ a => (Ok a, w)
  | ODeletePod name =>
      (Ok tt, mkWorld (w_cluster w) (filter (λ p, p_Name p ≠ name) (w_pods w)) (w_statuses w))
  | OGetService _ => (Ok leader_service, w)
  | OCreateService _ => (Ok tt, w)
  | OPatchService _ _ => (Ok tt, w)
  | ODeleteService _ => (Ok tt, w)
  | OGetPVC name => (Err (ENotFound name), w)
  | OCreatePVC _ => (Ok tt, w)
  | OPatchPVC _ a => (Ok a, w)
  | ODeletePVC _ => (Ok tt, w)
  | OListPVCs _ => (Ok [], w)
  | OGetStorageClass name => (Err (ENotFound name), w)
  | OGetPDB name => (Err (ENotFound name), w)
  | OCreatePDB _ => (Ok tt, w)
  | OPatchPDB _ _ => (Ok tt, w)
  | ODeletePDB _ => (Ok tt, w)
  | OGetBackup name => (Err (ENotFound name), w)
  | OGetSecret name => (Err (ENotFound name), w)
  | OCreateSecret _ => (Ok tt, w)
  | OUpdateSecret _ => (Ok tt, w)
  | ODeleteSecret _ => (Ok tt, w)
  | OListSecrets _ => (Ok [], w)
  | OGetConfigMap name => (Err (ENotFound name), w)
  | OCreateConfigMap _ => (Ok tt, w)
  | OGetServiceAccount name => (Err (ENotFound name), w)
  | OCreateServiceAccount _ => (Ok tt, w)
  | OGetRole name => (Err (ENotFound name), w)
  | OCreateRole _ => (Ok tt, w)
  | OUpdateRole _ => (Ok tt, w)
  | OGetRoleBinding name => (Err (ENotFound name), w)
  | OCreateRoleBinding _ => (Ok tt, w)
  | OUpdateRoleBinding _ => (Ok tt, w)
  | ODeleteRoleBinding _ => (Ok tt, w)
  | OSetController owner _ => (Ok (Some (UID owner)), w)
  | ORandomPassword => (Ok "00112233445566778899aabbccddeeff", w)
  | OQuerySentinel addr _ _ =>
      (Ok (RArray [RString (match cut_char addr ":"%char with Some (ip, _) => ip | None => addr end); RString "6379"]), w)
  | OGetStatus ip => (match w_statuses w !! ip with Some s => StatusBody 200 (Ok s) | None => StatusError "unreachable" end, w)
  | OPost _ _ => (HttpStatus 200 "", w)
  end.

(** The same server with instance managers that do not answer. *)
Definition fake_down : environment kube world := λ w c,
  match c as c return kube_ret c * world with
  | OPost _ _ => (HttpError "connection refused", w)
  | c => fake w c
  end.

Lemma env_runs {W A} (env : environment kube W) (w : W) (p : kprog A) :
  runs p (interp env w p).1.1 (interp env w p).1.2.
Proof. destruct (interp env w p) as [[tr out] w'] eqn:E. by eapply interp_runs. Defined.

(** The run of a handler in [fake]. *)
Definition fake_trace {A} (w : world) (p : kprog A) : trace kube := (interp fake w p).1.1.
Definition fake_result {A} (w : world) (p : kprog A) : res A := (interp fake w p).1.2.

Lemma fake_runs {A} (w : world) (p : kprog A) : runs p (fake_trace w p) (fake_result w p).
Proof. apply env_runs. Defined.

Definition with_label (labels : gmap string string) (p : Pod) : Pod :=
  mkPod (p_Name p) labels (p_Annotations p) (p_Controller p) (p_Volumes p) (p_Template p) (p_Phase p) (p_PodIP p)
    (p_Conditions p).

Definition three_world : world :=
  mkWorld three (with_label {[ LabelCluster := "c" ]} <$> three_pods) ∅.

(** Three shards with one replica each; shard 1 was created with a second
    replica that belongs to shard 2. *)
Definition shard_node (role id primary : string) (slots : list SlotRange) : InstanceStatus :=
  mkInstanceStatus role true 10 0 1 "up" id primary slots "ok" 1 None.

Definition six_statuses : gmap string InstanceStatus :=
  {[ "c-0" := shard_node "master" "n0" "" [mkSlotRange 0 5461];
     "c-1" := shard_node "master" "n1" "" [mkSlotRange 5462 10922];
     "c-2" := shard_node "master" "n2" "" [mkSlotRange 10923 16383];
     "c-3" := shard_node "slave" "n3" "n0" [];
     "c-4" := shard_node "slave" "n4" "n1" [];
     "c-5" := shard_node "slave" "n5" "n1" [] ]}.

Definition six : RedisCluster :=
  base_cluster (base_spec ClusterModeCluster 0 3 1) (base_status "" six_statuses).

Definition six_pods : list Pod :=
  (λ i, mk_pod (podNameForIndex "c" i) (podNameForIndex "10.0.0." i) ∅ true) <$> upto 6.

Definition six_world : world :=
  mkWorld six (with_label {[ LabelCluster := "c" ]} <$> six_pods) ∅.

(** The same nodes before any slot is assigned. *)
Definition fresh_statuses : gmap string InstanceStatus :=
  {[ "c-0" := shard_node "master" "n0" "" []; "c-1" := shard_node "master" "n1" "" [];
     "c-2" := shard_node "master" "n2" "" []; "c-3" := shard_node "master" "n3" "" [];
     "c-4" := shard_node "master" "n4" "" []; "c-5" := shard_node "master" "n5" "" [] ]}.

(** Two slots of the first range sit on [c-0], while [c-1] holds the larger
    part of it and owns the shard. *)
Definition skewed_statuses : gmap string InstanceStatus :=
  <["c-0" := shard_node "master" "n0" "" [mkSlotRange 7 8] ]>
  (<["c-1" := shard_node "master" "n1" "" [mkSlotRange 0 6] ]> (
   <["c-2" := shard_node "master" "n2" "" [mkSlotRange 10923 10924] ]> six_statuses)).

Definition with_cluster_state (c : RedisCluster) (state : string) (slots : Z) : RedisCluster :=
  let s := Status c in
  set_Status c (mkStatus (Status_Phase s) (Status_CurrentPrimary s) (Status_ReadyInstances s)
    (Status_SentinelReadyInstances s) (Status_Instances s) (Status_InstancesStatus s)
    state slots (Status_BootstrapCompleted s) (Status_Shards s) (Status_HealthyPVC s)
    (Status_DanglingPVC s) (Status_SecretsResourceVersion s) (Status_Conditions s)).
