(* ===== verification/Topology.v ===== *)
(** * Slots and shard layout: the guarantees

    Cluster mode rests on two computations: the division of the hash slots and
    the assignment of pods to shards.  The theorems hold for every order in
    which Go iterates the status maps. *)
From S2P Require Import Prelude GoStr Api Json Fixtures Slots Layout LayoutFacts.

(** ** Hash slots *)

(** The slot ranges of [n] primaries are [n] ranges that, read in order,
    list each of the 16384 slots exactly once, and the size of any two differs
    by at most one. *)
Theorem slot_ranges_partition n :
  0 < n →
  length (calculateClusterSlotRanges n) = Z.to_nat n ∧
  ranges_slots (calculateClusterSlotRanges n) = upto slotCount ∧
  ∀ r1 r2, r1 ∈ calculateClusterSlotRanges n → r2 ∈ calculateClusterSlotRanges n →
    Z.abs ((sr_End r1 - sr_Start r1) - (sr_End r2 - sr_Start r2)) ≤ 1.
Proof.
  intros Hn. split; [by apply calculateClusterSlotRanges_length|].
  split; [by apply calculateClusterSlotRanges_slots|].
  unfold calculateClusterSlotRanges. rewrite bool_decide_false by lia.
  intros r1 r2 H1%slot_ranges_loop_sizes H2%slot_ranges_loop_sizes. lia.
Qed.

(** Coverage marks exactly the slots some polled instance serves, clamped
    to the slot space, and two iterations of the status map in different orders
    give the same coverage. *)
Theorem slot_coverage_exact statuses picks picks' z :
  calculateSlotCoverage (range_map picks statuses) = calculateSlotCoverage (range_map picks' statuses) ∧
  (z ∈ calculateSlotCoverage (range_map picks statuses) ↔
   ∃ name st, statuses !! name = Some st ∧ serves (is_SlotsServed st) z).
Proof.
  split; [by rewrite !range_map_perm|]. rewrite elem_of_calculateSlotCoverage.
  by setoid_rewrite elem_of_range_map.
Qed.

(** The gaps of a shard's range list exactly its uncovered slots, in
    increasing order and once each, and each gap is a maximal run: the slot
    after it is covered or ends the range.  The loop always finishes. *)
Theorem uncovered_ranges_exact target coverage :
  ranges_slots (calculateUncoveredSlotRanges target coverage) =
    filter (λ z, z ∉ coverage) (range_slots (clamp_range target)) ∧
  ∀ r, r ∈ calculateUncoveredSlotRanges target coverage →
    maximal_run coverage (sr_End (clamp_range target)) r.
Proof.
  unfold calculateUncoveredSlotRanges. case_bool_decide as Hempty.
  - split; [|set_solver]. unfold range_slots.
    by replace (Z.to_nat _) with 0%nat by lia.
  - split.
    + rewrite uncovered_loop_slots by lia. done.
    + intros r Hr. eapply uncovered_loop_maximal; [|done]. lia.
Qed.

(** ** Shard layout *)

(** The pods a layout is about: those of the desired size and those listed. *)
Definition planned_pod (cluster : RedisCluster) (pods : list Pod) (n : string) : Prop :=
  (∃ i, 0 ≤ i < DesiredDataInstances (Spec cluster) ∧ n = Name cluster +:+ "-" +:+ itoa i) ∨
  (∃ pod, pod ∈ pods ∧ p_Name pod = n).

(** What a layout over the pods that satisfy [pod] must satisfy. *)
Record layout_wf (pod : string → Prop) (l : shardLayout) : Prop := {
  wf_total n : pod n → ∃ s, n ∈ members_of l s;
  wf_only n s : n ∈ members_of l s → pod n;
  wf_members n s : shardOf l !! n = Some s ↔ n ∈ members_of l s;
  wf_nodup s : NoDup (members_of l s);
  wf_disjoint s s' n : n ∈ members_of l s → n ∈ members_of l s' → s = s'
}.

Lemma planned_pod_names cluster pods n : planned_pod cluster pods n ↔ n ∈ plan_names cluster pods.
Proof. rewrite elem_of_plan_names. unfold planned_pod, podNameForIndex. naive_solver. Qed.

(** C25: The planner puts every pod, whether it belongs to the desired size or is
    only listed, in exactly one shard: the member lists, without repetitions,
    partition these pods and contain nothing else, and [shardOf] names the shard
    each is a member of, for every topology the pods report and every map
    iteration order. *)
Theorem layout_partitions_pods cluster pods statuses ord l :
  planShardLayout cluster pods statuses ord = Some l → layout_wf (planned_pod cluster pods) l.
Proof.
  intros Hl. split.
  - intros n Hn%planned_pod_names. eapply planned_total in Hn as [s Hs]; [|done]. exists s. by eapply planned_members.
  - intros n s Hn. eapply planned_members in Hn; [|done]. apply planned_pod_names. by eapply planned_only.
  - by eapply planned_members.
  - by eapply planned_nodup.
  - intros s s' n H1 H2. by eapply planned_disjoint.
Qed.

(** The planner never makes a pod that a scale-down will delete the primary
    of a shard; the primary of a shard is one of its members, and a pod is the
    primary of at most one shard. *)
Theorem layout_primaries_survive cluster pods statuses ord l s p :
  planShardLayout cluster pods statuses ord = Some l → primaryOf l !! s = Some p →
  index_of cluster p < DesiredDataInstances (Spec cluster) ∧ p ∈ members_of l s ∧
  isPrimary l p = true ∧ ∀ s', primaryOf l !! s' = Some p → s' = s.
Proof.
  intros Hl Hp. pose proof (planned_primary _ _ _ _ _ Hl s p Hp) as (Hne & Hs & Hd).
  unfold doomed in Hd. bsimpl. split; [lia|]. split; [by eapply planned_members|].
  split.
  - unfold isPrimary, primary_of. rewrite Hs, Hp. by apply bool_decide_eq_true.
  - intros s' Hp'. eapply planned_primary in Hp' as (_ & Hs' & _); [|done]. congruence.
Qed.

(** Slots stay where they are: every pod that serves slots is recorded as
    the owner of a shard of its own and, unless it is being drained, it stays
    the primary of that shard. *)
Theorem layout_keeps_owners cluster pods statuses ord l n :
  planShardLayout cluster pods statuses ord = Some l → n ∈ plan_names cluster pods →
  is_SlotsServed (status_of statuses n) ≠ [] →
  ∃ s, ownerOf l !! s = Some n ∧ shardOf l !! n = Some s ∧
    (index_of cluster n < DesiredDataInstances (Spec cluster) →
     primaryOf l !! s = Some n ∧ handingOver l s = false).
Proof.
  intros Hl Hn Hs. destruct (planned_owned _ _ _ _ _ Hl n Hn Hs) as [s Ho]. exists s.
  destruct (planned_owner _ _ _ _ _ Hl s n Ho) as [Hshard Hp]. split; [done|]. split; [done|].
  intros Hi. assert (primaryOf l !! s = Some n) as Hprim by (apply Hp; apply bool_decide_eq_false; lia).
  split; [done|]. unfold handingOver, primary_of. rewrite Ho, Hprim. apply bool_decide_eq_false. naive_solver.
Qed.

(** Rebalancing moves only what is safe to move: a pod with a planned move
    is a connected replica that serves no slots, is not the primary of its
    shard and is not being drained, and its target is a shard of the desired
    topology. *)
Theorem replica_moves_safe cluster pods statuses ord l n t :
  planShardLayout cluster pods statuses ord = Some l → replicaMoves l !! n = Some t →
  0 ≤ t < desiredShardCount cluster ∧
  is_Connected (status_of statuses n) = true ∧ is_Role (status_of statuses n) = "slave" ∧
  is_SlotsServed (status_of statuses n) = [] ∧ isPrimary l n = false ∧
  index_of cluster n < DesiredDataInstances (Spec cluster).
Proof.
  intros Hl Hm. pose proof (planned_eq _ _ _ _ _ Hl) as Heq.
  set (l0 := sort_members cluster (pl (plan_state cluster pods statuses ord))) in Heq.
  destruct (planReplicaMoves_same cluster statuses l0) as (Hso & Hpo & _ & _).
  assert (isPrimary l n = isPrimary l0 n) as Hip by (unfold isPrimary, primary_of; by rewrite Heq, Hso, Hpo).
  rewrite Heq in Hm. apply planReplicaMoves_ok in Hm as (Ht & Hmov & _); [|apply plan_state_moves].
  apply elem_of_upto in Ht. unfold movable in Hmov. bsimpl. unfold doomed in *. bsimpl.
  rewrite Hip. split_and!; try done; lia.
Qed.

(** Rebalancing respects the desired replica count: carrying out the moves
    leaves a shard that gives replicas up with at least replicasPerShard
    surviving ones, and a shard that receives some with at most that many. *)
Theorem replica_moves_balance cluster pods statuses ord l s :
  planShardLayout cluster pods statuses ord = Some l → 0 ≤ s < desiredShardCount cluster →
  let want := Spec_ReplicasPerShard (Spec cluster) in
  let count := surviving_replicas cluster l s - moved_out l (replicaMoves l) s + moved_in (replicaMoves l) s in
  (0 < moved_out l (replicaMoves l) s → want ≤ count) ∧ (0 < moved_in (replicaMoves l) s → count ≤ want).
Proof.
  intros Hl Hs. eapply planned_counts; [done|]. by apply elem_of_upto.
Qed.

(** The planner panics exactly when a listed pod has a name shorter than
    the cluster name plus one character; the names the operator itself gives
    its pods never cause it. *)
Theorem layout_panics_iff cluster pods statuses ord :
  planShardLayout cluster pods statuses ord = None ↔
  ∃ pod, pod ∈ pods ∧ (String.length (p_Name pod) < String.length (Name cluster) + 1)%nat.
Proof.
  assert (planShardLayout cluster pods statuses ord = None ↔
    ∃ n, n ∈ plan_names cluster pods ∧ podIndex (Name cluster) n = None) as ->.
  { unfold planShardLayout. destruct (existsb _ _) eqn:E.
    - split; [|done]. intros _. apply existsb_exists in E as (n & Hn & Hi). bsimpl.
      exists n. by rewrite list_elem_of_In.
    - split; [done|]. intros (n & Hn & Hi). rewrite <- not_true_iff_false in E. destruct E.
      apply existsb_exists. exists n. rewrite <- list_elem_of_In. split; [done|]. by apply bool_decide_eq_true. }
  assert (∀ n, podIndex (Name cluster) n = None ↔ (String.length n < String.length (Name cluster) + 1)%nat) as Hi.
  { intros n. unfold podIndex. rewrite <- slice_from_None. by destruct (slice_from _ _). }
  setoid_rewrite Hi. setoid_rewrite elem_of_plan_names. split.
  - intros (n & [(i & _ & ->)|(pod & Hp & ->)] & Hlen); [|eauto].
    unfold podNameForIndex in Hlen. rewrite !string_length_app in Hlen. simpl in Hlen. lia.
  - intros (pod & Hp & Hlen). exists (p_Name pod). eauto.
Qed.

(** ** Witnesses *)

Lemma slot_ranges_partition_witness :
  calculateClusterSlotRanges 3 = [mkSlotRange 0 5461; mkSlotRange 5462 10922; mkSlotRange 10923 16383] ∧
  ranges_slots (calculateClusterSlotRanges 3) = upto slotCount.
Proof. split; [by vm_compute|]. apply (slot_ranges_partition 3). lia. Defined.

(** No map order matters here. *)
Definition some_order : oracle := λ _, [].

Definition six_layout : shardLayout :=
  default layout_empty (planShardLayout six six_pods six_statuses some_order).

Lemma six_planned : planShardLayout six six_pods six_statuses some_order = Some six_layout.
Proof. by vm_compute. Qed.

Lemma layout_partitions_pods_witness :
  "c-5" ∈ members_of six_layout 1 ∧ layout_wf (planned_pod six six_pods) six_layout.
Proof. split; [apply (bool_decide_eq_true_1 _); by vm_compute|]. exact (layout_partitions_pods _ _ _ _ _ six_planned). Defined.

Lemma layout_primaries_survive_witness :
  index_of six "c-1" < DesiredDataInstances (Spec six) ∧ "c-1" ∈ members_of six_layout 1 ∧
  isPrimary six_layout "c-1" = true ∧ ∀ s', primaryOf six_layout !! s' = Some "c-1" → s' = 1.
Proof. apply (layout_primaries_survive _ _ _ _ _ 1 "c-1" six_planned). by vm_compute. Defined.

Lemma layout_keeps_owners_witness :
  ∃ s, ownerOf six_layout !! s = Some "c-2" ∧ shardOf six_layout !! "c-2" = Some s ∧
    (index_of six "c-2" < DesiredDataInstances (Spec six) →
     primaryOf six_layout !! s = Some "c-2" ∧ handingOver six_layout s = false).
Proof.
  apply (layout_keeps_owners _ _ _ _ _ "c-2" six_planned).
  - apply elem_of_plan_names. left. exists 2. split; [|done]. vm_compute. split; congruence.
  - by vm_compute.
Defined.

(** Shard 1 gives its spare replica to shard 2. *)
Lemma replica_moves_safe_witness :
  replicaMoves six_layout = {[ "c-5" := 2 ]} ∧ 0 ≤ 2 < desiredShardCount six ∧
  isPrimary six_layout "c-5" = false.
Proof.
  split; [by vm_compute|].
  destruct (replica_moves_safe _ _ _ _ _ "c-5" 2 six_planned ltac:(by vm_compute)) as (Ht & _ & _ & _ & Hp & _).
  exact (conj Ht Hp).
Defined.

Lemma replica_moves_balance_witness :
  0 < moved_out six_layout (replicaMoves six_layout) 1 ∧
  1 ≤ surviving_replicas six six_layout 1 - moved_out six_layout (replicaMoves six_layout) 1 +
      moved_in (replicaMoves six_layout) 1.
Proof.
  assert (0 < moved_out six_layout (replicaMoves six_layout) 1) as Hout by by vm_compute.
  split; [exact Hout|].
  exact (proj1 (replica_moves_balance _ _ _ _ _ 1 six_planned ltac:(vm_compute; split; congruence)) Hout).
Defined.
