(* ===== verification/Fencing.v ===== *)
(** * Fencing and failover

    [fencing.go]: the fencing annotation and its writers, the failover sequence
    and the choice of its candidate; [rolling_update.go]: [switchover];
    [cluster_handover.go]: the planned handover of a shard; and the reader on
    the other side, the instance manager's [isFenced] and [requiresHardFence].

    The cluster object is shared and mutated by each handler; here it is passed
    along and returned, and each successful patch replaces it by the server's
    response. *)
From S2P Require Import Prelude GoStr Json Api Effects Kube.

(** ** The annotation *)

Definition getFencedPods (cluster : RedisCluster) : list string :=
  match Annotations cluster !! FencingAnnotationKey with
  | None => []
  | Some val => if bool_decide (val = "") then [] else default [] (unmarshal_strings val)
  end.

(** The mutation [setFencedPods] makes before it patches. *)
Definition with_fenced_pods (cluster : RedisCluster) (pods : list string) : RedisCluster :=
  set_Annotations cluster
    (if bool_decide (pods = []) then delete FencingAnnotationKey (Annotations cluster)
     else <[FencingAnnotationKey := marshal_strings pods]> (Annotations cluster)).

Definition setFencedPods (cluster : RedisCluster) (pods : list string) : kprog RedisCluster :=
  Patch cluster (with_fenced_pods cluster pods).

Definition handover_owner (cluster : RedisCluster) : string :=
  match ClusterHandoverPods cluster with Some (owner, _) => owner | None => "" end.

Definition setFence (cluster : RedisCluster) (podName : string) : kprog RedisCluster :=
  cluster ←
    (if bool_decide (handover_owner cluster = podName) then
       with_ctx "escalating planned fence"
         (Patch cluster (set_Annotations cluster (delete ClusterHandoverAnnotation (Annotations cluster))))
     else mret cluster);
  let fenced := getFencedPods cluster in
  if bool_decide (podName ∈ fenced) then mret cluster
  else
    cluster ← setFencedPods cluster (fenced ++ [podName]);
    Event EventWarning "FencingSet" ("Pod " +:+ podName +:+ " has been fenced");;
    mret cluster.

Definition clearFence (cluster : RedisCluster) (podName : string) : kprog RedisCluster :=
  let remaining := filter (λ p, p ≠ podName) (getFencedPods cluster) in
  cluster ← setFencedPods cluster remaining;
  Event EventNormal "FencingCleared" ("Fence cleared for pod " +:+ podName);;
  mret cluster.

(** ** Failover *)

(** The connected instance with the largest replication offset that is not the
    current primary; [entries] in the order the map is ranged over. *)
Definition select_candidate (currentPrimary : string) (entries : list (string * InstanceStatus))
    : string * Z :=
  foldl (λ best e,
    if bool_decide (e.1 = currentPrimary) then best
    else if negb (is_Connected e.2) then best
    else if bool_decide (best.2 < is_ReplicationOffset e.2) then (e.1, is_ReplicationOffset e.2)
    else best) ("", -1) entries.

Definition selectFailoverCandidate (cluster : RedisCluster) : kprog string :=
  ord ← kcall OMapOrder;
  mret (select_candidate (Status_CurrentPrimary (Status cluster))
          (range_map (ord 0%nat) (Status_InstancesStatus (Status cluster)))).1.

(** The pod the promotion loop stops at. *)
Definition promotable (candidate : string) (pods : list Pod) : option Pod :=
  List.find (λ pod, bool_decide (p_Name pod = candidate) && negb (bool_decide (p_PodIP pod = ""))) pods.

Definition failover (cluster : RedisCluster) : kprog RedisCluster :=
  let formerPrimary := Status_CurrentPrimary (Status cluster) in
  Event EventWarning "FailoverStarted" ("Failover initiated, former primary: " +:+ formerPrimary);;
  cluster ← with_ctx ("fencing former primary " +:+ formerPrimary) (setFence cluster formerPrimary);
  candidate ← selectFailoverCandidate cluster;
  if bool_decide (candidate = "") then Throw (Errorf "no suitable failover candidate found")
  else
    pods ← with_ctx "listing pods for failover" (listClusterPods cluster);
    match promotable candidate pods with
    | Some pod => with_ctx ("promoting " +:+ candidate) (promoteInstance (p_PodIP pod))
    | None => mret tt
    end;;
    cluster ← with_ctx "updating status after failover"
      (StatusPatch cluster (set_Phase (set_CurrentPrimary cluster candidate) ClusterPhaseFailingOver));
    with_ctx "updating leader service after failover" (updateLeaderServiceSelector cluster);;
    cluster ← with_ctx ("clearing fence on " +:+ formerPrimary) (clearFence cluster formerPrimary);
    Event EventNormal "FailoverCompleted"
      ("Failover completed: new primary is " +:+ candidate +:+ " (former: " +:+ formerPrimary +:+ ")");;
    kcall OFailoverMetric;;
    mret cluster.

Definition switchover (cluster : RedisCluster) : kprog RedisCluster :=
  let formerPrimary := Status_CurrentPrimary (Status cluster) in
  if bool_decide (formerPrimary = "") then Throw (Errorf "current primary is empty")
  else
    cluster ← with_ctx ("fencing former primary " +:+ formerPrimary) (setFence cluster formerPrimary);
    candidate ← selectFailoverCandidate cluster;
    if bool_decide (candidate = "") then Throw (Errorf "no suitable replica found for switchover")
    else
      pods ← with_ctx "listing pods for switchover" (listClusterPods cluster);
      match promotable candidate pods with
      | None => Throw (Errorf ("candidate " +:+ candidate +:+ " has no reachable pod IP"))
      | Some pod =>
          with_ctx ("promoting " +:+ candidate) (promoteInstance (p_PodIP pod));;
          cluster ← with_ctx "updating status after switchover"
            (StatusPatch cluster (set_CurrentPrimary cluster candidate));
          with_ctx "updating leader service after switchover" (updateLeaderServiceSelector cluster);;
          with_ctx ("clearing fence on " +:+ formerPrimary +:+ " after switchover")
            (clearFence cluster formerPrimary)
      end.

(** ** Planned handover of a shard *)

Definition beginClusterHandover (cluster : RedisCluster) (owner heir : string) : kprog RedisCluster :=
  if negb (bool_decide (annotation cluster ClusterHandoverAnnotation = "")) then
    Throw (Errorf "another cluster handover is pending")
  else
    let fenced := getFencedPods cluster in
    if bool_decide (owner ∈ fenced) || bool_decide (heir ∈ fenced) then
      Throw (Errorf ("cannot hand over between hard-fenced participants " +:+ owner +:+ " and " +:+ heir))
    else
      let annotations :=
        <[ClusterHandoverAnnotation := owner +:+ "/" +:+ heir]>
          (<[FencingAnnotationKey := marshal_strings (fenced ++ [owner])]> (Annotations cluster)) in
      cluster ← with_ctx ("fencing handover primary " +:+ owner)
        (PatchLocked cluster (set_Annotations cluster annotations));
      Event EventNormal "FencingSet"
        ("Fenced " +:+ owner +:+ " for coordinated handover to " +:+ heir);;
      mret cluster.

Definition finishClusterHandover (cluster : RedisCluster) (owner : string) : kprog RedisCluster :=
  let remaining := filter (λ name, name ≠ owner) (getFencedPods cluster) in
  let annotations :=
    delete ClusterHandoverAnnotation
      (if bool_decide (remaining = []) then delete FencingAnnotationKey (Annotations cluster)
       else <[FencingAnnotationKey := marshal_strings remaining]> (Annotations cluster)) in
  cluster ← with_ctx "clearing handover fence"
    (PatchLocked cluster (set_Annotations cluster annotations));
  Event EventNormal "FencingCleared" ("Cleared coordinated handover fence on " +:+ owner);;
  mret cluster.

(** The last pod of a name, as the scan over [pods] leaves it. *)
Definition last_pod_named (pods : list Pod) (name : string) : option Pod :=
  foldl (λ acc pod, if bool_decide (p_Name pod = name) then Some pod else acc) None pods.

(** The first result is always false: the reconcile pass ends here. *)
Definition resumeClusterHandover (cluster : RedisCluster) (pods : list Pod)
    (statuses : gmap string InstanceStatus) : kprog (bool * RedisCluster) :=
  match ClusterHandoverPods cluster with
  | None => Throw (Errorf "invalid cluster handover annotation")
  | Some (owner, heir) =>
      let fenced := getFencedPods cluster in
      let finish := cluster ← finishClusterHandover cluster owner; mret (false, cluster) in
      let wait := mret (false, cluster) in
      match last_pod_named pods owner, last_pod_named pods heir with
      | Some ownerPod, Some heirPod =>
          if negb (bool_decide (owner ∈ fenced)) || bool_decide (heir ∈ fenced) then finish
          else
            let source := status_of statuses owner in
            let target := status_of statuses heir in
            if negb (is_Connected source) || negb (is_Connected target) then wait
            else if bool_decide (is_Role target = "master") &&
                    negb (bool_decide (is_SlotsServed target = [])) &&
                    bool_decide (is_Role source = "slave") &&
                    bool_decide (is_PrimaryNodeID source = is_NodeID target) &&
                    bool_decide (is_SlotsServed source = [])
            then finish
            else if negb (bool_decide (is_Role source = "master")) ||
                    negb (bool_decide (is_Role target = "slave")) ||
                    negb (bool_decide (is_PrimaryNodeID target = is_NodeID source)) ||
                    negb (bool_decide (is_MasterLinkStatus target = "up")) ||
                    bool_decide (p_PodIP heirPod = "")
            then wait
            else if isPodRunningAndReady ownerPod then wait
            else
              with_ctx ("promoting " +:+ heir +:+ " over fenced primary " +:+ owner)
                (postClusterJSON (p_PodIP heirPod) PostPromote);;
              Event EventNormal "ShardHandover"
                ("Requested coordinated promotion of " +:+ heir +:+ " over " +:+ owner);;
              wait
      | _, _ => finish
      end
  end.

(** ** The instance manager's view *)

(** [InstanceReconciler.isFenced]. *)
Definition isFenced (podName : string) (cluster : RedisCluster) : bool :=
  match Annotations cluster !! FencingAnnotationKey with
  | None => false
  | Some fenced =>
      match unmarshal_strings fenced with
      | None => false
      | Some fencedPods => bool_decide (podName ∈ fencedPods)
      end
  end.

Definition requiresHardFence (podName : string) (cluster : RedisCluster) : bool :=
  isFenced podName cluster && negb (bool_decide (handover_owner cluster = podName)).
