(* ===== verification/FencingFacts.v ===== *)
(** * Fencing-first failover: what every run guarantees

    The statements quantify over all runs of a handler, that is over all
    responses of the API server and of the instance managers. *)
From S2P Require Import Prelude GoStr Json Api Effects Kube Fencing.

(** ** The annotation is read back as it was written *)

Definition ascii_names (l : list string) : Prop := Forall (λ s, is_ascii s = true) l.

Lemma getFencedPods_with cluster pods :
  ascii_names pods → getFencedPods (with_fenced_pods cluster pods) = pods.
Proof.
  intros Ha. unfold getFencedPods, with_fenced_pods. simpl.
  case_bool_decide as Hp.
  - subst. by rewrite lookup_delete_eq.
  - rewrite lookup_insert_eq, bool_decide_false, unmarshal_marshal by done. done.
Qed.

Lemma isFenced_getFencedPods p cluster : isFenced p cluster = bool_decide (p ∈ getFencedPods cluster).
Proof.
  unfold isFenced, getFencedPods.
  destruct (Annotations cluster !! FencingAnnotationKey) as [val|].
  - destruct (bool_decide_reflect (val = "")) as [->|Hv]; [done|].
    by destruct (unmarshal_strings val).
  - done.
Qed.

(** ** Trace predicates *)

(** The object carries an encoded list with [p] in it. *)
Definition writes_fence (c : RedisCluster) (p : string) : Prop :=
  ∃ l, Annotations c !! FencingAnnotationKey = Some (marshal_strings l) ∧ p ∈ l.

Lemma writes_fence_with cluster fenced p : p ∈ fenced → writes_fence (with_fenced_pods cluster fenced) p.
Proof.
  intros Hp. exists fenced. split; [|done]. unfold with_fenced_pods. simpl.
  rewrite bool_decide_false by (intros ->; by apply not_elem_of_nil in Hp).
  apply lookup_insert_eq.
Qed.

(** [p] was fenced in the object the handler started from, or the server
    accepted a patch that fences it (or returned an object that does). *)
Definition fence_persisted (c : RedisCluster) (p : string) (tr : trace kube) : Prop :=
  p ∈ getFencedPods c ∨
  ∃ lock b a c', kev (OPatchCluster lock b a) (Ok c') ∈ tr ∧ (writes_fence a p ∨ p ∈ getFencedPods c').

(** No accepted patch of the trace drops the fence of [p]. *)
Definition fence_kept (p : string) (tr : trace kube) : Prop :=
  ∀ lock b a c', kev (OPatchCluster lock b a) (Ok c') ∈ tr →
    Annotations a !! FencingAnnotationKey = Annotations b !! FencingAnnotationKey ∨ writes_fence a p.

(** Operations that change neither an instance nor the status. *)
Definition is_quiet (c : kube_op) : bool :=
  match c with OPost _ _ | OPatchStatus _ _ => false | _ => true end.
Definition quiet (tr : trace kube) : Prop := forallb (λ e, is_quiet (ev_op e)) tr = true.

Definition no_cluster_patch (c : kube_op) : bool :=
  match c with OPatchCluster _ _ _ => false | _ => true end.
Definition unpatched (tr : trace kube) : Prop :=
  forallb (λ e, no_cluster_patch (ev_op e)) tr = true.

Lemma quiet_app tr1 tr2 : quiet (tr1 ++ tr2) ↔ quiet tr1 ∧ quiet tr2.
Proof. unfold quiet. rewrite forallb_app. apply andb_true_iff. Qed.

Lemma quiet_cons e tr : quiet (e :: tr) ↔ is_quiet (ev_op e) = true ∧ quiet tr.
Proof. unfold quiet. cbn [forallb]. apply andb_true_iff. Qed.

Lemma unpatched_app tr1 tr2 : unpatched (tr1 ++ tr2) ↔ unpatched tr1 ∧ unpatched tr2.
Proof. unfold unpatched. rewrite forallb_app. apply andb_true_iff. Qed.

Lemma quiet_elem tr e : quiet tr → e ∈ tr → is_quiet (ev_op e) = true.
Proof. intros Hq Hin%list_elem_of_In. unfold quiet in Hq. rewrite forallb_forall in Hq. by apply Hq. Qed.

Lemma unpatched_elem tr e : unpatched tr → e ∈ tr → no_cluster_patch (ev_op e) = true.
Proof. intros Hq Hin%list_elem_of_In. unfold unpatched in Hq. rewrite forallb_forall in Hq. by apply Hq. Qed.

Lemma quiet_post tr ip req r : quiet tr → kev (OPost ip req) r ∉ tr.
Proof. intros Hq Hin. by apply quiet_elem in Hin. Qed.

Lemma quiet_status tr b a r : quiet tr → kev (OPatchStatus b a) r ∉ tr.
Proof. intros Hq Hin. by apply quiet_elem in Hin. Qed.

Lemma unpatched_patch tr lock b a r : unpatched tr → kev (OPatchCluster lock b a) r ∉ tr.
Proof. intros Hq Hin. by apply unpatched_elem in Hin. Qed.

Lemma fence_kept_app p tr1 tr2 : fence_kept p tr1 → fence_kept p tr2 → fence_kept p (tr1 ++ tr2).
Proof. intros H1 H2 lock b a c' [Hin|Hin]%elem_of_app; [by eapply H1|by eapply H2]. Qed.

Lemma unpatched_kept p tr : unpatched tr → fence_kept p tr.
Proof. intros H lock b a c' Hin. by apply unpatched_patch in Hin. Qed.

Lemma fence_persisted_app_l c p tr1 tr2 : fence_persisted c p tr1 → fence_persisted c p (tr1 ++ tr2).
Proof.
  intros [?|(lock & b & a & c' & Hin & ?)]; [by left|right].
  exists lock, b, a, c'. split; [|done]. apply elem_of_app. by left.
Qed.

Lemma fence_persisted_app_r c p tr1 tr2 : fence_persisted c p tr2 → fence_persisted c p (tr1 ++ tr2).
Proof.
  intros [?|(lock & b & a & c' & Hin & ?)]; [by left|right].
  exists lock, b, a, c'. split; [|done]. apply elem_of_app. by right.
Qed.

#[export] Hint Resolve fence_kept_app unpatched_kept fence_persisted_app_l fence_persisted_app_r : redis.

(** ** setFence and clearFence *)

Lemma runs_Patch b a tr out :
  runs (Patch b a) tr out ↔ ∃ r, tr = [kev (OPatchCluster false b a) r] ∧ out = r.
Proof.
  split.
  - intros (r & tr' & -> & H). exists r. by destruct r, H as [-> ->].
  - intros (r & -> & ->). exists r, []. split; [done|]. by destruct r.
Qed.

(** The second half of [setFence]. *)
Lemma set_fence_tail_spec cluster p tr out :
  runs (if bool_decide (p ∈ getFencedPods cluster) then mret cluster
        else cluster ← setFencedPods cluster (getFencedPods cluster ++ [p]);
             Event EventWarning "FencingSet" ("Pod " +:+ p +:+ " has been fenced");;
             mret cluster) tr out →
  quiet tr ∧ fence_kept p tr ∧ (is_ok out = true → fence_persisted cluster p tr).
Proof.
  case_bool_decide as Hin; intros H.
  - destruct H as [-> ->]. split_and!; [done|by intros ???? ?%elem_of_nil|by left].
  - assert (writes_fence (with_fenced_pods cluster (getFencedPods cluster ++ [p])) p) as Hw.
    { apply writes_fence_with. set_solver. }
    apply runs_bind in H as [(e & H & ->)|(c' & tr1 & tr2 & -> & H & H2)].
    + apply runs_Patch in H as (r & -> & <-). split_and!; [done| |done].
      intros lock b a c' He. ev_in He.
    + apply runs_Patch in H as (r & -> & <-). destruct H2 as ([] & tr' & -> & [-> ->]).
      split_and!; [done| |].
      * intros lock b a c'' He. ev_in He. by right.
      * intros _. right. eexists _, _, _, _. split; [apply list_elem_of_here|by left].
Qed.

Lemma setFence_spec cluster p tr out :
  runs (setFence cluster p) tr out →
  quiet tr ∧ fence_kept p tr ∧ (is_ok out = true → fence_persisted cluster p tr).
Proof.
  unfold setFence. case_bool_decide as Howner; [|by intros H; apply set_fence_tail_spec].
  intros H. apply runs_bind in H as [(e & H & ->)|(c1 & tr1 & tr2 & -> & H & H2)].
  - apply runs_with_ctx in H as [(a & H & ?)|(e' & H & _)]; [done|].
    apply runs_Patch in H as (r & -> & <-). split_and!; [done| |done].
    intros lock b a c' He. ev_in He.
  - apply runs_with_ctx in H as [(a & H & [= <-])|(e' & _ & ?)]; [|done].
    apply runs_Patch in H as (r & -> & <-).
    apply set_fence_tail_spec in H2 as (Hq & Hk & Hp). split_and!; [done| |].
    + apply fence_kept_app; [|done]. intros lock b a c' He. ev_in He. left. simpl.
      by rewrite lookup_delete_ne.
    + intros Hok. destruct (Hp Hok) as [Hin|Hin].
      * right. eexists _, _, _, _. split; [apply list_elem_of_here|by right].
      * apply fence_persisted_app_r. by right.
Qed.

Lemma quiet_prefix (tra trb tr1 tr2 : trace kube) e :
  quiet tra → is_quiet (ev_op e) = false → tra ++ trb = tr1 ++ e :: tr2 →
  ∃ tr1', tr1 = tra ++ tr1' ∧ trb = tr1' ++ e :: tr2.
Proof.
  intros Hq He Heq. apply app_eq_inv in Heq as [(k & -> & Hk)|(k & -> & Hk)]; [|eauto].
  destruct k as [|x k]; [exists []; rewrite !app_nil_r; by simplify_eq/=|].
  simpl in Hk. injection Hk as -> ->. apply quiet_app in Hq as [_ [Hq _]%quiet_cons]. congruence.
Qed.

(** A handler that starts by fencing does nothing to an instance or to the
    status before the fence is persisted. *)
Lemma fence_first {A} ctx cluster p (f : RedisCluster → kprog A) tr out tr1 e tr2 :
  runs (with_ctx ctx (setFence cluster p) ≫= f) tr out →
  tr = tr1 ++ e :: tr2 → is_quiet (ev_op e) = false → fence_persisted cluster p tr1.
Proof.
  intros H Heq He. apply runs_bind in H as [(e' & H & ->)|(c1 & tra & trb & -> & H & H2)].
  - apply runs_with_ctx in H as [(a & H & ?)|(e'' & H & _)]; [done|].
    apply setFence_spec in H as [Hq _]. subst.
    apply quiet_app in Hq as [_ [Hq _]%quiet_cons]. congruence.
  - apply runs_with_ctx in H as [(a & H & [= <-])|(e' & _ & ?)]; [|done].
    apply setFence_spec in H as (Hq & _ & Hp).
    apply quiet_prefix in Heq as (tr1' & -> & _); [|done..].
    apply fence_persisted_app_l. by apply Hp.
Qed.

Lemma select_candidate_unpatched cluster : kissues no_cluster_patch (selectFailoverCandidate cluster).
Proof. unfold selectFailoverCandidate, kcall. issues. Qed.
Lemma listClusterPods_unpatched cluster : kissues no_cluster_patch (listClusterPods cluster).
Proof. unfold listClusterPods, kcall. issues. Qed.
Lemma promoteInstance_unpatched ip : kissues no_cluster_patch (promoteInstance ip).
Proof. unfold promoteInstance, kcall. issues. Qed.
Lemma StatusPatch_unpatched b a : kissues no_cluster_patch (StatusPatch b a).
Proof. unfold StatusPatch, kcall. issues. Qed.
Lemma updateLeader_unpatched c : kissues no_cluster_patch (updateLeaderServiceSelector c).
Proof. unfold updateLeaderServiceSelector, kcall. issues. Qed.

#[export] Hint Resolve select_candidate_unpatched listClusterPods_unpatched promoteInstance_unpatched
  StatusPatch_unpatched updateLeader_unpatched : redis.

Lemma unpatched_fence_kept {A} p (q : kprog A) tr out :
  kissues no_cluster_patch q → runs q tr out → fence_kept p tr.
Proof. intros Hi Hr. apply unpatched_kept. by eapply issues_runs. Qed.

(** ** Error paths *)

(** A run that ends in an error drops no fence of [p]. *)
Definition error_keeps (p : string) {A} (q : kprog A) : Prop :=
  ∀ tr e, runs q tr (Err e) → fence_kept p tr.

Lemma error_keeps_bind {A B} p (q : kprog A) (f : A → kprog B) :
  (∀ tr out, runs q tr out → fence_kept p tr) → (∀ a, error_keeps p (f a)) →
  error_keeps p (q ≫= f).
Proof.
  intros Hq Hf tr e H. apply runs_bind in H as [(e' & H & _)|(a & tr1 & tr2 & -> & H1 & H2)].
  - by eapply Hq.
  - apply fence_kept_app; [by eapply Hq|by eapply Hf].
Qed.

Lemma error_keeps_quiet {A B} p (q : kprog A) (f : A → kprog B) :
  kissues no_cluster_patch q → (∀ a, error_keeps p (f a)) → error_keeps p (q ≫= f).
Proof. intros Hq. apply error_keeps_bind. intros tr out. by apply unpatched_fence_kept. Qed.

Lemma error_keeps_last {A B} p (q : kprog A) (f : A → kprog B) :
  error_keeps p q → (∀ a tr e, ¬ runs (f a) tr (Err e)) → error_keeps p (q ≫= f).
Proof.
  intros Hq Hf tr e H. apply runs_bind in H as [(e' & H & _)|(a & tr1 & tr2 & _ & _ & H)].
  - by eapply Hq.
  - by apply Hf in H.
Qed.

Lemma error_keeps_throw {A} p e : error_keeps p (A := A) (Throw e).
Proof. intros tr e' [-> _]. by intros ???? ?%elem_of_nil. Qed.

Lemma error_keeps_with_ctx {A} p ctx (q : kprog A) : error_keeps p q → error_keeps p (with_ctx ctx q).
Proof.
  intros Hq tr e H. apply runs_with_ctx in H as [(a & _ & ?)|(e' & H & _)]; [done|by eapply Hq].
Qed.

(** The clearing patch is the last call of [clearFence] that can fail. *)
Lemma error_keeps_clearFence p cluster name : error_keeps p (clearFence cluster name).
Proof.
  unfold clearFence. apply error_keeps_last.
  - intros tr e (r & -> & <-)%runs_Patch. intros lock b a c' He. ev_in He.
  - intros c tr e (r & tr' & -> & [_ ?]). done.
Qed.

Lemma setFence_kept p cluster tr out ctx :
  runs (with_ctx ctx (setFence cluster p)) tr out → fence_kept p tr.
Proof.
  intros H. apply runs_with_ctx in H as [(a & H & _)|(e' & H & _)]; by apply setFence_spec in H as (_ & ? & _).
Qed.

#[export] Hint Resolve error_keeps_throw error_keeps_with_ctx error_keeps_clearFence : redis.
#[export] Hint Resolve issues_with_ctx : redis.

Lemma failover_error_keeps cluster :
  error_keeps (Status_CurrentPrimary (Status cluster)) (failover cluster).
Proof.
  unfold failover. apply error_keeps_quiet; [by unfold Event, kcall; issues|]. intros _.
  apply error_keeps_bind; [intros tr out; apply setFence_kept|]. intros c1.
  apply error_keeps_quiet; [auto with redis|]. intros candidate.
  case_bool_decide; [auto with redis|].
  apply error_keeps_quiet; [auto with redis|]. intros pods.
  apply error_keeps_quiet; [destruct (promotable _ _); [auto with redis|exact I]|]. intros _.
  apply error_keeps_quiet; [auto with redis|]. intros c2.
  apply error_keeps_quiet; [auto with redis|]. intros _.
  apply error_keeps_last; [auto with redis|].
  intros c3 tr e (r1 & tr1 & -> & (r2 & tr2 & -> & [_ ?])). done.
Qed.

Lemma switchover_error_keeps cluster :
  error_keeps (Status_CurrentPrimary (Status cluster)) (switchover cluster).
Proof.
  unfold switchover. case_bool_decide; [auto with redis|].
  apply error_keeps_bind; [intros tr out; apply setFence_kept|]. intros c1.
  apply error_keeps_quiet; [auto with redis|]. intros candidate.
  case_bool_decide; [auto with redis|].
  apply error_keeps_quiet; [auto with redis|]. intros pods.
  destruct (promotable candidate pods); [|auto with redis].
  apply error_keeps_quiet; [auto with redis|]. intros _.
  apply error_keeps_quiet; [auto with redis|]. intros c2.
  apply error_keeps_quiet; [auto with redis|]. intros _.
  auto with redis.
Qed.

(** ** The candidate *)

(** What the scan has found after the entries seen so far. *)
Record best_so_far (primary : string) (seen : list (string * InstanceStatus)) (best : string * Z) : Prop := {
  best_bound n st : (n, st) ∈ seen → n ≠ primary → is_Connected st = true →
    is_ReplicationOffset st ≤ best.2 ∨ is_ReplicationOffset st ≤ -1;
  best_found : best = ("", -1) ∨
    ∃ st, (best.1, st) ∈ seen ∧ best.1 ≠ primary ∧ is_Connected st = true ∧
          is_ReplicationOffset st = best.2 ∧ -1 < best.2
}.

Lemma select_candidate_best primary entries :
  best_so_far primary entries (select_candidate primary entries).
Proof.
  unfold select_candidate.
  assert (∀ todo seen best, best_so_far primary seen best →
    best_so_far primary (seen ++ todo)
      (foldl (λ best e,
         if bool_decide (e.1 = primary) then best
         else if negb (is_Connected e.2) then best
         else if bool_decide (best.2 < is_ReplicationOffset e.2) then (e.1, is_ReplicationOffset e.2)
         else best) best todo)) as Hgen.
  { induction todo as [|[n st] todo IH]; intros seen best Hb; simpl; [by rewrite app_nil_r|].
    replace (seen ++ (n, st) :: todo) with ((seen ++ [(n, st)]) ++ todo) by by rewrite <- app_assoc.
    apply IH. destruct Hb as [Hbound Hfound].
    assert (best.2 = -1 ∨ -1 < best.2) as Hge by (destruct Hfound as [->|(?&?&?&?&?&?)]; simpl; lia).
    repeat case_match; bsimpl; split.
    all: try (intros n' st' [Hin|[= -> ->]%list_elem_of_singleton]%elem_of_app ? ?; simpl; try congruence;
              try (destruct (Hbound _ _ Hin); [done|done| |]); lia).
    all: try (destruct Hfound as [->|(s & Hin & ?)]; [by left|right]; exists s;
              split; [by apply elem_of_app; left|done]).
    right. exists st. simpl. split_and!; try done; [|lia]. apply elem_of_app. right. by apply list_elem_of_singleton. }
  apply (Hgen entries [] ("", -1)). split; [by intros ?? ?%elem_of_nil|by left].
Qed.

Lemma last_pod_named_spec pods name pod :
  last_pod_named pods name = Some pod → pod ∈ pods ∧ p_Name pod = name.
Proof.
  unfold last_pod_named.
  apply (foldl_inv (λ acc, acc = Some pod → pod ∈ pods ∧ p_Name pod = name)); [done|].
  intros acc p Hp IH. case_bool_decide; [|done]. intros [= ->]. done.
Qed.
