(* ===== verification/Failover.v ===== *)
(** * Failover, switchover and planned handover: the guarantees

    Safety of every run (fence before promotion, the fence survives a failed
    pass, who may be promoted), and completion of the sequence when the API
    server and the instances answer. *)
From S2P Require Import Prelude GoStr Json Api Effects Kube Fixtures Fencing FencingFacts.
From Stdlib Require Import Ascii.

(** ** An API server without failures or concurrent writers *)

(** Documented behaviour of a successful request: a patch returns the object
    with the changes applied, a read succeeds, a list of pods is one of [live],
    the instance manager answers 200. *)
Definition echoes (live : list Pod → Prop) (e : event kube) : Prop :=
  match e with existT c r =>
    match c return kube_ret c → Prop with
    | OPatchCluster _ _ a => λ r, r = Ok a
    | OPatchStatus _ a => λ r, r = Ok a
    | OListPods _ => λ r, ∃ pods, r = Ok pods ∧ live pods
    | OGetService _ => λ r, is_ok r = true
    | OPatchService _ _ => λ r, r = Ok tt
    | OPost _ _ => λ r, ∃ body, r = HttpStatus 200 body
    | _ => λ _, True
    end r
  end.

(** Fence [p] in a list of fenced pods. *)
Definition fence_insert (p : string) (l : list string) : list string :=
  if bool_decide (p ∈ l) then l else l ++ [p].

Lemma filter_fence_insert p l : filter (λ q, q ≠ p) (fence_insert p l) = filter (λ q, q ≠ p) l.
Proof.
  unfold fence_insert. case_bool_decide; [done|].
  rewrite filter_app, filter_cons_False by auto. by rewrite filter_nil, app_nil_r.
Qed.

Lemma ascii_fence_insert p l : is_ascii p = true → ascii_names l → ascii_names (fence_insert p l).
Proof.
  intros Hp Hl. unfold fence_insert, ascii_names. case_bool_decide; [done|].
  apply Forall_app. split; [done|]. by constructor.
Qed.

Lemma ascii_filter (P : string → Prop) `{∀ x, Decision (P x)} l : ascii_names l → ascii_names (filter P l).
Proof.
  unfold ascii_names. rewrite !Forall_forall. intros Hl x Hx.
  apply Hl. by apply list_elem_of_filter in Hx as [_ ?].
Qed.

Lemma getFencedPods_delete_handover c :
  getFencedPods (set_Annotations c (delete ClusterHandoverAnnotation (Annotations c))) = getFencedPods c.
Proof. unfold getFencedPods. simpl. by rewrite lookup_delete_ne. Qed.

(** What fencing [p] in [c] must have done, besides leaving the rest alone. *)
Record fenced_from (p : string) (c c' : RedisCluster) : Prop := {
  ff_status : Status c' = Status c;
  ff_spec : Spec c' = Spec c;
  ff_handover : annotation c' ClusterHandoverAnnotation =
    if bool_decide (handover_owner c = p) then "" else annotation c ClusterHandoverAnnotation;
  ff_fenced : getFencedPods c' = fence_insert p (getFencedPods c)
}.

Lemma annotation_with_fenced c pods k :
  k ≠ FencingAnnotationKey → annotation (with_fenced_pods c pods) k = annotation c k.
Proof.
  intros Hk. unfold annotation, with_fenced_pods. simpl.
  case_match; [by rewrite lookup_delete_ne|by rewrite lookup_insert_ne].
Qed.

Section echo.
Context (live : list Pod → Prop).
Let env := echoes live.

Lemma setFence_echo cluster p :
  is_ascii p = true → ascii_names (getFencedPods cluster) →
  returns env (setFence cluster p) (fenced_from p cluster).
Proof.
  intros Hp Ha. unfold setFence.
  eapply (returns_bind _ _ _ (λ c, Status c = Status cluster ∧ Spec c = Spec cluster ∧
    annotation c ClusterHandoverAnnotation =
      (if bool_decide (handover_owner cluster = p) then "" else annotation cluster ClusterHandoverAnnotation) ∧
    getFencedPods c = getFencedPods cluster)).
  - case_bool_decide.
    + apply returns_with_ctx. intros r ->. simpl. rewrite getFencedPods_delete_handover.
      unfold annotation. simpl. by rewrite lookup_delete_eq.
    + done.
  - intros c (Hs & Hsp & Hh & Hf). pose proof (ascii_fence_insert p _ Hp Ha) as Hi.
    unfold fence_insert in Hi. rewrite Hf. case_bool_decide as Hin.
    + split; try done. rewrite Hf. unfold fence_insert. by rewrite bool_decide_true.
    + intros r -> []. intros _. split; simpl; [done..| |].
      * by rewrite annotation_with_fenced.
      * rewrite getFencedPods_with by done. unfold fence_insert. by rewrite bool_decide_false.
Qed.

Lemma clearFence_echo cluster p :
  ascii_names (getFencedPods cluster) →
  returns env (clearFence cluster p) (λ c',
    Status c' = Status cluster ∧ getFencedPods c' = filter (λ q, q ≠ p) (getFencedPods cluster)).
Proof.
  intros Ha. unfold clearFence. intros r -> [] _. split; [done|].
  apply getFencedPods_with. by apply ascii_filter.
Qed.

Lemma promoteInstance_echo ip : returns env (promoteInstance ip) (λ _, True).
Proof. intros r [body ->]. done. Qed.

Lemma StatusPatch_echo b a : returns env (StatusPatch b a) (λ c, c = a).
Proof. intros r ->. done. Qed.

Lemma listClusterPods_echo c : returns env (listClusterPods c) live.
Proof. intros r (pods & -> & Hl). done. Qed.

Lemma updateLeader_echo c : returns env (updateLeaderServiceSelector c) (λ _, True).
Proof.
  intros [svc|e] Hr; [|done]. simpl. case_bool_decide; [done|]. intros r ->. done.
Qed.

Lemma Event_echo t r m : returns env (Event t r m) (λ _, True).
Proof. by intros []. Qed.
End echo.

#[export] Hint Resolve promoteInstance_echo listClusterPods_echo updateLeader_echo Event_echo
  returns_with_ctx : redis.

(** ** Safety of every run *)

(** C1: Fence first.  In every run of a failover or a switchover, whatever the
    API server and the instances answer, a request to an instance (the
    promotion) or a write of the cluster status happens only after the fence of
    the former primary has been persisted in the API server. *)
Theorem promotion_after_fence cluster tr out tr1 e tr2 :
  runs (failover cluster) tr out ∨ runs (switchover cluster) tr out →
  tr = tr1 ++ e :: tr2 → is_quiet (ev_op e) = false →
  fence_persisted cluster (Status_CurrentPrimary (Status cluster)) tr1.
Proof.
  intros [H|H] Heq He.
  - unfold failover in H. destruct H as (r & tr' & -> & H). destruct tr1 as [|e0 tr1]; simplify_eq/=; try done.
    apply (fence_persisted_app_r _ _ [_]). by eapply fence_first.
  - unfold switchover in H. case_bool_decide; [destruct H as [-> _]; by destruct tr1|].
    by eapply fence_first.
Qed.

(** C2: A failover or switchover that fails, at whatever call, leaves the
    former primary fenced: no accepted patch of the run drops the fence. *)
Theorem failed_failover_keeps_fence cluster tr err :
  runs (failover cluster) tr (Err err) ∨ runs (switchover cluster) tr (Err err) →
  fence_kept (Status_CurrentPrimary (Status cluster)) tr.
Proof. intros [H|H]; [by eapply failover_error_keeps|by eapply switchover_error_keeps]. Qed.

(** The status write of a switchover, and what its prefix must contain. *)
Definition promoted_before (name : string) (tr : trace kube) : Prop :=
  ∃ sel pods pod body, kev (OListPods sel) (Ok pods) ∈ tr ∧ pod ∈ pods ∧ p_Name pod = name ∧
    p_PodIP pod ≠ "" ∧ kev (OPost (p_PodIP pod) PostPromote) (HttpStatus 200 body) ∈ tr.

Lemma promotable_spec candidate pods pod :
  promotable candidate pods = Some pod → pod ∈ pods ∧ p_Name pod = candidate ∧ p_PodIP pod ≠ "".
Proof.
  intros H. apply find_some in H as [Hin Hb]. apply list_elem_of_In in Hin. bsimpl. done.
Qed.

Lemma setFence_no_status c p : kissues no_status_patch (setFence c p).
Proof. unfold setFence, setFencedPods, Patch, Event, kcall. issues. Qed.
Lemma select_no_status c : kissues no_status_patch (selectFailoverCandidate c).
Proof. unfold selectFailoverCandidate, kcall. issues. Qed.
Lemma clearFence_no_status c p : kissues no_status_patch (clearFence c p).
Proof. unfold clearFence, setFencedPods, Patch, Event, kcall. issues. Qed.

#[export] Hint Resolve setFence_no_status select_no_status clearFence_no_status : redis.

(** A switchover records a new primary only after the promotion request to
    that pod, at the address the API server lists for it, was answered with
    200. *)
Theorem switchover_status_after_promotion cluster out tr1 b a r tr2 :
  runs (switchover cluster) (tr1 ++ kev (OPatchStatus b a) r :: tr2) out →
  promoted_before (Status_CurrentPrimary (Status a)) tr1.
Proof.
  intros H. unfold switchover in H. case_bool_decide; [by apply runs_throw_mid in H|].
  skip_past no_status_patch in H as c1 Hfence.
  skip_past no_status_patch in H as candidate Hcand.
  case_bool_decide; [by apply runs_throw_mid in H|].
  skip_past no_status_patch in H as pods Hlist.
  destruct (promotable _ _) as [pod|] eqn:Hpod; [|by apply runs_throw_mid in H].
  apply promotable_spec in Hpod as (Hin & Hname & Hip).
  skip_past no_status_patch in H as u Hpost.
  apply runs_with_ctx_ok, listClusterPods_ok in Hlist as [sel ->].
  apply runs_with_ctx_ok, promoteInstance_ok in Hpost as [body ->].
  apply status_patch_first in H as ->; [|intros c; apply issues_bind; intros; auto with redis].
  simpl. exists sel, pods, pod, body. repeat split; try done; set_solver.
Qed.

(** ** The candidate *)

(** What a correct choice is: [name] is a connected replica with the largest
    offset, or the empty string when no connected replica has reported one. *)
Definition best_candidate (primary : string) (statuses : gmap string InstanceStatus) (name : string) : Prop :=
  let eligible n st := statuses !! n = Some st ∧ n ≠ primary ∧ is_Connected st = true in
  (name = "" ∧ ∀ n st, eligible n st → is_ReplicationOffset st < 0) ∨
  (∃ st, eligible name st ∧
     ∀ n st', eligible n st' → is_ReplicationOffset st' ≤ is_ReplicationOffset st).

Lemma select_candidate_correct primary statuses picks :
  best_candidate primary statuses (select_candidate primary (range_map picks statuses)).1.
Proof.
  destruct (select_candidate_best primary (range_map picks statuses)) as [Hbound Hfound].
  destruct (select_candidate primary (range_map picks statuses)) as [name off]; simpl in *.
  destruct Hfound as [[= -> ->]|(st & Hin & Hne & Hc & Hoff & Hpos)].
  - left. split; [done|]. intros n st (Hl & Hn & Hst).
    apply (elem_of_range_map picks) in Hl. destruct (Hbound _ _ Hl Hn Hst); lia.
  - right. exists st. apply elem_of_range_map in Hin. split; [done|].
    intros n st' (Hl & Hn & Hst). apply (elem_of_range_map picks) in Hl.
    destruct (Hbound _ _ Hl Hn Hst); lia.
Qed.

(** The failover candidate is a connected instance other than the primary
    with the largest replication offset, in whatever order the status map is
    iterated; it is empty only when no connected replica has a non-negative
    offset. *)
Theorem failover_candidate_best cluster tr name :
  runs (selectFailoverCandidate cluster) tr (Ok name) →
  best_candidate (Status_CurrentPrimary (Status cluster)) (Status_InstancesStatus (Status cluster)) name.
Proof.
  unfold selectFailoverCandidate. intros (ord & tr' & -> & [_ [= ->]]). apply select_candidate_correct.
Qed.

(** ** Completion *)

Section completion.
Context (cluster : RedisCluster) (live : list Pod → Prop).
Let former := Status_CurrentPrimary (Status cluster).

(** Pod names are DNS labels, so the annotation is plain ASCII. *)
Hypothesis Hformer : is_ascii former = true.
Hypothesis Hfenced : ascii_names (getFencedPods cluster).

(** A replica is connected and has reported its offset. *)
Hypothesis Hreplica : ∃ n st, Status_InstancesStatus (Status cluster) !! n = Some st ∧ n ≠ former ∧
  is_Connected st = true ∧ 0 ≤ is_ReplicationOffset st.
Hypothesis Hnames : Status_InstancesStatus (Status cluster) !! "" = None.

(** What a completed failover leaves behind. *)
Definition failed_over (c' : RedisCluster) : Prop :=
  best_candidate former (Status_InstancesStatus (Status cluster)) (Status_CurrentPrimary (Status c')) ∧
  Status_CurrentPrimary (Status c') ≠ "" ∧
  Status_CurrentPrimary (Status c') ≠ former ∧
  getFencedPods c' = filter (λ q, q ≠ former) (getFencedPods cluster).

Lemma best_nonempty name :
  best_candidate former (Status_InstancesStatus (Status cluster)) name → name ≠ "" ∧ name ≠ former.
Proof.
  destruct Hreplica as (n & st & Hl & Hn & Hc & Hoff).
  intros [[-> Hnone]|(st' & (Hl' & Hne & _) & _)].
  - exfalso. specialize (Hnone n st ltac:(done)). lia.
  - split; [|done]. intros ->. congruence.
Qed.

Lemma after_setFence_echo {A} ctx (f : RedisCluster → kprog A) Q :
  (∀ c1, fenced_from former cluster c1 → returns (echoes live) (f c1) Q) →
  returns (echoes live) (with_ctx ctx (setFence cluster former) ≫= f) Q.
Proof. intros Hf. eapply returns_bind; [by apply returns_with_ctx, setFence_echo|done]. Qed.

Lemma clear_after_echo c1 c2 ctx :
  fenced_from former cluster c1 → Annotations c2 = Annotations c1 →
  returns (echoes live) (with_ctx ctx (clearFence c2 former)) (λ c', Status c' = Status c2 ∧
    getFencedPods c' = filter (λ q, q ≠ former) (getFencedPods cluster)).
Proof.
  intros [_ _ _ Hf] Ha. assert (getFencedPods c2 = getFencedPods c1) as Hg by (unfold getFencedPods; by rewrite Ha).
  apply returns_with_ctx. eapply returns_mono; [apply clearFence_echo|].
  - rewrite Hg, Hf. by apply ascii_fence_insert.
  - intros c' [-> ->]. by rewrite Hg, Hf, filter_fence_insert.
Qed.

Lemma selectFailoverCandidate_echo c1 :
  Status c1 = Status cluster →
  returns (echoes live) (selectFailoverCandidate c1)
    (best_candidate former (Status_InstancesStatus (Status cluster))).
Proof. intros Hs ord _. simpl. rewrite Hs. apply select_candidate_correct. Qed.

(** C6: When the API server accepts the requests and the instances answer, a
    failover with an eligible replica completes: it returns without error, the
    recorded primary is the best candidate, the phase is FailingOver, and the
    former primary is no longer fenced while every other fence is kept. *)
Theorem failover_completes :
  returns (echoes live) (failover cluster) (λ c',
    failed_over c' ∧ Status_Phase (Status c') = ClusterPhaseFailingOver).
Proof.
  unfold failover. eapply returns_bind; [by auto with redis|]. intros _ _.
  apply after_setFence_echo. intros c1 Hff.
  eapply returns_bind; [apply selectFailoverCandidate_echo, Hff|]. intros candidate Hbest.
  destruct (best_nonempty _ Hbest) as [Hne Hnf]. rewrite bool_decide_false by done.
  eapply returns_bind; [by auto with redis|]. intros pods _.
  eapply (returns_bind _ _ _ (λ _, True)); [destruct (promotable _ _); [by auto with redis|done]|]. intros _ _.
  eapply returns_bind; [apply returns_with_ctx, StatusPatch_echo|]. intros c2 ->.
  eapply returns_bind; [by auto with redis|]. intros _ _.
  eapply returns_bind; [by apply (clear_after_echo c1)|].
  intros c3 [Hs Hg] [] _ [] _. simpl. unfold failed_over. by rewrite Hs, Hg.
Qed.

(** The planned switchover completes under the same conditions, provided
    the pod lists name every connected replica with an address; it leaves the
    phase as it was. *)
Theorem switchover_completes :
  former ≠ "" →
  (∀ n st pods, Status_InstancesStatus (Status cluster) !! n = Some st → is_Connected st = true →
     live pods → is_Some (promotable n pods)) →
  returns (echoes live) (switchover cluster) (λ c',
    failed_over c' ∧ Status_Phase (Status c') = Status_Phase (Status cluster)).
Proof.
  intros Hf0 Hpods. unfold switchover. fold former. rewrite bool_decide_false by done.
  apply after_setFence_echo. intros c1 Hff.
  eapply returns_bind; [apply selectFailoverCandidate_echo, Hff|]. intros candidate Hbest.
  destruct (best_nonempty _ Hbest) as [Hne Hnf]. rewrite bool_decide_false by done.
  eapply returns_bind; [by auto with redis|]. intros pods Hlive.
  assert (is_Some (promotable candidate pods)) as [pod ->].
  { destruct Hbest as [[? _]|(st & (Hl & _ & Hc) & _)]; [done|by eapply Hpods]. }
  eapply returns_bind; [by auto with redis|]. intros _ _.
  eapply returns_bind; [apply returns_with_ctx, StatusPatch_echo|]. intros c2 ->.
  eapply returns_bind; [by auto with redis|]. intros _ _.
  eapply returns_mono; [by apply (clear_after_echo c1)|].
  intros c3 [Hs Hg]. unfold failed_over. rewrite Hs, Hg. simpl. by rewrite (ff_status _ _ _ Hff).
Qed.
End completion.

(** ** Planned handover *)

(** A pod name: not empty, plain ASCII, without the separator. *)
Definition pod_name (s : string) : Prop :=
  s ≠ "" ∧ is_ascii s = true ∧ contains_char s "/"%char = false.

Lemma handover_pods_written c fences owner heir :
  Spec_Mode (Spec c) = ClusterModeCluster → pod_name owner → pod_name heir → owner ≠ heir →
  ClusterHandoverPods (set_Annotations c
    (<[ClusterHandoverAnnotation := owner +:+ "/" +:+ heir]> fences)) = Some (owner, heir).
Proof.
  intros Hm (Ho & _ & Hos) (Hh & _ & Hhs) Hne. unfold ClusterHandoverPods. simpl. rewrite Hm.
  rewrite bool_decide_false by tauto. unfold annotation. simpl. rewrite lookup_insert_eq.
  change (default "" (Some (owner +:+ "/" +:+ heir))) with (owner +:+ String "/" heir).
  rewrite cut_char_app, Hhs by done. by rewrite !bool_decide_false by done.
Qed.

Lemma getFencedPods_annotations c m l :
  l ≠ [] → ascii_names l → m !! FencingAnnotationKey = Some (marshal_strings l) →
  getFencedPods (set_Annotations c m) = l.
Proof.
  intros Hl Ha Hm. pose proof (getFencedPods_with c l Ha) as Hw.
  unfold getFencedPods, with_fenced_pods in *. simpl in *. rewrite Hm.
  rewrite bool_decide_false in Hw by done. by rewrite lookup_insert_eq in Hw.
Qed.

(** A handover of a shard that the API server accepts is recorded so that
    both sides read it back: the annotation names owner and heir, the owner is
    fenced softly (fenced, but its Redis process is not stopped), the heir is
    not fenced, and every earlier fence is kept. *)
Theorem begin_handover_fences_softly cluster owner heir live :
  Spec_Mode (Spec cluster) = ClusterModeCluster → pod_name owner → pod_name heir → owner ≠ heir →
  ascii_names (getFencedPods cluster) →
  owner ∉ getFencedPods cluster → heir ∉ getFencedPods cluster →
  annotation cluster ClusterHandoverAnnotation = "" →
  returns (echoes live) (beginClusterHandover cluster owner heir) (λ c',
    ClusterHandoverPods c' = Some (owner, heir) ∧
    isFenced owner c' = true ∧ requiresHardFence owner c' = false ∧ isFenced heir c' = false ∧
    getFencedPods c' = getFencedPods cluster ++ [owner]).
Proof.
  intros Hm Ho Hh Hne Ha Hno Hnh Hann. unfold beginClusterHandover. rewrite Hann.
  rewrite !(bool_decide_false (_ ∈ _)) by done. simpl. intros r -> [] _. simpl.
  set (c' := set_Annotations _ _).
  assert (ClusterHandoverPods c' = Some (owner, heir)) as Hp by by apply handover_pods_written.
  assert (getFencedPods c' = getFencedPods cluster ++ [owner]) as Hg.
  { apply getFencedPods_annotations; [by destruct (getFencedPods cluster)| |].
    - apply Forall_app. split; [done|]. constructor; [apply Ho|done].
    - by rewrite lookup_insert_ne, lookup_insert_eq. }
  unfold requiresHardFence, handover_owner. rewrite !isFenced_getFencedPods, Hg, Hp.
  rewrite !bool_decide_true by (done || set_solver). rewrite bool_decide_false by set_solver. done.
Qed.

(** An emergency fence on the owner of a pending handover escalates it: the
    handover annotation is dropped and the instance manager stops its Redis,
    while the other fences are kept. *)
Theorem fence_escalates_handover cluster owner heir live :
  ClusterHandoverPods cluster = Some (owner, heir) → is_ascii owner = true →
  ascii_names (getFencedPods cluster) →
  returns (echoes live) (setFence cluster owner) (λ c',
    ClusterHandoverPods c' = None ∧ requiresHardFence owner c' = true ∧
    ∀ q, q ∈ getFencedPods cluster → isFenced q c' = true).
Proof.
  intros Hp Ho Ha. eapply returns_mono; [by apply setFence_echo|]. intros c' [Hs Hsp Hh Hf].
  assert (handover_owner cluster = owner) as Hown by (unfold handover_owner; by rewrite Hp).
  rewrite bool_decide_true in Hh by done.
  assert (ClusterHandoverPods c' = None) as Hnone.
  { unfold ClusterHandoverPods. rewrite Hh. simpl. by case_match. }
  assert (owner ≠ "") as Hne.
  { intros ->. unfold ClusterHandoverPods in Hp. repeat case_match; simplify_eq. }
  assert (∀ q, q ∈ getFencedPods cluster ∨ q = owner → isFenced q c' = true) as Hin.
  { intros q Hq. rewrite isFenced_getFencedPods, Hf. apply bool_decide_true. unfold fence_insert.
    case_bool_decide; [naive_solver|]. set_solver. }
  split_and!; [done| |auto]. unfold requiresHardFence, handover_owner. rewrite Hnone.
  rewrite Hin by auto. by rewrite bool_decide_false.
Qed.

(** When a planned promotion is safe: the owner is a connected, fenced primary
    that the readiness probe has already taken out of service, and the heir a
    connected replica of it with the link up, not fenced itself. *)
Record handover_safe (cluster : RedisCluster) (pods : list Pod) (statuses : gmap string InstanceStatus)
    (ip : string) (owner heir : string) : Prop := {
  hs_pending : ClusterHandoverPods cluster = Some (owner, heir);
  hs_owner_fenced : isFenced owner cluster = true;
  hs_heir_unfenced : isFenced heir cluster = false;
  hs_source : is_Connected (status_of statuses owner) = true ∧ is_Role (status_of statuses owner) = "master";
  hs_target : is_Connected (status_of statuses heir) = true ∧ is_Role (status_of statuses heir) = "slave" ∧
    is_PrimaryNodeID (status_of statuses heir) = is_NodeID (status_of statuses owner) ∧
    is_MasterLinkStatus (status_of statuses heir) = "up";
  hs_owner_pod : ∃ pod, pod ∈ pods ∧ p_Name pod = owner ∧ isPodRunningAndReady pod = false;
  hs_heir_pod : ∃ pod, pod ∈ pods ∧ p_Name pod = heir ∧ p_PodIP pod = ip ∧ ip ≠ ""
}.

Lemma finishClusterHandover_no_post c owner : kissues no_post (finishClusterHandover c owner).
Proof. unfold finishClusterHandover, PatchLocked, Event, kcall. issues. Qed.

(** C33: Resuming a handover asks an instance to promote itself only when the
    promotion is safe: the owner is fenced, connected, still master and already
    out of service, and the heir is its connected, unfenced replica with the
    replication link up. *)
Theorem resume_promotes_only_when_safe cluster pods statuses tr out ip req r :
  runs (resumeClusterHandover cluster pods statuses) tr out → kev (OPost ip req) r ∈ tr →
  req = PostPromote ∧ ∃ owner heir, handover_safe cluster pods statuses ip owner heir.
Proof.
  intros H Hin. unfold resumeClusterHandover in H.
  destruct (ClusterHandoverPods cluster) as [[owner heir]|] eqn:Hp; [|destruct H as [-> _]; by apply elem_of_nil in Hin].
  assert (kissues no_post (cluster ← finishClusterHandover cluster owner; mret (false, cluster))) as Hfin.
  { apply issues_bind; [apply finishClusterHandover_no_post|done]. }
  assert (∀ A (q : kprog A) tr out, kissues no_post q → runs q tr out → kev (OPost ip req) r ∉ tr) as Hno.
  { intros A q tr' out' Hi Hr. by eapply runs_issues_no. }
  destruct (last_pod_named pods owner) as [opod|] eqn:Ho; [|by apply Hno in H; [|done]].
  destruct (last_pod_named pods heir) as [hpod|] eqn:Hh; [|by apply Hno in H; [|done]].
  apply last_pod_named_spec in Ho as [Ho1 Ho2], Hh as [Hh1 Hh2].
  rewrite <- !isFenced_getFencedPods in H.
  repeat (let E := fresh "E" in case_match eqn:E;
    [first [by apply Hno in H; [|done] | destruct H as [-> _]; by apply elem_of_nil in Hin]|]).
  assert (kev (OPost ip req) r ∈ tr → ip = p_PodIP hpod ∧ req = PostPromote ∧ p_PodIP hpod ≠ "") as Hpost.
  { apply runs_bind in H as [(e & H & ->)|(u & tr1 & tr2 & -> & H & H2)].
    - apply runs_with_ctx in H as [(? & H & _)|(? & H & _)]; by eapply postClusterJSON_posts.
    - apply runs_with_ctx_ok in H. intros [Hin'|Hin']%elem_of_app; [by eapply postClusterJSON_posts|].
      by apply Hno in H2; [|done]. }
  destruct (Hpost Hin) as (-> & -> & Hip). split; [done|]. exists owner, heir. bsimpl.
  split; try done; eauto 6.
Qed.

(** ** A failover that promotes nobody *)

(** The best replica's pod has lost its address. *)
Definition unreachable_world : world :=
  mkWorld three (with_label {[ LabelCluster := "c" ]} <$>
    [mk_pod "c-0" "10.0.0.1" ∅ false; mk_pod "c-1" "10.0.0.2" ∅ true; mk_pod "c-2" "" ∅ false]) ∅.

(** Unlike [switchover], [failover] does not check that the candidate's pod
    was found with an address: there is a run that ends successfully, records a
    new primary and drops the fence of the former one without a single
    promotion request. *)
Theorem failover_may_skip_promotion :
  ∃ cluster tr c', runs (failover cluster) tr (Ok c') ∧
    Status_CurrentPrimary (Status c') ≠ Status_CurrentPrimary (Status cluster) ∧
    isFenced (Status_CurrentPrimary (Status cluster)) c' = false ∧
    ∀ ip req r, kev (OPost ip req) r ∉ tr.
Proof.
  destruct (result_map_Ok (λ c, (Status_CurrentPrimary (Status c), isFenced "c-0" c))
    (fake_result unreachable_world (failover three)) ("c-2", false)) as (c' & E & [= Hp Hf]); [by vm_compute|].
  exists three, (fake_trace unreachable_world (failover three)), c'. rewrite Hp, <- E. clear E.
  split; [apply fake_runs|]. split; [discriminate|]. split; [exact Hf|].
  intros ip req r Hin%list_elem_of_In.
  assert (forallb (λ e, no_post (ev_op e)) (fake_trace unreachable_world (failover three)) = true) as Ha
    by by vm_compute.
  rewrite forallb_forall in Ha. apply Ha in Hin. discriminate Hin.
Qed.

(** ** Witnesses *)

Lemma three_replica : ∃ n st, Status_InstancesStatus (Status three) !! n = Some st ∧ n ≠ "c-0" ∧
  is_Connected st = true ∧ 0 ≤ is_ReplicationOffset st.
Proof. exists "c-2", (replica_status true 120). vm_compute. repeat split; congruence. Qed.

Lemma failover_completes_witness :
  returns (echoes (λ _, True)) (failover three) (λ c',
    failed_over three c' ∧ Status_Phase (Status c') = ClusterPhaseFailingOver).
Proof. apply failover_completes; [done|constructor|apply three_replica|done]. Defined.

Definition all_reachable (pods : list Pod) : Prop :=
  Forall (λ n, is_Some (promotable n pods)) ["c-0"; "c-1"; "c-2"].

Lemma switchover_completes_witness :
  returns (echoes all_reachable) (switchover three) (λ c',
    failed_over three c' ∧ Status_Phase (Status c') = ClusterPhaseHealthy).
Proof.
  apply (switchover_completes three all_reachable); [done|constructor|apply three_replica|done|done|].
  intros n st pods Hn _ Hl. unfold all_reachable in Hl.
  change (three_statuses !! n = Some st) in Hn. unfold three_statuses in Hn.
  apply lookup_insert_Some in Hn as [[<- _]|[_ Hn]]; [by inversion Hl|].
  apply lookup_insert_Some in Hn as [[<- _]|[_ Hn]].
  - apply Forall_cons in Hl as [_ Hl]. by inversion Hl.
  - apply lookup_singleton_Some in Hn as [<- _]. do 2 apply Forall_cons in Hl as [_ Hl]. by inversion Hl.
Defined.

(** The run of a failover of [three], split at its promotion request. *)
Lemma promotion_after_fence_witness :
  ∃ tr1 e tr2, fake_trace three_world (failover three) = tr1 ++ e :: tr2 ∧
    ev_op e = OPost "10.0.0.3" PostPromote ∧ fence_persisted three "c-0" tr1.
Proof.
  exists (take 5 (fake_trace three_world (failover three))).
  destruct (drop 5 (fake_trace three_world (failover three))) as [|e tr2] eqn:E; [by vm_compute in E|].
  exists e, tr2.
  assert (ev_op e = OPost "10.0.0.3" PostPromote) as He.
  { assert (ev_op <$> head (drop 5 (fake_trace three_world (failover three))) =
      Some (OPost "10.0.0.3" PostPromote)) as H by by vm_compute.
    rewrite E in H. by injection H. }
  assert (fake_trace three_world (failover three) =
    take 5 (fake_trace three_world (failover three)) ++ e :: tr2) as Hs by by rewrite <- E, take_drop.
  split; [exact Hs|]. split; [exact He|].
  refine (promotion_after_fence three _ _ _ e tr2 (or_introl (fake_runs three_world (failover three))) Hs _).
  by rewrite He.
Defined.

(** The API server rejects the status update: the fence stays. *)
Definition status_conflict : environment kube world := λ w c,
  match c return kube_ret c * world with
  | OPatchStatus _ _ => (Err (EAPI "conflict"), w)
  | c => fake w c
  end.

Lemma failed_failover_keeps_fence_witness :
  ∃ tr err, runs (failover three) tr (Err err) ∧ fence_kept "c-0" tr.
Proof.
  destruct (interp status_conflict three_world (failover three)) as [[tr out] w] eqn:E.
  destruct out as [c|err]; [by vm_compute in E|].
  exists tr, err. pose proof (interp_runs _ _ _ _ _ _ E) as Hr. split; [exact Hr|].
  exact (failed_failover_keeps_fence three tr err (or_introl Hr)).
Defined.

Lemma switchover_status_after_promotion_witness :
  ∃ tr1 b a r tr2, fake_trace three_world (switchover three) = tr1 ++ kev (OPatchStatus b a) r :: tr2 ∧
    promoted_before (Status_CurrentPrimary (Status a)) tr1.
Proof.
  set (tr := fake_trace three_world (switchover three)).
  assert (∃ b a r, tr !! 5%nat = Some (kev (OPatchStatus b a) r)) as (b & a & r & Hl).
  { vm_compute. eauto. }
  exists (take 5 tr), b, a, r, (drop 6 tr).
  pose proof (take_drop_middle _ _ _ Hl) as Hs. split; [by rewrite Hs|].
  apply (switchover_status_after_promotion three (fake_result three_world (switchover three)) _ b a r (drop 6 tr)).
  rewrite Hs. apply fake_runs.
Defined.

Lemma failover_candidate_best_witness :
  best_candidate "c-0" three_statuses "c-2".
Proof.
  apply (failover_candidate_best three [kev OMapOrder (λ _, [])] "c-2").
  by exists (λ _, []), [].
Defined.

Definition sharded : RedisCluster :=
  base_cluster (base_spec ClusterModeCluster 0 3 1) (base_status "" ∅).

Lemma begin_handover_fences_softly_witness :
  returns (echoes (λ _, True)) (beginClusterHandover sharded "c-0" "c-3") (λ c',
    ClusterHandoverPods c' = Some ("c-0", "c-3") ∧
    isFenced "c-0" c' = true ∧ requiresHardFence "c-0" c' = false ∧ isFenced "c-3" c' = false ∧
    getFencedPods c' = getFencedPods sharded ++ ["c-0"]).
Proof.
  apply begin_handover_fences_softly; [done|by repeat split|by repeat split|done|constructor| | |done];
    apply not_elem_of_nil.
Defined.

Definition handing_over_cluster : RedisCluster :=
  set_Annotations sharded
    {[ ClusterHandoverAnnotation := "c-0/c-3"; FencingAnnotationKey := marshal_strings ["c-0"] ]}.

Lemma fence_escalates_handover_witness :
  returns (echoes (λ _, True)) (setFence handing_over_cluster "c-0") (λ c',
    ClusterHandoverPods c' = None ∧ requiresHardFence "c-0" c' = true ∧
    ∀ q, q ∈ getFencedPods handing_over_cluster → isFenced q c' = true).
Proof.
  apply (fence_escalates_handover _ "c-0" "c-3"); [by vm_compute|done|].
  assert (getFencedPods handing_over_cluster = ["c-0"]) as -> by by vm_compute. by repeat constructor.
Defined.

Definition node (role primary : string) (slots : list SlotRange) (id : string) : InstanceStatus :=
  mkInstanceStatus role true 10 0 1 "up" id primary slots "ok" 1 None.

Lemma resume_promotes_only_when_safe_witness :
  let pods := [mk_pod "c-0" "10.0.0.1" ∅ false; mk_pod "c-3" "10.0.0.4" ∅ true] in
  let statuses := {[ "c-0" := node "master" "" [mkSlotRange 0 100] "n0"; "c-3" := node "slave" "n0" [] "n3" ]} in
  ∃ owner heir, handover_safe handing_over_cluster pods statuses "10.0.0.4" owner heir.
Proof.
  intros pods statuses.
  refine (proj2 (resume_promotes_only_when_safe handing_over_cluster pods statuses
    (fake_trace three_world (resumeClusterHandover handing_over_cluster pods statuses)) _
    "10.0.0.4" PostPromote (HttpStatus 200 "") (fake_runs _ _) _)).
  vm_compute. apply list_elem_of_here.
Defined.
