(* ===== verification/Status.v ===== *)
(** * Observation: polling, phase, conditions, status update

    [status.go] and the predicates of [replica_mode.go] it uses.  Loops over
    the status map run in the order of an [oracle]; the cluster object is
    passed in and the object after the update is returned. *)
From S2P Require Import Prelude GoStr Api Slots Layout Effects Kube.

Definition isReplicaModeEnabled (cluster : RedisCluster) : bool :=
  match Spec_ReplicaMode (Spec cluster) with Some rm => rm_Enabled rm | None => false end.

(** ** Polling *)

Definition instance_status_of (s : podStatusResponse) (now : Z) : InstanceStatus := {|
  is_Role := ps_Role s;
  is_Connected := ps_Connected s;
  is_ReplicationOffset := ps_ReplicationOffset s;
  is_ReplicaLagBytes := 0;
  is_ConnectedReplicas := int32 (ps_ConnectedReplicas s);
  is_MasterLinkStatus := ps_MasterLinkStatus s;
  is_NodeID := ps_NodeID s;
  is_PrimaryNodeID := ps_PrimaryNodeID s;
  is_SlotsServed := ps_SlotsServed s;
  is_ClusterState := ps_ClusterState s;
  is_CurrentEpoch := ps_Epoch s;
  is_LastSeenAt := Some now |}.

Fixpoint poll_pods (pods : list Pod) (statuses : gmap string InstanceStatus)
    : kprog (gmap string InstanceStatus) :=
  match pods with
  | [] => mret statuses
  | pod :: pods' =>
      if bool_decide (p_PodIP pod = "") then poll_pods pods' statuses
      else
        r ← catch (pollPodStatus (p_PodIP pod));
        match r with
        | Err _ => poll_pods pods' (<[p_Name pod := InstanceStatus_zero]> statuses)
        | Ok status =>
            now ← kcall ONow;
            poll_pods pods' (<[p_Name pod := instance_status_of status now]> statuses)
        end
  end.

Definition pollInstanceStatuses (cluster : RedisCluster) : kprog (gmap string InstanceStatus) :=
  pods ← with_ctx "listing pods for status poll" (listDataPods cluster);
  poll_pods pods ∅.

(** ** Cluster-mode status *)

Definition maxInt64 (a b : Z) : Z := if bool_decide (a < b) then b else a.

Definition shard_status_add (layout : shardLayout) (shardIndex : Z) (podName : string)
    (status : InstanceStatus) (sh : ShardStatus) : ShardStatus :=
  let epoch := maxInt64 (ss_Epoch sh) (is_CurrentEpoch status) in
  if isPrimary layout podName && negb (handingOver layout shardIndex) ||
     bool_decide (owner_of layout shardIndex = podName)
  then mkShardStatus podName (ss_ReplicaPods sh) (is_SlotsServed status) (is_NodeID status) epoch
  else mkShardStatus (ss_PrimaryPod sh) (ss_ReplicaPods sh ++ [podName]) (ss_SlotRanges sh)
         (ss_PrimaryNodeID sh) epoch.

Record derived := mkDerived {
  dv_state : string;
  dv_coverage : gset Z;
  dv_shards : gmap string ShardStatus
}.

Definition derive_step (layout : shardLayout) (d : derived) (e : string * InstanceStatus) : derived :=
  let '(podName, status) := e in
  let state :=
    if negb (bool_decide (is_ClusterState status = "")) && negb (bool_decide (is_ClusterState status = "ok"))
    then is_ClusterState status else dv_state d in
  match shardOf layout !! podName with
  | None => mkDerived state (dv_coverage d) (dv_shards d)
  | Some shardIndex =>
      let name := shardName shardIndex in
      let sh := default ShardStatus_zero (dv_shards d !! name) in
      mkDerived state (cover_served (dv_coverage d) (is_SlotsServed status))
        (<[name := shard_status_add layout shardIndex podName status sh]> (dv_shards d))
  end.

Definition sort_replicas (sh : ShardStatus) : ShardStatus :=
  mkShardStatus (ss_PrimaryPod sh) (sort_slice string_less (ss_ReplicaPods sh)) (ss_SlotRanges sh)
    (ss_PrimaryNodeID sh) (ss_Epoch sh).

(** [None] is the panic of the planner. *)
Definition deriveClusterStatus (cluster : RedisCluster) (pods : list Pod)
    (statuses : gmap string InstanceStatus) (ord : oracle)
    : option (string * Z * gmap string ShardStatus) :=
  match planShardLayout cluster pods statuses (oracle_shift 1 ord) with
  | None => None
  | Some layout =>
      let start := mkDerived (if bool_decide (0 < size statuses)%nat then "ok" else "") ∅ ∅ in
      let d := foldl (derive_step layout) start (range_map (ord 0%nat) statuses) in
      Some (dv_state d, Z.of_nat (size (dv_coverage d)), sort_replicas <$> dv_shards d)
  end.

(** ** Conditions *)

Definition hasType (conditions : list Condition) (conditionType : string) : bool :=
  existsb (λ c, bool_decide (c_Type c = conditionType)) conditions.

Definition preserveConditions (existing current : list Condition) (conditionTypes : list string)
    : list Condition :=
  foldl (λ current conditionType,
    if hasType current conditionType then current
    else match FindStatusCondition existing conditionType with
         | Some c => current ++ [c]
         | None => current
         end) current conditionTypes.

Definition carry_time (existing : list Condition) (c : Condition) : Condition :=
  match FindStatusCondition existing (c_Type c) with
  | Some e =>
      if bool_decide (c_Status e = c_Status c)
      then mkCondition (c_Type c) (c_Status c) (c_LastTransitionTime e) (c_Reason c) (c_Message c)
      else c
  | None => c
  end.

Definition carryTransitionTimes (existing current : list Condition) : list Condition :=
  carry_time existing <$> current.

(** A condition that is true or false, each with its reason and message. *)
Definition bool_condition (type : string) (now : Z) (b : bool) (t f : string * string) : Condition :=
  if b then mkCondition type ConditionTrue now t.1 t.2 else mkCondition type ConditionFalse now f.1 f.2.

Definition replica_connected (statuses : gmap string InstanceStatus) (pod : string) : bool :=
  match statuses !! pod with Some s => is_Connected s | None => false end.

Definition shard_replicas_healthy (cluster : RedisCluster) (statuses : gmap string InstanceStatus)
    (sh : ShardStatus) : bool :=
  if bool_decide (0 < Spec_ReplicasPerShard (Spec cluster)) then
    negb (bool_decide (Z.of_nat (length (ss_ReplicaPods sh)) < Spec_ReplicasPerShard (Spec cluster))) &&
    forallb (replica_connected statuses) (ss_ReplicaPods sh)
  else true.

Definition shard_counts (cluster : RedisCluster) (statuses : gmap string InstanceStatus)
    (entries : list (string * ShardStatus)) : Z * bool :=
  foldl (λ acc e,
    (if bool_decide (ss_PrimaryPod e.2 ≠ "") then acc.1 + 1 else acc.1,
     acc.2 && shard_replicas_healthy cluster statuses e.2)) (0, true) entries.

Definition cluster_conditions (cluster : RedisCluster) (statuses : gmap string InstanceStatus)
    (ord : oracle) (now : Z) : list Condition :=
  let expectedShards := Spec_Shards (Spec cluster) in
  let '(primaryCount, healthy) :=
    shard_counts cluster statuses (range_map (ord 0%nat) (Status_Shards (Status cluster))) in
  let ready := bool_decide (Status_ClusterState (Status cluster) = "ok") &&
               bool_decide (Status_SlotsAssigned (Status cluster) = slotCount) &&
               bool_decide (expectedShards ≤ primaryCount) in
  [bool_condition ConditionReady now ready
     ("ClusterSlotsCovered", "Redis Cluster is healthy with complete slot coverage")
     ("ClusterNotReady", "Redis Cluster is not healthy or slot coverage is incomplete");
   bool_condition ConditionPrimaryAvailable now (bool_decide (expectedShards ≤ primaryCount))
     ("ShardsAvailable", "Every shard has an available primary")
     ("ShardsUnavailable", "One or more shards do not have an available primary");
   bool_condition ConditionReplicationHealthy now healthy
     ("ClusterReplicasHealthy", "Shard replicas are connected")
     ("ClusterReplicasDegraded", "One or more shard replicas are unavailable")].

Definition replicating (s : InstanceStatus) : bool :=
  is_Connected s && bool_decide (is_Role s = "slave") && bool_decide (is_MasterLinkStatus s = "up").

Definition replica_mode_conditions (cluster : RedisCluster) (statuses : gmap string InstanceStatus)
    (ord : oracle) (now : Z) : list Condition :=
  let primary := Status_CurrentPrimary (Status cluster) in
  let leaderConnected := replica_connected statuses primary in
  let all := forallb (λ e, replicating e.2) (range_map (ord 0%nat) statuses) in
  let healthy := all && bool_decide (0 < size statuses)%nat in
  [bool_condition ConditionReady now leaderConnected
     ("ReplicaModeReady", "Replica-mode leader is reachable")
     ("ReplicaModeLeaderUnavailable", "Replica-mode leader is not reachable");
   bool_condition ConditionPrimaryAvailable now leaderConnected
     ("ReplicaLeaderAvailable", "Replica leader " +:+ primary +:+ " is connected")
     ("ReplicaLeaderUnavailable", "Replica leader is not available");
   bool_condition ConditionReplicationHealthy now healthy
     ("ExternalReplicationHealthy", "All instances are replicating from the external source")
     ("ExternalReplicationDegraded", "One or more instances are not replicating from the external source");
   bool_condition ConditionReplicaMode now healthy
     ("ReplicatingFromExternal", "Replica mode is enabled and external replication is healthy")
     ("ExternalReplicationUnhealthy", "Replica mode is enabled but external replication is unhealthy")].

Definition standalone_conditions (cluster : RedisCluster) (statuses : gmap string InstanceStatus)
    (ord : oracle) (now : Z) : list Condition :=
  let primary := Status_CurrentPrimary (Status cluster) in
  let ready := existsb (λ e, bool_decide (is_Role e.2 = "master") && is_Connected e.2)
                 (range_map (ord 0%nat) statuses) in
  let all := forallb (λ e, bool_decide (e.1 = primary) ||
               is_Connected e.2 && bool_decide (is_MasterLinkStatus e.2 = "up"))
               (range_map (ord 1%nat) statuses) in
  [bool_condition ConditionReady now ready
     ("ClusterReady", "Cluster has a reachable primary")
     ("NoPrimaryAvailable", "No reachable primary instance found");
   bool_condition ConditionPrimaryAvailable now ready
     ("PrimaryRunning", "Primary " +:+ primary +:+ " is running")
     ("PrimaryUnavailable", "Primary is not available");
   bool_condition ConditionReplicationHealthy now (all && bool_decide (1 < size statuses)%nat)
     ("ReplicasConnected", "All replicas are connected and replicating")
     ("ReplicasNotHealthy", "One or more replicas are not connected")].

Definition determineConditions (cluster : RedisCluster) (statuses : gmap string InstanceStatus)
    (ord : oracle) (now : Z) : list Condition :=
  if bool_decide (Spec_Mode (Spec cluster) = ClusterModeCluster) then cluster_conditions cluster statuses ord now
  else if isReplicaModeEnabled cluster then replica_mode_conditions cluster statuses ord now
  else standalone_conditions cluster statuses ord now.

(** ** Phase *)

Definition enough_instances (cluster : RedisCluster) (statuses : gmap string InstanceStatus) : bool :=
  bool_decide (DesiredDataInstances (Spec cluster) ≤ int32 (Z.of_nat (size statuses))).

Definition determinePhase (cluster : RedisCluster) (statuses : gmap string InstanceStatus) (ord : oracle)
    : ClusterPhase :=
  if bool_decide (size statuses = 0)%nat then ClusterPhaseCreating
  else if bool_decide (Spec_Mode (Spec cluster) = ClusterModeCluster) then
    if bool_decide (Status_ClusterState (Status cluster) = "ok") &&
       bool_decide (Status_SlotsAssigned (Status cluster) = slotCount) && enough_instances cluster statuses
    then ClusterPhaseHealthy
    else if bool_decide (Status_SlotsAssigned (Status cluster) = 0) ||
            bool_decide (Status_ClusterState (Status cluster) = "")
    then ClusterPhaseCreating
    else ClusterPhaseDegraded
  else if isReplicaModeEnabled cluster then
    let '(allConnected, allReplicating) :=
      foldl (λ acc e,
        if negb (is_Connected (snd e)) then (false, false)
        else if negb (bool_decide (is_Role (snd e) = "slave")) ||
                negb (bool_decide (is_MasterLinkStatus (snd e) = "up"))
        then (fst acc, false) else acc) (true, true) (range_map (ord 0%nat) statuses) in
    if allConnected && allReplicating && enough_instances cluster statuses
    then ClusterPhaseReplicating else ClusterPhaseDegraded
  else
    let '(allConnected, primaryFound) :=
      foldl (λ acc e,
        (fst acc && is_Connected (snd e), snd acc || bool_decide (is_Role (snd e) = "master")))
        (true, false) (range_map (ord 0%nat) statuses) in
    if negb primaryFound then
      if bool_decide (Spec_Mode (Spec cluster) = ClusterModeSentinel)
      then ClusterPhaseDegraded else ClusterPhaseFailingOver
    else if allConnected && enough_instances cluster statuses then ClusterPhaseHealthy
    else ClusterPhaseDegraded.

(** ** Reachability and the failover trigger *)

Definition count_connected (entries : list (string * InstanceStatus)) : Z :=
  foldl (λ n e, if is_Connected e.2 then n + 1 else n) 0 entries.

Definition checkReachability (cluster : RedisCluster) (statuses : gmap string InstanceStatus)
    (ord : oracle) : bool :=
  let expected := DesiredDataInstances (Spec cluster) in
  if bool_decide (Z.of_nat (size statuses) < expected) then false
  else bool_decide (count_connected (range_map (ord 0%nat) statuses) < expected).

Definition shouldTriggerFailover (cluster : RedisCluster) (statuses : gmap string InstanceStatus)
    (ord : oracle) : bool :=
  let currentPrimary := Status_CurrentPrimary (Status cluster) in
  if isReplicaModeEnabled cluster then false
  else if bool_decide (Spec_Mode (Spec cluster) = ClusterModeSentinel) then false
  else if bool_decide (Spec_Mode (Spec cluster) = ClusterModeCluster) then false
  else if bool_decide (currentPrimary = "") then false
  else if replica_connected statuses currentPrimary then false
  else existsb (λ e, negb (bool_decide (e.1 = currentPrimary)) && is_Connected e.2)
         (range_map (ord 0%nat) statuses).

Definition countReadySentinelPods (cluster : RedisCluster) : kprog Z :=
  if bool_decide (Spec_Mode (Spec cluster) ≠ ClusterModeSentinel) then mret 0
  else
    pods ← listSentinelPods cluster;
    mret (Z.of_nat (length (filter (λ pod,
      existsb (λ c, bool_decide (c.1 = "Ready") && bool_decide (c.2 = ConditionTrue)) (p_Conditions pod) = true)
      pods))).

(** ** updateStatus *)

Definition preserved_types : list string :=
  [ConditionHibernated; ConditionMaintenanceInProgress; ConditionPrimaryUpdateWaiting;
   ConditionPVCResizeInProgress; ConditionReplicaMode].

(** The counters, before the mode-specific part. *)
Definition with_instances (c : RedisCluster) (statuses : gmap string InstanceStatus) (ready : Z) : RedisCluster :=
  let s := Status c in
  set_Status c (mkStatus (Status_Phase s) (Status_CurrentPrimary s) ready
    (Status_SentinelReadyInstances s) (int32 (Z.of_nat (size statuses))) statuses
    (Status_ClusterState s) (Status_SlotsAssigned s) (Status_BootstrapCompleted s)
    (Status_Shards s) (Status_HealthyPVC s) (Status_DanglingPVC s)
    (Status_SecretsResourceVersion s) (Status_Conditions s)).

Definition with_topology (c : RedisCluster) (primary state : string) (slots : Z) (bootstrapped : bool)
    (shards : gmap string ShardStatus) : RedisCluster :=
  let s := Status c in
  set_Status c (mkStatus (Status_Phase s) primary (Status_ReadyInstances s)
    (Status_SentinelReadyInstances s) (Status_Instances s) (Status_InstancesStatus s)
    state slots bootstrapped shards (Status_HealthyPVC s) (Status_DanglingPVC s)
    (Status_SecretsResourceVersion s) (Status_Conditions s)).

Definition with_sentinel_ready (c : RedisCluster) (n : Z) : RedisCluster :=
  let s := Status c in
  set_Status c (mkStatus (Status_Phase s) (Status_CurrentPrimary s) (Status_ReadyInstances s)
    n (Status_Instances s) (Status_InstancesStatus s)
    (Status_ClusterState s) (Status_SlotsAssigned s) (Status_BootstrapCompleted s)
    (Status_Shards s) (Status_HealthyPVC s) (Status_DanglingPVC s)
    (Status_SecretsResourceVersion s) (Status_Conditions s)).

Definition with_derived (c : RedisCluster) (d : string * Z * gmap string ShardStatus) : RedisCluster :=
  let '(state, slots, shards) := d in
  let boot := Status_BootstrapCompleted (Status c) in
  with_topology c "" state slots
    (if negb boot && bool_decide (state = "ok") && bool_decide (slots = slotCount) then true else boot) shards.

(** The conditions the new status ends up with. *)
Definition merge_conditions (existing computed : list Condition) : list Condition :=
  carryTransitionTimes existing (preserveConditions existing computed preserved_types).

Definition updateStatus (cluster : RedisCluster) (instanceStatuses : gmap string InstanceStatus)
    : kprog RedisCluster :=
  let before := cluster in
  let existingConditions := Status_Conditions (Status cluster) in
  ord ← kcall OMapOrder;
  let ready := int32 (count_connected (range_map (ord 0%nat) instanceStatuses)) in
  let cluster := with_instances cluster instanceStatuses ready in
  cluster ←
    (if bool_decide (Spec_Mode (Spec cluster) = ClusterModeCluster) then
       pods ← with_ctx "listing data pods for shard status" (listDataPods cluster);
       ord ← kcall OMapOrder;
       match deriveClusterStatus cluster pods instanceStatuses ord with
       | None => Throw (Panicked "slice bounds out of range")
       | Some d => mret (with_derived cluster d)
       end
     else mret (with_topology cluster (Status_CurrentPrimary (Status cluster)) "" 0 false ∅));
  sentinelReady ← with_ctx "counting ready sentinel pods" (countReadySentinelPods cluster);
  let cluster := with_sentinel_ready cluster sentinelReady in
  ord ← kcall OMapOrder;
  let phase := determinePhase cluster instanceStatuses ord in
  let oldPhase := Status_Phase (Status cluster) in
  let cluster := set_Phase cluster phase in
  (if negb (bool_decide (oldPhase = ClusterPhaseHealthy)) && bool_decide (phase = ClusterPhaseHealthy)
   then Event EventNormal "ClusterReady" "Cluster is healthy with all instances connected" else mret tt);;
  now ← kcall ONow;
  ord ← kcall OMapOrder;
  let cluster := set_Conditions cluster
    (merge_conditions existingConditions (determineConditions cluster instanceStatuses ord now)) in
  if bool_decide (Status before = Status cluster) then mret cluster
  else StatusPatch before cluster.
