(* ===== verification/StatusFacts.v ===== *)
(** * Observation: the guarantees

    What the phase and the conditions mean, that no result depends on the order
    in which a Go map is iterated, when a failover is triggered, and what the
    status update may change. *)
From S2P Require Import Prelude GoStr Api Slots Layout LayoutFacts Effects Kube Fixtures Status.

(** ** Loops over the map as statements about the map *)

Lemma foldl_flags {A} (f g : A → bool) (l : list A) (a b : bool) :
  foldl (λ acc e, (fst acc && f e, snd acc || g e)) (a, b) l = (a && forallb f l, b || existsb g l).
Proof.
  revert a b; induction l as [|x l IH]; intros a b; simpl; [by rewrite andb_true_r, orb_false_r|].
  by rewrite IH, andb_assoc, orb_assoc.
Qed.

Lemma forallb_range picks (statuses : gmap string InstanceStatus) (f : string * InstanceStatus → bool) :
  forallb f (range_map picks statuses) = bool_decide (map_Forall (λ k s, f (k, s) = true) statuses).
Proof.
  apply eq_bool_prop_intro. rewrite !Is_true_true, bool_decide_eq_true, forallb_forall. split.
  - intros H k s Hk. apply H. rewrite <- list_elem_of_In. by apply elem_of_range_map.
  - intros H [k s] Hin. rewrite <- list_elem_of_In in Hin. apply (H k s). by apply elem_of_range_map in Hin.
Qed.

Lemma existsb_range picks (statuses : gmap string InstanceStatus) (f : string * InstanceStatus → bool) :
  existsb f (range_map picks statuses) = negb (bool_decide (map_Forall (λ k s, f (k, s) = false) statuses)).
Proof.
  destruct (existsb f _) eqn:E; symmetry.
  - apply negb_true_iff, bool_decide_eq_false. intros H. apply existsb_exists in E as ([k s] & Hin & Hf).
    rewrite <- list_elem_of_In in Hin. apply elem_of_range_map in Hin. apply H in Hin. congruence.
  - apply negb_false_iff, bool_decide_eq_true. intros k s Hk. destruct (f (k, s)) eqn:Hf; [|done].
    assert (existsb f (range_map picks statuses) = true); [|congruence].
    apply existsb_exists. exists (k, s). split; [|done]. rewrite <- list_elem_of_In. by apply elem_of_range_map.
Qed.

(** ** Phase *)

(** The phase as a statement about the statuses, without loops or orders. *)
Definition phase_spec (cluster : RedisCluster) (statuses : gmap string InstanceStatus) : ClusterPhase :=
  let enough := DesiredDataInstances (Spec cluster) ≤ int32 (Z.of_nat (size statuses)) in
  if decide (statuses = ∅) then ClusterPhaseCreating
  else if decide (Spec_Mode (Spec cluster) = ClusterModeCluster) then
    let slots := Status_SlotsAssigned (Status cluster) in
    let state := Status_ClusterState (Status cluster) in
    if decide (state = "ok" ∧ slots = slotCount ∧ enough) then ClusterPhaseHealthy
    else if decide (slots = 0 ∨ state = "") then ClusterPhaseCreating
    else ClusterPhaseDegraded
  else if isReplicaModeEnabled cluster then
    if decide (map_Forall (λ _ s, replicating s = true) statuses ∧ enough)
    then ClusterPhaseReplicating else ClusterPhaseDegraded
  else if decide (map_Forall (λ _ s, is_Role s ≠ "master") statuses) then
    if decide (Spec_Mode (Spec cluster) = ClusterModeSentinel)
    then ClusterPhaseDegraded else ClusterPhaseFailingOver
  else if decide (map_Forall (λ _ s, is_Connected s = true) statuses ∧ enough)
  then ClusterPhaseHealthy else ClusterPhaseDegraded.

Lemma replica_fold_flags (l : list (string * InstanceStatus)) a b :
  let '(c, r) := foldl (λ acc e,
    if negb (is_Connected (snd e)) then (false, false)
    else if negb (bool_decide (is_Role (snd e) = "slave")) ||
            negb (bool_decide (is_MasterLinkStatus (snd e) = "up"))
    then (fst acc, false) else acc) (a, b) l in
  c && r = a && b && forallb (λ e, replicating e.2) l.
Proof.
  revert a b; induction l as [|[k s] l IH]; intros a b; simpl; [by rewrite andb_true_r|].
  unfold replicating at 1. destruct (is_Connected s); simpl.
  - destruct (bool_decide (is_Role s = "slave")), (bool_decide (is_MasterLinkStatus s = "up")); simpl;
      try apply IH; specialize (IH a false); destruct (foldl _ _ l); rewrite IH; by destruct a, b.
  - specialize (IH false false). destruct (foldl _ _ l). rewrite IH. by destruct a, b.
Qed.

(** The reported phase is the one the statuses call for, whatever the order
    in which the map is visited: in particular a cluster is Healthy only with
    every instance connected, a primary among them and at least the desired
    number of instances, and in cluster mode only with all 16384 slots
    assigned. *)
Theorem determinePhase_meaning cluster statuses ord :
  determinePhase cluster statuses ord = phase_spec cluster statuses.
Proof.
  unfold determinePhase, phase_spec, enough_instances.
  destruct (decide (statuses = ∅)) as [->|Hne]; [by rewrite map_size_empty|].
  rewrite (bool_decide_false (size statuses = 0%nat)) by by rewrite map_size_empty_iff.
  destruct (decide (Spec_Mode (Spec cluster) = ClusterModeCluster)) as [Hm|Hm].
  { rewrite (bool_decide_true _ Hm). repeat (case_bool_decide || case_decide); simpl; try done; naive_solver. }
  rewrite (bool_decide_false _ Hm). destruct (isReplicaModeEnabled cluster).
  - pose proof (replica_fold_flags (range_map (ord 0%nat) statuses) true true) as Hf.
    destruct (foldl _ _ _) as [c r]. rewrite Hf, forallb_range. simpl.
    repeat (case_bool_decide || case_decide); simpl; try done; naive_solver.
  - rewrite foldl_flags, forallb_range, existsb_range. simpl.
    assert (map_Forall (λ _ s, bool_decide (is_Role s = "master") = false) statuses ↔
            map_Forall (λ _ s, is_Role s ≠ "master") statuses) as Hr.
    { split; intros H k s Hk; specialize (H k s Hk); [by apply bool_decide_eq_false in H|by apply bool_decide_eq_false]. }
    rewrite negb_involutive. repeat (case_bool_decide || case_decide); simpl; try done; naive_solver.
Qed.

(** ** Conditions *)

Lemma shard_counts_spec cluster statuses entries n b :
  foldl (λ acc e,
    (if bool_decide (ss_PrimaryPod e.2 ≠ "") then acc.1 + 1 else acc.1,
     acc.2 && shard_replicas_healthy cluster statuses e.2)) (n, b) entries =
  (n + Z.of_nat (length (filter (λ e : string * ShardStatus, ss_PrimaryPod e.2 ≠ "") entries)),
   b && forallb (λ e, shard_replicas_healthy cluster statuses e.2) entries).
Proof.
  revert n b; induction entries as [|e entries IH]; intros n b; simpl; [f_equal; [lia|by rewrite andb_true_r]|].
  rewrite IH, filter_cons. rewrite andb_assoc. f_equal.
  case_bool_decide; case_decide; try done; simpl; lia.
Qed.

#[export] Instance shard_counts_proper cluster statuses : Proper ((≡ₚ) ==> (=)) (shard_counts cluster statuses).
Proof.
  intros l1 l2 Hl. unfold shard_counts. rewrite !shard_counts_spec. f_equal; [by rewrite Hl|]. f_equal.
  apply eq_bool_prop_intro. rewrite !Is_true_true, !forallb_forall.
  setoid_rewrite <- list_elem_of_In. by setoid_rewrite Hl.
Qed.

Lemma determineConditions_order cluster statuses ord ord' now :
  determineConditions cluster statuses ord now = determineConditions cluster statuses ord' now.
Proof.
  unfold determineConditions, cluster_conditions, replica_mode_conditions, standalone_conditions.
  case_bool_decide; [by rewrite !range_map_perm|].
  by rewrite !forallb_range, !existsb_range.
Qed.

Lemma bool_condition_status type now b t f :
  c_Type (bool_condition type now b t f) = type ∧
  (c_Status (bool_condition type now b t f) = ConditionTrue ↔ b = true).
Proof. by destruct b. Qed.

Lemma determineConditions_types cluster statuses ord now :
  NoDup (condition_types (determineConditions cluster statuses ord now)) ∧
  ConditionReady ∈ condition_types (determineConditions cluster statuses ord now).
Proof.
  unfold determineConditions, cluster_conditions, replica_mode_conditions, standalone_conditions, condition_types.
  case_bool_decide; [destruct (shard_counts _ _ _)|destruct (isReplicaModeEnabled cluster)]; simpl;
    rewrite !(proj1 (bool_condition_status _ _ _ _ _)); (split; [|apply list_elem_of_here]);
    by apply (bool_decide_unpack _); vm_compute.
Qed.

(** When the Ready condition must be true, per operating mode. *)
Definition ready_spec (cluster : RedisCluster) (statuses : gmap string InstanceStatus) : Prop :=
  if decide (Spec_Mode (Spec cluster) = ClusterModeCluster) then
    Status_ClusterState (Status cluster) = "ok" ∧ Status_SlotsAssigned (Status cluster) = slotCount ∧
    Spec_Shards (Spec cluster) ≤
      Z.of_nat (size (filter (λ e, ss_PrimaryPod e.2 ≠ "") (Status_Shards (Status cluster))))
  else if isReplicaModeEnabled cluster then
    ∃ s, statuses !! Status_CurrentPrimary (Status cluster) = Some s ∧ is_Connected s = true
  else ∃ n s, statuses !! n = Some s ∧ is_Role s = "master" ∧ is_Connected s = true.

Lemma NoDup_fst_filter {A B} (P : A * B → Prop) `{∀ x, Decision (P x)} (l : list (A * B)) :
  NoDup l.*1 → NoDup (filter P l).*1.
Proof.
  induction l as [|x l IH]; simpl; [done|]. intros [Hx Hl]%NoDup_cons. rewrite filter_cons.
  case_decide; [|by apply IH]. simpl. constructor; [|by apply IH].
  intros Hin. apply Hx. apply list_elem_of_fmap in Hin as (y & -> & Hy).
  apply list_elem_of_filter in Hy as [_ Hy]. by apply list_elem_of_fmap_2.
Qed.

Lemma count_filter_map (P : ShardStatus → Prop) `{∀ x, Decision (P x)} picks (m : gmap string ShardStatus) :
  length (filter (λ e, P e.2) (range_map picks m)) = size (filter (λ e, P e.2) m).
Proof.
  rewrite range_map_perm, <- length_map_to_list. apply Permutation_length.
  rewrite map_filter_alt, map_to_list_to_map; [done|].
  apply NoDup_fst_filter, NoDup_fst_map_to_list.
Qed.

(** The computed conditions do not depend on map iteration order, carry
    each type once, and Ready is true exactly when the mode requires it:
    connected master (standalone, sentinel), connected leader (replica mode),
    healthy state, full slot coverage and a primary per shard (cluster mode). *)
Theorem ready_condition_meaning cluster statuses ord ord' now :
  determineConditions cluster statuses ord now = determineConditions cluster statuses ord' now ∧
  NoDup (condition_types (determineConditions cluster statuses ord now)) ∧
  ∃ c, FindStatusCondition (determineConditions cluster statuses ord now) ConditionReady = Some c ∧
    (c_Status c = ConditionTrue ↔ ready_spec cluster statuses).
Proof.
  split; [apply determineConditions_order|]. split; [apply determineConditions_types|].
  unfold determineConditions, cluster_conditions, replica_mode_conditions, standalone_conditions, ready_spec.
  destruct (decide (Spec_Mode (Spec cluster) = ClusterModeCluster)) as [Hm|Hm].
  - rewrite (bool_decide_true _ Hm). unfold shard_counts. rewrite shard_counts_spec.
    unfold FindStatusCondition. simpl. rewrite (proj1 (bool_condition_status _ _ _ _ _)). simpl. eexists.
    split; [done|]. rewrite (proj2 (bool_condition_status _ _ _ _ _)), !andb_true_iff, !bool_decide_eq_true.
    rewrite Z.add_0_l. pose proof (count_filter_map (λ sh, ss_PrimaryPod sh ≠ "") (ord 0%nat) (Status_Shards (Status cluster))) as Hc. simpl in Hc. rewrite Hc. tauto.
  - rewrite (bool_decide_false _ Hm). destruct (isReplicaModeEnabled cluster);
      unfold FindStatusCondition; simpl; rewrite (proj1 (bool_condition_status _ _ _ _ _)); simpl;
      eexists; (split; [done|]); rewrite (proj2 (bool_condition_status _ _ _ _ _)).
    + unfold replica_connected. destruct (statuses !! _); naive_solver.
    + rewrite existsb_exists. setoid_rewrite <- list_elem_of_In. split.
      * intros ([n s] & Hin & Hb). apply elem_of_range_map in Hin. bsimpl. eauto.
      * intros (n & s & Hin & Hr & Hc). exists (n, s). rewrite elem_of_range_map. simpl.
        by rewrite Hc, bool_decide_true.
Qed.

(** ** Merging with the existing conditions *)

Lemma hasType_spec conds t : hasType conds t = true ↔ t ∈ condition_types conds.
Proof.
  unfold hasType, condition_types. rewrite existsb_exists, list_elem_of_fmap.
  setoid_rewrite <- list_elem_of_In. split; intros (c & H1 & H2); exists c; bsimpl; [done|].
  split; [done|]. by apply bool_decide_eq_true.
Qed.

Lemma FindStatusCondition_Some conds t c :
  FindStatusCondition conds t = Some c → c ∈ conds ∧ c_Type c = t.
Proof. intros [Hin Ht]%find_some. bsimpl. by rewrite list_elem_of_In. Qed.

Lemma FindStatusCondition_types conds t :
  is_Some (FindStatusCondition conds t) ↔ t ∈ condition_types conds.
Proof.
  unfold condition_types. rewrite list_elem_of_fmap. split.
  - intros [c Hc]. exists c. by apply FindStatusCondition_Some in Hc as [? ?].
  - intros (c & -> & Hin). unfold FindStatusCondition. destruct (find _ _) eqn:E; [done|].
    apply list_elem_of_In, (find_none _ _ E) in Hin. bsimpl. done.
Qed.

(** What [preserveConditions] has established for the types handled so far. *)
Record preserved (existing computed : list Condition) (types : list string) (cur : list Condition) : Prop := {
  pr_types t : t ∈ condition_types cur ↔
    t ∈ condition_types computed ∨ (t ∈ types ∧ t ∈ condition_types existing);
  pr_nodup : NoDup (condition_types cur);
  pr_find t : FindStatusCondition cur t =
    match FindStatusCondition computed t with
    | Some c => Some c
    | None => if decide (t ∈ types) then FindStatusCondition existing t else None
    end
}.

Lemma FindStatusCondition_app l1 l2 t :
  FindStatusCondition (l1 ++ l2) t =
  match FindStatusCondition l1 t with Some c => Some c | None => FindStatusCondition l2 t end.
Proof.
  unfold FindStatusCondition. induction l1 as [|c l1 IH]; simpl; [done|]. by destruct (bool_decide _).
Qed.

Lemma preserve_step existing computed types cur t :
  preserved existing computed types cur →
  preserved existing computed (types ++ [t])
    (if hasType cur t then cur
     else match FindStatusCondition existing t with Some c => cur ++ [c] | None => cur end).
Proof.
  intros [Ht Hn Hf].
  assert (hasType cur t = false → FindStatusCondition computed t = None) as Hnone.
  { intros Hh. destruct (FindStatusCondition computed t) eqn:E; [|done].
    assert (t ∈ condition_types cur) as Hin by (apply Ht; left; apply FindStatusCondition_types; eauto).
    apply hasType_spec in Hin. congruence. }
  destruct (hasType cur t) eqn:Hh.
  - apply hasType_spec in Hh. split; [|done|].
    + intros t'. rewrite Ht. split; [set_solver|]. intros [?|[[?| ->%list_elem_of_singleton]%elem_of_app ?]]; [set_solver..|].
      apply Ht in Hh. set_solver.
    + intros t'. rewrite Hf. destruct (FindStatusCondition computed t') eqn:E; [done|].
      repeat case_decide; try done; [set_solver|].
      assert (t' = t) as -> by set_solver.
      apply Ht in Hh as [Hh|[? _]]; [|done]. apply FindStatusCondition_types in Hh as [? ?]. congruence.
  - specialize (Hnone eq_refl).
    assert (t ∉ condition_types cur) as Hnot by (rewrite <- hasType_spec; congruence).
    destruct (FindStatusCondition existing t) as [c|] eqn:E.
    + pose proof (FindStatusCondition_Some _ _ _ E) as [Hin Hc]. split.
      * intros t'. unfold condition_types in *. rewrite fmap_app, elem_of_app, Ht. simpl.
        rewrite list_elem_of_singleton, Hc, elem_of_app, list_elem_of_singleton.
        assert (t ∈ c_Type <$> existing) by (rewrite <- Hc; by apply list_elem_of_fmap_2). naive_solver.
      * unfold condition_types in *. rewrite fmap_app. apply NoDup_app. split; [done|]. simpl. rewrite Hc.
        split; [|apply NoDup_singleton]. intros x Hx ->%list_elem_of_singleton. done.
      * intros t'. rewrite FindStatusCondition_app, Hf. destruct (FindStatusCondition computed t') eqn:E'; [done|].
        destruct (decide (t' = t)) as [->|Hne].
        -- rewrite (decide_True (P := t ∈ types ++ [t])) by set_solver. case_decide; [by rewrite E|].
           unfold FindStatusCondition. simpl. rewrite bool_decide_true by done. by rewrite ?E.
        -- unfold FindStatusCondition at 2. simpl. rewrite bool_decide_false by (rewrite Hc; congruence).
           assert (t' ∈ types ++ [t] ↔ t' ∈ types) as Happ by (rewrite elem_of_app, list_elem_of_singleton; tauto).
           rewrite (decide_ext _ _ _ _ Happ).
           by destruct (decide (t' ∈ types)), (FindStatusCondition existing t').
    + split; [|done|].
      * intros t'. rewrite Ht. rewrite elem_of_app, list_elem_of_singleton. split; [tauto|].
        intros [?|[[?| ->] Hx]]; [tauto..|]. apply FindStatusCondition_types in Hx as [? ?]. congruence.
      * intros t'. rewrite Hf. destruct (FindStatusCondition computed t'); [done|].
        repeat case_decide; try set_solver.
Qed.

Lemma preserveConditions_spec existing computed types :
  NoDup (condition_types computed) →
  preserved existing computed types (preserveConditions existing computed types).
Proof.
  intros Hn. unfold preserveConditions.
  assert (∀ todo seen cur, preserved existing computed seen cur →
    preserved existing computed (seen ++ todo) (foldl (λ current conditionType,
      if hasType current conditionType then current
      else match FindStatusCondition existing conditionType with
           | Some c => current ++ [c] | None => current end) cur todo)) as Hgen.
  { induction todo as [|t todo IH]; intros seen cur Hp; simpl; [by rewrite app_nil_r|].
    replace (seen ++ t :: todo) with ((seen ++ [t]) ++ todo) by by rewrite <- app_assoc.
    by apply IH, preserve_step. }
  apply (Hgen types []). split; [|done|].
  - intros t. split; [tauto|]. intros [?|[?%elem_of_nil _]]; done.
  - intros t. rewrite decide_False by apply not_elem_of_nil. by destruct (FindStatusCondition computed t).
Qed.

Lemma carry_time_type existing c : c_Type (carry_time existing c) = c_Type c.
Proof. unfold carry_time. repeat case_match; done. Qed.

Lemma FindStatusCondition_carry existing cur t :
  FindStatusCondition (carryTransitionTimes existing cur) t =
  carry_time existing <$> FindStatusCondition cur t.
Proof.
  unfold FindStatusCondition, carryTransitionTimes. induction cur as [|c cur IH]; [done|].
  rewrite fmap_cons. cbn [find]. rewrite carry_time_type. by destruct (bool_decide _).
Qed.

Lemma merge_conditions_kept existing computed t :
  NoDup (condition_types computed) → FindStatusCondition computed t = None → t ∈ preserved_types →
  FindStatusCondition (merge_conditions existing computed) t = FindStatusCondition existing t.
Proof.
  intros Hn Hc Hp. destruct (preserveConditions_spec existing computed preserved_types Hn) as [_ _ Hf].
  unfold merge_conditions. rewrite FindStatusCondition_carry, Hf, Hc, decide_True by done.
  destruct (FindStatusCondition existing t) as [e|] eqn:E; [|done].
  simpl. f_equal. unfold carry_time. pose proof (FindStatusCondition_Some _ _ _ E) as [_ Ht].
  rewrite Ht, E. rewrite bool_decide_true by done. by destruct e; simpl in *; subst.
Qed.

(** The status update keeps the conditions other parts of the operator own:
    after the merge each type occurs once, a computed condition wins over an
    existing one, the five preserved types survive when they are not computed,
    nothing else does, and the transition time of a condition changes only if
    its status changed. *)
Theorem merged_conditions existing computed t :
  NoDup (condition_types computed) →
  let merged := merge_conditions existing computed in
  NoDup (condition_types merged) ∧
  (FindStatusCondition computed t = None → t ∈ preserved_types →
     FindStatusCondition merged t = FindStatusCondition existing t) ∧
  (FindStatusCondition computed t = None → t ∉ preserved_types → FindStatusCondition merged t = None) ∧
  (∀ c, FindStatusCondition computed t = Some c →
     ∃ c', FindStatusCondition merged t = Some c' ∧ c_Status c' = c_Status c ∧
       c_Reason c' = c_Reason c ∧ c_Message c' = c_Message c ∧
       c_LastTransitionTime c' =
         match FindStatusCondition existing t with
         | Some e => if decide (c_Status e = c_Status c) then c_LastTransitionTime e else c_LastTransitionTime c
         | None => c_LastTransitionTime c
         end).
Proof.
  intros Hn merged. destruct (preserveConditions_spec existing computed preserved_types Hn) as [_ Hnd Hf].
  unfold merged, merge_conditions. setoid_rewrite FindStatusCondition_carry. setoid_rewrite Hf. split_and!.
  - replace (condition_types (carryTransitionTimes _ _))
      with (condition_types (preserveConditions existing computed preserved_types)); [done|].
    unfold condition_types, carryTransitionTimes. rewrite <- list_fmap_compose. apply list_fmap_ext.
    intros i c _. simpl. by rewrite carry_time_type.
  - intros Hc Hp. rewrite <- Hf, <- FindStatusCondition_carry. by apply merge_conditions_kept.
  - intros -> Hp. by rewrite decide_False.
  - intros c Hc. pose proof (FindStatusCondition_Some _ _ _ Hc) as [_ <-]. rewrite Hc. simpl.
    eexists. split; [done|]. unfold carry_time. destruct (FindStatusCondition existing (c_Type c)); [|done].
    case_bool_decide; case_decide; done.
Qed.

(** ** The failover trigger *)

(** A failover is triggered exactly when the operator manages it (not
    sentinel, cluster or replica mode), a primary is recorded, that primary is
    not connected, and some other instance is; the answer does not depend on
    the map order. *)
Theorem shouldTriggerFailover_iff cluster statuses ord :
  shouldTriggerFailover cluster statuses ord = true ↔
  isReplicaModeEnabled cluster = false ∧
  Spec_Mode (Spec cluster) ≠ ClusterModeSentinel ∧ Spec_Mode (Spec cluster) ≠ ClusterModeCluster ∧
  Status_CurrentPrimary (Status cluster) ≠ "" ∧
  (∀ s, statuses !! Status_CurrentPrimary (Status cluster) = Some s → is_Connected s = false) ∧
  ∃ n s, n ≠ Status_CurrentPrimary (Status cluster) ∧ statuses !! n = Some s ∧ is_Connected s = true.
Proof.
  unfold shouldTriggerFailover, replica_connected. set (p := Status_CurrentPrimary (Status cluster)).
  assert (existsb (λ e, negb (bool_decide (e.1 = p)) && is_Connected e.2) (range_map (ord 0%nat) statuses) = true ↔
          ∃ n s, n ≠ p ∧ statuses !! n = Some s ∧ is_Connected s = true) as Hex.
  { rewrite existsb_exists. setoid_rewrite <- list_elem_of_In. split.
    - intros ([n s] & Hin & Hb). apply elem_of_range_map in Hin. bsimpl. eauto.
    - intros (n & s & Hn & Hin & Hc). exists (n, s). rewrite elem_of_range_map. simpl.
      by rewrite Hc, bool_decide_false. }
  destruct (isReplicaModeEnabled cluster); [naive_solver|].
  repeat (case_bool_decide; [naive_solver|]).
  destruct (statuses !! p) as [s|]; [destruct (is_Connected s) eqn:Hc|]; naive_solver.
Qed.

(** ** Cluster-mode status *)

(** Equality of shard statuses up to the order of the replica names, which are
    sorted at the end. *)
Definition shard_equiv (a b : ShardStatus) : Prop :=
  ss_PrimaryPod a = ss_PrimaryPod b ∧ ss_ReplicaPods a ≡ₚ ss_ReplicaPods b ∧
  ss_SlotRanges a = ss_SlotRanges b ∧ ss_PrimaryNodeID a = ss_PrimaryNodeID b ∧ ss_Epoch a = ss_Epoch b.

#[export] Instance shard_equiv_equivalence : Equivalence shard_equiv.
Proof. unfold shard_equiv. split; red; naive_solver (by etrans || done). Qed.

Lemma shard_equiv_refl a : shard_equiv a a.
Proof. reflexivity. Qed.

Definition shard_at (d : derived) (name : string) : ShardStatus := default ShardStatus_zero (dv_shards d !! name).

(** Two intermediate states that differ only in the order of replica names (and
    in the reported cluster state). *)
Record derived_equiv (d1 d2 : derived) : Prop := {
  de_coverage : dv_coverage d1 = dv_coverage d2;
  de_dom n : is_Some (dv_shards d1 !! n) ↔ is_Some (dv_shards d2 !! n);
  de_shards n : shard_equiv (shard_at d1 n) (shard_at d2 n)
}.

#[export] Instance derived_equiv_preorder : PreOrder derived_equiv.
Proof.
  split.
  - intros d. split; [done|done|]. intros n. apply shard_equiv_refl.
  - intros d1 d2 d3 [H1 H2 H3] [H4 H5 H6]. split; [congruence|by intros n; rewrite H2|].
    intros n. by rewrite H3.
Qed.

#[export] Instance shard_status_add_proper layout s n st :
  Proper (shard_equiv ==> shard_equiv) (shard_status_add layout s n st).
Proof.
  intros a b (H1 & H2 & H3 & H4 & H5). unfold shard_status_add. rewrite H5.
  destruct (_ || _); unfold shard_equiv; simpl; [done|]. by rewrite H1, H2, H3, H4.
Qed.

Lemma shard_at_step layout d n st name :
  shard_at (derive_step layout d (n, st)) name =
  match shardOf layout !! n with
  | Some s => if decide (shardName s = name) then shard_status_add layout s n st (shard_at d name)
              else shard_at d name
  | None => shard_at d name
  end.
Proof.
  unfold derive_step, shard_at. destruct (shardOf layout !! n) as [s|]; simpl; [|done].
  rewrite lookup_insert. case_decide; [by subst|done].
Qed.

Lemma dom_step layout d n st name :
  is_Some (dv_shards (derive_step layout d (n, st)) !! name) ↔
  (∃ s, shardOf layout !! n = Some s ∧ shardName s = name) ∨ is_Some (dv_shards d !! name).
Proof.
  unfold derive_step. destruct (shardOf layout !! n) as [s|]; simpl; [|naive_solver].
  rewrite lookup_insert. case_decide; naive_solver.
Qed.

Lemma coverage_step layout d n st z :
  z ∈ dv_coverage (derive_step layout d (n, st)) ↔
  z ∈ dv_coverage d ∨ (is_Some (shardOf layout !! n) ∧ serves (is_SlotsServed st) z).
Proof.
  unfold derive_step. destruct (shardOf layout !! n) as [s|]; simpl.
  - rewrite elem_of_cover_served. naive_solver.
  - split; [tauto|]. intros [?|[[? ?] _]]; done.
Qed.

#[export] Instance derive_step_proper layout e :
  Proper (derived_equiv ==> derived_equiv) (λ d, derive_step layout d e).
Proof.
  destruct e as [n st]. intros d1 d2 [H1 H2 H3]. split.
  - apply set_eq. intros z. rewrite !coverage_step. by rewrite H1.
  - intros name. by rewrite !dom_step, H2.
  - intros name. rewrite !shard_at_step. destruct (shardOf layout !! n) as [s|]; [|done].
    case_decide; [|done]. by rewrite H3.
Qed.

(** At most one pod of a shard is reported as its primary. *)
Lemma reported_primary_unique layout s a b :
  shardOf layout !! a = Some s → shardOf layout !! b = Some s → a ≠ "" → b ≠ "" →
  isPrimary layout a && negb (handingOver layout s) || bool_decide (owner_of layout s = a) = true →
  isPrimary layout b && negb (handingOver layout s) || bool_decide (owner_of layout s = b) = true → a = b.
Proof.
  unfold isPrimary, handingOver, owner_of. intros Ha Hb Hna Hnb. rewrite Ha, Hb.
  destruct (ownerOf layout !! s) as [o|]; simpl; repeat case_bool_decide; simpl; try done; congruence.
Qed.

Lemma maxInt64_comm a b c : maxInt64 (maxInt64 a b) c = maxInt64 (maxInt64 a c) b.
Proof. unfold maxInt64. repeat case_bool_decide; lia. Qed.

Lemma shard_status_add_comm layout s a b sa sb sh :
  shardOf layout !! a = Some s → shardOf layout !! b = Some s → a ≠ "" → b ≠ "" → a ≠ b →
  shard_equiv (shard_status_add layout s a sa (shard_status_add layout s b sb sh))
              (shard_status_add layout s b sb (shard_status_add layout s a sa sh)).
Proof.
  intros Ha Hb Hna Hnb Hne. pose proof (reported_primary_unique layout s a b Ha Hb Hna Hnb) as Hu.
  unfold shard_status_add.
  destruct (_ || bool_decide (owner_of layout s = a)), (_ || bool_decide (owner_of layout s = b));
    try (destruct Hne; by apply Hu); unfold shard_equiv; simpl; rewrite maxInt64_comm; try done.
  split_and!; try done. rewrite <- !app_assoc. apply Permutation_app_head. apply Permutation_swap.
Qed.

Lemma derive_step_comm layout d a b :
  (∀ s s', shardName s = shardName s' → s = s') → a.1 ≠ "" → b.1 ≠ "" → a.1 ≠ b.1 →
  derived_equiv (derive_step layout (derive_step layout d a) b) (derive_step layout (derive_step layout d b) a).
Proof.
  destruct a as [a sa], b as [b sb]. cbn [fst]. intros Hinj Hna Hnb Hne. split.
  - apply set_eq. intros z. rewrite !coverage_step. tauto.
  - intros name. rewrite !dom_step. tauto.
  - intros name. rewrite !shard_at_step.
    destruct (shardOf layout !! a) as [s|] eqn:Ea, (shardOf layout !! b) as [s'|] eqn:Eb; try done.
    repeat case_decide; try done. assert (s' = s) as -> by (apply Hinj; congruence).
    by apply shard_status_add_comm.
Qed.

Lemma shardName_inj s s' : shardName s = shardName s' → s = s'.
Proof. unfold shardName. intros H%append_inj_l. by apply itoa_inj. Qed.

Lemma foldl_foldr_rev {A B} (f : A → B → A) l a : foldl f a l = foldr (λ x acc, f acc x) a (rev l).
Proof. revert a; induction l as [|x l IH]; intros a; simpl; [done|]. by rewrite IH, foldr_app. Qed.

Lemma derive_fold_perm layout d l1 l2 :
  NoDup l1.*1 → "" ∉ l1.*1 → l1 ≡ₚ l2 →
  derived_equiv (foldl (derive_step layout) d l1) (foldl (derive_step layout) d l2).
Proof.
  intros Hn He Hp. rewrite !foldl_foldr_rev.
  apply (foldr_permutation derived_equiv (λ e acc, derive_step layout acc e)).
  - intros e. apply derive_step_proper.
  - intros j1 a1 j2 a2 b Hj H1 H2.
    assert (∀ j a, rev l1 !! j = Some a → a ∈ l1) as Hin.
    { intros j a Hl. apply list_elem_of_lookup_2 in Hl. by rewrite list_elem_of_In, <- in_rev, <- list_elem_of_In in Hl. }
    apply derive_step_comm; [apply shardName_inj| | |].
    + intros Hx. apply He. rewrite <- Hx. apply list_elem_of_fmap_2. by eapply Hin.
    + intros Hx. apply He. rewrite <- Hx. apply list_elem_of_fmap_2. by eapply Hin.
    + intros Heq. apply Hj. assert (NoDup (rev l1).*1) as Hnr by by rewrite (Permutation_rev l1) in Hn.
      eapply NoDup_lookup; [exact Hnr| |]; rewrite list_lookup_fmap; [by rewrite H1|by rewrite H2; simpl; f_equal].
  - by rewrite <- !Permutation_rev.
Qed.

(** In cluster mode the shard table and the number of assigned slots that
    the status reports do not depend on the order in which the instance
    statuses are visited, for any layout. *)
Theorem shard_status_order_free layout statuses picks picks' d :
  statuses !! "" = None →
  let run p := foldl (derive_step layout) d (range_map p statuses) in
  size (dv_coverage (run picks)) = size (dv_coverage (run picks')) ∧
  (sort_replicas <$> dv_shards (run picks)) = (sort_replicas <$> dv_shards (run picks')).
Proof.
  intros He run.
  assert (derived_equiv (run picks) (run picks')) as [Hc Hd Hs].
  { apply derive_fold_perm.
    - rewrite range_map_perm. apply NoDup_fst_map_to_list.
    - intros ([k s] & Hk & Hin)%list_elem_of_fmap. apply elem_of_range_map in Hin. simpl in Hk. congruence.
    - by rewrite !range_map_perm. }
  split; [by rewrite Hc|]. apply map_eq. intros n. rewrite !lookup_fmap.
  specialize (Hd n). specialize (Hs n). unfold shard_at in Hs.
  destruct (dv_shards (run picks) !! n) as [a|], (dv_shards (run picks') !! n) as [b|]; simpl in *;
    [|naive_solver..|done].
  f_equal. destruct Hs as (H1 & H2 & H3 & H4 & H5). unfold sort_replicas.
  by rewrite H1, H3, H4, H5, (sort_strings_perm _ _ H2).
Qed.

(** ** The status update *)

(** A status write the update may make, starting from [cluster]. *)
Record status_write (cluster : RedisCluster) (statuses : gmap string InstanceStatus)
    (before after : RedisCluster) : Prop := {
  sw_before : before = cluster;
  sw_changed : Status after ≠ Status cluster;
  sw_spec : Spec after = Spec cluster ∧ Annotations after = Annotations cluster ∧ Name after = Name cluster;
  sw_instances : Status_InstancesStatus (Status after) = statuses;
  sw_primary : Spec_Mode (Spec cluster) ≠ ClusterModeCluster →
    Status_CurrentPrimary (Status after) = Status_CurrentPrimary (Status cluster);
  sw_bootstrap : Spec_Mode (Spec cluster) = ClusterModeCluster →
    Status_BootstrapCompleted (Status cluster) = true → Status_BootstrapCompleted (Status after) = true;
  sw_conditions t : t ∈ [ConditionHibernated; ConditionMaintenanceInProgress; ConditionPrimaryUpdateWaiting;
      ConditionPVCResizeInProgress] →
    FindStatusCondition (Status_Conditions (Status after)) t =
    FindStatusCondition (Status_Conditions (Status cluster)) t
}.

(** What the steps before the write have kept. *)
Record status_draft (cluster : RedisCluster) (statuses : gmap string InstanceStatus) (c : RedisCluster) : Prop := {
  sd_spec : Spec c = Spec cluster ∧ Annotations c = Annotations cluster ∧ Name c = Name cluster;
  sd_instances : Status_InstancesStatus (Status c) = statuses;
  sd_primary : Spec_Mode (Spec cluster) ≠ ClusterModeCluster →
    Status_CurrentPrimary (Status c) = Status_CurrentPrimary (Status cluster);
  sd_bootstrap : Spec_Mode (Spec cluster) = ClusterModeCluster →
    Status_BootstrapCompleted (Status cluster) = true → Status_BootstrapCompleted (Status c) = true
}.

(** Everything but a write of the status, or a status write that is allowed. *)
Definition status_update_op (cluster : RedisCluster) (statuses : gmap string InstanceStatus) (c : kube_op) : Prop :=
  match c with
  | OPatchStatus b a => status_write cluster statuses b a
  | OEvent _ _ _ | ONow | OMapOrder | OListPods _ => True
  | _ => False
  end.

Lemma determineConditions_find cluster statuses ord now t :
  t ∈ [ConditionHibernated; ConditionMaintenanceInProgress; ConditionPrimaryUpdateWaiting;
       ConditionPVCResizeInProgress] →
  FindStatusCondition (determineConditions cluster statuses ord now) t = None.
Proof.
  intros Ht. unfold determineConditions, cluster_conditions, replica_mode_conditions, standalone_conditions.
  unfold FindStatusCondition.
  case_bool_decide; [destruct (shard_counts _ _ _)|destruct (isReplicaModeEnabled cluster)]; cbn [find];
    rewrite !(proj1 (bool_condition_status _ _ _ _ _));
    repeat (apply elem_of_cons in Ht as [->|Ht]; [done|]); by apply elem_of_nil in Ht.
Qed.

Lemma draft_write cluster statuses c ord now phase c' :
  status_draft cluster statuses c →
  c' = set_Conditions (set_Phase c phase)
    (merge_conditions (Status_Conditions (Status cluster))
       (determineConditions (set_Phase c phase) statuses ord now)) →
  Status cluster ≠ Status c' →
  status_write cluster statuses cluster c'.
Proof.
  intros [Hs Hi Hp Hb] -> Hne. split; simpl; try done.
  intros t Ht.
  apply merge_conditions_kept; [apply determineConditions_types|by apply determineConditions_find|].
  unfold preserved_types. set_solver.
Qed.

Lemma updateStatus_does cluster statuses :
  does (S := kube) (status_update_op cluster statuses) (updateStatus cluster statuses) (λ _, True).
Proof.
  unfold updateStatus. split; [done|]. intros ord. cbn beta zeta.
  eapply (does_bind _ _ _ (status_draft cluster statuses)).
  - cbn [Spec with_instances set_Status]. case_bool_decide as Hm.
    + eapply (does_bind _ _ _ (λ _, True)).
      { apply does_with_ctx. split; [done|]. intros [pods|e]; done. }
      intros pods _. split; [done|]. intros ord'. cbn -[deriveClusterStatus].
      case_match; [|done]. destruct p as [[state slots] shards].
      split; simpl; try done. intros _ ->. done.
    + by split.
  - intros c Hd. eapply (does_bind _ _ _ (λ _, True)).
    { apply does_with_ctx. unfold countReadySentinelPods. case_bool_decide; [done|].
      split; [done|]. intros [pods|e]; done. }
    intros n _. apply does_kcall; [done|]. intros ord'. cbn beta zeta.
    eapply (does_bind _ _ _ (λ _, True)); [by destruct (_ && _)|].
    intros _ _. apply does_kcall; [done|]. intros now. apply does_kcall; [done|]. intros ord''. cbn beta zeta.
    case_bool_decide as Heq; [done|]. split; [|intros r; by apply does_check].
    eapply (draft_write _ _ (with_sentinel_ready c n)); [|done|done].
    destruct Hd as [Hs Hi Hp Hb]. by split.
Qed.

(** In every run of the status update, the only write is a status patch, it
    happens only if the status changed, it leaves spec and annotations alone,
    stores exactly the polled statuses, keeps the recorded primary outside
    cluster mode, never takes back a completed bootstrap, and keeps the
    hibernation, maintenance, update-waiting and resize conditions. *)
Theorem updateStatus_writes cluster statuses tr out e :
  runs (updateStatus cluster statuses) tr out → e ∈ tr →
  status_update_op cluster statuses (ev_op e).
Proof. intros Hr He. by apply (does_runs _ _ _ _ _ (updateStatus_does cluster statuses) Hr). Qed.

(** ** Polling *)

Lemma poll_pods_dom pods statuses :
  returns (λ _, True) (poll_pods pods statuses) (λ m, ∀ n,
    is_Some (m !! n) ↔ is_Some (statuses !! n) ∨ ∃ pod, pod ∈ pods ∧ p_Name pod = n ∧ p_PodIP pod ≠ "").
Proof.
  revert statuses; induction pods as [|pod pods IH]; intros statuses.
  - intros n. set_solver.
  - assert (∀ s, returns (λ _ : event kube, True) (poll_pods pods (<[p_Name pod := s]> statuses)) (λ m, ∀ n,
      is_Some (m !! n) ↔ is_Some (statuses !! n) ∨
      p_Name pod = n ∨ ∃ pod, pod ∈ pods ∧ p_Name pod = n ∧ p_PodIP pod ≠ "")) as Hins.
    { intros s. eapply returns_mono; [apply IH|]. intros m Hm n. specialize (Hm n). simpl in Hm. rewrite Hm, lookup_insert_is_Some'. naive_solver. }
    cbn [poll_pods]. case_bool_decide as Hip.
    + eapply returns_mono; [apply IH|]. intros m Hm n. specialize (Hm n). simpl in Hm. rewrite Hm. setoid_rewrite elem_of_cons. naive_solver.
    + assert (∀ m : gmap string InstanceStatus, (∀ n, is_Some (m !! n) ↔ is_Some (statuses !! n) ∨
         p_Name pod = n ∨ ∃ pod, pod ∈ pods ∧ p_Name pod = n ∧ p_PodIP pod ≠ "") →
         ∀ n, is_Some (m !! n) ↔ is_Some (statuses !! n) ∨
         ∃ pod', pod' ∈ pod :: pods ∧ p_Name pod' = n ∧ p_PodIP pod' ≠ "") as Hfix.
      { intros m Hm n. rewrite Hm. setoid_rewrite elem_of_cons. naive_solver. }
      eapply returns_bind; [apply returns_catch|]. intros [status|e] _; [intros now _|];
        (eapply returns_mono; [apply Hins|apply Hfix]).
Qed.

(** Polling never fails because of an instance: every data pod with an
    address, and no other, gets an entry, and an unreachable one gets a
    disconnected entry instead of aborting the pass. *)
Theorem poll_covers_pods pods tr out :
  runs (poll_pods pods ∅) tr out →
  ∃ m, out = Ok m ∧ ∀ n, is_Some (m !! n) ↔ ∃ pod, pod ∈ pods ∧ p_Name pod = n ∧ p_PodIP pod ≠ "".
Proof.
  intros Hr. destruct (returns_runs _ _ _ _ _ (poll_pods_dom pods ∅) Hr) as (m & -> & Hm).
  - by apply Forall_true.
  - exists m. split; [done|]. intros n. rewrite Hm, lookup_empty. split; [intros [[? ?]|?]; done|auto].
Qed.

(** ** Witnesses *)

Lemma merged_conditions_witness :
  let existing := [mkCondition ConditionReady ConditionTrue 5 "r" "m"; mkCondition ConditionHibernated ConditionFalse 3 "r" "m"] in
  let computed := [mkCondition ConditionReady ConditionTrue 9 "r2" "m2"] in
  FindStatusCondition (merge_conditions existing computed) ConditionHibernated =
    FindStatusCondition existing ConditionHibernated ∧
  c_LastTransitionTime <$> FindStatusCondition (merge_conditions existing computed) ConditionReady = Some 5.
Proof.
  intros existing computed.
  assert (NoDup (condition_types computed)) as Hn by by apply (bool_decide_unpack _).
  split.
  - apply (merged_conditions existing computed ConditionHibernated Hn); [by vm_compute|].
    by apply (bool_decide_unpack _).
  - destruct (merged_conditions existing computed ConditionReady Hn) as (_ & _ & _ & Hc).
    destruct (Hc _ eq_refl) as (c' & -> & _ & _ & _ & Ht). simpl. rewrite Ht. by vm_compute.
Defined.

Definition two_shards : shardLayout :=
  mkLayout {[ "c-0" := 0; "c-1" := 0; "c-2" := 0 ]} {[ 0 := "c-0" ]} {[ 0 := "c-0" ]}
    {[ 0 := ["c-0"; "c-1"; "c-2"] ]} ∅.

Lemma shard_status_order_free_witness :
  let run p := foldl (derive_step two_shards) (mkDerived "" ∅ ∅) (range_map p three_statuses) in
  dv_shards (run [0%nat]) ≠ dv_shards (run [2%nat; 1%nat]) ∧
  (sort_replicas <$> dv_shards (run [0%nat])) = (sort_replicas <$> dv_shards (run [2%nat; 1%nat])).
Proof.
  intros run. split; [by apply (bool_decide_unpack _); vm_compute|].
  by apply (shard_status_order_free two_shards three_statuses).
Defined.

Lemma updateStatus_writes_witness :
  ∃ e, e ∈ fake_trace three_world (updateStatus three three_statuses) ∧
    match ev_op e with OPatchStatus _ _ => True | _ => False end ∧
    status_update_op three three_statuses (ev_op e).
Proof.
  set (tr := fake_trace three_world (updateStatus three three_statuses)).
  assert (∃ b a r, last tr = Some (kev (OPatchStatus b a) r)) as (b & a & r & Hl).
  { vm_compute. eauto. }
  assert (kev (OPatchStatus b a) r ∈ tr) as Hin by (by apply last_Some_elem_of in Hl).
  exists (kev (OPatchStatus b a) r). split; [exact Hin|]. split; [exact I|].
  exact (updateStatus_writes three three_statuses tr _ _ (fake_runs _ _) Hin).
Defined.

Lemma poll_covers_pods_witness :
  ∃ m, fake_result three_world (poll_pods three_pods ∅) = Ok m ∧
    ∀ n, is_Some (m !! n) ↔ ∃ pod, pod ∈ three_pods ∧ p_Name pod = n ∧ p_PodIP pod ≠ "".
Proof. exact (poll_covers_pods three_pods _ _ (fake_runs three_world (poll_pods three_pods ∅))). Defined.
