(* ===== verification/Reshard.v ===== *)
(** * Forming and resharding a Redis Cluster

    [cluster_bootstrap.go] ([reconcileClusterBootstrap]) joins the nodes,
    assigns the slots nobody serves and attaches replicas;
    [cluster_reshard.go] ([reconcileClusterReshard], [handOverShard]) moves one
    misplaced segment of slots per pass towards the desired division.  The
    array [slotOwner] is the map of its non-empty entries. *)
From S2P Require Import Prelude GoStr Json Api Slots Layout Effects Kube Fencing Status.

Definition pod_ip (podsByName : gmap string Pod) (name : string) : string :=
  match podsByName !! name with Some pod => p_PodIP pod | None => "" end.

(** Pod and status are there, with address and node id. *)
Definition node_ready (podsByName : gmap string Pod) (statuses : gmap string InstanceStatus)
    (name : string) : bool :=
  negb (bool_decide (pod_ip podsByName name = "")) &&
  match statuses !! name with
  | Some status => is_Connected status && negb (bool_decide (is_NodeID status = ""))
  | None => false
  end.

(** ** Bootstrap *)

Definition meet_all (podsByName : gmap string Pod) (coordinator : string) (names : list string) : kprog unit :=
  for_each names (λ podName,
    with_ctx ("cluster meet " +:+ podName +:+ " via " +:+ coordinator)
      (postClusterJSON (pod_ip podsByName coordinator) (PostMeet (pod_ip podsByName podName) 6379))).

(** The inner loop over the gaps of one shard. *)
Fixpoint add_gaps (podName ip : string) (gaps : list SlotRange) (coverage : gset Z) : kprog (gset Z) :=
  match gaps with
  | [] => mret coverage
  | g :: gaps' =>
      with_ctx ("assigning slots " +:+ itoa (sr_Start g) +:+ "-" +:+ itoa (sr_End g) +:+ " on " +:+ podName)
        (postClusterJSON ip (PostAddSlots (sr_Start g) (sr_End g)));;
      add_gaps podName ip gaps' (cover_range coverage g)
  end.

(** [None] is the early [return false, nil]. *)
Fixpoint assign_slots (layout : shardLayout) (podsByName : gmap string Pod)
    (shards : list (Z * SlotRange)) (coverage : gset Z) (performed : bool) : kprog (option bool) :=
  match shards with
  | [] => mret (Some performed)
  | (shard, target) :: shards' =>
      let podName := primary_of layout shard in
      if bool_decide (podName = "") then mret None
      else
        let gaps := calculateUncoveredSlotRanges target coverage in
        coverage ← add_gaps podName (pod_ip podsByName podName) gaps coverage;
        assign_slots layout podsByName shards' coverage (performed || negb (bool_decide (gaps = [])))
  end.

Definition replica_target (layout : shardLayout) (podName : string) : Z :=
  match replicaMoves layout !! podName with
  | Some target => target
  | None => default 0 (shardOf layout !! podName)
  end.

Fixpoint attach_replicas (layout : shardLayout) (podsByName : gmap string Pod)
    (statuses : gmap string InstanceStatus) (names : list string) (performed : bool) : kprog (option bool) :=
  match names with
  | [] => mret (Some performed)
  | podName :: names' =>
      let continue := attach_replicas layout podsByName statuses names' in
      let podStatus := status_of statuses podName in
      if isPrimary layout podName then continue performed
      else if negb (bool_decide (is_SlotsServed podStatus = [])) then continue performed
      else
        let shardIndex := replica_target layout podName in
        if handingOver layout shardIndex then continue performed
        else
          let primaryNodeID := is_NodeID (status_of statuses (primary_of layout shardIndex)) in
          if bool_decide (primaryNodeID = "") then mret None
          else if bool_decide (is_Role podStatus = "slave") &&
                  (bool_decide (is_PrimaryNodeID podStatus = "") ||
                   bool_decide (is_PrimaryNodeID podStatus = primaryNodeID))
          then continue performed
          else
            r ← catch (postClusterJSON (pod_ip podsByName podName) (PostReplicate primaryNodeID));
            match r with
            | Ok _ => continue true
            | Err e =>
                if bool_decide (http_status e = Some 409) then mret None
                else Throw (Wrap ("replicating " +:+ podName +:+ " to shard " +:+ itoa shardIndex) e)
            end
  end.

(** The pass once the pods are listed and no handover is pending. *)
Definition bootstrap_pods (cluster : RedisCluster) (statuses : gmap string InstanceStatus) (pods : list Pod)
    : kprog (bool * RedisCluster) :=
  let desired := DesiredDataInstances (Spec cluster) in
  if bool_decide (Z.of_nat (length pods) < desired) then mret (true, cluster)
  else if bool_decide (desired < 0) then Throw (Panicked "makeslice: cap out of range")
  else
    let podsByName := pods_by_name pods in
    let expectedNames := podNameForIndex (Name cluster) <$> upto desired in
    if negb (forallb (node_ready podsByName statuses) expectedNames) then mret (true, cluster)
    else
      meet_all podsByName (podNameForIndex (Name cluster) 0) (tail expectedNames);;
      ord ← kcall OMapOrder;
      match planShardLayout cluster pods statuses (oracle_shift 1 ord) with
      | None => Throw (Panicked "slice bounds out of range")
      | Some layout =>
          let shardCount := desiredShardCount cluster in
          let coverage := calculateSlotCoverage (range_map (ord 0%nat) statuses) in
          r ← assign_slots layout podsByName
                (zip (upto shardCount) (calculateClusterSlotRanges shardCount)) coverage false;
          match r with
          | None => mret (false, cluster)
          | Some performed =>
              r ← attach_replicas layout podsByName statuses expectedNames performed;
              match r with
              | None => mret (false, cluster)
              | Some true => mret (false, cluster)
              | Some false =>
                  mret (bool_decide (Status_ClusterState (Status cluster) = "ok") &&
                        bool_decide (Status_SlotsAssigned (Status cluster) = slotCount), cluster)
              end
          end
      end.

Definition reconcileClusterBootstrap (cluster : RedisCluster) (statuses : gmap string InstanceStatus)
    : kprog (bool * RedisCluster) :=
  if bool_decide (DesiredDataInstances (Spec cluster) = 0) then mret (true, cluster)
  else
    pods ← with_ctx "listing data pods" (listDataPods cluster);
    if negb (bool_decide (annotation cluster ClusterHandoverAnnotation = ""))
    then resumeClusterHandover cluster pods statuses
    else bootstrap_pods cluster statuses pods.

(** ** Resharding *)

Definition own_range (owner : string) (slotOwner : gmap Z string) (r : SlotRange) : gmap Z string :=
  foldl (λ so slot, <[slot := owner]> so) slotOwner (range_slots r).

(** Later instances of the iteration overwrite earlier ones. *)
Definition slot_owners (entries : list (string * InstanceStatus)) : gmap Z string :=
  foldl (λ so e, foldl (λ so r, own_range e.1 so (clamp_range r)) so (is_SlotsServed e.2)) ∅ entries.

Definition slot_owner (slotOwner : gmap Z string) (slot : Z) : string := default "" (slotOwner !! slot).

(** [for slot <= end && slotOwner[slot] == owner { slot++ }] *)
Fixpoint segment_stop (fuel : nat) (slotOwner : gmap Z string) (owner : string) (slot end_ : Z) : Z :=
  match fuel with
  | O => slot
  | S fuel' =>
      if bool_decide (slot ≤ end_) && bool_decide (slot_owner slotOwner slot = owner)
      then segment_stop fuel' slotOwner owner (slot + 1) end_ else slot
  end.

(** The first segment of the range that [target] does not own: owner, first
    and last slot.  Every iteration advances [slot]. *)
Fixpoint scan_range (fuel : nat) (slotOwner : gmap Z string) (target : string) (slot end_ : Z)
    : option (string * Z * Z) :=
  match fuel with
  | O => None
  | S fuel' =>
      if bool_decide (slot ≤ end_) then
        let owner := slot_owner slotOwner slot in
        let stop := segment_stop fuel slotOwner owner slot end_ in
        if bool_decide (owner = target) then scan_range fuel' slotOwner target stop end_
        else Some (owner, slot, stop - 1)
      else None
  end.

Definition range_fuel (r : SlotRange) : nat := Z.to_nat (sr_End r - sr_Start r + 2).

Record misplaced := mkMisplaced { ms_target : string; ms_owner : string; ms_start : Z; ms_end : Z }.

(** The first misplaced segment over all targets. *)
Fixpoint first_misplaced (slotOwner : gmap Z string) (targets : list (string * SlotRange)) : option misplaced :=
  match targets with
  | [] => None
  | (target, r) :: targets' =>
      match scan_range (range_fuel r) slotOwner target (sr_Start r) (sr_End r) with
      | Some (owner, s, e) => Some (mkMisplaced target owner s e)
      | None => first_misplaced slotOwner targets'
      end
  end.

Definition handOverShard (cluster : RedisCluster) (owner : string) (ownerStatus : InstanceStatus)
    (heir heirIP : string) (heirStatus : InstanceStatus) : kprog RedisCluster :=
  if negb (bool_decide (is_Role heirStatus = "slave")) ||
     negb (bool_decide (is_PrimaryNodeID heirStatus = is_NodeID ownerStatus))
  then
    r ← catch (postClusterJSON heirIP (PostReplicate (is_NodeID ownerStatus)));
    match r with
    | Err e =>
        if bool_decide (http_status e = Some 409) then mret cluster
        else Throw (Wrap ("attaching " +:+ heir +:+ " to doomed primary " +:+ owner) e)
    | Ok _ =>
        Event EventNormal "ShardHandover"
          ("Replicating " +:+ heir +:+ " from " +:+ owner +:+ " before scale-down");;
        mret cluster
    end
  else if negb (bool_decide (is_MasterLinkStatus heirStatus = "up")) then mret cluster
  else beginClusterHandover cluster owner heir.

(** One segment: what the innermost body does before it returns. *)
Definition reshard_segment (cluster : RedisCluster) (statuses : gmap string InstanceStatus)
    (podsByName : gmap string Pod) (m : misplaced) : kprog (bool * RedisCluster) :=
  let targetIP := pod_ip podsByName (ms_target m) in
  let targetStatus := status_of statuses (ms_target m) in
  if bool_decide (ms_owner m = "") then
    with_ctx ("adding unowned slots " +:+ itoa (ms_start m) +:+ "-" +:+ itoa (ms_end m) +:+ " to " +:+ ms_target m)
      (postClusterJSON targetIP (PostAddSlots (ms_start m) (ms_end m)));;
    mret (false, cluster)
  else
    match statuses !! ms_owner m with
    | None => mret (false, cluster)
    | Some sourceStatus =>
        if bool_decide (is_NodeID sourceStatus = "") then mret (false, cluster)
        else
          let sourceIP := pod_ip podsByName (ms_owner m) in
          if bool_decide (sourceIP = "") then mret (false, cluster)
          else
            match podIndex (Name cluster) (ms_owner m) with
            | None => Throw (Panicked "slice bounds out of range")
            | Some index =>
                if bool_decide (DesiredDataInstances (Spec cluster) ≤ index) &&
                   bool_decide (is_SlotsServed targetStatus = [])
                then
                  cluster ← handOverShard cluster (ms_owner m) sourceStatus (ms_target m) targetIP targetStatus;
                  mret (false, cluster)
                else
                  with_ctx ("migrating slots " +:+ itoa (ms_start m) +:+ "-" +:+ itoa (ms_end m) +:+
                            " from " +:+ ms_owner m +:+ " to " +:+ ms_target m)
                    (postClusterJSON sourceIP (PostMigrateRange
                      (mkMigrate targetIP 6379 (is_NodeID targetStatus) (is_NodeID sourceStatus)
                         (ms_start m) (ms_end m) 64 5000)));;
                  mret (false, cluster)
            end
    end.

(** The pass once the pods are listed. *)
Definition reshard_pods (cluster : RedisCluster) (statuses : gmap string InstanceStatus) (pods : list Pod)
    : kprog (bool * RedisCluster) :=
  let surplus := bool_decide (DesiredDataInstances (Spec cluster) < Z.of_nat (size statuses)) in
  let podsByName := pods_by_name pods in
  ord ← kcall OMapOrder;
  match planShardLayout cluster pods statuses (oracle_shift 1 ord) with
  | None => Throw (Panicked "slice bounds out of range")
  | Some layout =>
      let primaries := primary_of layout <$> upto (desiredShardCount cluster) in
      if existsb (λ p, bool_decide (p = "")) primaries then mret (false, cluster)
      else if negb (forallb (node_ready podsByName statuses) primaries) then mret (negb surplus, cluster)
      else
        let slotOwner := slot_owners (range_map (ord 0%nat) statuses) in
        let ranges := calculateClusterSlotRanges (Z.of_nat (length primaries)) in
        match first_misplaced slotOwner (zip primaries ranges) with
        | None => mret (true, cluster)
        | Some m => reshard_segment cluster statuses podsByName m
        end
  end.

Definition reconcileClusterReshard (cluster : RedisCluster) (statuses : gmap string InstanceStatus)
    : kprog (bool * RedisCluster) :=
  if bool_decide (Spec_Mode (Spec cluster) ≠ ClusterModeCluster) then mret (true, cluster)
  else if bool_decide (Z.of_nat (size statuses) < DesiredDataInstances (Spec cluster)) then mret (true, cluster)
  else if negb (bool_decide (Status_ClusterState (Status cluster) = "ok")) ||
          bool_decide (Status_SlotsAssigned (Status cluster) < slotCount) then mret (true, cluster)
  else
    pods ← with_ctx "listing data pods for reshard" (listDataPods cluster);
    reshard_pods cluster statuses pods.
