(* ===== verification/ReshardFacts.v ===== *)
(** * Forming and resharding a cluster: the guarantees

    Slots are requested only where nobody serves them, replicas are attached
    only when they hold no slots, and a pass of the reshard moves at most one
    segment, from an owner that serves it to the primary it belongs to. *)
From S2P Require Import Prelude GoStr Json Api Slots Layout LayoutFacts Effects Kube Fixtures Fencing Status Reshard.

(** Some polled instance serves the slot. *)
Definition served (statuses : gmap string InstanceStatus) (z : Z) : Prop :=
  ∃ n st, statuses !! n = Some st ∧ serves (is_SlotsServed st) z.

Lemma elem_of_coverage statuses picks z :
  z ∈ calculateSlotCoverage (range_map picks statuses) ↔ served statuses z.
Proof.
  rewrite elem_of_calculateSlotCoverage. unfold served. by setoid_rewrite elem_of_range_map.
Qed.

(** ** Gaps *)

Lemma elem_of_ranges_slots rs z : z ∈ ranges_slots rs ↔ ∃ r, r ∈ rs ∧ sr_Start r ≤ z ≤ sr_End r.
Proof.
  unfold ranges_slots. rewrite list_elem_of_join. setoid_rewrite list_elem_of_fmap. split.
  - intros (l & Hz & r & -> & Hr). exists r. by rewrite <- elem_of_range_slots.
  - intros (r & Hr & Hz). exists (range_slots r). rewrite elem_of_range_slots. eauto.
Qed.

Lemma elem_of_gaps target cov z :
  z ∈ ranges_slots (calculateUncoveredSlotRanges target cov) ↔
  0 ≤ z < slotCount ∧ sr_Start target ≤ z ≤ sr_End target ∧ z ∉ cov.
Proof.
  assert (ranges_slots (calculateUncoveredSlotRanges target cov) =
    filter (λ z, z ∉ cov) (range_slots (clamp_range target))) as ->.
  { unfold calculateUncoveredSlotRanges. case_bool_decide as Hempty.
    - unfold range_slots. by replace (Z.to_nat _) with 0%nat by lia.
    - by rewrite uncovered_loop_slots by lia. }
  rewrite list_elem_of_filter, elem_of_range_slots, clamp_range_spec. tauto.
Qed.

Lemma elem_of_gap target cov g z :
  g ∈ calculateUncoveredSlotRanges target cov → sr_Start g ≤ z ≤ sr_End g →
  0 ≤ z < slotCount ∧ sr_Start target ≤ z ≤ sr_End target ∧ z ∉ cov.
Proof. intros Hg Hz. apply elem_of_gaps, elem_of_ranges_slots. eauto. Qed.

(** ** Requests *)

Definition posts_only (P : string → instance_request → Prop) (c : kube_op) : Prop :=
  match c with OPost ip req => P ip req | _ => True end.

Lemma does_postClusterJSON P ip req :
  (ip ≠ "" → P ip req) → does (S := kube) (posts_only P) (postClusterJSON ip req) (λ _, True).
Proof.
  intros HP. unfold postClusterJSON. case_bool_decide; [done|]. apply does_kcall; [by apply HP|].
  intros [msg|code body]; [done|]. simpl. by case_bool_decide.
Qed.

Section bootstrap.
Context (cluster : RedisCluster) (statuses : gmap string InstanceStatus) (pods : list Pod).

(** What the pass may ask of an instance. *)
Definition bootstrap_request (ip : string) (req : instance_request) : Prop :=
  (∀ i, 0 ≤ i < DesiredDataInstances (Spec cluster) →
     node_ready (pods_by_name pods) statuses (podNameForIndex (Name cluster) i) = true) ∧
  match req with
  | PostMeet peer port =>
      ip = pod_ip (pods_by_name pods) (podNameForIndex (Name cluster) 0) ∧ port = 6379 ∧
      ∃ i, 0 ≤ i < DesiredDataInstances (Spec cluster) ∧
        peer = pod_ip (pods_by_name pods) (podNameForIndex (Name cluster) i)
  | PostAddSlots s e => s ≤ e ∧ ∀ z, s ≤ z ≤ e → 0 ≤ z < slotCount ∧ ¬ served statuses z
  | PostReplicate id =>
      id ≠ "" ∧ ∃ name, ip = pod_ip (pods_by_name pods) name ∧
        is_SlotsServed (status_of statuses name) = [] ∧
        (is_Role (status_of statuses name) = "slave" → is_PrimaryNodeID (status_of statuses name) ≠ id)
  | _ => False
  end.

Hypothesis Hready : ∀ i, 0 ≤ i < DesiredDataInstances (Spec cluster) →
  node_ready (pods_by_name pods) statuses (podNameForIndex (Name cluster) i) = true.

Abbreviation safe p := (does (S := kube) (posts_only bootstrap_request) p).

Lemma add_gaps_does podName ip gaps coverage target cov0 :
  (∀ z, served statuses z → z ∈ cov0) →
  (∀ g, g ∈ gaps → g ∈ calculateUncoveredSlotRanges target cov0) →
  safe (add_gaps podName ip gaps coverage) (λ cov', ∀ z, z ∈ cov' ↔ z ∈ coverage ∨ z ∈ ranges_slots gaps).
Proof.
  intros Hc. revert coverage; induction gaps as [|g gaps IH]; intros coverage Hg; simpl.
  - intros z. unfold ranges_slots. simpl. set_solver.
  - pose proof (Hg g ltac:(set_solver)) as Hg0.
    assert (sr_Start g ≤ sr_End g) as Hle.
    { unfold calculateUncoveredSlotRanges in Hg0. case_bool_decide; [set_solver|].
      eapply uncovered_loop_maximal; [|exact Hg0]. lia. }
    eapply (does_bind _ _ _ (λ _, True)).
    + apply does_with_ctx, does_postClusterJSON. intros _. split; [exact Hready|]. split; [exact Hle|].
      intros z Hz. destruct (elem_of_gap _ _ _ _ Hg0 Hz) as (? & _ & Hn). split; [done|].
      intros Hs. by apply Hn, Hc.
    + intros _ _. eapply does_mono; [apply IH; set_solver|]. intros cov' Hcov' z. simpl in Hcov'.
      rewrite Hcov', elem_of_cover_range. unfold ranges_slots. rewrite fmap_cons. simpl.
      rewrite elem_of_app, elem_of_range_slots. tauto.
Qed.

Lemma assign_slots_does layout shards coverage performed :
  (∀ z, served statuses z → z ∈ coverage) →
  safe (assign_slots layout (pods_by_name pods) shards coverage performed) (λ _, True).
Proof.
  revert coverage performed; induction shards as [|[shard target] shards IH]; intros coverage performed Hc; simpl; [done|].
  case_bool_decide; [done|].
  eapply does_bind; [apply (add_gaps_does _ _ _ _ target coverage); [done|set_solver]|].
  intros cov' Hcov'. apply IH. intros z Hz. apply Hcov'. left. by apply Hc.
Qed.

Lemma attach_replicas_does layout names performed :
  safe (attach_replicas layout (pods_by_name pods) statuses names performed) (λ _, True).
Proof.
  revert performed; induction names as [|name names IH]; intros performed; simpl; [done|].
  destruct (isPrimary layout name); [apply IH|].
  destruct (bool_decide_reflect (is_SlotsServed (status_of statuses name) = [])) as [Hs|Hs]; simpl; [|apply IH].
  destruct (handingOver layout _); [apply IH|].
  case_bool_decide as Hid; [exact I|]. destruct (_ && _) eqn:Hrole; [apply IH|].
  eapply (does_bind _ _ _ (λ _, True)).
  - eapply does_mono; [apply does_catch|done]. apply does_postClusterJSON. intros _. split; [exact Hready|].
    bsimpl. split; [done|]. exists name. split; [done|]. split; [done|]. intros Hr Heq.
    apply andb_false_iff in Hrole as [Hrole|Hrole]; [by apply bool_decide_eq_false in Hrole|].
    apply orb_false_iff in Hrole as [_ Hrole]. by apply bool_decide_eq_false in Hrole.
  - intros [u|e] _; [apply IH|]. clear Hrole. by case_bool_decide.
Qed.
End bootstrap.

Lemma bootstrap_pods_does cluster statuses pods :
  does (S := kube) (posts_only (bootstrap_request cluster statuses pods)) (bootstrap_pods cluster statuses pods) (λ _, True).
Proof.
  unfold bootstrap_pods. case_bool_decide; [done|]. case_bool_decide; [done|].
  destruct (forallb _ _) eqn:Hall; simpl; [|done].
  assert (∀ i, 0 ≤ i < DesiredDataInstances (Spec cluster) →
    node_ready (pods_by_name pods) statuses (podNameForIndex (Name cluster) i) = true) as Hready.
  { intros i Hi. rewrite forallb_forall in Hall. apply Hall. rewrite <- list_elem_of_In.
    apply list_elem_of_fmap_2. by apply elem_of_upto. }
  eapply (does_bind _ _ _ (λ _, True)).
  - apply does_for_each. intros name Hname. apply does_with_ctx, does_postClusterJSON. intros _.
    split; [exact Hready|]. split; [done|]. split; [done|].
    assert (name ∈ podNameForIndex (Name cluster) <$> upto (DesiredDataInstances (Spec cluster))) as Hin.
    { destruct (_ <$> _); [done|]. set_solver. }
    apply list_elem_of_fmap in Hin as (i & -> & Hi%elem_of_upto). eauto.
  - intros _ _. apply does_kcall; [done|]. intros ord. cbn beta.
    destruct (planShardLayout _ _ _ _) as [layout|]; [|done].
    eapply (does_bind _ _ _ (λ _, True)).
    { apply assign_slots_does; [done|]. intros z Hz. by apply elem_of_coverage. }
    intros [performed|] _; [|done].
    eapply (does_bind _ _ _ (λ _, True)); [by apply attach_replicas_does|].
    intros [[]|] _; done.
Qed.

(** A bootstrap pass without a pending handover talks to the instances only
    when all expected pods are reachable with a node id, and then: it joins
    expected pods, requests slots that are in range and that no instance serves,
    and attaches as replicas only pods that hold no slots and do not already
    follow that primary.  It never promotes and never migrates. *)
Theorem bootstrap_requests_safe cluster statuses tr out ip req r :
  annotation cluster ClusterHandoverAnnotation = "" →
  runs (reconcileClusterBootstrap cluster statuses) tr out → kev (OPost ip req) r ∈ tr →
  ∃ sel all, kev (OListPods sel) (Ok all) ∈ tr ∧
    bootstrap_request cluster statuses
      (filter (λ pod, pod_label pod LabelRole ≠ LabelRoleSentinel) all) ip req.
Proof.
  intros Hann Hr Hin. unfold reconcileClusterBootstrap in Hr.
  case_bool_decide; [destruct Hr as [-> _]; by apply elem_of_nil in Hin|].
  destruct Hr as (resp & tr' & -> & Hr). destruct resp as [all|e]; simpl in Hr.
  - rewrite Hann in Hr. simpl in Hr. exists {[ LabelCluster := Name cluster ]}, all.
    split; [apply list_elem_of_here|].
    apply elem_of_cons in Hin as [Hin|Hin]; [by ev_eq Hin|].
    pose proof (bootstrap_pods_does cluster statuses
      (filter (λ pod, pod_label pod LabelRole ≠ LabelRoleSentinel) all)) as Hd.
    by apply (does_runs _ _ _ _ _ Hd Hr) in Hin.
  - destruct Hr as [-> _]. apply list_elem_of_singleton in Hin. by ev_eq Hin.
Qed.

(** ** Completeness of the slot assignment *)

Lemma postClusterJSON_ok ip req tr u :
  runs (postClusterJSON ip req) tr (Ok u) → ∃ body, tr = [kev (OPost ip req) (HttpStatus 200 body)].
Proof.
  unfold postClusterJSON. case_bool_decide as Hip; [by intros [_ ?]|].
  intros (resp & tr' & -> & H). destruct resp as [msg|code body]; [by destruct H|]; simpl in H.
  case_bool_decide as Hc; [|by destruct H]. destruct H as [-> _]. subst. by exists body.
Qed.

(** The run contains an accepted request for a range with [z], sent to [ip]. *)
Definition requested (tr : trace kube) (ip : string) (z : Z) : Prop :=
  ∃ s e body, kev (OPost ip (PostAddSlots s e)) (HttpStatus 200 body) ∈ tr ∧ s ≤ z ≤ e.

Lemma requested_app_l tr1 tr2 ip z : requested tr1 ip z → requested (tr1 ++ tr2) ip z.
Proof. intros (s & e & b & H & ?). exists s, e, b. split; [set_solver|done]. Qed.
Lemma requested_app_r tr1 tr2 ip z : requested tr2 ip z → requested (tr1 ++ tr2) ip z.
Proof. intros (s & e & b & H & ?). exists s, e, b. split; [set_solver|done]. Qed.

Lemma add_gaps_requests podName ip gaps cov tr cov' :
  runs (add_gaps podName ip gaps cov) tr (Ok cov') →
  (∀ z, z ∈ ranges_slots gaps → requested tr ip z) ∧ (∀ z, z ∈ cov' → z ∈ cov ∨ z ∈ ranges_slots gaps).
Proof.
  revert cov tr; induction gaps as [|g gaps IH]; intros cov tr H.
  - destruct H as [-> [= ->]]. split; [unfold ranges_slots; simpl; set_solver|auto].
  - cbn [add_gaps] in H. apply runs_bind in H as [(e & _ & ?)|(u & tr1 & tr2 & -> & H1 & H2)]; [done|].
    apply runs_with_ctx_ok, postClusterJSON_ok in H1 as [body ->]. apply IH in H2 as [Hg Hc].
    assert (∀ z, sr_Start g ≤ z ≤ sr_End g →
      requested ([kev (OPost ip (PostAddSlots (sr_Start g) (sr_End g))) (HttpStatus 200 body)] ++ tr2) ip z) as Hhead.
    { intros z Hz. exists (sr_Start g), (sr_End g), body. split; [set_solver|done]. }
    split.
    + intros z (r & [->|Hr]%elem_of_cons & Hz)%elem_of_ranges_slots; [by apply Hhead|].
      apply requested_app_r, Hg, elem_of_ranges_slots. eauto.
    + intros z [Hz|Hz]%Hc; rewrite !elem_of_ranges_slots in *; [|set_solver].
      apply elem_of_cover_range in Hz as [?|Hz]; [by left|right]. exists g. split; [set_solver|done].
Qed.

(** Every slot of a listed range was covered before or has been requested from
    the primary of a shard whose range contains it. *)
Lemma assign_slots_requests layout podsByName shards cov performed tr p :
  runs (assign_slots layout podsByName shards cov performed) tr (Ok (Some p)) →
  ∀ shard target z, (shard, target) ∈ shards → sr_Start target ≤ z ≤ sr_End target → 0 ≤ z < slotCount →
  z ∈ cov ∨ ∃ shard' target', (shard', target') ∈ shards ∧ sr_Start target' ≤ z ≤ sr_End target' ∧
    requested tr (pod_ip podsByName (primary_of layout shard')) z.
Proof.
  revert cov performed tr; induction shards as [|[shard0 target0] shards IH];
    intros cov performed tr H shard target z Hin Hz Hslot; [by apply elem_of_nil in Hin|].
  cbn [assign_slots] in H. case_bool_decide; [by destruct H|].
  apply runs_bind in H as [(e & _ & ?)|(cov' & tr1 & tr2 & -> & H1 & H2)]; [done|].
  apply add_gaps_requests in H1 as [Hg Hc].
  assert (sr_Start target0 ≤ z ≤ sr_End target0 → z ∉ cov →
    ∃ shard' target', (shard', target') ∈ (shard0, target0) :: shards ∧ sr_Start target' ≤ z ≤ sr_End target' ∧
    requested (tr1 ++ tr2) (pod_ip podsByName (primary_of layout shard')) z) as Hhead.
  { intros Ht Hn. exists shard0, target0. split; [set_solver|]. split; [done|].
    apply requested_app_l, Hg, elem_of_gaps. done. }
  destruct (decide (z ∈ cov)) as [?|Hn]; [by left|right].
  apply elem_of_cons in Hin as [[= -> ->]|Hin]; [by apply Hhead|].
  destruct (IH _ _ _ H2 shard target z Hin Hz Hslot) as [Hz'|(s' & t' & Hs' & Hz' & Hreq)].
  - apply Hc in Hz' as [?|Hz']; [done|]. apply elem_of_gaps in Hz' as (_ & ? & _). by apply Hhead.
  - exists s', t'. split; [set_solver|]. split; [done|]. by apply requested_app_r.
Qed.

Lemma slot_in_some_range n z :
  0 < n → 0 ≤ z < slotCount →
  ∃ shard target, (shard, target) ∈ zip (upto n) (calculateClusterSlotRanges n) ∧ sr_Start target ≤ z ≤ sr_End target.
Proof.
  intros Hn Hz. assert (z ∈ ranges_slots (calculateClusterSlotRanges n)) as Hin.
  { rewrite calculateClusterSlotRanges_slots by done. by apply elem_of_upto. }
  apply elem_of_ranges_slots in Hin as (r & Hr & Hrz).
  apply list_elem_of_lookup in Hr as [i Hi]. exists (Z.of_nat i), r. split; [|done].
  apply list_elem_of_lookup. exists i. apply lookup_zip_with_Some. exists (Z.of_nat i), r.
  split; [done|]. split; [|done]. unfold upto. apply lookup_zrange. split; [lia|].
  apply lookup_lt_Some in Hi. rewrite calculateClusterSlotRanges_length in Hi by done. lia.
Qed.

(** A slot assignment that runs to its end leaves no slot unserved: each of
    the 16384 slots was covered before, or its assignment to the primary of a
    shard whose range contains it was accepted. *)
Theorem slot_assignment_complete layout podsByName n cov tr performed z :
  0 < n → 0 ≤ z < slotCount →
  runs (assign_slots layout podsByName (zip (upto n) (calculateClusterSlotRanges n)) cov false) tr (Ok (Some performed)) →
  z ∈ cov ∨ ∃ shard target, (shard, target) ∈ zip (upto n) (calculateClusterSlotRanges n) ∧
    sr_Start target ≤ z ≤ sr_End target ∧ requested tr (pod_ip podsByName (primary_of layout shard)) z.
Proof.
  intros Hn Hz Hr. destruct (slot_in_some_range n z Hn Hz) as (shard & target & Hin & Ht).
  exact (assign_slots_requests _ _ _ _ _ _ _ Hr shard target z Hin Ht Hz).
Qed.

(** ** Finding a misplaced segment *)

Lemma segment_stop_spec fuel so owner slot e :
  slot ≤ segment_stop fuel so owner slot e ∧
  (∀ z, slot ≤ z < segment_stop fuel so owner slot e → slot_owner so z = owner ∧ z ≤ e).
Proof.
  revert slot; induction fuel as [|fuel IH]; intros slot; simpl; [split; lia|].
  case_bool_decide; simpl; [case_bool_decide; simpl|]; [|split; lia..].
  destruct (IH (slot + 1)) as [H1 H2]. split; [lia|]. intros z Hz.
  destruct (decide (z = slot)) as [->|]; [done|]. apply H2. lia.
Qed.

Lemma segment_stop_progress fuel so slot e :
  slot ≤ e → slot < segment_stop (S fuel) so (slot_owner so slot) slot e.
Proof.
  intros He. simpl. rewrite !bool_decide_true by done. simpl.
  pose proof (segment_stop_spec fuel so (slot_owner so slot) (slot + 1) e). lia.
Qed.

Lemma scan_range_none fuel so target slot e :
  e - slot + 1 ≤ Z.of_nat fuel → scan_range fuel so target slot e = None →
  ∀ z, slot ≤ z ≤ e → slot_owner so z = target.
Proof.
  revert slot; induction fuel as [|fuel IH]; intros slot Hf H z Hz; [lia|].
  cbn [scan_range] in H. rewrite bool_decide_true in H by lia.
  pose proof (segment_stop_progress fuel so slot e ltac:(lia)) as Hp.
  destruct (segment_stop_spec (S fuel) so (slot_owner so slot) slot e) as [_ Hseg].
  case_bool_decide as Ho; [|done].
  destruct (decide (z < segment_stop (S fuel) so (slot_owner so slot) slot e)).
  - destruct (Hseg z) as [-> _]; [lia|done].
  - eapply IH; [|done|lia]. lia.
Qed.

Lemma scan_range_some fuel so target slot e owner s t :
  scan_range fuel so target slot e = Some (owner, s, t) →
  slot ≤ s ≤ t ∧ t ≤ e ∧ owner ≠ target ∧ (∀ z, s ≤ z ≤ t → slot_owner so z = owner).
Proof.
  revert slot; induction fuel as [|fuel IH]; intros slot H; [done|].
  cbn [scan_range] in H. case_bool_decide as Hle; [|done].
  pose proof (segment_stop_progress fuel so slot e Hle) as Hp.
  destruct (segment_stop_spec (S fuel) so (slot_owner so slot) slot e) as [_ Hseg].
  set (stop := segment_stop (S fuel) so (slot_owner so slot) slot e) in *.
  case_bool_decide as Ho.
  - apply IH in H as (? & ? & ? & ?). split_and!; try done; lia.
  - simplify_eq. destruct (Hseg (stop - 1)) as [_ ?]; [lia|]. split_and!; try done; try lia.
    intros z Hz. apply Hseg. lia.
Qed.

(** The reshard finds nothing to move exactly when every slot of every target
    range belongs to its target; otherwise the segment it finds lies in the range
    of its target and belongs, as a whole, to one other owner. *)
Lemma first_misplaced_spec so targets :
  match first_misplaced so targets with
  | None => ∀ target r z, (target, r) ∈ targets → sr_Start r ≤ z ≤ sr_End r → slot_owner so z = target
  | Some m => ∃ r, (ms_target m, r) ∈ targets ∧ sr_Start r ≤ ms_start m ≤ ms_end m ∧ ms_end m ≤ sr_End r ∧
      ms_owner m ≠ ms_target m ∧ ∀ z, ms_start m ≤ z ≤ ms_end m → slot_owner so z = ms_owner m
  end.
Proof.
  induction targets as [|[target r] targets IH]; simpl; [set_solver|].
  destruct (scan_range _ _ _ _ _) as [[[owner s] t]|] eqn:E.
  - apply scan_range_some in E as (? & ? & ? & ?). exists r. split; [set_solver|]. simpl. split_and!; done || lia.
  - destruct (first_misplaced so targets) as [m|].
    + destruct IH as (r' & Hin & ?). exists r'. split; [set_solver|done].
    + intros target' r' z [[= -> ->]|Hin]%elem_of_cons Hz; [|by eapply IH].
      eapply scan_range_none; [|done|done]. unfold range_fuel. lia.
Qed.

(** ** Owners *)

Lemma own_range_lookup owner so r z o :
  own_range owner so r !! z = Some o →
  (so !! z = Some o ∧ ¬ sr_Start r ≤ z ≤ sr_End r) ∨ (o = owner ∧ sr_Start r ≤ z ≤ sr_End r).
Proof.
  unfold own_range. setoid_rewrite <- elem_of_range_slots. generalize (range_slots r); intros l.
  revert so; induction l as [|x l IH]; intros so; simpl; [intros; left; set_solver|].
  intros H%IH. rewrite lookup_insert in H. rewrite elem_of_cons. case_decide; naive_solver.
Qed.

Lemma slot_owners_served statuses picks z o :
  slot_owners (range_map picks statuses) !! z = Some o →
  ∃ st, statuses !! o = Some st ∧ serves (is_SlotsServed st) z.
Proof.
  unfold slot_owners.
  apply (foldl_inv (λ so : gmap Z string, so !! z = Some o →
    ∃ st, statuses !! o = Some st ∧ serves (is_SlotsServed st) z)); [by rewrite lookup_empty|].
  intros so [n st] Hn%elem_of_range_map IH. simpl.
  apply (foldl_inv (λ so : gmap Z string, so !! z = Some o →
    ∃ st, statuses !! o = Some st ∧ serves (is_SlotsServed st) z)); [done|].
  intros so' r Hr IH' [[? _]|[-> Hz]]%own_range_lookup; [by apply IH'|].
  exists st. split; [done|]. apply clamp_range_spec in Hz as [? ?]. split; [done|]. eauto.
Qed.

Lemma own_range_some owner so r z :
  is_Some (so !! z) ∨ sr_Start r ≤ z ≤ sr_End r → is_Some (own_range owner so r !! z).
Proof.
  unfold own_range. rewrite <- elem_of_range_slots. generalize (range_slots r); intros l.
  revert so; induction l as [|x l IH]; intros so Hz; simpl; [set_solver|].
  apply IH. rewrite lookup_insert_is_Some'. set_solver.
Qed.

Lemma slot_owners_some statuses picks z :
  served statuses z → is_Some (slot_owners (range_map picks statuses) !! z).
Proof.
  intros (n & st & Hn & Hslot & r & Hr & Hz). apply (elem_of_range_map picks) in Hn.
  unfold slot_owners. generalize (∅ : gmap Z string).
  assert (∀ (rs : list SlotRange) o so, is_Some (so !! z) → is_Some (foldl (λ so r, own_range o so (clamp_range r)) so rs !! z)) as Hkeep.
  { induction rs as [|r' rs IH]; intros o so Hs; simpl; [done|]. apply IH, own_range_some. by left. }
  assert (∀ (es : list (string * InstanceStatus)) so, is_Some (so !! z) →
    is_Some (foldl (λ so e, foldl (λ so r, own_range e.1 so (clamp_range r)) so (is_SlotsServed e.2)) so es !! z)) as Hkeep2.
  { induction es as [|e es IH]; intros so Hs; simpl; [done|]. by apply IH, Hkeep. }
  induction (range_map picks statuses) as [|e es IH]; intros so; simpl; [by apply elem_of_nil in Hn|].
  apply elem_of_cons in Hn as [<-|Hn]; [|by apply IH]. apply Hkeep2. simpl. clear -Hr Hz Hslot Hkeep.
  revert so; induction (is_SlotsServed st) as [|r' rs IH]; intros so; simpl; [by apply elem_of_nil in Hr|].
  apply elem_of_cons in Hr as [<-|Hr]; [|by apply IH]. apply Hkeep, own_range_some. right.
  apply clamp_range_spec. done.
Qed.

(** ** One step per pass *)

Definition is_post (c : kube_op) : bool := match c with OPost _ _ => true | _ => false end.

Lemma post_at_most_one ip req : at_most (S := kube) is_post 1 (postClusterJSON ip req).
Proof.
  unfold postClusterJSON. case_bool_decide; [done|]. intros [msg|code body]; [done|]. simpl. by case_bool_decide.
Qed.

Lemma beginClusterHandover_no_post c o h :
  kissues (λ c, negb (is_post c)) (beginClusterHandover c o h).
Proof. unfold beginClusterHandover, PatchLocked, Event, kcall. issues. Qed.

Lemma handOverShard_one cluster owner os heir ip hs :
  at_most (S := kube) is_post 1 (handOverShard cluster owner os heir ip hs).
Proof.
  unfold handOverShard. destruct (_ || _).
  - apply (at_most_bind _ 1 0); [apply at_most_catch, post_at_most_one|].
    intros [u|e]; [intros []; exact I|]. by case_bool_decide.
  - destruct (negb _); [done|]. apply at_most_none, beginClusterHandover_no_post.
Qed.

Lemma reshard_segment_one cluster statuses podsByName m :
  at_most (S := kube) is_post 1 (reshard_segment cluster statuses podsByName m).
Proof.
  assert (∀ ctx ip req, at_most (S := kube) is_post 1
    (with_ctx ctx (postClusterJSON ip req);; mret (false, cluster))) as Hpost.
  { intros ctx ip req. apply (at_most_bind _ 1 0); [apply at_most_with_ctx, post_at_most_one|done]. }
  unfold reshard_segment. case_bool_decide; [apply Hpost|].
  destruct (statuses !! ms_owner m) as [st|]; [|done]. case_bool_decide; [done|]. case_bool_decide; [done|].
  destruct (podIndex _ _) as [i|]; [|done]. destruct (_ && _); [|apply Hpost].
  apply (at_most_bind _ 1 0); [apply handOverShard_one|done].
Qed.

Lemma reshard_pods_one cluster statuses pods :
  at_most (S := kube) is_post 1 (reshard_pods cluster statuses pods).
Proof.
  unfold reshard_pods. intros ord. cbn -[planShardLayout]. case_match; [|done].
  destruct (existsb _ _); [done|]. destruct (negb _); [done|].
  destruct (first_misplaced _ _); [apply reshard_segment_one|done].
Qed.

(** A reshard pass sends at most one request to the instances, whatever the
    responses: slots move one segment at a time, and each step is followed by a
    fresh observation. *)
Theorem reshard_one_step cluster statuses tr out :
  runs (reconcileClusterReshard cluster statuses) tr out →
  (length (List.filter (λ e, is_post (ev_op e)) tr) ≤ 1)%nat.
Proof.
  intros Hr. eapply (at_most_runs (S := kube) is_post 1); [|exact Hr].
  unfold reconcileClusterReshard. case_bool_decide; [done|]. case_bool_decide; [done|]. destruct (_ || _); [done|].
  apply at_most_then; [|intros pods; apply reshard_pods_one].
  apply issues_with_ctx. unfold listDataPods, listClusterPods, kcall. issues.
Qed.

(** ** What a step may do *)

Section reshard.
Context (cluster : RedisCluster) (statuses : gmap string InstanceStatus) (pods : list Pod).

(** [target] is the planned primary of the shard whose slot range is [r]. *)
Definition planned_primary_of (target : string) (r : SlotRange) : Prop :=
  ∃ ord layout, planShardLayout cluster pods statuses ord = Some layout ∧
    (target, r) ∈ zip (primary_of layout <$> upto (desiredShardCount cluster))
      (calculateClusterSlotRanges (Z.of_nat (length (primary_of layout <$> upto (desiredShardCount cluster))))).

(** The segment lies in the range of the target. *)
Definition segment_of (target : string) (s e : Z) : Prop :=
  s ≤ e ∧ ∃ r, planned_primary_of target r ∧ sr_Start r ≤ s ∧ e ≤ sr_End r.

Definition reshard_request (ip : string) (req : instance_request) : Prop :=
  Status_ClusterState (Status cluster) = "ok" ∧ slotCount ≤ Status_SlotsAssigned (Status cluster) ∧
  match req with
  | PostAddSlots s e =>
      ∃ target, segment_of target s e ∧ ip = pod_ip (pods_by_name pods) target ∧
        ∀ z, s ≤ z ≤ e → ¬ served statuses z
  | PostMigrateRange m =>
      ∃ owner target ost tst, owner ≠ target ∧ segment_of target (mg_Start m) (mg_End m) ∧
        statuses !! owner = Some ost ∧ statuses !! target = Some tst ∧ is_Connected tst = true ∧
        ip = pod_ip (pods_by_name pods) owner ∧ mg_SourceNodeID m = is_NodeID ost ∧
        mg_TargetIP m = pod_ip (pods_by_name pods) target ∧ mg_TargetNodeID m = is_NodeID tst ∧
        mg_SourceNodeID m ≠ "" ∧ mg_TargetNodeID m ≠ "" ∧
        ∀ z, mg_Start m ≤ z ≤ mg_End m → serves (is_SlotsServed ost) z
  | PostReplicate id =>
      ∃ owner target ost, ip = pod_ip (pods_by_name pods) target ∧ statuses !! owner = Some ost ∧
        id = is_NodeID ost ∧ is_SlotsServed ost ≠ [] ∧ is_SlotsServed (status_of statuses target) = [] ∧
        DesiredDataInstances (Spec cluster) ≤ index_of cluster owner
  | _ => False
  end.

Lemma slot_owner_unserved picks z :
  slot_owner (slot_owners (range_map picks statuses)) z = "" → statuses !! "" = None → ¬ served statuses z.
Proof.
  intros Ho He Hs. apply (slot_owners_some _ picks) in Hs as [o Ho']. unfold slot_owner in Ho. rewrite Ho' in Ho.
  simpl in Ho. subst. apply slot_owners_served in Ho' as (st & Hst & _). congruence.
Qed.

Lemma slot_owner_serves picks z o :
  slot_owner (slot_owners (range_map picks statuses)) z = o → o ≠ "" →
  ∃ st, statuses !! o = Some st ∧ serves (is_SlotsServed st) z.
Proof.
  unfold slot_owner. destruct (_ !! z) as [o'|] eqn:E; simpl; [intros -> _|by intros ->].
  by apply slot_owners_served in E.
Qed.

Hypothesis Hstate : Status_ClusterState (Status cluster) = "ok".
Hypothesis Hslots : slotCount ≤ Status_SlotsAssigned (Status cluster).
Hypothesis Hnames : statuses !! "" = None.

Abbreviation safe p := (does (S := kube) (posts_only reshard_request) p (λ _, True)).

Lemma reshard_segment_does picks m r :
  planned_primary_of (ms_target m) r →
  sr_Start r ≤ ms_start m ≤ ms_end m → ms_end m ≤ sr_End r → ms_owner m ≠ ms_target m →
  (∀ z, ms_start m ≤ z ≤ ms_end m → slot_owner (slot_owners (range_map picks statuses)) z = ms_owner m) →
  node_ready (pods_by_name pods) statuses (ms_target m) = true →
  safe (reshard_segment cluster statuses (pods_by_name pods) m).
Proof.
  intros Hp Hs He Hne Hown Hready.
  assert (segment_of (ms_target m) (ms_start m) (ms_end m)) as Hseg.
  { split; [lia|]. exists r. split; [done|lia]. }
  unfold node_ready in Hready. bsimpl.
  destruct (statuses !! ms_target m) as [tst|] eqn:Htst; [|done]. bsimpl.
  unfold reshard_segment. case_bool_decide as Ho.
  { eapply (does_bind _ _ _ (λ _, True)); [|done]. apply does_with_ctx, does_postClusterJSON. intros _.
    split_and!; [done|done|]. exists (ms_target m). split_and!; [done|done|].
    intros z Hz. eapply slot_owner_unserved; [|done]. rewrite <- Ho. by apply (Hown z). }
  destruct (slot_owner_serves picks (ms_start m) (ms_owner m)) as (ost & Host & Hserv); [apply Hown; lia|done|].
  rewrite Host. case_bool_decide as Hid; [done|]. case_bool_decide; [done|].
  destruct (podIndex (Name cluster) (ms_owner m)) as [i|] eqn:Hi; [|done].
  assert (status_of statuses (ms_target m) = tst) as Hst by (unfold status_of; by rewrite Htst). rewrite Hst.
  destruct (_ && _) eqn:Hdoomed.
  - bsimpl. eapply (does_bind _ _ _ (λ _, True)); [|done]. unfold handOverShard. destruct (_ || _).
    + eapply (does_bind _ _ _ (λ _, True)).
      * eapply does_mono; [apply does_catch|done]. apply does_postClusterJSON. intros _.
        split_and!; [done|done|]. exists (ms_owner m), (ms_target m), ost. rewrite Hst. unfold index_of. rewrite Hi.
        split_and!; try done. destruct Hserv as (_ & r' & Hr' & _). intros Hnil. rewrite Hnil in Hr'. by apply elem_of_nil in Hr'.
      * intros [u|e] _; [split; [done|]; by intros []|]. by case_bool_decide.
    + destruct (negb _); [done|]. eapply does_issues; [apply beginClusterHandover_no_post|]. by intros [].
  - eapply (does_bind _ _ _ (λ _, True)); [|done]. apply does_with_ctx, does_postClusterJSON. intros _.
    split_and!; [done|done|]. exists (ms_owner m), (ms_target m), ost, tst. split_and!; try done. simpl.
    intros z Hz. destruct (slot_owner_serves picks z (ms_owner m)) as (ost' & Host' & Hserv'); [by apply Hown|done|].
    congruence.
Qed.

Lemma reshard_pods_does : safe (reshard_pods cluster statuses pods).
Proof.
  unfold reshard_pods. apply does_kcall; [done|]. intros ord. cbn beta zeta.
  destruct (planShardLayout _ _ _ _) as [layout|] eqn:Hl; [|done].
  destruct (existsb _ _); [done|]. destruct (forallb _ _) eqn:Hall; simpl; [|done].
  match goal with |- context [first_misplaced ?so ?ts] => pose proof (first_misplaced_spec so ts) as Hm;
    destruct (first_misplaced so ts) as [m|] end; [|done].
  destruct Hm as (r & Hin & Hs & He & Hne & Hown).
  apply (reshard_segment_does (ord 0%nat) m r); try done.
  - exists (oracle_shift 1 ord), layout. done.
  - rewrite forallb_forall in Hall. apply Hall. rewrite <- list_elem_of_In.
    apply list_elem_of_lookup in Hin as [i Hin]. apply lookup_zip_with_Some in Hin as (x & y & [= -> ->] & Hx & _).
    by apply list_elem_of_lookup_2 in Hx.
Qed.
End reshard.

(** C34: What a reshard pass may ask of an instance.  It acts only on a healthy,
    fully covered cluster; a migration moves a segment from the instance that
    serves every slot of it to a different, connected pod that the layout makes
    primary of the shard the segment belongs to; slots are added only where
    nobody serves them; a replica is attached to a doomed owner only if it holds
    no slots. *)
Theorem reshard_requests_safe cluster statuses tr out ip req r :
  statuses !! "" = None →
  runs (reconcileClusterReshard cluster statuses) tr out → kev (OPost ip req) r ∈ tr →
  ∃ sel all, kev (OListPods sel) (Ok all) ∈ tr ∧
    reshard_request cluster statuses
      (filter (λ pod, pod_label pod LabelRole ≠ LabelRoleSentinel) all) ip req.
Proof.
  intros Hn Hr Hin. unfold reconcileClusterReshard in Hr.
  case_bool_decide; [destruct Hr as [-> _]; by apply elem_of_nil in Hin|].
  case_bool_decide; [destruct Hr as [-> _]; by apply elem_of_nil in Hin|].
  destruct (_ || _) eqn:Hok; [destruct Hr as [-> _]; by apply elem_of_nil in Hin|]. bsimpl.
  destruct Hr as (resp & tr' & -> & Hr). destruct resp as [all|e].
  - change (runs (reshard_pods cluster statuses
      (filter (λ pod, pod_label pod LabelRole ≠ LabelRoleSentinel) all)) tr' out) in Hr.
    exists {[ LabelCluster := Name cluster ]}, all. split; [apply list_elem_of_here|].
    apply elem_of_cons in Hin as [Hin|Hin]; [by ev_eq Hin|].
    pose proof (reshard_pods_does cluster statuses
      (filter (λ pod, pod_label pod LabelRole ≠ LabelRoleSentinel) all)) as Hd.
    eapply does_runs in Hr as [Hops _]; [|apply Hd; [done|lia|done]]. by apply Hops in Hin.
  - destruct Hr as [-> _]. apply list_elem_of_singleton in Hin. by ev_eq Hin.
Qed.

(** ** Witnesses *)

(** The third range goes to the third primary. *)
Lemma bootstrap_requests_safe_witness :
  let tr := (interp fake_down six_world (reconcileClusterBootstrap six fresh_statuses)).1.1 in
  ∃ ip r sel all,
    kev (OPost ip (PostMeet "10.0.0.-1" 6379)) r ∈ tr ∧ kev (OListPods sel) (Ok all) ∈ tr ∧
    bootstrap_request six fresh_statuses
      (filter (λ pod, pod_label pod LabelRole ≠ LabelRoleSentinel) all) ip (PostMeet "10.0.0.-1" 6379).
Proof.
  intros tr.
  assert (∃ ip r, tr !! 1%nat = Some (kev (OPost ip (PostMeet "10.0.0.-1" 6379)) r)) as (ip & r & Hl).
  { vm_compute. eauto. }
  apply list_elem_of_lookup_2 in Hl.
  destruct (bootstrap_requests_safe six fresh_statuses tr _ ip (PostMeet "10.0.0.-1" 6379) r
    eq_refl (env_runs _ _ _) Hl) as (sel & all & H1 & H2).
  exists ip, r, sel, all. split; [exact Hl|]. split; [exact H1|exact H2].
Defined.

(** With reachable instances that accept, the assignment runs to its end. *)
Lemma add_gaps_runs podName ip gaps cov :
  ip ≠ "" → ∃ tr cov', runs (add_gaps podName ip gaps cov) tr (Ok cov').
Proof.
  intros Hip. revert cov. induction gaps as [|g gaps IH]; intros cov; [by exists [], cov|].
  destruct (IH (cover_range cov g)) as (tr & cov' & H).
  exists (kev (OPost ip (PostAddSlots (sr_Start g) (sr_End g))) (HttpStatus 200 "") :: tr), cov'.
  cbn [add_gaps]. unfold postClusterJSON. rewrite bool_decide_false by done. simpl. eauto.
Qed.

Lemma assign_slots_runs layout podsByName shards cov performed :
  Forall (λ s, primary_of layout s.1 ≠ "" ∧ pod_ip podsByName (primary_of layout s.1) ≠ "") shards →
  ∃ tr performed', runs (assign_slots layout podsByName shards cov performed) tr (Ok (Some performed')).
Proof.
  intros Hs. revert cov performed. induction Hs as [|[shard target] shards [H1 H2] _ IH]; intros cov performed.
  { by exists [], performed. }
  cbn [assign_slots]. simpl in H1, H2. rewrite bool_decide_false by done.
  destruct (add_gaps_runs (primary_of layout shard) (pod_ip podsByName (primary_of layout shard))
    (calculateUncoveredSlotRanges target cov) cov H2) as (tr1 & cov' & Hr1).
  destruct (IH cov' (performed || negb (bool_decide (calculateUncoveredSlotRanges target cov = [])))) as (tr2 & p & Hr2).
  exists (tr1 ++ tr2), p. apply runs_bind. right. by exists cov', tr1, tr2.
Qed.

Definition three_shards : shardLayout :=
  mkLayout {[ "c-0" := 0; "c-1" := 1; "c-2" := 2 ]} {[ 0 := "c-0"; 1 := "c-1"; 2 := "c-2" ]} ∅ ∅ ∅.

Lemma slot_assignment_complete_witness :
  ∃ tr performed,
    runs (assign_slots three_shards (pods_by_name six_pods) (zip (upto 3) (calculateClusterSlotRanges 3)) ∅ false)
      tr (Ok (Some performed)) ∧
    (12000 ∈ (∅ : gset Z) ∨ ∃ shard target, (shard, target) ∈ zip (upto 3) (calculateClusterSlotRanges 3) ∧
      sr_Start target ≤ 12000 ≤ sr_End target ∧
      requested tr (pod_ip (pods_by_name six_pods) (primary_of three_shards shard)) 12000).
Proof.
  destruct (assign_slots_runs three_shards (pods_by_name six_pods)
    (zip (upto 3) (calculateClusterSlotRanges 3)) ∅ false) as (tr & performed & Hr).
  { repeat constructor; by vm_compute. }
  exists tr, performed. split; [exact Hr|].
  apply (slot_assignment_complete three_shards (pods_by_name six_pods) 3 ∅ tr performed 12000);
    [lia|unfold slotCount; lia|exact Hr].
Defined.

Definition six_ok : RedisCluster := with_cluster_state six "ok" 16384.

Lemma reshard_one_step_witness :
  let tr := fake_trace six_world (reconcileClusterReshard six_ok skewed_statuses) in
  length tr = 3%nat ∧ (length (List.filter (λ e, is_post (ev_op e)) tr) ≤ 1)%nat.
Proof.
  intros tr. split; [by vm_compute|].
  exact (reshard_one_step six_ok skewed_statuses _ _ (fake_runs six_world _)).
Defined.

Lemma reshard_requests_safe_witness :
  let tr := fake_trace six_world (reconcileClusterReshard six_ok skewed_statuses) in
  ∃ ip m r sel all,
    kev (OPost ip (PostMigrateRange m)) r ∈ tr ∧ mg_Start m = 7 ∧ mg_End m = 8 ∧
    kev (OListPods sel) (Ok all) ∈ tr ∧
    reshard_request six_ok skewed_statuses
      (filter (λ pod, pod_label pod LabelRole ≠ LabelRoleSentinel) all) ip (PostMigrateRange m).
Proof.
  intros tr.
  assert (∃ ip m r, tr !! 2%nat = Some (kev (OPost ip (PostMigrateRange m)) r) ∧ mg_Start m = 7 ∧ mg_End m = 8)
    as (ip & m & r & Hl & Hm & Hm').
  { vm_compute. do 3 eexists. split; [reflexivity|]. by split. }
  apply list_elem_of_lookup_2 in Hl.
  destruct (reshard_requests_safe six_ok skewed_statuses tr _ ip (PostMigrateRange m) r
    eq_refl (fake_runs _ _) Hl) as (sel & all & H1 & H2).
  exists ip, m, r, sel, all. split; [exact Hl|]. split; [exact Hm|]. split; [exact Hm'|]. split; [exact H1|exact H2].
Defined.
