(* ===== verification/Convergence.v ===== *)
(** * Resharding ends

    A pass of the reshard asks for the first misplaced segment to be moved to
    the primary it belongs to.  Over a sequence of passes in which the instances
    carry the requested moves out and every pass plans the same primaries, the
    number of misplaced slots strictly decreases with every pass that finds one,
    so that after at most 16384 passes every slot is in place; from then on the
    passes request nothing. *)
From S2P Require Import Prelude GoStr Json Api Fixtures Slots Layout Effects Kube Status Reshard ReshardFacts.

(** ** Misplaced slots *)

(** The instance [n] reports that it serves the slot [z]. *)
Definition served_by (statuses : gmap string InstanceStatus) (z : Z) (n : string) : Prop :=
  ∃ st, statuses !! n = Some st ∧ serves (is_SlotsServed st) z.

#[export] Instance serves_dec l z : Decision (serves l z).
Proof.
  refine (cast_if (decide (0 ≤ z < slotCount ∧ Exists (λ r, sr_Start r ≤ z ≤ sr_End r) l)));
    unfold serves; rewrite <- Exists_exists; tauto.
Defined.

#[export] Instance served_by_dec statuses z n : Decision (served_by statuses z n).
Proof.
  refine (match statuses !! n as o return statuses !! n = o → _ with
          | Some st => λ H, cast_if (decide (serves (is_SlotsServed st) z))
          | None => λ H, right _
          end eq_refl); unfold served_by; rewrite H; naive_solver.
Defined.

(** No slot is reported by two instances. *)
Definition sole (statuses : gmap string InstanceStatus) : Prop :=
  ∀ z n n', served_by statuses z n → served_by statuses z n' → n = n'.

(** The slots of the targets, each with the target it belongs to. *)
Definition slot_targets (targets : list (string * SlotRange)) : list (string * Z) :=
  mjoin ((λ t : string * SlotRange, (t.1,.) <$> range_slots t.2) <$> targets).

Definition misplaced_slots (statuses : gmap string InstanceStatus) (targets : list (string * SlotRange))
  : list (string * Z) :=
  filter (λ p, ¬ served_by statuses p.2 p.1) (slot_targets targets).

Lemma elem_of_slot_targets targets t z :
  (t, z) ∈ slot_targets targets ↔ ∃ r, (t, r) ∈ targets ∧ sr_Start r ≤ z ≤ sr_End r.
Proof.
  unfold slot_targets. rewrite list_elem_of_join. setoid_rewrite list_elem_of_fmap. setoid_rewrite <- elem_of_range_slots.
  split.
  - intros (l & Hp & ([t' r] & -> & Hin)). simpl in Hp. apply list_elem_of_fmap in Hp as (z' & [= -> ->] & Hz). eauto.
  - intros (r & Hin & Hz). exists ((t,.) <$> range_slots r). split; [by apply list_elem_of_fmap_2|].
    by exists (t, r).
Qed.

Lemma slot_targets_slots targets : (slot_targets targets).*2 = ranges_slots (targets.*2).
Proof.
  induction targets as [|[t r] targets IH]; [done|].
  change (slot_targets ((t, r) :: targets)) with (((t,.) <$> range_slots r) ++ slot_targets targets).
  change (ranges_slots (((t, r) :: targets).*2)) with (range_slots r ++ ranges_slots (targets.*2)).
  rewrite fmap_app, IH, <- list_fmap_compose. f_equal. apply list_fmap_id.
Qed.

(** Shrinking the set of elements a filter keeps. *)
Lemma length_filter_le {A} (P P' : A → Prop) `{∀ x, Decision (P x), ∀ x, Decision (P' x)} (l : list A) :
  (∀ y, y ∈ l → P' y → P y) → (length (filter P' l) ≤ length (filter P l))%nat.
Proof.
  induction l as [|y l IH]; intros Himp; [done|]. rewrite !filter_cons.
  pose proof (Himp y (list_elem_of_here _ _)) as Hy.
  specialize (IH (λ z Hz, Himp z (list_elem_of_further _ _ _ Hz))).
  repeat case_decide; simpl; tauto || lia.
Qed.

Lemma length_filter_lt {A} (P P' : A → Prop) `{∀ x, Decision (P x), ∀ x, Decision (P' x)} (l : list A) x :
  (∀ y, y ∈ l → P' y → P y) → x ∈ l → P x → ¬ P' x → (length (filter P' l) < length (filter P l))%nat.
Proof.
  intros Himp Hx HP HP'. apply list_elem_of_split in Hx as (l1 & l2 & ->).
  rewrite !filter_app, !filter_cons, (decide_True _ _ HP), (decide_False _ _ HP'), !length_app. simpl.
  assert (length (filter P' l1) ≤ length (filter P l1))%nat by (apply length_filter_le; set_solver).
  assert (length (filter P' l2) ≤ length (filter P l2))%nat by (apply length_filter_le; set_solver). lia.
Qed.

Lemma primary_targets_slots (primaries : list string) :
  primaries ≠ [] →
  ranges_slots ((zip primaries (calculateClusterSlotRanges (Z.of_nat (length primaries)))).*2) = upto slotCount.
Proof.
  intros Hne. assert (0 < Z.of_nat (length primaries)) as Hpos by (destruct primaries; [done|simpl; lia]).
  rewrite snd_zip by (rewrite calculateClusterSlotRanges_length by done; lia).
  by apply calculateClusterSlotRanges_slots.
Qed.

(** The slots are divided evenly among the primaries, in this order. *)
Definition primary_targets (primaries : list string) : list (string * SlotRange) :=
  zip primaries (calculateClusterSlotRanges (Z.of_nat (length primaries))).

(** A slot belongs to one target. *)
Lemma slot_target_unique primaries t t' z :
  primaries ≠ [] → (t, z) ∈ slot_targets (primary_targets primaries) →
  (t', z) ∈ slot_targets (primary_targets primaries) → t = t'.
Proof.
  intros Hne. assert (NoDup (slot_targets (primary_targets primaries)).*2) as Hnodup.
  { rewrite slot_targets_slots. unfold primary_targets. rewrite primary_targets_slots by done. apply NoDup_upto. }
  intros [i Hi]%list_elem_of_lookup [j Hj]%list_elem_of_lookup.
  assert (i = j) as ->; [|congruence].
  eapply (NoDup_lookup _ i j z Hnodup); rewrite list_lookup_fmap; by rewrite ?Hi, ?Hj.
Qed.

Lemma slot_target_slot primaries t z :
  primaries ≠ [] → (t, z) ∈ slot_targets (primary_targets primaries) → 0 ≤ z < slotCount.
Proof.
  intros Hne Hin. apply elem_of_upto. rewrite <- (primary_targets_slots primaries) by done.
  fold (primary_targets primaries). rewrite <- slot_targets_slots. apply list_elem_of_fmap. by exists (t, z).
Qed.

(** ** A pass and what it asks for *)

(** One pass over the cluster that was read and the statuses that were polled. *)
Record pass := mkPass {
  ps_cluster : RedisCluster;
  ps_statuses : gmap string InstanceStatus;
  ps_trace : trace kube;
  ps_out : res (bool * RedisCluster)
}.

Definition posts (tr : trace kube) : list (string * instance_request) :=
  omap (λ e, match ev_op e with OPost ip req => Some (ip, req) | _ => None end) tr.

(** The listing succeeds and the instances answer 200. *)
Definition accepts (e : event kube) : Prop :=
  match e with existT c r =>
    match c return kube_ret c → Prop with
    | OListPods _ => λ r, ∃ all, r = Ok all
    | OPost _ _ => λ r, ∃ body, r = HttpStatus 200 body
    | _ => λ _, True
    end r
  end.

Definition data_pods (all : list Pod) : list Pod := filter (λ pod, pod_label pod LabelRole ≠ LabelRoleSentinel) all.

(** A pass over a healthy cluster of the desired size, each polled instance of
    which is connected and has a node id and a listed pod with an address, that
    plans [primaries]. *)
Record steady (primaries : list string) (p : pass) : Prop := {
  sp_runs : runs (reconcileClusterReshard (ps_cluster p) (ps_statuses p)) (ps_trace p) (ps_out p);
  sp_accepts : Forall accepts (ps_trace p);
  sp_mode : Spec_Mode (Spec (ps_cluster p)) = ClusterModeCluster;
  sp_state : Status_ClusterState (Status (ps_cluster p)) = "ok";
  sp_assigned : slotCount ≤ Status_SlotsAssigned (Status (ps_cluster p));
  sp_size : DesiredDataInstances (Spec (ps_cluster p)) ≤ Z.of_nat (size (ps_statuses p));
  sp_unnamed : ps_statuses p !! "" = None;
  sp_nodes sel all n st :
    kev (OListPods sel) (Ok all) ∈ ps_trace p → ps_statuses p !! n = Some st →
    node_ready (pods_by_name (data_pods all)) (ps_statuses p) n = true ∧
    ∃ i, podIndex (Name (ps_cluster p)) n = Some i ∧ i < DesiredDataInstances (Spec (ps_cluster p));
  sp_polled n : n ∈ primaries → is_Some (ps_statuses p !! n);
  sp_plan sel all ord :
    kev (OListPods sel) (Ok all) ∈ ps_trace p → kev OMapOrder ord ∈ ps_trace p →
    ∃ layout, planShardLayout (ps_cluster p) (data_pods all) (ps_statuses p) (oracle_shift 1 ord) = Some layout ∧
      primary_of layout <$> upto (desiredShardCount (ps_cluster p)) = primaries
}.

(** The slots from [s] to [e] are served by [target] alone, the others as before. *)
Definition moved (statuses statuses' : gmap string InstanceStatus) (s e : Z) (target : string) : Prop :=
  ∀ z n, 0 ≤ z < slotCount →
    (served_by statuses' z n ↔ if bool_decide (s ≤ z ≤ e) then n = target else served_by statuses z n).

(** The instances do what the pass asked of them: a migrated range is served by
    the instance with the target's node id, added slots by the instance at the
    address that got the request; without a request nothing moves. *)
Definition carried_out (p : pass) (statuses' : gmap string InstanceStatus) : Prop :=
  match posts (ps_trace p) with
  | [] => ∀ z n, served_by statuses' z n ↔ served_by (ps_statuses p) z n
  | [(_, PostMigrateRange m)] =>
      ∀ target st, ps_statuses p !! target = Some st → is_NodeID st = mg_TargetNodeID m →
        moved (ps_statuses p) statuses' (mg_Start m) (mg_End m) target
  | [(ip, PostAddSlots s e)] =>
      ∀ target sel all pod, kev (OListPods sel) (Ok all) ∈ ps_trace p → pod ∈ all →
        p_Name pod = target → p_PodIP pod = ip → moved (ps_statuses p) statuses' s e target
  | _ => True
  end.

(** ** Progress *)

Lemma misplaced_decreases primaries statuses statuses' s e target :
  primaries ≠ [] → s ≤ e → (∀ z, s ≤ z ≤ e → (target, z) ∈ slot_targets (primary_targets primaries)) →
  ¬ served_by statuses s target → moved statuses statuses' s e target →
  (length (misplaced_slots statuses' (primary_targets primaries)) <
   length (misplaced_slots statuses (primary_targets primaries)))%nat.
Proof.
  intros Hne Hse Hseg Hnot Hm. unfold misplaced_slots.
  apply (length_filter_lt _ _ _ (target, s)); simpl; [|apply Hseg; lia|done|].
  - intros [t z] Hz. simpl. assert (0 ≤ z < slotCount) as Hslot by by eapply slot_target_slot.
    rewrite (Hm z t Hslot). case_bool_decide as Hr; [|done].
    intros []. by eapply slot_target_unique, Hseg.
  - intros Hn. apply Hn, (Hm s target); [eapply slot_target_slot, Hseg; [done|lia]|].
    by rewrite bool_decide_true by lia.
Qed.

Lemma moved_sole statuses statuses' s e target : sole statuses → moved statuses statuses' s e target → sole statuses'.
Proof.
  intros Hs Hm z n n' H1 H2. assert (0 ≤ z < slotCount) as Hz by (by destruct H1 as (? & _ & ? & _)).
  apply (Hm z _ Hz) in H1, H2. case_bool_decide; [congruence|]. by eapply Hs.
Qed.

(** The request of one segment, when owner and target are in order. *)
Lemma post_answered ctx ip req tr out (c : RedisCluster) :
  ip ≠ "" → Forall accepts tr →
  runs (with_ctx ctx (postClusterJSON ip req);; mret (false, c)) tr out →
  posts tr = [(ip, req)] ∧ out = Ok (false, c).
Proof.
  intros Hip Hacc Hr. unfold postClusterJSON in Hr. rewrite bool_decide_false in Hr by done.
  destruct Hr as (r & tr' & -> & Hr). apply Forall_cons in Hacc as [[body Hb] _]. simpl in Hb. subst r.
  simpl in Hr. by destruct Hr as [-> ->].
Qed.

Lemma reshard_segment_runs cluster statuses podsByName m tr out tst :
  statuses !! ms_target m = Some tst → pod_ip podsByName (ms_target m) ≠ "" →
  (ms_owner m ≠ "" → ∃ ost i, statuses !! ms_owner m = Some ost ∧ is_NodeID ost ≠ "" ∧
     pod_ip podsByName (ms_owner m) ≠ "" ∧ podIndex (Name cluster) (ms_owner m) = Some i ∧
     i < DesiredDataInstances (Spec cluster)) →
  Forall accepts tr → runs (reshard_segment cluster statuses podsByName m) tr out →
  out = Ok (false, cluster) ∧
  (posts tr = [(pod_ip podsByName (ms_target m), PostAddSlots (ms_start m) (ms_end m))] ∨
   ∃ ip mg, posts tr = [(ip, PostMigrateRange mg)] ∧ mg_TargetNodeID mg = is_NodeID tst ∧
     mg_Start mg = ms_start m ∧ mg_End mg = ms_end m).
Proof.
  intros Ht Htip Howner Hacc Hr. unfold reshard_segment in Hr. case_bool_decide as Ho.
  { apply post_answered in Hr as [Hp ->]; auto. }
  destruct (Howner Ho) as (ost & i & Host & Hid & Hip & Hi & Hlt).
  rewrite Host, bool_decide_false, (bool_decide_false (pod_ip _ _ = "")), Hi in Hr by done.
  rewrite (bool_decide_false (_ ≤ i)) in Hr by lia. cbn [andb] in Hr.
  apply post_answered in Hr as [Hp ->]; [|done..]. split; [done|]. right. eexists _, _. split; [exact Hp|].
  simpl. unfold status_of. by rewrite Ht.
Qed.

(** The primaries are polled, so they have names and are ready. *)
Lemma steady_primaries primaries p t r :
  steady primaries p → (t, r) ∈ primary_targets primaries → t ≠ "" ∧ is_Some (ps_statuses p !! t).
Proof.
  intros Hp [i Hi]%list_elem_of_lookup. apply lookup_zip_with_Some in Hi as (x & y & [= -> ->] & Hx & _).
  apply list_elem_of_lookup_2, (sp_polled _ _ Hp) in Hx. split; [|done].
  intros ->. destruct Hx as [st Hst]. pose proof (sp_unnamed _ _ Hp). congruence.
Qed.

(** A steady pass lists the pods, plans, and acts on the first misplaced
    segment. *)
Lemma steady_runs primaries p :
  steady primaries p → ∃ sel all ord tr,
    ps_trace p = kev (OListPods sel) (Ok all) :: kev OMapOrder ord :: tr ∧ Forall accepts tr ∧
    match first_misplaced (slot_owners (range_map (ord 0%nat) (ps_statuses p))) (primary_targets primaries) with
    | None => tr = [] ∧ ps_out p = Ok (true, ps_cluster p)
    | Some m => runs (reshard_segment (ps_cluster p) (ps_statuses p) (pods_by_name (data_pods all)) m) tr (ps_out p)
    end.
Proof.
  intros [Hr Hacc Hmode Hstate Hassigned Hsize Hunnamed Hnodes Hpolled Hplan].
  unfold reconcileClusterReshard in Hr. rewrite bool_decide_false in Hr by (by intros []).
  rewrite bool_decide_false in Hr by lia. rewrite (bool_decide_true (_ = "ok")) in Hr by done.
  rewrite (bool_decide_false (_ < slotCount)) in Hr by lia. cbn [negb orb] in Hr.
  destruct Hr as (r & tr1 & Htr & Hr). rewrite Htr in Hacc. apply Forall_cons in Hacc as [[all Hall] Hacc].
  simpl in Hall. subst r. change (runs (reshard_pods (ps_cluster p) (ps_statuses p) (data_pods all)) tr1 (ps_out p)) in Hr.
  destruct Hr as (ord & tr2 & -> & Hr). apply Forall_cons in Hacc as [_ Hacc].
  lazymatch type of Hr with runs (prog_bind _ _ _ ?f (Ret ?a)) ?t ?o => change (runs (f a) t o) in Hr end.
  cbn beta in Hr. destruct (Hplan {[ LabelCluster := Name (ps_cluster p) ]} all ord) as (layout & Hlayout & Hprim);
    [rewrite Htr; apply list_elem_of_here|rewrite Htr; apply list_elem_of_further, list_elem_of_here|].
  rewrite Hlayout, Hprim in Hr. cbn zeta in Hr. exists {[ LabelCluster := Name (ps_cluster p) ]}, all, ord, tr2.
  split; [done|]. split; [done|]. destruct (existsb _ primaries) eqn:He.
  { exfalso. apply existsb_exists in He as (n & Hn & ->%bool_decide_eq_true). apply list_elem_of_In in Hn.
    apply Hpolled in Hn as [st Hst]. congruence. }
  assert (forallb (node_ready (pods_by_name (data_pods all)) (ps_statuses p)) primaries = true) as Hready.
  { apply forallb_forall. intros n Hn. apply list_elem_of_In in Hn. apply Hpolled in Hn as [st Hst].
    eapply Hnodes; [rewrite Htr; apply list_elem_of_here|exact Hst]. }
  rewrite Hready in Hr. cbn [negb] in Hr. fold (primary_targets primaries) in Hr.
  by destruct (first_misplaced _ _).
Qed.

(** A steady pass ends with nothing misplaced and asks for nothing, or it asks
    for a segment of misplaced slots to be moved to its target. *)
Lemma steady_pass primaries p :
  steady primaries p → sole (ps_statuses p) →
  (misplaced_slots (ps_statuses p) (primary_targets primaries) = [] ∧
   posts (ps_trace p) = [] ∧ ps_out p = Ok (true, ps_cluster p)) ∨
  (length (posts (ps_trace p)) = 1%nat ∧ ps_out p = Ok (false, ps_cluster p) ∧
   ∃ s e target, s ≤ e ∧ (∀ z, s ≤ z ≤ e → (target, z) ∈ slot_targets (primary_targets primaries)) ∧
     ¬ served_by (ps_statuses p) s target ∧
     ∀ statuses', carried_out p statuses' → moved (ps_statuses p) statuses' s e target).
Proof.
  intros Hp Hsole. destruct (steady_runs _ _ Hp) as (sel & all & ord & tr & Htr & Hacc & Hr).
  assert (∀ n st, ps_statuses p !! n = Some st → is_NodeID st ≠ "" ∧ pod_ip (pods_by_name (data_pods all)) n ≠ "" ∧
    ∃ i, podIndex (Name (ps_cluster p)) n = Some i ∧ i < DesiredDataInstances (Spec (ps_cluster p))) as Hnode.
  { intros n st Hn. destruct (sp_nodes _ _ Hp sel all n st) as [Hok Hi]; [rewrite Htr; apply list_elem_of_here|done|].
    unfold node_ready in Hok. rewrite Hn in Hok. by bsimpl. }
  pose proof (first_misplaced_spec (slot_owners (range_map (ord 0%nat) (ps_statuses p))) (primary_targets primaries)) as Hm.
  destruct (first_misplaced _ _) as [m|].
  2:{ left. destruct Hr as [-> ->]. rewrite Htr. split; [|done]. unfold misplaced_slots.
      apply elem_of_nil_inv. intros [t z] [Hn Hz]%list_elem_of_filter. apply Hn. simpl.
      apply elem_of_slot_targets in Hz as (r & Hin & Hz).
      eapply slot_owner_serves; [by eapply Hm|]. by eapply steady_primaries. }
  right. destruct Hm as (r & Hin & Hs & Hend & Hdiff & Hown).
  destruct (steady_primaries _ _ _ _ Hp Hin) as [Hne [tst Htst]]. destruct (Hnode _ _ Htst) as (_ & Htip & _).
  apply (reshard_segment_runs _ _ _ _ _ _ tst) in Hr as [Hout Hreq]; [|done|done| |done].
  2:{ intros Ho. destruct (slot_owner_serves (ps_statuses p) (ord 0%nat) (ms_start m) (ms_owner m)) as (ost & Host & _);
        [apply Hown; lia|done|]. destruct (Hnode _ _ Host) as (? & ? & i & ? & ?). by exists ost, i. }
  assert (posts (ps_trace p) = posts tr) as Hposts by by rewrite Htr.
  split; [rewrite Hposts; by destruct Hreq as [->|(ip & mg & -> & _)]|]. split; [done|].
  exists (ms_start m), (ms_end m), (ms_target m). split; [lia|]. split; [|split].
  - intros z Hz. apply elem_of_slot_targets. exists r. split; [done|lia].
  - intros Hby. destruct (decide (ms_owner m = "")) as [Ho|Ho].
    + apply (slot_owner_unserved (ps_statuses p) (ord 0%nat) (ms_start m)); [rewrite <- Ho; apply Hown; lia|apply (sp_unnamed _ _ Hp)|]. by exists (ms_target m).
    + apply Hdiff. eapply Hsole; [|exact Hby]. eapply slot_owner_serves; [apply Hown; lia|done].
  - intros statuses' Hc. unfold carried_out in Hc. rewrite Hposts in Hc.
    destruct Hreq as [Heq|(ip & mg & Heq & Hid & Hms & Hme)]; rewrite Heq in Hc.
    + unfold pod_ip in Htip, Hc. destruct (pods_by_name (data_pods all) !! ms_target m) as [pod|] eqn:Hpod; [|done].
      apply pods_by_name_lookup in Hpod as [[_ Hpin]%list_elem_of_filter Hpn].
      eapply Hc; [rewrite Htr; apply list_elem_of_here|exact Hpin|done|done].
    + rewrite Hms, Hme in Hc. by apply (Hc _ tst).
Qed.

(** ** Termination *)

Section passes.
Context (primaries : list string) (passes : nat → pass).
Hypothesis Hne : primaries ≠ [].
Hypothesis Hsteady : ∀ i, steady primaries (passes i).
Hypothesis Hsole : sole (ps_statuses (passes 0%nat)).
Hypothesis Hcarried : ∀ i, carried_out (passes i) (ps_statuses (passes (S i))).

Abbreviation missing i := (misplaced_slots (ps_statuses (passes i)) (primary_targets primaries)).

Lemma passes_sole i : sole (ps_statuses (passes i)).
Proof.
  induction i as [|i IH]; [done|]. pose proof (Hcarried i) as Hc.
  destruct (steady_pass _ _ (Hsteady i) IH) as [(_ & Hp & _)|(_ & _ & s & e & t & _ & _ & _ & Hm)].
  - unfold carried_out in Hc. rewrite Hp in Hc. intros z n n'. rewrite !Hc. apply IH.
  - by eapply moved_sole, Hm.
Qed.

(** A pass with something misplaced leaves less of it; the others leave it so. *)
Lemma passes_progress i :
  missing i ≠ [] →
  length (posts (ps_trace (passes i))) = 1%nat ∧ (length (missing (S i)) < length (missing i))%nat.
Proof.
  intros Hmis. destruct (steady_pass _ _ (Hsteady i) (passes_sole i)) as [[? _]|(Hp & _ & s & e & t & Hse & Hseg & Hnot & Hm)];
    [done|]. split; [done|]. by eapply misplaced_decreases, Hm, Hcarried.
Qed.

Lemma passes_stay i :
  missing i = [] →
  posts (ps_trace (passes i)) = [] ∧ ps_out (passes i) = Ok (true, ps_cluster (passes i)) ∧ missing (S i) = [].
Proof.
  intros Hmis. destruct (steady_pass _ _ (Hsteady i) (passes_sole i)) as [(_ & Hp & Ho)|(_ & _ & s & e & t & Hse & Hseg & Hnot & _)].
  - split; [done|]. split; [done|]. pose proof (Hcarried i) as Hc. unfold carried_out in Hc. rewrite Hp in Hc.
    rewrite <- Hmis. unfold misplaced_slots. apply list_filter_iff. intros [t z]. simpl. by rewrite Hc.
  - exfalso. assert ((t, s) ∈ missing i) as Hin; [|rewrite Hmis in Hin; by apply elem_of_nil in Hin].
    apply list_elem_of_filter. split; [done|]. apply Hseg. lia.
Qed.

Lemma passes_end n i :
  (length (missing i) ≤ n)%nat →
  ∃ k, (k ≤ n)%nat ∧ missing (i + k)%nat = [] ∧
    ∀ j, (j < k)%nat → length (posts (ps_trace (passes (i + j)%nat))) = 1%nat.
Proof.
  revert i; induction n as [|n IH]; intros i Hn.
  - exists 0%nat. split; [done|]. rewrite Nat.add_0_r. split; [|lia]. by apply length_zero_iff_nil, Nat.le_0_r.
  - destruct (decide (missing i = [])) as [Hmis|Hmis].
    { exists 0%nat. rewrite Nat.add_0_r. split; [lia|]. split; [done|lia]. }
    destruct (passes_progress i Hmis) as [Hp Hlt]. destruct (IH (S i)) as (k & Hk & Hnone & Hbefore); [lia|].
    exists (S k). rewrite Nat.add_succ_r. split; [lia|]. split; [done|]. intros [|j] Hj; [by rewrite Nat.add_0_r|].
    rewrite Nat.add_succ_r. apply (Hbefore j). lia.
Qed.
End passes.

Lemma misplaced_bound primaries statuses :
  primaries ≠ [] → Z.of_nat (length (misplaced_slots statuses (primary_targets primaries))) ≤ slotCount.
Proof.
  intros Hne. assert (length (misplaced_slots statuses (primary_targets primaries)) ≤
    length (slot_targets (primary_targets primaries)))%nat as Hle by apply length_filter.
  rewrite <- (length_fmap (@snd string Z) (slot_targets _)), slot_targets_slots in Hle.
  unfold primary_targets in *. rewrite primary_targets_slots, length_upto in Hle by done. unfold slotCount in *. lia.
Qed.

(** C16: Resharding terminates.  Consider a sequence of passes of the reshard over
    a healthy cluster in cluster mode whose instances are connected, none of them
    being scaled down, each pass planning the same primaries, and whose requests
    are answered with 200 and carried out before the next pass observes the
    cluster; at first no slot is reported by two instances.  Then there is a pass
    k, at most as many as slots were misplaced and at most 16384, before which
    every pass asks for exactly one move, and from which on every pass finds each
    slot served by the primary of its range, asks for nothing and reports the
    reshard as done. *)
Theorem reshard_terminates (primaries : list string) (passes : nat → pass) :
  primaries ≠ [] → (∀ i, steady primaries (passes i)) → sole (ps_statuses (passes 0%nat)) →
  (∀ i, carried_out (passes i) (ps_statuses (passes (S i)))) →
  ∃ k, (k ≤ length (misplaced_slots (ps_statuses (passes 0%nat)) (primary_targets primaries)))%nat ∧
    Z.of_nat k ≤ slotCount ∧
    (∀ j, (j < k)%nat → length (posts (ps_trace (passes j))) = 1%nat) ∧
    ∀ j, (k ≤ j)%nat →
      posts (ps_trace (passes j)) = [] ∧ ps_out (passes j) = Ok (true, ps_cluster (passes j)) ∧
      ∀ target r z, (target, r) ∈ primary_targets primaries → sr_Start r ≤ z ≤ sr_End r →
        served_by (ps_statuses (passes j)) z target.
Proof.
  intros Hne Hsteady Hsole Hcarried.
  destruct (passes_end primaries passes Hne Hsteady Hsole Hcarried _ 0 (le_n _)) as (k & Hk & Hnone & Hbefore).
  exists k. split; [done|]. split; [pose proof (misplaced_bound primaries (ps_statuses (passes 0%nat)) Hne); lia|].
  split; [done|]. intros j Hj.
  assert (misplaced_slots (ps_statuses (passes j)) (primary_targets primaries) = []) as Hmis.
  { induction Hj as [|j _ IH]; [done|]. by apply (passes_stay primaries passes). }
  destruct (passes_stay primaries passes Hsteady Hsole Hcarried j Hmis) as (Hp & Ho & _).
  split; [done|]. split; [done|]. intros target r z Hin Hz.
  destruct (decide (served_by (ps_statuses (passes j)) z target)) as [|Hnot]; [done|].
  exfalso. assert ((target, z) ∈ misplaced_slots (ps_statuses (passes j)) (primary_targets primaries)) as Hmem;
    [|rewrite Hmis in Hmem; by apply elem_of_nil in Hmem].
  apply list_elem_of_filter. split; [done|]. apply elem_of_slot_targets. by exists r.
Qed.

(** ** Witness *)

(** Two slots of the second range sit on the first primary. *)
Definition wide_statuses : gmap string InstanceStatus :=
  <["c-0" := shard_node "master" "n0" "" [mkSlotRange 0 5463] ]>
  (<["c-1" := shard_node "master" "n1" "" [mkSlotRange 5464 10922] ]> six_statuses).

Definition fake_pass (statuses : gmap string InstanceStatus) : pass :=
  let p := reconcileClusterReshard six_ok statuses in
  mkPass six_ok statuses (fake_trace six_world p) (fake_result six_world p).

Definition two_passes (i : nat) : pass := fake_pass (match i with O => wide_statuses | S _ => six_statuses end).

Definition other_op (e : event kube) : bool :=
  match ev_op e with OListPods _ | OMapOrder => false | _ => true end.

Definition view_order (e : event kube) : option oracle :=
  match e with existT c r =>
    match c return kube_ret c → option oracle with OMapOrder => Some | _ => λ _, None end r
  end.

(** The conditions of [steady] on a concrete trace. *)
Lemma steady_intro primaries statuses sel all ord l out :
  let tr := kev (OListPods sel) (Ok all) :: kev OMapOrder ord :: l in
  runs (reconcileClusterReshard six_ok statuses) tr out → Forall accepts l → forallb other_op l = true →
  DesiredDataInstances (Spec six_ok) ≤ Z.of_nat (size statuses) → statuses !! "" = None →
  forallb (λ n, match podIndex "c" n with
                | Some i => node_ready (pods_by_name (data_pods all)) statuses n && bool_decide (i < 6)
                | None => false
                end) (map_to_list statuses).*1 = true →
  forallb (λ n, bool_decide (is_Some (statuses !! n))) primaries = true →
  (λ layout, primary_of layout <$> upto (desiredShardCount six_ok)) <$>
    planShardLayout six_ok (data_pods all) statuses (oracle_shift 1 ord) = Some primaries →
  steady primaries (mkPass six_ok statuses tr out).
Proof.
  intros tr Hr Hacc Hother Hsize Hun Hnodes Hpolled Hplan.
  assert (∀ sel' all', kev (OListPods sel') (Ok all') ∈ tr → all' = all) as Hlist.
  { intros sel' all' [Heq|[Heq|Hin]%elem_of_cons]%elem_of_cons.
    - by ev_eq Heq.
    - by ev_eq Heq.
    - rewrite forallb_forall in Hother. apply list_elem_of_In in Hin. by apply Hother in Hin. }
  assert (∀ ord', kev OMapOrder ord' ∈ tr → ord' = ord) as Hord.
  { intros ord' [Heq|[Heq|Hin]%elem_of_cons]%elem_of_cons.
    - by apply (f_equal view_order) in Heq.
    - by apply (f_equal view_order) in Heq as [= ->].
    - rewrite forallb_forall in Hother. apply list_elem_of_In in Hin. by apply Hother in Hin. }
  split; try done; simpl.
  - constructor; [by eexists|]. by constructor.
  - intros sel' all' n st ->%Hlist Hn. rewrite forallb_forall in Hnodes. specialize (Hnodes n).
    destruct (podIndex "c" n) as [i|]; [destruct (andb_prop _ _ (Hnodes ltac:(
      apply list_elem_of_In, list_elem_of_fmap; exists (n, st); split; [done|by apply elem_of_map_to_list]))) as [H1 H2]|].
    + split; [done|]. exists i. split; [done|]. by apply bool_decide_eq_true in H2.
    + discriminate Hnodes. apply list_elem_of_In, list_elem_of_fmap. exists (n, st). split; [done|by apply elem_of_map_to_list].
  - intros n Hn. rewrite forallb_forall in Hpolled. apply list_elem_of_In in Hn. by apply Hpolled, bool_decide_eq_true in Hn.
  - intros sel' all' ord' ->%Hlist ->%Hord. by apply fmap_Some in Hplan as (layout & ? & ->); eauto.
Qed.

(** Ranges that do not meet belong to one instance each. *)
Definition ranges_apart (a b : string * InstanceStatus) : bool :=
  bool_decide (a.1 = b.1) ||
  forallb (λ r, forallb (λ r', bool_decide (sr_End r < sr_Start r') || bool_decide (sr_End r' < sr_Start r))
                  (is_SlotsServed b.2)) (is_SlotsServed a.2).

Lemma sole_intro statuses :
  forallb (λ a, forallb (ranges_apart a) (map_to_list statuses)) (map_to_list statuses) = true → sole statuses.
Proof.
  intros Hall z n n' (st & Hn & _ & r & Hr & Hz) (st' & Hn' & _ & r' & Hr' & Hz').
  rewrite forallb_forall in Hall. apply elem_of_map_to_list, list_elem_of_In in Hn, Hn'.
  apply Hall in Hn. rewrite forallb_forall in Hn. apply Hn in Hn'. unfold ranges_apart in Hn'.
  apply orb_true_iff in Hn' as [Heq%bool_decide_eq_true|Ha]; [done|]. simpl in Ha.
  rewrite forallb_forall in Ha. apply list_elem_of_In in Hr, Hr'. apply Ha in Hr. rewrite forallb_forall in Hr.
  apply Hr in Hr'. apply orb_true_iff in Hr' as [H%bool_decide_eq_true|H%bool_decide_eq_true]; lia.
Qed.

Definition listed : list Pod := with_label {[ LabelCluster := "c" ]} <$> six_pods.

Definition observed : trace kube :=
  [kev (OListPods {[ LabelCluster := "c" ]}) (Ok listed); kev OMapOrder (λ _, [])].

Definition wide_move : clusterMigrateRangePayload := mkMigrate "10.0.0.-1" 6379 "n1" "n0" 5462 5463 64 5000.

Lemma wide_trace :
  ps_trace (two_passes 0) = observed ++ [kev (OPost "10.0.0.-0" (PostMigrateRange wide_move)) (HttpStatus 200 "")].
Proof. vm_compute. reflexivity. Qed.

Lemma even_trace : ps_trace (two_passes 1) = observed.
Proof. vm_compute. reflexivity. Qed.

Lemma two_passes_steady i : steady ["c-0"; "c-1"; "c-2"] (two_passes i).
Proof.
  destruct i as [|i].
  - pose proof (fake_runs six_world (reconcileClusterReshard six_ok wide_statuses)) as Hr.
    change (two_passes 0) with (mkPass six_ok wide_statuses (ps_trace (two_passes 0)) (ps_out (two_passes 0))).
    change (fake_trace six_world _) with (ps_trace (two_passes 0)) in Hr. rewrite wide_trace in Hr |- *.
    eapply steady_intro; [exact Hr|by repeat econstructor|by vm_compute..].
  - pose proof (fake_runs six_world (reconcileClusterReshard six_ok six_statuses)) as Hr.
    change (two_passes (S i)) with (mkPass six_ok six_statuses (ps_trace (two_passes 1)) (ps_out (two_passes 1))).
    change (fake_trace six_world _) with (ps_trace (two_passes 1)) in Hr. rewrite even_trace in Hr |- *.
    eapply steady_intro; [exact Hr|constructor|by vm_compute..].
Qed.

Lemma served_by_insert statuses k st z n :
  served_by (<[k := st]> statuses) z n ↔ if decide (k = n) then serves (is_SlotsServed st) z else served_by statuses z n.
Proof. unfold served_by. rewrite lookup_insert. case_decide; naive_solver. Qed.

Lemma serves_one a b z : serves [mkSlotRange a b] z ↔ 0 ≤ z < slotCount ∧ a ≤ z ≤ b.
Proof. unfold serves. setoid_rewrite list_elem_of_singleton. naive_solver. Qed.

Lemma six_sole : sole six_statuses.
Proof. apply sole_intro. vm_compute. reflexivity. Qed.

Lemma wide_moved : moved wide_statuses six_statuses 5462 5463 "c-1".
Proof.
  assert (six_statuses = <["c-0" := shard_node "master" "n0" "" [mkSlotRange 0 5461] ]>
    (<["c-1" := shard_node "master" "n1" "" [mkSlotRange 5462 10922] ]> six_statuses)) as Heq by (by vm_compute).
  intros z n Hz. case_bool_decide as Hr.
  - assert (served_by six_statuses z "c-1") as Hby.
    { exists (shard_node "master" "n1" "" [mkSlotRange 5462 10922]). split; [by vm_compute|]. apply serves_one. lia. }
    split; [|by intros ->]. intros Hn. by apply (six_sole z).
  - rewrite Heq at 1. unfold wide_statuses, shard_node.
    repeat (rewrite served_by_insert; case_decide; cbn [is_SlotsServed]; try done); rewrite !serves_one; lia.
Qed.

Lemma two_passes_carried i : carried_out (two_passes i) (ps_statuses (two_passes (S i))).
Proof.
  destruct i as [|i]; unfold carried_out.
  - rewrite wide_trace. cbn. intros target st Hst Hid.
    assert (target = "c-1") as ->; [|apply wide_moved].
    assert (map_Forall (λ n st, is_NodeID st = "n1" → n = "c-1") wide_statuses) as Hall
      by (apply (bool_decide_eq_true_1 _); vm_compute; reflexivity).
    by apply (Hall _ _ Hst).
  - change (ps_trace (two_passes (S i))) with (ps_trace (two_passes 1)). by rewrite even_trace.
Qed.

Lemma reshard_terminates_witness :
  ∃ k, (k ≤ 2)%nat ∧ ∀ j, (k ≤ j)%nat →
    posts (ps_trace (two_passes j)) = [] ∧ served_by (ps_statuses (two_passes j)) 5462 "c-1".
Proof.
  destruct (reshard_terminates ["c-0"; "c-1"; "c-2"] two_passes) as (k & Hk & _ & _ & Hend);
    [discriminate|exact two_passes_steady|apply sole_intro; vm_compute; reflexivity|exact two_passes_carried|].
  exists k. split; [revert Hk; vm_compute; intros Hk; exact Hk|]. intros j Hj.
  destruct (Hend j Hj) as (Hp & _ & Hs). split; [exact Hp|].
  apply (Hs "c-1" (mkSlotRange 5462 10922)); [|simpl; lia]. apply (bool_decide_eq_true_1 _). vm_compute. reflexivity.
Defined.
