(* ===== verification/RollingUpdate.v ===== *)
(** * Rolling updates and controlled restarts

    [rolling_update.go]: replicas are replaced first, one deletion per pass,
    the primary last and through a switchover; a supervised update waits for
    the approval annotation.  [restartPodsForPendingResize] follows the same
    order for pods whose volume needs a restart to grow.

    The cluster object is returned together with the flag that ends the pass. *)
From S2P Require Import Prelude GoStr Json Api Layout Effects Kube Fencing.

(** [sort.Slice] by descending ordinal.  [podIndex] is evaluated when there are
    at least two pods; it panics, [None], on a name that is too short. *)
Definition sort_by_ordinal_desc (cluster : RedisCluster) (pods : list Pod) : option (list Pod) :=
  if bool_decide (1 < length pods)%nat &&
     existsb (λ pod, bool_decide (podIndex (Name cluster) (p_Name pod) = None)) pods
  then None
  else Some (sort_slice (λ a b, bool_decide (index_of cluster (p_Name b) < index_of cluster (p_Name a))) pods).

Definition sorted_desc (cluster : RedisCluster) (pods : list Pod) : kprog (list Pod) :=
  match sort_by_ordinal_desc cluster pods with
  | None => Throw (Panicked "slice bounds out of range")
  | Some l => mret l
  end.

Definition delete_pod (ctx name : string) : kprog unit :=
  r ← kcall (ODeletePod name);
  check_ctx ctx (delete_ignoring_not_found r).

Definition outdated (desiredHash : string) (pod : Pod) : bool :=
  negb (bool_decide (getPodSpecHash pod = desiredHash)).

(** ** Approval *)

Definition isPrimaryUpdateApproved (cluster : RedisCluster) : bool :=
  bool_decide (annotation cluster AnnotationApprovePrimaryUpdate = "true").

Definition isPrimaryUpdateWaiting (cluster : RedisCluster) : bool :=
  existsb (λ c, bool_decide (c_Type c = ConditionPrimaryUpdateWaiting) &&
                bool_decide (c_Status c = ConditionTrue)) (Status_Conditions (Status cluster)).

Definition primaryUpdateApprovalMessage : string :=
  "Replicas are updated. Set annotation redis.io/approve-primary-update=" +:+
  String (Ascii.ascii_of_nat 34) ("true" +:+ String (Ascii.ascii_of_nat 34) " to continue.").

Definition pauseForPrimaryApproval (cluster : RedisCluster) : kprog (bool * RedisCluster) :=
  let waitingCondition := isPrimaryUpdateWaiting cluster in
  if waitingCondition && bool_decide (Status_Phase (Status cluster) = ClusterPhaseWaitingForUser)
  then mret (true, cluster)
  else
    let waiting := set_Phase cluster ClusterPhaseWaitingForUser in
    after ←
      (if negb waitingCondition then
         now ← kcall ONow;
         mret (set_Conditions waiting (setCondition (Status_Conditions (Status waiting))
           (mkCondition ConditionPrimaryUpdateWaiting ConditionTrue now "AwaitingApproval"
              primaryUpdateApprovalMessage)))
       else mret waiting);
    cluster ← with_ctx "patching waiting-for-user status" (StatusPatch cluster after);
    (if negb waitingCondition
     then Event EventNormal "PrimaryUpdatePaused" primaryUpdateApprovalMessage else mret tt);;
    mret (true, cluster).

Definition clearPrimaryUpdateApproval (cluster : RedisCluster) : kprog RedisCluster :=
  cluster ←
    (match Annotations cluster !! AnnotationApprovePrimaryUpdate with
     | Some _ => with_ctx "patching cluster annotations"
         (Patch cluster (set_Annotations cluster (delete AnnotationApprovePrimaryUpdate (Annotations cluster))))
     | None => mret cluster
     end);
  now ← kcall ONow;
  let after := set_Conditions cluster (setCondition (Status_Conditions (Status cluster))
    (mkCondition ConditionPrimaryUpdateWaiting ConditionFalse now "ApprovalConsumed"
       "Primary update approval consumed; rolling update resumed.")) in
  let after := if bool_decide (Status_Phase (Status after) = ClusterPhaseWaitingForUser)
               then set_Phase after ClusterPhaseUpdating else after in
  with_ctx "patching status after approval" (StatusPatch cluster after).

(** ** Standalone and sentinel mode *)

Definition consume_approval (cluster : RedisCluster) (consume : bool) : kprog RedisCluster :=
  if consume then with_ctx "clearing primary update approval" (clearPrimaryUpdateApproval cluster)
  else mret cluster.

(** The primary is the only outdated pod left. *)
Definition update_primary (cluster : RedisCluster) (primary : Pod) (replicas : list Pod)
    : kprog (bool * RedisCluster) :=
  let isSupervised := bool_decide (Spec_PrimaryUpdateStrategy (Spec cluster) = PrimaryUpdateStrategySupervised) in
  let approved := isPrimaryUpdateApproved cluster in
  if isSupervised && negb approved then pauseForPrimaryApproval cluster
  else if bool_decide (replicas = []) then
    delete_pod ("deleting primary " +:+ p_Name primary +:+ " for update") (p_Name primary);;
    cluster ← consume_approval cluster (isSupervised && approved);
    mret (true, cluster)
  else
    cluster ← with_ctx "switchover during rolling update" (switchover cluster);
    cluster ← consume_approval cluster (isSupervised && approved);
    mret (true, cluster).

Definition rolling_update_pods (cluster : RedisCluster) (desiredHash : string) (pods : list Pod)
    : kprog (bool * RedisCluster) :=
  let currentPrimary := Status_CurrentPrimary (Status cluster) in
  let primary := last_pod_named pods currentPrimary in
  let unsorted := filter (λ pod, p_Name pod ≠ currentPrimary) pods in
  Event EventNormal "RollingUpdateStarted" "Rolling update started";;
  replicas ← sorted_desc cluster unsorted;
  match List.find (outdated desiredHash) replicas with
  | Some replica =>
      delete_pod ("deleting replica " +:+ p_Name replica +:+ " for update") (p_Name replica);;
      mret (true, cluster)
  | None =>
      let completed :=
        Event EventNormal "RollingUpdateCompleted" "Rolling update completed";; mret (false, cluster) in
      match primary with
      | Some p => if outdated desiredHash p then update_primary cluster p replicas else completed
      | None => completed
      end
  end.

(** ** Cluster mode *)

Definition shard_members (podsByName : gmap string Pod) (sh : ShardStatus) : list Pod :=
  omap (λ name, podsByName !! name) (ss_PrimaryPod sh :: ss_ReplicaPods sh).

(** One shard; [None] means the loop continues with the next one. *)
Definition rolling_update_shard (cluster : RedisCluster) (desiredHash : string)
    (podsByName : gmap string Pod) (sh : ShardStatus) : kprog (option (bool * RedisCluster)) :=
  let shardMembers := shard_members podsByName sh in
  if bool_decide (shardMembers = []) then mret None
  else
    let primary := last_pod_named shardMembers (ss_PrimaryPod sh) in
    replicas ← sorted_desc cluster (filter (λ pod, p_Name pod ≠ ss_PrimaryPod sh) shardMembers);
    match List.find (outdated desiredHash) replicas with
    | Some replica =>
        delete_pod ("deleting shard replica " +:+ p_Name replica +:+ " for update") (p_Name replica);;
        mret (Some (true, cluster))
    | None =>
        match primary with
        | None => mret None
        | Some primary =>
            if negb (outdated desiredHash primary) then mret None
            else
              match replicas with
              | [] =>
                  delete_pod ("deleting shard primary " +:+ p_Name primary +:+ " for update") (p_Name primary);;
                  mret (Some (true, cluster))
              | candidate :: _ =>
                  if bool_decide (p_PodIP candidate = "") then mret (Some (true, cluster))
                  else
                    cluster ← with_ctx ("fencing shard primary " +:+ p_Name primary)
                      (setFence cluster (p_Name primary));
                    with_ctx ("promoting shard failover candidate " +:+ p_Name candidate)
                      (promoteInstance (p_PodIP candidate));;
                    cluster ← with_ctx ("clearing fence on shard primary " +:+ p_Name primary)
                      (clearFence cluster (p_Name primary));
                    mret (Some (true, cluster))
              end
        end
    end.

Fixpoint rolling_update_shards (cluster : RedisCluster) (desiredHash : string)
    (podsByName : gmap string Pod) (shards : list Z) : kprog (bool * RedisCluster) :=
  match shards with
  | [] => mret (false, cluster)
  | shardIndex :: shards' =>
      match Status_Shards (Status cluster) !! shardName shardIndex with
      | None => rolling_update_shards cluster desiredHash podsByName shards'
      | Some sh =>
          r ← rolling_update_shard cluster desiredHash podsByName sh;
          match r with
          | Some res => mret res
          | None => rolling_update_shards cluster desiredHash podsByName shards'
          end
      end
  end.

Definition rollingUpdateClusterMode (cluster : RedisCluster) (desiredHash : string) : kprog (bool * RedisCluster) :=
  pods ← with_ctx "listing pods for cluster rolling update" (listDataPods cluster);
  if bool_decide (pods = []) then mret (false, cluster)
  else rolling_update_shards cluster desiredHash (pods_by_name pods)
         (rev (upto (Spec_Shards (Spec cluster)))).

Definition rollingUpdate (cluster : RedisCluster) (desiredHash : string) : kprog (bool * RedisCluster) :=
  if bool_decide (Spec_Mode (Spec cluster) = ClusterModeCluster)
  then rollingUpdateClusterMode cluster desiredHash
  else
    pods ← with_ctx "listing pods for rolling update" (listDataPods cluster);
    rolling_update_pods cluster desiredHash pods.

(** ** Restarts for a pending volume resize *)

Definition podHasPendingResizePVC (pendingPVCs : gset string) (pod : Pod) : bool :=
  existsb (λ v, match vol_Source v with
                | VolPVC claim => bool_decide (claim ∈ pendingPVCs)
                | _ => false
                end) (p_Volumes pod).

Definition restart_pods (cluster : RedisCluster) (pendingPVCs : gset string) (pods : list Pod)
    : kprog (bool * RedisCluster) :=
  let currentPrimary := Status_CurrentPrimary (Status cluster) in
  let allReplicas := filter (λ pod, p_Name pod ≠ currentPrimary) pods in
  let pendingPrimary :=
    last_pod_named (filter (λ pod, podHasPendingResizePVC pendingPVCs pod = true) pods) currentPrimary in
  pendingReplicas ← sorted_desc cluster (filter (λ pod, podHasPendingResizePVC pendingPVCs pod = true) allReplicas);
  match List.find isPodRunningAndReady pendingReplicas with
  | Some target =>
      Event EventNormal "PVCResizeRestart"
        ("Restarting replica " +:+ p_Name target +:+ " to complete filesystem expansion");;
      delete_pod ("deleting replica " +:+ p_Name target +:+ " for PVC resize restart") (p_Name target);;
      mret (true, cluster)
  | None =>
      if negb (bool_decide (pendingReplicas = [])) then mret (true, cluster)
      else
        match pendingPrimary with
        | None => mret (false, cluster)
        | Some primary =>
            if negb (isPodRunningAndReady primary) then mret (true, cluster)
            else if bool_decide (allReplicas = []) then
              Event EventNormal "PVCResizeRestart"
                ("Restarting primary " +:+ p_Name primary +:+ " to complete filesystem expansion");;
              delete_pod ("deleting primary " +:+ p_Name primary +:+ " for PVC resize restart") (p_Name primary);;
              mret (true, cluster)
            else if negb (existsb isPodRunningAndReady allReplicas) then mret (true, cluster)
            else
              Event EventNormal "PVCResizeRestart"
                ("Primary " +:+ p_Name primary +:+ " requires filesystem resize; performing switchover before restart");;
              cluster ← with_ctx "switchover for PVC resize restart" (switchover cluster);
              mret (true, cluster)
        end
  end.

Definition restartPodsForPendingResize (cluster : RedisCluster) (pendingPVCs : gset string)
    : kprog (bool * RedisCluster) :=
  pods ← with_ctx "listing pods for PVC resize restart" (listDataPods cluster);
  restart_pods cluster pendingPVCs pods.
