(* ===== verification/RollingUpdateFacts.v ===== *)
(** * Rolling updates: the guarantees

    One pod at a time, replicas before primaries, the primary only through a
    switchover or when it is alone, and a supervised primary only after
    approval. *)
From S2P Require Import Prelude GoStr Json Api Layout Effects Kube Fixtures Fencing FencingFacts RollingUpdate.

Definition is_delete (c : kube_op) : bool := match c with ODeletePod _ => true | _ => false end.

(** ** At most one deletion per pass *)

Section one_deletion.
Abbreviation no_delete p := (kissues (λ c, negb (is_delete c)) p).
Abbreviation one p := (at_most (S := kube) is_delete 1 p).

Lemma switchover_no_delete cluster : no_delete (switchover cluster).
Proof.
  unfold switchover, setFence, setFencedPods, clearFence, selectFailoverCandidate, listClusterPods,
    promoteInstance, StatusPatch, updateLeaderServiceSelector, Patch, Event, kcall. issues.
Qed.

Lemma consume_approval_no_delete cluster b : no_delete (consume_approval cluster b).
Proof.
  unfold consume_approval, clearPrimaryUpdateApproval, StatusPatch, Patch, kcall. issues.
Qed.

Lemma pause_no_delete cluster : no_delete (pauseForPrimaryApproval cluster).
Proof. unfold pauseForPrimaryApproval, StatusPatch, Event, kcall. issues. Qed.

Lemma sorted_desc_no_delete cluster pods : no_delete (sorted_desc cluster pods).
Proof. unfold sorted_desc. issues. Qed.

Lemma listDataPods_no_delete cluster : no_delete (listDataPods cluster).
Proof. unfold listDataPods, listClusterPods, kcall. issues. Qed.

Lemma delete_pod_one ctx name : one (delete_pod ctx name).
Proof. intros r. cbn. destruct (delete_ignoring_not_found r); exact I. Qed.

Lemma delete_then {A} ctx name (p : kprog A) : no_delete p → one (delete_pod ctx name;; p).
Proof. intros Hp. apply (at_most_bind _ 1 0); [apply delete_pod_one|]. intros _. by apply at_most_none. Qed.

Lemma update_primary_one cluster primary replicas : one (update_primary cluster primary replicas).
Proof.
  unfold update_primary. destruct (_ && negb _); [apply at_most_none, pause_no_delete|].
  case_bool_decide.
  - apply delete_then. apply issues_bind; [apply consume_approval_no_delete|done].
  - apply at_most_none. apply issues_bind; [apply issues_with_ctx, switchover_no_delete|]. intros c.
    apply issues_bind; [apply consume_approval_no_delete|done].
Qed.

Lemma rolling_update_pods_one cluster hash pods : one (rolling_update_pods cluster hash pods).
Proof.
  unfold rolling_update_pods. apply at_most_then; [unfold Event, kcall; issues|]. intros _.
  apply at_most_then; [apply sorted_desc_no_delete|]. intros replicas.
  destruct (List.find _ replicas); [by apply delete_then|].
  assert (one (Event EventNormal "RollingUpdateCompleted" "Rolling update completed";; mret (false, cluster))) as Hc
    by (apply at_most_none; unfold Event, kcall; issues).
  destruct (last_pod_named _ _); [|done]. destruct (outdated _ _); [apply update_primary_one|done].
Qed.

Lemma rolling_update_shard_one cluster hash podsByName sh : one (rolling_update_shard cluster hash podsByName sh).
Proof.
  unfold rolling_update_shard. case_bool_decide; [done|].
  apply at_most_then; [apply sorted_desc_no_delete|]. intros replicas.
  destruct (List.find _ replicas); [by apply delete_then|].
  destruct (last_pod_named _ _) as [primary|]; [|done]. destruct (negb _); [done|].
  destruct replicas as [|candidate ?]; [by apply delete_then|]. case_bool_decide; [done|].
  apply at_most_none. unfold setFence, setFencedPods, clearFence, promoteInstance, Patch, Event, kcall. issues.
Qed.

Lemma rolling_update_shard_continue cluster hash podsByName sh :
  ∀ tr, runs (rolling_update_shard cluster hash podsByName sh) tr (Ok None) → tr = [].
Proof.
  intros tr H. unfold rolling_update_shard in H. case_bool_decide; [by destruct H|].
  unfold sorted_desc in H. destruct (sort_by_ordinal_desc _ _) as [replicas|]; [|by destruct H].
  rewrite bind_mret in H. destruct (List.find _ replicas).
  { apply runs_bind in H as [(e & _ & ?)|(u & tr1 & tr2 & _ & _ & [_ ?])]; done. }
  destruct (last_pod_named _ _) as [primary|]; [|by destruct H]. destruct (negb _); [by destruct H|].
  destruct replicas as [|candidate ?].
  { apply runs_bind in H as [(e & _ & ?)|(u & tr1 & tr2 & _ & _ & [_ ?])]; done. }
  case_bool_decide; [by destruct H|].
  do 3 (apply runs_bind in H as [(e & _ & ?)|(? & ? & ? & _ & _ & H)]; [done|]). by destruct H.
Qed.

(** A pass of the rolling update, in any mode, deletes at most one pod. *)
Theorem rolling_update_one_pod cluster hash tr out :
  runs (rollingUpdate cluster hash) tr out →
  (length (List.filter (λ e, is_delete (ev_op e)) tr) ≤ 1)%nat.
Proof.
  unfold rollingUpdate. case_bool_decide.
  - intros Hr. unfold rollingUpdateClusterMode in Hr.
    apply runs_bind in Hr as [(e & Hr & ->)|(pods & tr1 & tr2 & -> & Hr & Hr2)].
    { eapply (at_most_runs (S := kube) is_delete 1); [|exact Hr].
      apply at_most_none, issues_with_ctx, listDataPods_no_delete. }
    rewrite List.filter_app, length_app.
    eapply (at_most_runs (S := kube) is_delete 0) in Hr; [|apply at_most_none, issues_with_ctx, listDataPods_no_delete].
    cut (length (List.filter (λ e, is_delete (ev_op e)) tr2) ≤ 1)%nat.
    { change (length (List.filter (λ e, is_delete (ev_op e)) tr1) ≤ 0)%nat in Hr. lia. }
    case_bool_decide; [destruct Hr2 as [-> _]; simpl; lia|]. clear Hr.
    revert tr2 Hr2. induction (rev _) as [|s shards IH]; intros tr2 Hr2.
    { destruct Hr2 as [-> _]. simpl. lia. }
    cbn [rolling_update_shards] in Hr2.
    destruct (Status_Shards _ !! _) as [sh|]; [|by apply IH].
    apply runs_bind in Hr2 as [(e & Hr & ->)|(r & tr3 & tr4 & -> & Hr & Hr2)].
    { eapply (at_most_runs (S := kube) is_delete 1); [|exact Hr]. apply rolling_update_shard_one. }
    destruct r as [res|].
    + destruct Hr2 as [-> _]. rewrite app_nil_r.
      eapply (at_most_runs (S := kube) is_delete 1); [|exact Hr]. apply rolling_update_shard_one.
    + apply rolling_update_shard_continue in Hr as ->. by apply IH.
  - intros Hr. eapply (at_most_runs (S := kube) is_delete 1); [|exact Hr].
    apply at_most_then; [apply issues_with_ctx, listDataPods_no_delete|].
    intros pods. apply rolling_update_pods_one.
Qed.
End one_deletion.

(** ** What a pass may do, standalone and sentinel mode *)

Lemma sorted_desc_does P cluster pods :
  does (S := kube) P (sorted_desc cluster pods) (λ l, l ≡ₚ pods).
Proof.
  unfold sorted_desc, sort_by_ordinal_desc. destruct (_ && _); [done|]. apply sort_slice_perm.
Qed.

Lemma find_outdated hash (l : list Pod) pod :
  List.find (outdated hash) l = Some pod → pod ∈ l ∧ getPodSpecHash pod ≠ hash.
Proof.
  intros [Hin Ho]%find_some. unfold outdated in Ho. bsimpl. by rewrite list_elem_of_In.
Qed.

Lemma find_outdated_none hash (l : list Pod) :
  List.find (outdated hash) l = None → ∀ pod, pod ∈ l → getPodSpecHash pod = hash.
Proof.
  intros Hn pod Hin. apply list_elem_of_In, (find_none _ _ Hn) in Hin. unfold outdated in Hin. by bsimpl.
Qed.

(** The supervised gate. *)
Definition gate_open (cluster : RedisCluster) : Prop :=
  Spec_PrimaryUpdateStrategy (Spec cluster) = PrimaryUpdateStrategySupervised →
  isPrimaryUpdateApproved cluster = true.

(** Replicas first: a deleted pod is outdated and either not the primary, or it
    is alone and the gate is open; an instance is asked to promote itself only
    when every replica is up to date, the primary is not, and the gate is
    open. *)
Definition update_op (cluster : RedisCluster) (hash : string) (pods : list Pod) (c : kube_op) : Prop :=
  let primary := Status_CurrentPrimary (Status cluster) in
  match c with
  | ODeletePod n =>
      ∃ pod, pod ∈ pods ∧ p_Name pod = n ∧ getPodSpecHash pod ≠ hash ∧
        (n ≠ primary ∨ (∀ q, q ∈ pods → p_Name q = primary) ∧ gate_open cluster)
  | OPost _ _ =>
      (∀ q, q ∈ pods → p_Name q ≠ primary → getPodSpecHash q = hash) ∧
      (∃ pod, pod ∈ pods ∧ p_Name pod = primary ∧ getPodSpecHash pod ≠ hash) ∧ gate_open cluster
  | _ => True
  end.

Lemma delete_pod_does P ctx name :
  P (ODeletePod name) → does (S := kube) P (delete_pod ctx name) (λ _, True).
Proof. intros HP. apply does_kcall; [done|]. intros r. by apply does_check_ctx. Qed.

Definition no_post_delete (c : kube_op) : bool :=
  match c with OPost _ _ | ODeletePod _ => false | _ => true end.

Lemma does_harmless {A} cluster hash pods (p : kprog A) :
  kissues no_post_delete p → does (S := kube) (update_op cluster hash pods) p (λ _, True).
Proof. intros Hp. eapply does_issues; [exact Hp|]. by intros []. Qed.

Lemma consume_approval_harmless cluster b : kissues no_post_delete (consume_approval cluster b).
Proof. unfold consume_approval, clearPrimaryUpdateApproval, StatusPatch, Patch, kcall. issues. Qed.

Lemma pause_harmless cluster : kissues no_post_delete (pauseForPrimaryApproval cluster).
Proof. unfold pauseForPrimaryApproval, StatusPatch, Event, kcall. issues. Qed.

Lemma update_primary_does cluster hash pods primary replicas :
  primary ∈ pods → p_Name primary = Status_CurrentPrimary (Status cluster) → getPodSpecHash primary ≠ hash →
  (∀ q, q ∈ pods → p_Name q ≠ Status_CurrentPrimary (Status cluster) → getPodSpecHash q = hash) →
  replicas ≡ₚ filter (λ pod, p_Name pod ≠ Status_CurrentPrimary (Status cluster)) pods →
  does (S := kube) (update_op cluster hash pods) (update_primary cluster primary replicas) (λ _, True).
Proof.
  intros Hin Hname Hhash Hall Hperm. unfold update_primary.
  destruct (_ && negb _) eqn:Hgate; [apply does_harmless, pause_harmless|].
  assert (gate_open cluster) as Hopen.
  { intros Hsup. apply andb_false_iff in Hgate as [Hg|Hg]; bsimpl; [|done]. done. }
  assert (∀ c b, does (S := kube) (update_op cluster hash pods)
    (cluster ← consume_approval c b; mret (true, cluster)) (λ _, True)) as Hconsume.
  { intros c b. eapply (does_bind _ _ _ (λ _, True)); [apply does_harmless, consume_approval_harmless|done]. }
  destruct (bool_decide_reflect (replicas = [])) as [Hnil|Hnil].
  - eapply (does_bind _ _ _ (λ _, True)); [|intros _ _; apply Hconsume].
    apply delete_pod_does. exists primary. split_and!; try done. right. split; [|done].
    intros q Hq. destruct (decide (p_Name q = Status_CurrentPrimary (Status cluster))); [done|].
    exfalso. subst. apply (not_elem_of_nil q). rewrite Hperm. by apply list_elem_of_filter.
  - eapply (does_bind _ _ _ (λ _, True)); [|intros c _; apply Hconsume].
    apply does_with_ctx. eapply does_issues; [apply switchover_no_delete|].
    intros []; try done. intros _. simpl. split_and!; [done|by exists primary|done].
Qed.

Lemma rolling_update_pods_does cluster hash pods :
  does (S := kube) (update_op cluster hash pods) (rolling_update_pods cluster hash pods) (λ _, True).
Proof.
  unfold rolling_update_pods. apply does_kcall; [done|]. intros _.
  eapply does_bind; [apply sorted_desc_does|]. intros replicas Hperm.
  assert (∀ q, q ∈ replicas ↔ p_Name q ≠ Status_CurrentPrimary (Status cluster) ∧ q ∈ pods) as Hin
    by (intros q; by rewrite Hperm, list_elem_of_filter).
  destruct (List.find _ replicas) as [r|] eqn:Hf.
  - apply find_outdated in Hf as [Hr Hh]. apply Hin in Hr as [Hn Hr].
    eapply (does_bind _ _ _ (λ _, True)); [|done]. apply delete_pod_does.
    exists r. split_and!; try done. by left.
  - destruct (last_pod_named pods _) as [p|] eqn:Hp; [|by split].
    apply last_pod_named_spec in Hp as [Hp1 Hp2]. destruct (outdated hash p) eqn:Ho; [|by split].
    unfold outdated in Ho. bsimpl. apply update_primary_does; try done.
    intros q Hq Hn. eapply find_outdated_none; [done|]. by apply Hin.
Qed.

(** C35: Outside cluster mode a pass of the rolling update deletes only outdated
    pods of its listing, and the primary only when it is the only pod; it
    starts a switchover only when every replica is up to date and the primary
    is not; and it touches the primary of a supervised cluster, by deletion or
    switchover, only when the approval annotation is set. *)
Theorem rolling_update_replicas_first cluster hash tr out e :
  Spec_Mode (Spec cluster) ≠ ClusterModeCluster →
  runs (rollingUpdate cluster hash) tr out → e ∈ tr →
  match ev_op e with
  | ODeletePod _ | OPost _ _ =>
      ∃ sel all, kev (OListPods sel) (Ok all) ∈ tr ∧
        update_op cluster hash (filter (λ pod, pod_label pod LabelRole ≠ LabelRoleSentinel) all) (ev_op e)
  | _ => True
  end.
Proof.
  intros Hm Hr Hin. unfold rollingUpdate in Hr. rewrite bool_decide_false in Hr by done.
  destruct Hr as (resp & tr' & -> & Hr). apply elem_of_cons in Hin as [->|Hin]; [done|].
  destruct resp as [all|err]; [|destruct Hr as [-> _]; by apply elem_of_nil in Hin].
  set (pods := filter (λ pod, pod_label pod LabelRole ≠ LabelRoleSentinel) all).
  change (runs (rolling_update_pods cluster hash pods) tr' out) in Hr.
  destruct (does_runs _ _ _ _ _ (rolling_update_pods_does cluster hash pods) Hr) as [Hops _].
  specialize (Hops e Hin). change (projT1 e) with (ev_op e) in Hops.
  destruct (ev_op e); try done; (eexists _, all; split; [apply list_elem_of_here|exact Hops]).
Qed.

(** ** Cluster mode *)

Lemma delete_pod_quiet {A} ctx name (a : A) : kissues is_quiet (delete_pod ctx name;; mret a).
Proof. unfold delete_pod, kcall. issues. Qed.

Lemma quiet_no_run {A} (p : kprog A) tr1 e tr2 out :
  kissues is_quiet p → is_quiet (ev_op e) = false → ¬ runs p (tr1 ++ e :: tr2) out.
Proof. intros Hp He Hr. eapply (runs_issues_no (S := kube) is_quiet _ _ _ e) in Hr; [set_solver|done|done]. Qed.

(** What a pass may do to one shard: replicas first, the primary only when it
    has no replica, promotion only with every replica up to date. *)
Definition shard_update_op (hash primary : string) (members : list Pod) (c : kube_op) : Prop :=
  match c with
  | ODeletePod n =>
      ∃ pod, pod ∈ members ∧ p_Name pod = n ∧ getPodSpecHash pod ≠ hash ∧
        (n ≠ primary ∨ ∀ q, q ∈ members → p_Name q = primary)
  | OPost ip req =>
      req = PostPromote ∧ (∃ q, q ∈ members ∧ p_Name q ≠ primary ∧ p_PodIP q = ip ∧ ip ≠ "") ∧
      (∀ q, q ∈ members → p_Name q ≠ primary → getPodSpecHash q = hash)
  | _ => True
  end.

Lemma rolling_update_shard_does cluster hash podsByName sh :
  does (S := kube) (shard_update_op hash (ss_PrimaryPod sh) (shard_members podsByName sh))
    (rolling_update_shard cluster hash podsByName sh) (λ _, True).
Proof.
  unfold rolling_update_shard. set (ms := shard_members podsByName sh). case_bool_decide as Hms; [done|].
  eapply does_bind; [apply sorted_desc_does|]. intros replicas Hperm.
  assert (∀ q, q ∈ replicas ↔ p_Name q ≠ ss_PrimaryPod sh ∧ q ∈ ms) as Hin
    by (intros q; by rewrite Hperm, list_elem_of_filter).
  destruct (List.find _ replicas) as [r|] eqn:Hf.
  { apply find_outdated in Hf as [Hr Hh]. apply Hin in Hr as [Hn Hr].
    eapply (does_bind _ _ _ (λ _, True)); [|done]. apply delete_pod_does. exists r. split_and!; try done. by left. }
  destruct (last_pod_named ms _) as [p|] eqn:Hp; [|done]. apply last_pod_named_spec in Hp as [Hp1 Hp2].
  destruct (outdated hash p) eqn:Ho; cbn [negb]; [|done]. unfold outdated in Ho. apply negb_true_iff, bool_decide_eq_false in Ho.
  destruct replicas as [|candidate rest].
  { eapply (does_bind _ _ _ (λ _, True)); [|done]. apply delete_pod_does. exists p. split_and!; try done. right.
    intros q Hq. destruct (decide (p_Name q = ss_PrimaryPod sh)); [done|].
    exfalso. apply (not_elem_of_nil q). by apply Hin. }
  case_bool_decide as Hip; [done|].
  assert (candidate ∈ candidate :: rest) as Hc by apply list_elem_of_here. apply Hin in Hc as [Hcn Hcm].
  eapply (does_bind _ _ _ (λ _, True)).
  { apply does_with_ctx. eapply (does_issues (S := kube) _ no_post_delete); [|by intros []].
    unfold setFence, setFencedPods, Patch, Event, kcall. issues. }
  intros c _. eapply (does_bind _ _ _ (λ _, True)).
  { apply does_with_ctx. apply does_kcall; [|intros [|]; simpl; [done|by case_bool_decide]].
    split; [done|]. split; [by exists candidate|].
    intros q Hq Hn. eapply find_outdated_none; [done|]. by apply Hin. }
  intros _ _. eapply (does_bind _ _ _ (λ _, True)); [|done].
  apply does_with_ctx. eapply (does_issues (S := kube) _ no_post_delete); [|by intros []].
  unfold clearFence, setFencedPods, Patch, Event, kcall. issues.
Qed.

Lemma shard_fences_first cluster hash podsByName sh out tr1 e tr2 :
  runs (rolling_update_shard cluster hash podsByName sh) (tr1 ++ e :: tr2) out →
  is_quiet (ev_op e) = false → fence_persisted cluster (ss_PrimaryPod sh) tr1.
Proof.
  intros H He. unfold rolling_update_shard in H. case_bool_decide; [by apply quiet_no_run in H|].
  unfold sorted_desc in H. destruct (sort_by_ordinal_desc _ _) as [replicas|]; [|by apply runs_throw_mid in H].
  rewrite bind_mret in H.
  destruct (List.find _ replicas); [by apply quiet_no_run in H; [| apply delete_pod_quiet|]|].
  destruct (last_pod_named _ _) as [p|] eqn:Hp; [|by apply quiet_no_run in H].
  apply last_pod_named_spec in Hp as [_ <-].
  destruct (negb _); [by apply quiet_no_run in H|].
  destruct replicas as [|candidate rest]; [by apply quiet_no_run in H; [| apply delete_pod_quiet|]|].
  case_bool_decide; [by apply quiet_no_run in H|]. by eapply fence_first.
Qed.

(** C36: In cluster mode the update of a shard deletes only outdated members,
    the primary only when it has no replica, promotes only a listed replica and
    only when all replicas are up to date, and asks for the promotion only
    after the fence of the shard's primary has been persisted. *)
Theorem shard_update_safe cluster hash podsByName sh out tr1 e tr2 :
  runs (rolling_update_shard cluster hash podsByName sh) (tr1 ++ e :: tr2) out →
  shard_update_op hash (ss_PrimaryPod sh) (shard_members podsByName sh) (ev_op e) ∧
  (is_quiet (ev_op e) = false → fence_persisted cluster (ss_PrimaryPod sh) tr1).
Proof.
  intros H. split; [|by eapply shard_fences_first].
  apply (does_runs _ _ _ _ _ (rolling_update_shard_does cluster hash podsByName sh) H). set_solver.
Qed.

(** ** Restarts for a resize *)

Definition restart_op (cluster : RedisCluster) (pending : gset string) (pods : list Pod) (c : kube_op) : Prop :=
  let primary := Status_CurrentPrimary (Status cluster) in
  match c with
  | ODeletePod n =>
      ∃ pod, pod ∈ pods ∧ p_Name pod = n ∧ podHasPendingResizePVC pending pod = true ∧
        isPodRunningAndReady pod = true ∧ (n ≠ primary ∨ ∀ q, q ∈ pods → p_Name q = primary)
  | OPost _ _ =>
      (∀ q, q ∈ pods → p_Name q ≠ primary → podHasPendingResizePVC pending q = false) ∧
      ∃ q, q ∈ pods ∧ p_Name q ≠ primary ∧ isPodRunningAndReady q = true
  | _ => True
  end.

Lemma restart_pods_does cluster pending pods :
  does (S := kube) (restart_op cluster pending pods) (restart_pods cluster pending pods) (λ _, True).
Proof.
  unfold restart_pods. set (primary := Status_CurrentPrimary (Status cluster)).
  eapply does_bind; [apply sorted_desc_does|]. intros replicas Hperm.
  assert (∀ q, q ∈ replicas ↔ podHasPendingResizePVC pending q = true ∧ p_Name q ≠ primary ∧ q ∈ pods) as Hin
    by (intros q; by rewrite Hperm, !list_elem_of_filter).
  destruct (List.find _ replicas) as [t|] eqn:Hf.
  { apply find_some in Hf as [Ht Hready]. apply list_elem_of_In, Hin in Ht as (Hpend & Hn & Ht).
    apply does_kcall; [done|]. intros []. eapply (does_bind _ _ _ (λ _, True)); [|done].
    apply delete_pod_does. exists t. split_and!; try done. by left. }
  case_bool_decide as Hnil; cbn [negb]; [|done].
  destruct (last_pod_named _ primary) as [p|] eqn:Hp; [|done]. apply last_pod_named_spec in Hp as [Hp1 Hp2].
  apply list_elem_of_filter in Hp1 as [Hpend Hp1].
  destruct (isPodRunningAndReady p) eqn:Hready; cbn [negb]; [|done].
  case_bool_decide as Hall.
  { apply does_kcall; [done|]. intros []. eapply (does_bind _ _ _ (λ _, True)); [|done].
    apply delete_pod_does. exists p. split_and!; try done. right. intros q Hq.
    destruct (decide (p_Name q = primary)); [done|]. exfalso. apply (not_elem_of_nil q). rewrite <- Hall.
    by apply list_elem_of_filter. }
  destruct (existsb _ _) eqn:Hex; cbn [negb]; [|done].
  apply does_kcall; [done|]. intros []. eapply (does_bind _ _ _ (λ _, True)); [|done].
  apply does_with_ctx. eapply does_issues; [apply switchover_no_delete|].
  intros []; try done. intros _. simpl. split.
  - intros q Hq Hn. destruct (podHasPendingResizePVC pending q) eqn:E; [|done].
    exfalso. apply (not_elem_of_nil q). rewrite <- Hnil. by apply Hin.
  - apply existsb_exists in Hex as (q & Hq & Hr). apply list_elem_of_In, list_elem_of_filter in Hq as [? ?]. eauto.
Qed.

(** Restarts for a volume resize follow the same order: a pass deletes only
    ready pods with a pending volume, the primary only when it is alone, and
    switches over only when no replica is pending and some replica is ready. *)
Theorem resize_restart_safe cluster pending tr out e :
  runs (restartPodsForPendingResize cluster pending) tr out → e ∈ tr →
  match ev_op e with
  | ODeletePod _ | OPost _ _ =>
      ∃ sel all, kev (OListPods sel) (Ok all) ∈ tr ∧
        restart_op cluster pending (filter (λ pod, pod_label pod LabelRole ≠ LabelRoleSentinel) all) (ev_op e)
  | _ => True
  end.
Proof.
  intros Hr Hin. destruct Hr as (resp & tr' & -> & Hr). apply elem_of_cons in Hin as [->|Hin]; [done|].
  destruct resp as [all|err]; [|destruct Hr as [-> _]; by apply elem_of_nil in Hin].
  set (pods := filter (λ pod, pod_label pod LabelRole ≠ LabelRoleSentinel) all).
  change (runs (restart_pods cluster pending pods) tr' out) in Hr.
  destruct (does_runs _ _ _ _ _ (restart_pods_does cluster pending pods) Hr) as [Hops _].
  specialize (Hops e Hin). change (projT1 e) with (ev_op e) in Hops.
  destruct (ev_op e); try done; (eexists _, all; split; [apply list_elem_of_here|exact Hops]).
Qed.

(** ** The supervised strategy in cluster mode *)

Definition supervised_spec : RedisClusterSpec :=
  let s := base_spec ClusterModeCluster 0 3 0 in
  mkSpec (Spec_Instances s) (Spec_Mode s) (Spec_Shards s) (Spec_ReplicasPerShard s)
    PrimaryUpdateStrategySupervised (Spec_ImageName s) (Spec_Storage s) (Spec_Redis s) (Spec_Limits s)
    (Spec_Requests s) (Spec_Memory s) (Spec_MinSyncReplicas s) (Spec_MaxSyncReplicas s)
    (Spec_EnablePodDisruptionBudget s) (Spec_AuthSecret s) (Spec_ACLConfigSecret s) (Spec_TLSSecret s)
    (Spec_CASecret s) (Spec_BackupCredentialsSecret s) (Spec_PrimaryIsolation s) (Spec_Bootstrap s)
    (Spec_NodeMaintenanceWindow s) (Spec_ReplicaMode s) (Spec_ConnectionSecret s).

Definition supervised_status : RedisClusterStatus :=
  let s := base_status "" ∅ in
  mkStatus (Status_Phase s) (Status_CurrentPrimary s) 3 0 3 ∅ "ok" 16384 true
    {[ "s2" := mkShardStatus "c-2" [] [] "n2" 1 ]} 0 [] ∅ [].

Definition supervised : RedisCluster := base_cluster supervised_spec supervised_status.

(** The supervised update strategy has no effect in cluster mode: a rolling
    update deletes the outdated primary of a shard although the strategy is
    supervised and no approval was given. *)
Theorem supervised_ignored_in_cluster_mode :
  ∃ cluster hash tr out n r, runs (rollingUpdate cluster hash) tr out ∧
    Spec_PrimaryUpdateStrategy (Spec cluster) = PrimaryUpdateStrategySupervised ∧
    isPrimaryUpdateApproved cluster = false ∧
    kev (ODeletePod n) r ∈ tr ∧
    ∃ s sh, Status_Shards (Status cluster) !! s = Some sh ∧ ss_PrimaryPod sh = n.
Proof.
  exists supervised, "new", (fake_trace three_world (rollingUpdate supervised "new")),
    (fake_result three_world (rollingUpdate supervised "new")), "c-2", (Ok tt).
  split; [apply fake_runs|]. split; [reflexivity|]. split; [reflexivity|]. split.
  - apply (list_elem_of_lookup_2 _ 1). by vm_compute.
  - exists "s2", (mkShardStatus "c-2" [] [] "n2" 1). split; [by vm_compute|reflexivity].
Qed.

(** ** Witnesses *)

Lemma rolling_update_one_pod_witness :
  fake_result three_world (rollingUpdate three "new") = Ok (true, three) ∧
  (length (List.filter (λ e, is_delete (ev_op e)) (fake_trace three_world (rollingUpdate three "new"))) ≤ 1)%nat.
Proof.
  split; [by vm_compute|]. exact (rolling_update_one_pod three "new" _ _ (fake_runs three_world _)).
Defined.

(** The replica with the highest ordinal goes first. *)
Lemma rolling_update_replicas_first_witness :
  ∃ sel all, kev (OListPods sel) (Ok all) ∈ fake_trace three_world (rollingUpdate three "new") ∧
    update_op three "new" (filter (λ pod, pod_label pod LabelRole ≠ LabelRoleSentinel) all) (ODeletePod "c-2").
Proof.
  assert (kev (ODeletePod "c-2") (Ok tt) ∈ fake_trace three_world (rollingUpdate three "new")) as Hin.
  { apply (list_elem_of_lookup_2 _ 2). by vm_compute. }
  exact (rolling_update_replicas_first three "new" _ _ _ ltac:(discriminate) (fake_runs three_world _) Hin).
Defined.

(** A shard whose replica is up to date and whose primary is not. *)
Definition updated (hash : string) (p : Pod) : Pod :=
  mkPod (p_Name p) (p_Labels p) {[ specHashAnnotation := hash ]} (p_Controller p) (p_Volumes p) (p_Template p) (p_Phase p)
    (p_PodIP p) (p_Conditions p).
Definition half_updated : gmap string Pod :=
  pods_by_name [mk_pod "c-0" "10.0.0.1" ∅ true; updated "new" (mk_pod "c-3" "10.0.0.4" ∅ true)].
Definition shard_zero : ShardStatus := mkShardStatus "c-0" ["c-3"] [] "n0" 1.

Lemma shard_update_safe_witness :
  ∃ tr1 e tr2, fake_trace three_world (rolling_update_shard six "new" half_updated shard_zero) = tr1 ++ e :: tr2 ∧
    ev_op e = OPost "10.0.0.4" PostPromote ∧
    shard_update_op "new" "c-0" (shard_members half_updated shard_zero) (ev_op e) ∧ fence_persisted six "c-0" tr1.
Proof.
  set (tr := fake_trace three_world (rolling_update_shard six "new" half_updated shard_zero)).
  assert (∃ r, tr !! 2%nat = Some (kev (OPost "10.0.0.4" PostPromote) r)) as [r Hl] by (vm_compute; eauto).
  pose proof (take_drop_middle _ _ _ Hl) as Hs.
  exists (take 2 tr), (kev (OPost "10.0.0.4" PostPromote) r), (drop 3 tr).
  destruct (shard_update_safe six "new" half_updated shard_zero
    (fake_result three_world (rolling_update_shard six "new" half_updated shard_zero))
    (take 2 tr) (kev (OPost "10.0.0.4" PostPromote) r) (drop 3 tr)) as [H1 H2].
  { rewrite Hs. apply fake_runs. }
  split; [by rewrite Hs|]. split; [reflexivity|]. split; [exact H1|]. apply H2. reflexivity.
Defined.

Lemma resize_restart_safe_witness :
  ∃ sel all, kev (OListPods sel) (Ok all) ∈ fake_trace three_world (restartPodsForPendingResize three {["c-1"; "c-2"]}) ∧
    restart_op three {["c-1"; "c-2"]} (filter (λ pod, pod_label pod LabelRole ≠ LabelRoleSentinel) all) (ODeletePod "c-2").
Proof.
  assert (kev (ODeletePod "c-2") (Ok tt) ∈ fake_trace three_world (restartPodsForPendingResize three {["c-1"; "c-2"]})) as Hin.
  { apply (list_elem_of_lookup_2 _ 2). by vm_compute. }
  exact (resize_restart_safe three {["c-1"; "c-2"]} _ _ _ (fake_runs three_world _) Hin).
Defined.
