(* ===== verification/Resources.v ===== *)
(** * Global resources, services and secrets

    The objects a pass keeps in shape before it looks at the instances:
    [rbac.go], [pdb.go], the ConfigMap of [pods.go], [services.go],
    [secrets.go] and [connection_secret.go].  Each reconciler reads the object
    and creates or patches it; every branch, including the error of each call,
    is kept.  The cluster object is returned where a handler changes it. *)
From S2P Require Import Prelude GoStr Api Effects Kube Status.
From Stdlib Require Import Ascii.

Definition nl : string := String (ascii_of_nat 10) EmptyString.

Definition cluster_label (cluster : RedisCluster) : gmap string string := {[ LabelCluster := Name cluster ]}.

(** [metav1.IsControlledBy]. *)
Definition IsControlledBy (controller : option string) (cluster : RedisCluster) : bool :=
  bool_decide (controller = Some (UID cluster)).

(** [controllerutil.SetControllerReference]; the result is the new controller. *)
Definition SetControllerReference (ctx : string) (cluster : RedisCluster) (current : option string)
    : kprog (option string) :=
  r ← kcall (OSetController cluster current); check_ctx ctx r.

(** ** Service account and RBAC *)

Definition serviceAccountName (clusterName : string) : string := clusterName.

Definition reconcileServiceAccount (cluster : RedisCluster) : kprog unit :=
  let name := serviceAccountName (Name cluster) in
  owner ← SetControllerReference "setting serviceaccount owner reference" cluster None;
  let sa := mkServiceAccount name (cluster_label cluster) owner in
  r ← kcall (OGetServiceAccount name);
  match r with
  | Ok _ => mret tt
  | Err e =>
      if negb (IsNotFound e) then Throw (Wrap ("getting serviceaccount " +:+ name) e)
      else r ← kcall (OCreateServiceAccount sa); check_ctx ("creating serviceaccount " +:+ name) r
  end.

Definition instanceManagerRoleRules : list PolicyRule :=
  [mkRule ["redis.io"] ["redisclusters"] ["get"; "list"; "watch"];
   mkRule ["redis.io"] ["redisclusters/status"] ["get"; "patch"; "update"];
   mkRule ["redis.io"] ["redisbackups"] ["get"];
   mkRule [""] ["pods"] ["get"; "list"];
   mkRule [""] ["secrets"] ["get"];
   mkRule [""] ["events"] ["create"; "patch"]].

(** The controller an update leaves: the existing one if it is ours. *)
Definition adopt (ctx : string) (cluster : RedisCluster) (current : option string) : kprog (option string * bool) :=
  if IsControlledBy current cluster then mret (current, false)
  else owner ← SetControllerReference ctx cluster current; mret (owner, true).

Definition reconcile_role (cluster : RedisCluster) : kprog unit :=
  let name := serviceAccountName (Name cluster) in
  owner ← SetControllerReference "setting role owner reference" cluster None;
  let desired := mkRole name (cluster_label cluster) owner instanceManagerRoleRules in
  r ← kcall (OGetRole name);
  match r with
  | Err e =>
      if negb (IsNotFound e) then Throw (Wrap ("getting role " +:+ name) e)
      else r ← kcall (OCreateRole desired); check_ctx ("creating role " +:+ name) r
  | Ok existing =>
      let changed := negb (bool_decide (ro_Labels existing = ro_Labels desired)) ||
                     negb (bool_decide (ro_Rules existing = ro_Rules desired)) in
      '(owner, adopted) ← adopt "setting role owner reference" cluster (ro_Controller existing);
      if changed || adopted then
        r ← kcall (OUpdateRole (mkRole (ro_Name existing) (ro_Labels desired) owner (ro_Rules desired)));
        check_ctx ("updating role " +:+ name) r
      else mret tt
  end.

Definition reconcile_binding (cluster : RedisCluster) : kprog unit :=
  let name := serviceAccountName (Name cluster) in
  owner ← SetControllerReference "setting rolebinding owner reference" cluster None;
  let desired := mkBinding name (cluster_label cluster) owner
    [("ServiceAccount", name, Namespace cluster)] ("rbac.authorization.k8s.io", "Role", name) in
  r ← kcall (OGetRoleBinding name);
  match r with
  | Err e =>
      if negb (IsNotFound e) then Throw (Wrap ("getting rolebinding " +:+ name) e)
      else r ← kcall (OCreateRoleBinding desired); check_ctx ("creating rolebinding " +:+ name) r
  | Ok existing =>
      if negb (bool_decide (rb_RoleRef existing = rb_RoleRef desired)) then
        r ← kcall (ODeleteRoleBinding (rb_Name existing));
        check_ctx ("deleting rolebinding " +:+ name +:+ " for immutable roleRef drift") (delete_ignoring_not_found r);;
        r ← kcall (OCreateRoleBinding desired); check_ctx ("recreating rolebinding " +:+ name) r
      else
        let changed := negb (bool_decide (rb_Labels existing = rb_Labels desired)) ||
                       negb (bool_decide (rb_Subjects existing = rb_Subjects desired)) in
        '(owner, adopted) ← adopt "setting rolebinding owner reference" cluster (rb_Controller existing);
        if changed || adopted then
          r ← kcall (OUpdateRoleBinding (mkBinding (rb_Name existing) (rb_Labels desired) owner
                       (rb_Subjects desired) (rb_RoleRef existing)));
          check_ctx ("updating rolebinding " +:+ name) r
        else mret tt
  end.

Definition reconcileRBAC (cluster : RedisCluster) : kprog unit :=
  reconcile_role cluster;; reconcile_binding cluster.

(** ** ConfigMap *)

(** The text of [redis.conf]; [picks] orders the loop over [spec.redis]. *)
Definition redis_conf (cluster : RedisCluster) (picks : list nat) : string :=
  "port 6379" +:+ nl +:+ "bind 0.0.0.0" +:+ nl +:+ "appendonly yes" +:+ nl +:+
  "aof-use-rdb-preamble yes" +:+ nl +:+ "appenddirname appendonlydir" +:+ nl +:+
  String.concat "" ((λ e, e.1 +:+ " " +:+ e.2 +:+ nl) <$> range_map picks (Spec_Redis (Spec cluster))) +:+
  match ResolveMaxMemoryBytes (Spec cluster) with
  | Some bytes => "maxmemory " +:+ itoa bytes +:+ nl
  | None => ""
  end +:+
  (if bool_decide (EffectiveMaxMemoryPolicy (Spec cluster) = "") then ""
   else "maxmemory-policy " +:+ EffectiveMaxMemoryPolicy (Spec cluster) +:+ nl).

(** Every error of the read, not only a missing object, leads to the create. *)
Definition reconcileConfigMap (cluster : RedisCluster) : kprog unit :=
  let cmName := Name cluster +:+ "-config" in
  r ← kcall (OGetConfigMap cmName);
  match r with
  | Ok _ => mret tt
  | Err _ =>
      ord ← kcall OMapOrder;
      kcall (OCreateConfigMap (mkConfigMap cmName (cluster_label cluster)
               {[ "redis.conf" := redis_conf cluster (ord 0%nat) ]})) ≫= check
  end.

(** ** Pod disruption budget *)

Definition isMaintenanceInProgress (cluster : RedisCluster) : bool :=
  match Spec_NodeMaintenanceWindow (Spec cluster) with Some w => nmw_InProgress w | None => false end.

Definition pdbMinAvailable (instances : Z) : Z :=
  let min := int32 (instances - 1) in if bool_decide (min < 1) then 1 else min.

Definition pdb_name (cluster : RedisCluster) : string := Name cluster +:+ "-pdb".

Definition deletePDB (cluster : RedisCluster) : kprog unit :=
  r ← kcall (OGetPDB (pdb_name cluster));
  match r with
  | Err e => if IsNotFound e then mret tt else Throw e
  | Ok existing => kcall (ODeletePDB (pdb_Name existing)) ≫= check
  end.

Definition pdb_desired (cluster : RedisCluster) : Z :=
  if bool_decide (Spec_Mode (Spec cluster) = ClusterModeCluster)
  then pdbMinAvailable (Spec_Shards (Spec cluster))
  else pdbMinAvailable (DesiredDataInstances (Spec cluster)).

Definition reconcilePDB (cluster : RedisCluster) : kprog unit :=
  if isMaintenanceInProgress cluster then deletePDB cluster
  else if negb (default true (Spec_EnablePodDisruptionBudget (Spec cluster))) then deletePDB cluster
  else
    let minAvailable := pdb_desired cluster in
    r ← kcall (OGetPDB (pdb_name cluster));
    match r with
    | Err e =>
        if IsNotFound e then
          kcall (OCreatePDB (mkPDB (pdb_name cluster) (cluster_label cluster) (Some minAvailable)
                   (cluster_label cluster))) ≫= check
        else Throw (Wrap "getting PDB" e)
    | Ok existing =>
        if bool_decide (pdb_MinAvailable existing = Some minAvailable) then mret tt
        else kcall (OPatchPDB existing (mkPDB (pdb_Name existing) (pdb_Labels existing) (Some minAvailable)
                      (pdb_Selector existing))) ≫= check
    end.

Definition reconcileGlobalResources (cluster : RedisCluster) : kprog unit :=
  with_ctx "service account" (reconcileServiceAccount cluster);;
  with_ctx "RBAC" (reconcileRBAC cluster);;
  with_ctx "ConfigMap" (reconcileConfigMap cluster);;
  with_ctx "PDB" (reconcilePDB cluster).

(** ** Services *)

Definition tcp_port (name : string) (port : Z) : ServicePort := mkServicePort name port port "TCP".
Definition ClusterIPNone := "None".

Definition ensureService (cluster : RedisCluster) (name : string) (selector : gmap string string) (port : Z)
    : kprog unit :=
  let desiredPorts := [tcp_port "redis" port] in
  r ← kcall (OGetService name);
  match r with
  | Ok existing =>
      if bool_decide (svc_Selector existing = selector) && bool_decide (svc_Ports existing = desiredPorts)
      then mret tt
      else kcall (OPatchService existing (mkService (svc_Name existing) (svc_Labels existing)
                    (svc_Annotations existing) selector desiredPorts (svc_ClusterIP existing))) ≫= check
  | Err e =>
      if negb (IsNotFound e) then Throw e
      else kcall (OCreateService (mkService name (cluster_label cluster) ∅ selector desiredPorts "")) ≫= check
  end.

Definition ensureClusterHeadlessService (cluster : RedisCluster) : kprog unit :=
  let name := clusterHeadlessServiceName (Name cluster) in
  let selector : gmap string string :=
    {[ LabelCluster := Name cluster; LabelWorkload := LabelWorkloadData ]} in
  let desiredPorts := [tcp_port "redis" 6379; tcp_port "cluster-bus" 16379] in
  r ← kcall (OGetService name);
  match r with
  | Ok existing =>
      if bool_decide (svc_Selector existing = selector) && bool_decide (svc_Ports existing = desiredPorts) &&
         bool_decide (svc_ClusterIP existing = ClusterIPNone)
      then mret tt
      else kcall (OPatchService existing (mkService (svc_Name existing) (svc_Labels existing)
                    (svc_Annotations existing) selector desiredPorts ClusterIPNone)) ≫= check
  | Err e =>
      if negb (IsNotFound e) then Throw e
      else kcall (OCreateService (mkService name (cluster_label cluster) ∅ selector desiredPorts ClusterIPNone)) ≫= check
  end.

Definition deleteServiceIfExists (name : string) : kprog unit :=
  r ← kcall (OGetService name);
  match r with
  | Err e => if IsNotFound e then mret tt else Throw e
  | Ok svc => kcall (ODeleteService (svc_Name svc)) ≫= check
  end.

Definition leaderServiceReplicaModeAnnotation := "redis.io/replica-mode".

Definition reconcileLeaderServiceAnnotations (cluster : RedisCluster) : kprog unit :=
  r ← kcall (OGetService (leaderServiceName (Name cluster)));
  match r with
  | Err e => if IsNotFound e then mret tt else Throw (Wrap "getting leader service" e)
  | Ok svc =>
      let desiredValue := if isReplicaModeEnabled cluster then "true" else "" in
      let currentValue := default "" (svc_Annotations svc !! leaderServiceReplicaModeAnnotation) in
      if bool_decide (currentValue = desiredValue) &&
         (negb (bool_decide (desiredValue = "")) || bool_decide (currentValue = ""))
      then mret tt
      else
        let annotations :=
          if bool_decide (desiredValue = "") then delete leaderServiceReplicaModeAnnotation (svc_Annotations svc)
          else <[leaderServiceReplicaModeAnnotation := desiredValue]> (svc_Annotations svc) in
        kcall (OPatchService svc (mkService (svc_Name svc) (svc_Labels svc) annotations (svc_Selector svc)
                 (svc_Ports svc) (svc_ClusterIP svc))) ≫= check
  end.

Definition role_selector (cluster : RedisCluster) (role : string) : gmap string string :=
  {[ LabelCluster := Name cluster; LabelRole := role ]}.
Definition data_selector (cluster : RedisCluster) : gmap string string :=
  {[ LabelCluster := Name cluster; LabelWorkload := LabelWorkloadData ]}.

Definition reconcileServices (cluster : RedisCluster) : kprog unit :=
  let name := Name cluster in
  if bool_decide (Spec_Mode (Spec cluster) = ClusterModeCluster) then
    with_ctx "cluster headless service" (ensureClusterHeadlessService cluster);;
    with_ctx "any service" (ensureService cluster (anyServiceName name) (data_selector cluster) 6379);;
    with_ctx "deleting legacy leader service" (deleteServiceIfExists (leaderServiceName name));;
    with_ctx "deleting legacy replica service" (deleteServiceIfExists (replicaServiceName name));;
    with_ctx "deleting legacy sentinel service" (deleteServiceIfExists (sentinelServiceName name))
  else
    with_ctx "leader service"
      (ensureService cluster (leaderServiceName name) (role_selector cluster LabelRolePrimary) 6379);;
    with_ctx "replica service"
      (ensureService cluster (replicaServiceName name) (role_selector cluster LabelRoleReplica) 6379);;
    with_ctx "any service" (ensureService cluster (anyServiceName name) (data_selector cluster) 6379);;
    (if bool_decide (Spec_Mode (Spec cluster) = ClusterModeSentinel) then
       with_ctx "sentinel service"
         (ensureService cluster (sentinelServiceName name) (role_selector cluster LabelRoleSentinel) SentinelPort)
     else mret tt);;
    with_ctx "leader service annotations" (reconcileLeaderServiceAnnotations cluster);;
    if bool_decide (Status_CurrentPrimary (Status cluster) = "") then mret tt
    else updateLeaderServiceSelector cluster.

(** ** Secrets *)

Definition generatedAuthSecretName (clusterName : string) : string := clusterName +:+ "-auth".

Definition effectiveAuthSecretName (cluster : RedisCluster) : string :=
  let fallback := if bool_decide (TrimSpace (Name cluster) = "") then ""
                  else generatedAuthSecretName (Name cluster) in
  match Spec_AuthSecret (Spec cluster) with
  | Some n => if bool_decide (TrimSpace n = "") then fallback else TrimSpace n
  | None => fallback
  end.

Definition replicaModeSourceAuthSecretName (cluster : RedisCluster) : string :=
  match Spec_ReplicaMode (Spec cluster) with
  | Some rm => match rm_Source rm with Some src => rs_AuthSecretName src | None => "" end
  | None => ""
  end.

Definition ensureAuthSecret (cluster : RedisCluster) (secretName : string) : kprog unit :=
  r ← kcall (OGetSecret secretName);
  match r with
  | Ok _ => mret tt
  | Err e =>
      if negb (IsNotFound e) then Throw (Wrap "checking auth secret" e)
      else
        r ← kcall ORandomPassword;
        password ← check_ctx "generating random password" r;
        r ← kcall (OCreateSecret (mkSecret secretName (cluster_label cluster) None "" "Opaque"
                     {[ "password" := password ]}));
        check_ctx "creating auth secret" r
  end.

Definition set_AuthSecret (s : RedisClusterSpec) (name : string) : RedisClusterSpec :=
  mkSpec (Spec_Instances s) (Spec_Mode s) (Spec_Shards s) (Spec_ReplicasPerShard s)
    (Spec_PrimaryUpdateStrategy s) (Spec_ImageName s) (Spec_Storage s) (Spec_Redis s) (Spec_Limits s)
    (Spec_Requests s) (Spec_Memory s) (Spec_MinSyncReplicas s) (Spec_MaxSyncReplicas s)
    (Spec_EnablePodDisruptionBudget s) (Some name) (Spec_ACLConfigSecret s) (Spec_TLSSecret s)
    (Spec_CASecret s) (Spec_BackupCredentialsSecret s) (Spec_PrimaryIsolation s) (Spec_Bootstrap s)
    (Spec_NodeMaintenanceWindow s) (Spec_ReplicaMode s) (Spec_ConnectionSecret s).

Definition set_SecretsResourceVersion (c : RedisCluster) (versions : gmap string string) : RedisCluster :=
  let s := Status c in
  set_Status c (mkStatus (Status_Phase s) (Status_CurrentPrimary s) (Status_ReadyInstances s)
    (Status_SentinelReadyInstances s) (Status_Instances s) (Status_InstancesStatus s)
    (Status_ClusterState s) (Status_SlotsAssigned s) (Status_BootstrapCompleted s)
    (Status_Shards s) (Status_HealthyPVC s) (Status_DanglingPVC s) versions (Status_Conditions s)).

(** [secretRefs] without its nil entries: the reference's name for each secret
    reference. *)
Definition secret_refs (cluster : RedisCluster) : gmap string string :=
  let s := Spec cluster in
  let entry (key : string) (ref : option string) : gmap string string :=
    match ref with Some n => {[ key := n ]} | None => ∅ end in
  let nonempty (n : string) : option string := if bool_decide (n = "") then None else Some n in
  entry "aclConfigSecret" (Spec_ACLConfigSecret s) ∪ entry "tlsSecret" (Spec_TLSSecret s) ∪
  entry "caSecret" (Spec_CASecret s) ∪ entry "backupCredentialsSecret" (Spec_BackupCredentialsSecret s) ∪
  entry "authSecret" (nonempty (effectiveAuthSecretName cluster)) ∪
  entry "replicaMode.source.authSecretName" (nonempty (replicaModeSourceAuthSecretName cluster)).

Fixpoint collect_versions (refs : list (string * string)) (versions : gmap string string)
    : kprog (gmap string string) :=
  match refs with
  | [] => mret versions
  | (_, name) :: refs' =>
      r ← kcall (OGetSecret name);
      match r with
      | Ok secret => collect_versions refs' (<[name := sec_ResourceVersion secret]> versions)
      | Err e =>
          if IsNotFound e then collect_versions refs' versions
          else Throw (Wrap ("getting secret " +:+ name) e)
      end
  end.

Definition report_rotations (old : gmap string string) (entries : list (string * string)) : kprog unit :=
  for_each entries (λ e,
    match old !! e.1 with
    | Some oldVer =>
        if bool_decide (oldVer = e.2) then mret tt
        else Event EventNormal "SecretRotated"
               ("Secret " +:+ e.1 +:+ " rotated (resourceVersion " +:+ oldVer +:+ " -> " +:+ e.2 +:+ ")")
    | None => mret tt
    end).

(** Generate and persist an auth secret reference where the spec has none. *)
Definition persist_auth_secret (cluster : RedisCluster) : kprog RedisCluster :=
  match Spec_AuthSecret (Spec cluster) with
  | Some _ => mret cluster
  | None =>
      let secretName := generatedAuthSecretName (Name cluster) in
      with_ctx "ensuring auth secret" (ensureAuthSecret cluster secretName);;
      with_ctx "persisting generated auth secret reference"
        (Patch cluster (set_Spec cluster (set_AuthSecret (Spec cluster) secretName)));;
      r ← kcall OGetCluster;
      check_ctx "refetching cluster after auth secret persistence" r
  end.

Definition reconcileSecrets (cluster : RedisCluster) : kprog RedisCluster :=
  cluster ← persist_auth_secret cluster;
  ord ← kcall OMapOrder;
  newVersions ← collect_versions (range_map (ord 0%nat) (secret_refs cluster)) ∅;
  report_rotations (Status_SecretsResourceVersion (Status cluster)) (range_map (ord 1%nat) newVersions);;
  with_ctx "patching secrets resource version"
    (StatusPatch cluster (set_SecretsResourceVersion cluster newVersions)).

Definition UsesSecret (cluster : RedisCluster) (secretName : string) : bool :=
  bool_decide (is_Some (Status_SecretsResourceVersion (Status cluster) !! secretName)).

(** ** Connection secret *)

Definition upper_hex (n : N) : ascii :=
  if bool_decide (n < 10)%N then ascii_of_N (48 + n) else ascii_of_N (55 + n).

(** [url.escape] keeps these bytes in a user or password ([encodeUserPassword])
    or in a host ([encodeHost]). *)
Definition is_alnum (c : ascii) : bool :=
  let n := N_of_ascii c in
  bool_decide (48 ≤ n ≤ 57)%N || bool_decide (65 ≤ n ≤ 90)%N || bool_decide (97 ≤ n ≤ 122)%N.

Definition is_one_of (s : string) (c : ascii) : bool := contains_char s c.

Definition keep_user (c : ascii) : bool := is_alnum c || is_one_of "-_.~$&+,;=" c.

Definition keep_host (c : ascii) : bool :=
  is_alnum c || is_one_of "-_.~!$&'()*+,;=:[]<>" c || bool_decide (c = ascii_of_nat 34).

Fixpoint escape (keep : ascii → bool) (s : string) : string :=
  match s with
  | EmptyString => EmptyString
  | String c s' =>
      if keep c then String c (escape keep s')
      else String "%" (String (upper_hex (N_of_ascii c / 16)) (String (upper_hex (N_of_ascii c mod 16))
             (escape keep s')))
  end.

Definition JoinHostPort (host port : string) : string :=
  if contains_char host ":" then "[" +:+ host +:+ "]:" +:+ port else host +:+ ":" +:+ port.

Definition redisDefaultUser := "default".
Definition redisDataPort : Z := 6379.
Definition connectionSecretLabel := "redis.io/connection-secret".

Definition serviceFQDN (service namespace : string) : string := service +:+ "." +:+ namespace +:+ ".svc".

Definition redisURL (scheme password host port : string) : string :=
  scheme +:+ "://" +:+
  (if bool_decide (password = "") then ""
   else escape keep_user redisDefaultUser +:+ ":" +:+ escape keep_user password +:+ "@") +:+
  escape keep_host (JoinHostPort host port).

Definition isTLSEnabled (cluster : RedisCluster) : bool :=
  bool_decide (is_Some (Spec_TLSSecret (Spec cluster))) && bool_decide (is_Some (Spec_CASecret (Spec cluster))).

Definition mode_string (m : ClusterMode) : string :=
  match m with
  | ModeUnset => ""
  | ClusterModeStandalone => "standalone"
  | ClusterModeSentinel => "sentinel"
  | ClusterModeCluster => "cluster"
  end.

Definition buildConnectionSecretData (cluster : RedisCluster) (password : string) : gmap string string :=
  let ns := Namespace cluster in
  let scheme := if isTLSEnabled cluster then "rediss" else "redis" in
  let port := itoa redisDataPort in
  let url host := redisURL scheme password host port in
  let base : gmap string string :=
    {[ "cluster_name" := Name cluster; "namespace" := ns; "mode" := mode_string (Spec_Mode (Spec cluster));
       "port" := port; "username" := redisDefaultUser ]} in
  let base := if bool_decide (password = "") then base else <["password" := password]> base in
  if bool_decide (Spec_Mode (Spec cluster) = ClusterModeCluster) then
    let host := serviceFQDN (clusterHeadlessServiceName (Name cluster)) ns in
    <["host" := host]> (<["url" := url host]> base)
  else
    let leaderHost := serviceFQDN (leaderServiceName (Name cluster)) ns in
    let replicaHost := serviceFQDN (replicaServiceName (Name cluster)) ns in
    let data :=
      <["host" := leaderHost]> (<["url" := url leaderHost]>
      (<["leader_host" := leaderHost]> (<["leader_url" := url leaderHost]>
      (<["replica_host" := replicaHost]> (<["replica_url" := url replicaHost]> base))))) in
    if bool_decide (Spec_Mode (Spec cluster) = ClusterModeSentinel) then
      <["sentinel_host" := serviceFQDN (sentinelServiceName (Name cluster)) ns]>
      (<["sentinel_port" := itoa SentinelPort]> (<["master_name" := Name cluster]> data))
    else data.

Definition resolveAuthPassword (cluster : RedisCluster) : kprog string :=
  let name := effectiveAuthSecretName cluster in
  if bool_decide (name = "") then mret ""
  else
    r ← kcall (OGetSecret name);
    secret ← check_ctx ("getting auth secret " +:+ name) r;
    mret (default "" (sec_Data secret !! "password")).

Definition ensureConnectionSecret (cluster : RedisCluster) (name : string) : kprog unit :=
  password ← with_ctx "resolving auth password for connection secret" (resolveAuthPassword cluster);
  let data := buildConnectionSecretData cluster password in
  let labels : gmap string string :=
    {[ LabelCluster := Name cluster; connectionSecretLabel := "true" ]} in
  owner ← SetControllerReference "setting connection secret owner reference" cluster None;
  r ← kcall (OGetSecret name);
  match r with
  | Err e =>
      if negb (IsNotFound e) then Throw (Wrap ("getting connection secret " +:+ name) e)
      else
        r ← kcall (OCreateSecret (mkSecret name labels owner "" "Opaque" data));
        check_ctx ("creating connection secret " +:+ name) r;;
        Event EventNormal "ConnectionSecretPublished" ("Published connection secret " +:+ name)
  | Ok existing =>
      if negb (IsControlledBy (sec_Controller existing) cluster) then
        Event EventWarning "ConnectionSecretConflict"
          ("Secret " +:+ name +:+ " already exists and is not owned by this RedisCluster; refusing to overwrite")
      else if bool_decide (sec_Type existing = "Opaque") && bool_decide (sec_Data existing = data) &&
              bool_decide (sec_Labels existing !! connectionSecretLabel = Some "true")
      then mret tt
      else
        r ← kcall (OUpdateSecret (mkSecret (sec_Name existing)
              (<[connectionSecretLabel := "true"]> (<[LabelCluster := Name cluster]> (sec_Labels existing)))
              (sec_Controller existing) (sec_ResourceVersion existing) (sec_Type existing) data));
        check_ctx ("updating connection secret " +:+ name) r
  end.

Definition pruneConnectionSecrets (cluster : RedisCluster) (keepName : string) : kprog unit :=
  r ← kcall (OListSecrets (cluster_label cluster));
  items ← check_ctx "listing connection secrets" r;
  for_each items (λ secret,
    if bool_decide (sec_Name secret = keepName) || negb (IsControlledBy (sec_Controller secret) cluster)
    then mret tt
    else
      r ← kcall (ODeleteSecret (sec_Name secret));
      check_ctx ("deleting stale connection secret " +:+ sec_Name secret) (delete_ignoring_not_found r);;
      Event EventNormal "ConnectionSecretRemoved" ("Removed connection secret " +:+ sec_Name secret)).

Definition reconcileConnectionSecret (cluster : RedisCluster) : kprog unit :=
  let desiredName := match Spec_ConnectionSecret (Spec cluster) with Some n => TrimSpace n | None => "" end in
  if bool_decide (desiredName = "") then pruneConnectionSecrets cluster ""
  else
    ensureConnectionSecret cluster desiredName;;
    pruneConnectionSecrets cluster desiredName.
