(* ===== verification/Replication.v ===== *)
(** * Redis as the instance manager sees it ([internal/instance-manager/replication])

    The texts Redis answers ([INFO], [CLUSTER INFO], [CLUSTER NODES]) and the
    records the instance manager reads from them, and the commands it issues,
    as the argument lists it sends.  What Redis does with a command is not part
    of the repository: the operations and their responses are the signature of
    the instance manager in [InstanceManager]. *)
From S2P Require Import Prelude GoStr Api.
From Stdlib Require Import Ascii.

(** ** Text *)

Definition CR : ascii := "013".
Definition LF : ascii := "010".

(** [strings.Split(s, "\r\n")] *)
Fixpoint split_crlf (s : string) : list string :=
  match s with
  | EmptyString => [EmptyString]
  | String c s' =>
      match s' with
      | String d rest =>
          if bool_decide (c = CR) && bool_decide (d = LF) then EmptyString :: split_crlf rest
          else match split_crlf s' with
               | w :: ws => String c w :: ws
               | [] => [String c EmptyString]
               end
      | EmptyString => [String c EmptyString]
      end
  end.

(** [strings.Fields]: the maximal runs of non-space characters.  [cur] is the
    run being read. *)
Fixpoint fields_from (cur : option string) (s : string) : list string :=
  match s with
  | EmptyString => match cur with Some w => [w] | None => [] end
  | String c s' =>
      if is_space c then
        match cur with Some w => w :: fields_from None s' | None => fields_from None s' end
      else fields_from (Some (default "" cur +:+ String c "")) s'
  end.
Definition Fields (s : string) : list string := fields_from None s.

(** The text before and after the last occurrence. *)
Fixpoint cut_last (s : string) (c : ascii) : option (string * string) :=
  match s with
  | EmptyString => None
  | String d s' =>
      match cut_last s' c with
      | Some (a, b) => Some (String d a, b)
      | None => if bool_decide (d = c) then Some (EmptyString, s') else None
      end
  end.

(** [net.SplitHostPort]; [None] is its error. *)
Definition SplitHostPort (hostport : string) : option (string * string) :=
  match cut_last hostport ":"%char with
  | None => None
  | Some (before, port) =>
      if HasPrefix hostport "[" then
        match cut_char (String.substring 1 (String.length hostport) hostport) "]"%char with
        | Some (host, String colon port') =>
            if bool_decide (colon ≠ ":"%char) || contains_char port' ":"%char || contains_char host "["%char
               || contains_char port' "["%char || contains_char port' "]"%char
            then None else Some (host, port')
        | _ => None
        end
      else if contains_char before ":"%char || contains_char hostport "["%char || contains_char hostport "]"%char
      then None else Some (before, port)
  end.

(** ** Replies *)

Record Info := mkInfo {
  i_Role : string;
  i_ConnectedReplicas : Z;
  i_MasterReplOffset : Z;
  i_SlaveReplOffset : Z;
  i_MasterLinkStatus : string;
  i_MasterHost : string;
  i_MasterPort : Z;
  i_MasterLastIOSecondsAgo : Z
}.

Record ClusterInfo := mkClusterInfo {
  ci_State : string;
  ci_SlotsAssigned : Z;
  ci_KnownNodes : Z;
  ci_CurrentEpoch : Z
}.

Record ClusterNode := mkClusterNode {
  cn_ID : string;
  cn_IP : string;
  cn_Port : Z;
  cn_Flags : list string;
  cn_MasterID : string;
  cn_ConfigEpoch : Z;
  cn_LinkState : string;
  cn_SlotRanges : list SlotRange
}.

(** The key and the value of a line; comments, empty lines and lines without a
    colon are skipped. *)
Definition info_line (line : string) : option (string * string) :=
  if HasPrefix line "#" || bool_decide (line = "") then None else cut_char line ":"%char.

(** [strconv.Atoi] and [ParseInt] with the error dropped. *)
Definition read_int (bits : Z) (val : string) : Z := (ParseInt val bits).1.

Definition info_step (info : Info) (line : string) : Info :=
  let '(mkInfo role replicas moff soff link host port ago) := info in
  match info_line line with
  | None => info
  | Some (key, val) =>
      if bool_decide (key = "role") then mkInfo val replicas moff soff link host port ago
      else if bool_decide (key = "connected_slaves") then mkInfo role (read_int 64 val) moff soff link host port ago
      else if bool_decide (key = "master_repl_offset") then mkInfo role replicas (read_int 64 val) soff link host port ago
      else if bool_decide (key = "slave_repl_offset") then mkInfo role replicas moff (read_int 64 val) link host port ago
      else if bool_decide (key = "master_link_status") then mkInfo role replicas moff soff val host port ago
      else if bool_decide (key = "master_host") then mkInfo role replicas moff soff link val port ago
      else if bool_decide (key = "master_port") then mkInfo role replicas moff soff link host (read_int 64 val) ago
      else if bool_decide (key = "master_last_io_seconds_ago")
      then mkInfo role replicas moff soff link host port (read_int 64 val)
      else info
  end.

Definition parseInfo (raw : string) : Info :=
  foldl info_step (mkInfo "" 0 0 0 "" "" 0 0) (split_crlf raw).

Definition cluster_info_step (info : ClusterInfo) (line : string) : ClusterInfo :=
  let '(mkClusterInfo state slots nodes epoch) := info in
  match info_line line with
  | None => info
  | Some (key, val) =>
      if bool_decide (key = "cluster_state") then mkClusterInfo val slots nodes epoch
      else if bool_decide (key = "cluster_slots_assigned") then mkClusterInfo state (read_int 32 val) nodes epoch
      else if bool_decide (key = "cluster_known_nodes") then mkClusterInfo state slots (read_int 32 val) epoch
      else if bool_decide (key = "cluster_current_epoch") then mkClusterInfo state slots nodes (read_int 64 val)
      else info
  end.

Definition parseClusterInfo (raw : string) : ClusterInfo :=
  foldl cluster_info_step (mkClusterInfo "" 0 0 0) (split_crlf raw).

Definition parseClusterNodeAddress (addr : string) : string * Z :=
  let mainAddr := default "" (split_char addr "@"%char !! 0%nat) in
  match SplitHostPort mainAddr with
  | None => ("", 0)
  | Some (host, portStr) => (host, (Atoi portStr).1)
  end.

Definition parse_slot (token : string) : option Z :=
  match ParseInt token 32 with (n, None) => Some n | _ => None end.

(** A token of a slot list; importing and migrating marks start with a
    bracket. *)
Definition slot_token (token : string) : option SlotRange :=
  if HasPrefix token "[" then None
  else
    match cut_char token "-"%char with
    | None => slot ← parse_slot token; Some (mkSlotRange slot slot)
    | Some (a, b) => start ← parse_slot a; end_ ← parse_slot b; Some (mkSlotRange start end_)
    end.

Definition parseSlotRanges (tokens : list string) : list SlotRange := omap slot_token tokens.

Definition parse_node (line : string) : option ClusterNode :=
  match Fields (TrimSpace line) with
  | id :: addr :: flags :: master :: _ :: _ :: epoch :: link :: slots =>
      let '(ip, port) := parseClusterNodeAddress addr in
      Some (mkClusterNode id ip port (split_char flags ","%char) master (read_int 64 epoch) link (parseSlotRanges slots))
  | _ => None
  end.

Definition parseClusterNodes (raw : string) : list ClusterNode := omap parse_node (split_char raw LF).

Definition hasNodeFlag (flags : list string) (expected : string) : bool :=
  existsb (λ flag, bool_decide (flag = expected)) flags.

(** ** Commands *)

Definition cmd_SetReplicaOf (primaryIP : string) (port : Z) : list string := ["slaveof"; primaryIP; itoa port].
Definition cmd_Promote : list string := ["slaveof"; "NO"; "ONE"].
Definition cmd_ClusterFailover (mode : string) : list string :=
  ["CLUSTER"; "FAILOVER"] ++ (if bool_decide (mode = "") then [] else [mode]).
Definition cmd_ClusterReplicate (nodeID : string) : list string := ["CLUSTER"; "REPLICATE"; nodeID].
Definition cmd_ClusterMeet (ip : string) (port : Z) : list string := ["CLUSTER"; "MEET"; ip; itoa port].
Definition cmd_ClusterAddSlotsRange (start end_ : Z) : list string :=
  ["CLUSTER"; "ADDSLOTSRANGE"; itoa start; itoa end_].
Definition cmd_ClusterDelSlotsRange (start end_ : Z) : list string :=
  ["CLUSTER"; "DELSLOTSRANGE"; itoa start; itoa end_].
Definition cmd_SetSlotMigrating (slot : Z) (node : string) : list string :=
  ["CLUSTER"; "SETSLOT"; itoa slot; "MIGRATING"; node].
Definition cmd_SetSlotImporting (slot : Z) (node : string) : list string :=
  ["CLUSTER"; "SETSLOT"; itoa slot; "IMPORTING"; node].
Definition cmd_SetSlotNode (slot : Z) (node : string) : list string := ["CLUSTER"; "SETSLOT"; itoa slot; "NODE"; node].
Definition cmd_GetKeysInSlot (slot count : Z) : list string := ["CLUSTER"; "GETKEYSINSLOT"; itoa slot; itoa count].
Definition cmd_MigrateKeys (targetIP : string) (targetPort timeoutMillis : Z) (keys : list string) : list string :=
  ["MIGRATE"; targetIP; itoa targetPort; ""; "0"; itoa timeoutMillis; "KEYS"] ++ keys.
Definition cmd_ConfigSet (key val : string) : list string := ["config"; "set"; key; val].
