(* ===== verification/Url.v ===== *)
(** * URLs ([net/url])

    Percent-decoding and the reading of an absolute URL [scheme://rest], as
    [url.Parse] does both: where the query and the fragment begin, how the
    authority splits into user and host, and which bytes a host may have. *)
From S2P Require Import Prelude GoStr Resources Replication.
From Stdlib Require Import Ascii.

Definition hex_digit (c : ascii) : option N :=
  let n := N_of_ascii c in
  if bool_decide (48 ≤ n ≤ 57)%N then Some (n - 48)%N
  else if bool_decide (65 ≤ n ≤ 70)%N then Some (n - 55)%N
  else if bool_decide (97 ≤ n ≤ 102)%N then Some (n - 87)%N
  else None.

(** Percent-decoding, what a client does with user, password and path. *)
Fixpoint unescape (s : string) : option string :=
  match s with
  | EmptyString => Some EmptyString
  | String c s' =>
      if bool_decide (c = "%"%char) then
        match s' with
        | String a (String b s'') =>
            match hex_digit a, hex_digit b with
            | Some x, Some y => String (ascii_of_N (16 * x + y)) <$> unescape s''
            | _, _ => None
            end
        | _ => None
        end
      else String c <$> unescape s'
  end.

(** A host may escape only bytes outside ASCII and the percent sign; the zone of
    an IPv6 address may also escape a blank and what a host may contain. *)
Inductive host_mode := encodeHost | encodeZone.

Definition host_escape_ok (mode : host_mode) (x y : N) : bool :=
  bool_decide ((x, y) = (2, 5)%N) ||
  match mode with
  | encodeHost => negb (bool_decide (x < 8)%N)
  | encodeZone => let v := ascii_of_N (16 * x + y) in bool_decide (v = " "%char) || keep_host v
  end.

Definition host_char_ok (c : ascii) : bool := negb (bool_decide (N_of_ascii c < 128)%N) || keep_host c.

Fixpoint unescape_host (mode : host_mode) (s : string) : option string :=
  match s with
  | EmptyString => Some EmptyString
  | String c s' =>
      if bool_decide (c = "%"%char) then
        match s' with
        | String a (String b s'') =>
            match hex_digit a, hex_digit b with
            | Some x, Some y =>
                if host_escape_ok mode x y then String (ascii_of_N (16 * x + y)) <$> unescape_host mode s'' else None
            | _, _ => None
            end
        | _ => None
        end
      else if host_char_ok c then String c <$> unescape_host mode s' else None
  end.

(** [validOptionalPort]: empty, or a colon and digits. *)
Definition validOptionalPort (port : string) : bool :=
  match port with
  | EmptyString => true
  | String c rest => bool_decide (c = ":"%char) && all_chars is_digit rest
  end.

(** The text before the first ["%25"], and the text from there. *)
Fixpoint cut_zone (s : string) : option (string * string) :=
  match s with
  | EmptyString => None
  | String c s' =>
      if HasPrefix s "%25" then Some (EmptyString, s)
      else match cut_zone s' with Some (a, b) => Some (String c a, b) | None => None end
  end.

Definition parseHost (host : string) : option string :=
  if HasPrefix host "[" then
    match cut_last host "]"%char with
    | None => None
    | Some (inside, colonPort) =>
        if negb (validOptionalPort colonPort) then None
        else
          match cut_zone inside with
          | Some (addr, zone) =>
              host1 ← unescape_host encodeHost addr;
              host2 ← unescape_host encodeZone zone;
              host3 ← unescape_host encodeHost ("]" +:+ colonPort);
              Some (host1 +:+ host2 +:+ host3)
          | None => unescape_host encodeHost host
          end
    end
  else
    match cut_last host ":"%char with
    | Some (_, port) => if negb (all_chars is_digit port) then None else unescape_host encodeHost host
    | None => unescape_host encodeHost host
    end.

(** [validUserinfo] *)
Definition userinfo_char (c : ascii) : bool := is_alnum c || is_one_of "-._:~!$&'()*+,;=%@" c.

(** The host of an authority; user and password must be well-formed. *)
Definition parseAuthority (authority : string) : option string :=
  match cut_last authority "@"%char with
  | None => parseHost authority
  | Some (userinfo, rest) =>
      host ← parseHost rest;
      if negb (all_chars userinfo_char userinfo) then None
      else
        let '(user, pass) := default (userinfo, "") (cut_char userinfo ":"%char) in
        _ ← unescape user;
        _ ← unescape pass;
        Some host
  end.

Definition is_ctl (c : ascii) : bool := bool_decide (N_of_ascii c < 32)%N || bool_decide (c = "127"%char).

(** Host and path of [scheme://rest]; [None] is an error.  What follows the first
    number sign is the fragment, what then follows the first question mark the
    query. *)
Definition url_Parse (rest : string) : option (string * string) :=
  let '(u, frag) := default (rest, "") (cut_char rest "#"%char) in
  if negb (all_chars (negb ∘ is_ctl) u) then None
  else
    let hier := (default (u, "") (cut_char u "?"%char)).1 in
    let '(authority, path) :=
      match cut_char hier "/"%char with Some (a, p) => (a, "/" +:+ p) | None => (hier, "") end in
    host ← parseAuthority authority;
    path' ← unescape path;
    _ ← unescape frag;
    Some (host, path').

Example url_examples :
  url_Parse "bucket/a%20b/c.rdb" = Some ("bucket", "/a b/c.rdb") ∧
  url_Parse "bucket/a?b#c" = Some ("bucket", "/a") ∧
  url_Parse "u:p@h:80/x" = Some ("h:80", "/x") ∧
  url_Parse "[fe80::1%25en0]:80" = Some ("[fe80::1%en0]:80", "") ∧
  url_Parse "buc ket/x" = None ∧ url_Parse "b/100%" = None ∧ url_Parse "b:x/y" = None.
Proof. vm_compute. repeat split. Qed.

(** ** Reading back what needs no escape *)

Lemma unescape_plain s : contains_char s "%"%char = false → unescape s = Some s.
Proof.
  induction s as [|c s IH]; [done|]. cbn [contains_char unescape].
  intros [Hc Hs]%orb_false_iff. rewrite Hc, (IH Hs). done.
Qed.

(** Bytes that mean nothing special in a path: no control byte, no percent sign,
    no query and no fragment. *)
Definition path_char (c : ascii) : bool := negb (is_ctl c) && negb (is_one_of "%?#" c).

(** Bytes of a bucket or container name. *)
Definition bucket_char (c : ascii) : bool := is_alnum c || is_one_of "-._" c.

Lemma bucket_char_plain c :
  implb (bucket_char c) (path_char c && host_char_ok c && negb (is_one_of "%/@:[]?# " c)) = true.
Proof. destruct c as [[] [] [] [] [] [] [] []]; vm_compute; reflexivity. Qed.

Lemma bucket_char_ok c : bucket_char c = true →
  path_char c = true ∧ host_char_ok c = true ∧ (∀ d, is_one_of "%/@:[]?# " d = true → bool_decide (c = d) = false).
Proof.
  intros Hc. pose proof (bucket_char_plain c) as H. rewrite Hc in H.
  apply andb_true_iff in H as [[? ?]%andb_true_iff Hn]. split_and!; [done..|].
  intros d Hd. apply bool_decide_eq_false. intros <-. by rewrite Hd in Hn.
Qed.

Lemma bucket_chars_avoid s d : all_chars bucket_char s = true → is_one_of "%/@:[]?# " d = true → contains_char s d = false.
Proof.
  intros Hs Hd. eapply contains_char_all; [exact Hs|].
  destruct (bucket_char d) eqn:Hb; [|done]. apply bucket_char_ok in Hb as (_ & _ & Hb).
  specialize (Hb d Hd). by apply bool_decide_eq_false in Hb.
Qed.

Lemma cut_char_absent s c : contains_char s c = false → cut_char s c = None.
Proof.
  induction s as [|d s IH]; [done|]. cbn [contains_char cut_char]. intros [-> Hs]%orb_false_iff. by rewrite IH.
Qed.

Lemma cut_last_absent s c : contains_char s c = false → cut_last s c = None.
Proof.
  induction s as [|d s IH]; [done|]. cbn [contains_char cut_last]. intros [-> Hs]%orb_false_iff. by rewrite IH.
Qed.

Lemma cut_char_first s t c : contains_char s c = false → cut_char (s +:+ String c t) c = Some (s, t).
Proof.
  induction s as [|d s IH]; cbn [contains_char].
  - intros _. change ("" +:+ String c t) with (String c t). cbn [cut_char]. by rewrite bool_decide_true.
  - intros [Hd Hs]%orb_false_iff. change (String d s +:+ String c t) with (String d (s +:+ String c t)).
    cbn [cut_char]. by rewrite Hd, IH.
Qed.

Lemma parseAuthority_bucket s : all_chars bucket_char s = true → parseAuthority s = Some s.
Proof.
  intros Hs. unfold parseAuthority, parseHost.
  rewrite !cut_last_absent by (by apply bucket_chars_avoid).
  replace (HasPrefix s "[") with false.
  - induction s as [|c s IH]; [done|]. cbn [all_chars] in Hs. apply andb_true_iff in Hs as [Hc Hs].
    cbn [unescape_host]. apply bucket_char_ok in Hc as (_ & Hh & Hp). rewrite (Hp "%"%char), Hh by done. by rewrite IH.
  - destruct s as [|c s]; [done|]. cbn [all_chars] in Hs. apply andb_true_iff in Hs as [Hc _].
    apply bucket_char_ok in Hc as (_ & _ & Hp). specialize (Hp "["%char eq_refl). apply bool_decide_eq_false in Hp.
    unfold HasPrefix. cbn [String.prefix]. destruct (ascii_dec "["%char c) as [<-|]; done.
Qed.

Lemma path_chars_avoid s d : all_chars path_char s = true → path_char d = false → contains_char s d = false.
Proof. intros. by eapply contains_char_all. Qed.

(** The location of an object whose name needs no escape. *)
Lemma url_Parse_plain host path :
  all_chars bucket_char host = true → all_chars path_char path = true →
  url_Parse (host +:+ "/" +:+ path) = Some (host, "/" +:+ path).
Proof.
  intros Hh Hp. unfold url_Parse.
  assert (all_chars path_char (host +:+ "/" +:+ path) = true) as Hall.
  { rewrite !all_chars_app, Hp, (all_chars_mono _ _ _ (λ c H, proj1 (bucket_char_ok c H)) Hh). done. }
  rewrite cut_char_absent by (by apply path_chars_avoid). cbn [default].
  rewrite (all_chars_mono path_char (negb ∘ is_ctl) _); [|by intros c [Hc _]%andb_true_iff|done]. cbn [negb].
  rewrite (cut_char_absent (host +:+ "/" +:+ path) "?"%char) by (by apply path_chars_avoid). cbn [default fst].
  change ("/" +:+ path) with (String "/"%char path) at 1.
  rewrite cut_char_first by (by apply bucket_chars_avoid).
  cbn beta iota. rewrite parseAuthority_bucket by done. cbn [mbind option_bind].
  rewrite (unescape_plain ("/" +:+ path)); [reflexivity|]. apply (path_chars_avoid ("/" +:+ path)); [|done]. by rewrite all_chars_app, Hp.
Qed.

