(* ===== verification/Lifecycle.v ===== *)
(** * Storage, hibernation, maintenance, replica mode, sentinel

    [pvcs.go] (create and grow the volumes, report dangling ones),
    [hibernate.go], [maintenance.go], [replica_mode.go] and the controller side
    of [sentinel.go].  Handlers that change the cluster object return it. *)
From S2P Require Import Prelude GoStr Api Effects Kube Status Resources.
From Stdlib Require Import Ascii.

(** ** Persistent volume claims *)

Definition desired_size (cluster : RedisCluster) : Quantity :=
  let size := sto_Size (Spec_Storage (Spec cluster)) in if q_IsZero size then quantity_1Gi else size.

Definition hasFileSystemResizePending (pvc : PersistentVolumeClaim) : bool :=
  existsb (λ c, bool_decide (c.1 = "FileSystemResizePending") && bool_decide (c.2 = ConditionTrue))
    (pvc_Conditions pvc).

Definition createPVC (cluster : RedisCluster) (pvcName : string) : kprog unit :=
  kcall (OCreatePVC (mkPVC pvcName (cluster_label cluster)
           (sto_StorageClassName (Spec_Storage (Spec cluster))) (desired_size cluster) [] false)) ≫= check.

(** The class of the claim, or of the spec where the claim names none. *)
Definition expansion_class (cluster : RedisCluster) (pvc : PersistentVolumeClaim) : string :=
  let own := default "" (pvc_StorageClassName pvc) in
  if bool_decide (own = "") then default "" (sto_StorageClassName (Spec_Storage (Spec cluster))) else own.

Definition canExpandPVC (cluster : RedisCluster) (pvc : PersistentVolumeClaim) : kprog (bool * string) :=
  let storageClassName := expansion_class cluster pvc in
  if bool_decide (storageClassName = "") then mret (true, "")
  else
    r ← kcall (OGetStorageClass storageClassName);
    match r with
    | Err e =>
        if IsNotFound e then mret (false, "StorageClass " +:+ quoted storageClassName +:+ " not found")
        else Throw e
    | Ok sc =>
        if negb (default false (sc_AllowVolumeExpansion sc))
        then mret (false, "StorageClass " +:+ quoted storageClassName +:+ " does not allow volume expansion")
        else mret (true, "")
    end.

Record pvc_progress := mkProgress {
  pp_healthy : Z;
  pp_pending : gset string;
  pp_resizing : bool
}.

Definition with_request (pvc : PersistentVolumeClaim) (q : Quantity) : PersistentVolumeClaim :=
  mkPVC (pvc_Name pvc) (pvc_Labels pvc) (pvc_StorageClassName pvc) q (pvc_Conditions pvc) (pvc_Deleting pvc).

(** Grow one existing claim; the claim as the handler holds it afterwards. *)
Definition grow_pvc (cluster : RedisCluster) (existing : PersistentVolumeClaim) (pvcName : string)
    : kprog PersistentVolumeClaim :=
  let desiredSize := desired_size cluster in
  let current := pvc_Request existing in
  '(expandable, reason) ← with_ctx ("checking PVC " +:+ pvcName +:+ " expansion support") (canExpandPVC cluster existing);
  if negb expandable then
    Event EventWarning "PVCResizeFailed"
      ("Cannot resize PVC " +:+ pvcName +:+ " from " +:+ q_String current +:+ " to " +:+ q_String desiredSize +:+
       ": " +:+ reason);;
    mret existing
  else
    r ← kcall (OPatchPVC existing (with_request existing desiredSize));
    match r with
    | Ok pvc => mret pvc
    | Err e =>
        Event EventWarning "PVCResizeFailed"
          ("Failed to patch PVC " +:+ pvcName +:+ " from " +:+ q_String current +:+ " to " +:+ q_String desiredSize);;
        Throw (Wrap ("patching PVC " +:+ pvcName +:+ " storage request") e)
    end.

(** The loop over the ordinals. *)
Fixpoint ensure_pvcs (cluster : RedisCluster) (indices : list Z) (p : pvc_progress) : kprog pvc_progress :=
  match indices with
  | [] => mret p
  | i :: indices' =>
      let pvcName := pvcNameForIndex (Name cluster) i in
      r ← kcall (OGetPVC pvcName);
      match r with
      | Err e =>
          if negb (IsNotFound e) then Throw (Wrap ("getting PVC " +:+ pvcName) e)
          else
            with_ctx ("creating PVC " +:+ pvcName) (createPVC cluster pvcName);;
            ensure_pvcs cluster indices' (mkProgress (pp_healthy p + 1) (pp_pending p) (pp_resizing p))
      | Ok existing =>
          let grows := match q_Cmp (desired_size cluster) (pvc_Request existing) with Gt => true | _ => false end in
          existing ← (if grows then grow_pvc cluster existing pvcName else mret existing);
          let pending := hasFileSystemResizePending existing in
          ensure_pvcs cluster indices'
            (mkProgress (pp_healthy p + 1)
               (if pending then {[pvcName]} ∪ pp_pending p else pp_pending p)
               (pp_resizing p || grows || pending))
      end
  end.

Definition mounts_claim (claim : string) (pod : Pod) : bool :=
  existsb (λ v, match vol_Source v with VolPVC c => bool_decide (c = claim) | _ => false end) (p_Volumes pod).

Definition dangling_pvcs (pvcs : list PersistentVolumeClaim) (pods : list Pod) : list string :=
  pvc_Name <$> filter (λ pvc, existsb (mounts_claim (pvc_Name pvc)) pods = false) pvcs.

Definition with_pvcs (c : RedisCluster) (healthy : Z) (dangling : list string) : RedisCluster :=
  let s := Status c in
  set_Status c (mkStatus (Status_Phase s) (Status_CurrentPrimary s) (Status_ReadyInstances s)
    (Status_SentinelReadyInstances s) (Status_Instances s) (Status_InstancesStatus s)
    (Status_ClusterState s) (Status_SlotsAssigned s) (Status_BootstrapCompleted s)
    (Status_Shards s) healthy dangling (Status_SecretsResourceVersion s) (Status_Conditions s)).

Definition condition_true (cluster : RedisCluster) (type : string) : bool :=
  match FindStatusCondition (Status_Conditions (Status cluster)) type with
  | Some c => bool_decide (c_Status c = ConditionTrue)
  | None => false
  end.

(** [setCondition] with the current time. *)
Definition mark (cluster : RedisCluster) (type : string) (status : ConditionStatus) (reason message : string)
    : kprog RedisCluster :=
  now ← kcall ONow;
  mret (set_Conditions cluster (setCondition (Status_Conditions (Status cluster))
          (mkCondition type status now reason message))).

Definition reconcilePVCs (cluster : RedisCluster) : kprog (gset string * RedisCluster) :=
  let desired := DesiredDataInstances (Spec cluster) in
  let wasResizeInProgress := condition_true cluster ConditionPVCResizeInProgress in
  p ← ensure_pvcs cluster (upto desired) (mkProgress 0 ∅ false);
  r ← kcall (OListPVCs (cluster_label cluster));
  allPVCs ← check_ctx "listing PVCs" r;
  existingPods ← with_ctx "listing pods for PVC check" (listClusterPods cluster);
  let before := cluster in
  let cluster := with_pvcs cluster (int32 (pp_healthy p)) (dangling_pvcs allPVCs existingPods) in
  after ←
    (if pp_resizing p then
       mark cluster ConditionPVCResizeInProgress ConditionTrue "PVCResizePending"
         "One or more PVCs are being resized or waiting for filesystem expansion"
     else if wasResizeInProgress then
       mark cluster ConditionPVCResizeInProgress ConditionFalse "PVCResizeComplete"
         "All PVCs are at the requested storage size"
     else mret cluster);
  cluster ← with_ctx "patching PVC status" (StatusPatch before after);
  (if pp_resizing p && negb wasResizeInProgress then
     Event EventNormal "PVCResizeStarted"
       ("PVC resize started; reconciling requested storage to " +:+ q_String (desired_size before))
   else mret tt);;
  (if negb (pp_resizing p) && wasResizeInProgress then
     Event EventNormal "PVCResizeCompleted" "PVC resize completed for all cluster PVCs"
   else mret tt);;
  mret (pp_pending p, cluster).

(** ** Hibernation *)

Definition isHibernationEnabled (cluster : RedisCluster) : bool :=
  match Annotations cluster !! AnnotationHibernation with
  | None => false
  | Some val => let v := ToLower (TrimSpace val) in bool_decide (v = "on") || bool_decide (v = "true")
  end.

Definition wasHibernated (cluster : RedisCluster) : bool :=
  bool_decide (Status_Phase (Status cluster) = ClusterPhaseHibernating).

(** The counters and the phase of a hibernated cluster. *)
Definition with_hibernation (c : RedisCluster) : RedisCluster :=
  let s := Status c in
  set_Status c (mkStatus ClusterPhaseHibernating (Status_CurrentPrimary s) 0
    (Status_SentinelReadyInstances s) 0 ∅
    (Status_ClusterState s) (Status_SlotsAssigned s) (Status_BootstrapCompleted s)
    (Status_Shards s) (Status_HealthyPVC s) (Status_DanglingPVC s)
    (Status_SecretsResourceVersion s) (Status_Conditions s)).

Definition hibernate (cluster : RedisCluster) : kprog RedisCluster :=
  (if wasHibernated cluster then mret tt
   else Event EventNormal "Hibernating" "Cluster is entering hibernation, deleting all pods");;
  pods ← with_ctx "listing pods for hibernation" (listClusterPods cluster);
  for_each pods (λ pod,
    r ← kcall (ODeletePod (p_Name pod));
    check_ctx ("deleting pod " +:+ p_Name pod +:+ " for hibernation") (delete_ignoring_not_found r));;
  with_ctx "clearing leader service selector" (clearLeaderServiceSelector cluster);;
  after ← mark (with_hibernation cluster) ConditionHibernated ConditionTrue "HibernationEnabled"
            "Cluster is hibernated, all pods deleted";
  with_ctx "patching status for hibernation" (StatusPatch cluster after).

Definition resume (cluster : RedisCluster) : kprog RedisCluster :=
  Event EventNormal "Resuming" "Cluster is resuming from hibernation";;
  after ← mark cluster ConditionHibernated ConditionFalse "HibernationDisabled"
            "Cluster is resuming from hibernation";
  with_ctx "patching status for resume" (StatusPatch cluster (set_Phase after ClusterPhaseCreating)).

Definition reconcileHibernation (cluster : RedisCluster) : kprog (bool * RedisCluster) :=
  if isHibernationEnabled cluster then cluster ← hibernate cluster; mret (true, cluster)
  else if wasHibernated cluster then cluster ← resume cluster; mret (false, cluster)
  else mret (false, cluster).

(** ** Node maintenance *)

Definition maintenanceReusePVC (cluster : RedisCluster) : bool :=
  match Spec_NodeMaintenanceWindow (Spec cluster) with
  | Some w => default true (nmw_ReusePVC w)
  | None => true
  end.

Definition reconcileMaintenance (cluster : RedisCluster) : kprog (bool * RedisCluster) :=
  let current := condition_true cluster ConditionMaintenanceInProgress in
  if negb (isMaintenanceInProgress cluster) then
    if negb current then mret (false, cluster)
    else
      Event EventNormal "MaintenanceWindowEnded" "Node maintenance window ended, normal reconciliation resumed";;
      after ← mark cluster ConditionMaintenanceInProgress ConditionFalse "MaintenanceDisabled"
                "Node maintenance window is not in progress";
      cluster ← with_ctx "patching status after maintenance end" (StatusPatch cluster after);
      mret (false, cluster)
  else
    with_ctx "deleting PDB during maintenance" (deletePDB cluster);;
    if current then mret (true, cluster)
    else
      Event EventNormal "MaintenanceWindowStarted" "Node maintenance window started, pod self-healing is suspended";;
      after ← mark cluster ConditionMaintenanceInProgress ConditionTrue "MaintenanceEnabled"
                "Node maintenance window is in progress";
      cluster ← with_ctx "patching status for maintenance start" (StatusPatch cluster after);
      mret (true, cluster).

(** One missing ordinal of the recycling loop. *)
Definition recycle_pvc (cluster : RedisCluster) (i : Z) : kprog unit :=
  let podName := podNameForIndex (Name cluster) i in
  let pvcName := pvcNameForIndex (Name cluster) i in
  r ← kcall (OGetPVC pvcName);
  match r with
  | Err e => if IsNotFound e then mret tt
             else Throw (Wrap ("getting PVC " +:+ pvcName +:+ " for maintenance recycle") e)
  | Ok pvc =>
      if pvc_Deleting pvc then mret tt
      else
        r ← kcall (ODeletePVC (pvc_Name pvc));
        check_ctx ("deleting PVC " +:+ pvcName +:+ " for maintenance recycle") (delete_ignoring_not_found r);;
        Event EventNormal "MaintenancePVCRecycled"
          ("Deleted PVC " +:+ pvcName +:+ " for maintenance replacement of missing pod " +:+ podName)
  end.

Definition recyclePVCsForMissingPods (cluster : RedisCluster) : kprog unit :=
  if negb (isMaintenanceInProgress cluster) || maintenanceReusePVC cluster then mret tt
  else
    pods ← with_ctx "listing data pods for maintenance PVC recycle" (listDataPods cluster);
    for_each (upto (DesiredDataInstances (Spec cluster))) (λ i,
      if existsb (λ pod, bool_decide (p_Name pod = podNameForIndex (Name cluster) i)) pods then mret tt
      else recycle_pvc cluster i).

(** ** Replica mode *)

Definition replicaModePromotedConditionSet (cluster : RedisCluster) : bool :=
  existsb (λ c, bool_decide (c_Type c = ConditionReplicaMode) && bool_decide (c_Status c = ConditionFalse) &&
                bool_decide (c_Reason c = "ReplicaClusterPromoted")) (Status_Conditions (Status cluster)).

Definition replicaModePromotionFinalizationPending (cluster : RedisCluster) : bool :=
  match Spec_ReplicaMode (Spec cluster) with
  | None => false
  | Some rm => if rm_Enabled rm then false else negb (replicaModePromotedConditionSet cluster)
  end.

Definition set_ReplicaMode (s : RedisClusterSpec) (rm : option ReplicaModeSpec) : RedisClusterSpec :=
  mkSpec (Spec_Instances s) (Spec_Mode s) (Spec_Shards s) (Spec_ReplicasPerShard s)
    (Spec_PrimaryUpdateStrategy s) (Spec_ImageName s) (Spec_Storage s) (Spec_Redis s) (Spec_Limits s)
    (Spec_Requests s) (Spec_Memory s) (Spec_MinSyncReplicas s) (Spec_MaxSyncReplicas s)
    (Spec_EnablePodDisruptionBudget s) (Spec_AuthSecret s) (Spec_ACLConfigSecret s) (Spec_TLSSecret s)
    (Spec_CASecret s) (Spec_BackupCredentialsSecret s) (Spec_PrimaryIsolation s) (Spec_Bootstrap s)
    (Spec_NodeMaintenanceWindow s) rm (Spec_ConnectionSecret s).

(** Disable replica mode in the spec and read the object back. *)
Definition disable_replica_mode (cluster : RedisCluster) (rm : ReplicaModeSpec) : kprog RedisCluster :=
  with_ctx "disabling replicaMode after promotion"
    (Patch cluster (set_Spec cluster (set_ReplicaMode (Spec cluster)
       (Some (mkReplicaMode false (rm_Source rm) false)))));;
  r ← kcall OGetCluster;
  check_ctx "refetching cluster after replicaMode promotion patch" r.

Definition reconcileReplicaModePromotion (cluster : RedisCluster) (statuses : gmap string InstanceStatus)
    : kprog (bool * RedisCluster) :=
  match Spec_ReplicaMode (Spec cluster) with
  | None => mret (false, cluster)
  | Some rm =>
      let promotionRequested := isReplicaModeEnabled cluster && rm_Promote rm in
      let primary := Status_CurrentPrimary (Status cluster) in
      if negb promotionRequested && negb (replicaModePromotionFinalizationPending cluster) then mret (false, cluster)
      else if bool_decide (primary = "") then mret (false, cluster)
      else if negb (match statuses !! primary with
                    | Some s => is_Connected s && bool_decide (is_Role s = "master")
                    | None => false
                    end) then mret (false, cluster)
      else
        cluster ← (if promotionRequested then disable_replica_mode cluster rm else mret cluster);
        if replicaModePromotedConditionSet cluster then mret (true, cluster)
        else
          after ← mark cluster ConditionReplicaMode ConditionFalse "ReplicaClusterPromoted"
                    ("Replica mode disabled after promoting " +:+ Status_CurrentPrimary (Status cluster) +:+
                     " to standalone primary");
          cluster ← with_ctx "patching replica mode promotion condition" (StatusPatch cluster after);
          Event EventNormal "ReplicaClusterPromoted"
            ("Replica cluster promoted to standalone primary on pod " +:+ Status_CurrentPrimary (Status cluster));;
          mret (true, cluster)
  end.

(** ** Sentinel *)

(** [findPrimaryPodBySentinelHost]: the first pod the host designates. *)
Definition findPrimaryPodBySentinelHost (dataPods : list Pod) (namespace host : string) : string :=
  match List.find (λ pod, bool_decide (p_PodIP pod = host) ||
                          bool_decide (p_Name pod +:+ "." +:+ namespace +:+ ".svc.cluster.local" = host)) dataPods with
  | Some pod => p_Name pod
  | None => ""
  end.

Definition relabel (pod : Pod) (role : string) : Pod :=
  mkPod (p_Name pod) (<[LabelRole := role]> (p_Labels pod)) (p_Annotations pod) (p_Controller pod)
    (p_Volumes pod) (p_Template pod) (p_Phase pod) (p_PodIP pod) (p_Conditions pod).

Definition desired_role (oldPrimary newPrimary : string) (pod : Pod) : string :=
  let currentRole := pod_label pod LabelRole in
  if bool_decide (p_Name pod = newPrimary) then LabelRolePrimary
  else if bool_decide (p_Name pod = oldPrimary) || bool_decide (currentRole = LabelRolePrimary)
  then LabelRoleReplica else currentRole.

Definition updateDataPodRoleLabels (cluster : RedisCluster) (oldPrimary newPrimary : string) : kprog unit :=
  pods ← with_ctx "listing data pods for role label update" (listDataPods cluster);
  for_each pods (λ pod,
    let role := desired_role oldPrimary newPrimary pod in
    if bool_decide (role = pod_label pod LabelRole) then mret tt
    else
      r ← kcall (OPatchPod pod (relabel pod role));
      check_ctx ("patching role label for pod " +:+ p_Name pod) r;;
      mret tt).

(** The authorities to trust, [None] without TLS.  [parses] is
    [AppendCertsFromPEM]. *)
Definition sentinelClientTLSConfig (parses : string → bool) (cluster : RedisCluster) : kprog (option string) :=
  match Spec_CASecret (Spec cluster), Spec_TLSSecret (Spec cluster) with
  | Some ca, Some _ =>
      r ← kcall (OGetSecret ca);
      secret ← check_ctx ("getting CA secret " +:+ ca) r;
      let caPEM := default "" (sec_Data secret !! "ca.crt") in
      if bool_decide (caPEM = "") then Throw (Errorf ("CA secret " +:+ ca +:+ " is missing key ca.crt"))
      else if negb (parses caPEM) then Throw (Errorf ("parsing ca.crt from secret " +:+ ca))
      else mret (Some caPEM)
  | _, _ => mret None
  end.

(** [VerifyConnection] of the configuration; [Verify] is the chain verification
    of the X.509 library. *)
Definition sentinel_VerifyConnection {cert} (Verify : string → list cert → cert → res unit) (roots : string)
  (peerCertificates : list cert) : res unit :=
  match peerCertificates with
  | [] => Err (Errorf "sentinel did not present a certificate")
  | leaf :: intermediates =>
      match Verify roots intermediates leaf with
      | Ok _ => Ok tt
      | Err e => Err (Wrap "verifying sentinel server certificate chain" e)
      end
  end.

Definition sentinelValueToString (v : redis_value) : res string :=
  match v with
  | RString s | RBytes s => Ok s
  | _ => Err (Errorf "unexpected value type")
  end.

Definition querySentinelMaster (sentinelAddr masterName : string) (roots : option string) : kprog (string * Z) :=
  r ← kcall (OQuerySentinel sentinelAddr roots ["SENTINEL"; "get-master-addr-by-name"; masterName]);
  resp ← check r;
  match resp with
  | RArray [v0; v1] =>
      host ← check_ctx "decoding sentinel host" (sentinelValueToString v0);
      portStr ← check_ctx "decoding sentinel port" (sentinelValueToString v1);
      match Atoi portStr with
      | (port, None) => mret (host, port)
      | (_, Some _) => Throw (Errorf ("parsing sentinel port " +:+ quoted portStr))
      end
  | _ => Throw (Errorf "unexpected sentinel response type")
  end.

(** Ask the sentinels in turn; the number asked and the first answer. *)
Fixpoint query_sentinels (masterName : string) (roots : option string) (pods : list Pod) (attempted : Z)
  : kprog (Z * string) :=
  match pods with
  | [] => mret (attempted, "")
  | pod :: pods' =>
      if bool_decide (p_PodIP pod = "") then query_sentinels masterName roots pods' attempted
      else
        r ← catch (querySentinelMaster (p_PodIP pod +:+ ":" +:+ itoa SentinelPort) masterName roots);
        match r with
        | Ok (host, _) => mret (attempted + 1, host)
        | Err _ => query_sentinels masterName roots pods' (attempted + 1)
        end
  end.

(** Record the primary the sentinels elected. *)
Definition adopt_master (cluster : RedisCluster) (newPrimary : string) : kprog RedisCluster :=
  let oldPrimary := Status_CurrentPrimary (Status cluster) in
  cluster ← with_ctx "patching currentPrimary from sentinel"
    (StatusPatch cluster (set_CurrentPrimary cluster newPrimary));
  with_ctx "updating leader service selector from sentinel" (updateLeaderServiceSelector cluster);;
  with_ctx "updating pod role labels from sentinel" (updateDataPodRoleLabels cluster oldPrimary newPrimary);;
  Event EventNormal "SentinelFailover"
    ("Sentinel promoted " +:+ newPrimary +:+ " (former primary: " +:+ oldPrimary +:+ ")");;
  mret cluster.

Definition reconcileSentinelMaster (parses : string → bool) (cluster : RedisCluster) : kprog RedisCluster :=
  if bool_decide (Spec_Mode (Spec cluster) ≠ ClusterModeSentinel) then mret cluster
  else
    sentinelPods ← with_ctx "listing sentinel pods" (listSentinelPods cluster);
    roots ← with_ctx "building sentinel client TLS config" (sentinelClientTLSConfig parses cluster);
    '(attempted, masterHost) ← query_sentinels (Name cluster) roots sentinelPods 0;
    if bool_decide (attempted = 0) then mret cluster
    else if bool_decide (masterHost = "") then
      Throw (Errorf ("failed querying sentinel master from " +:+ itoa attempted +:+ " endpoints"))
    else
      dataPods ← with_ctx "listing data pods" (listDataPods cluster);
      let newPrimary := findPrimaryPodBySentinelHost dataPods (Namespace cluster) masterHost in
      if bool_decide (newPrimary = "") then
        Throw (Errorf ("sentinel reported master " +:+ quoted masterHost +:+ " but no matching data pod found"))
      else if bool_decide (newPrimary = Status_CurrentPrimary (Status cluster)) then mret cluster
      else adopt_master cluster newPrimary.
