(* ===== verification/Pods.v ===== *)
(** * Data pods and sentinel pods

    [pods.go]: the hash of the pod template, the pods themselves, their
    creation or relabelling, scaling up and down, and the choice of the first
    primary.

    [ClusterReconciler] collects what the reconciler is configured with: the
    operator image, and the two library functions the code calls whose text is
    elsewhere, SHA-256 (in hexadecimal) and the PEM parser. *)
From S2P Require Import Prelude GoStr Json Api Slots Layout Effects Kube Fencing Status RollingUpdate Resources Lifecycle.
From Stdlib Require Import Ascii.

Record ClusterReconciler := mkReconciler {
  OperatorImage : string;
  Sum256Hex : string → string;
  ParsesPEM : string → bool
}.

Definition instanceManagerBinaryPath := "/controller/manager".
Definition redisDataVolumeName := "data".
Definition redisDataMountPath := "/data".
Definition controllerVolumeName := "controller".
Definition controllerMountPath := "/controller".
Definition stagedCACertPath := controllerMountPath +:+ "/ca-certificates.crt".
Definition projectedVolumeName := "projected-secrets".
Definition projectedMountPath := "/projected".
Definition tlsVolumeName := "tls-certs".
Definition tlsMountPath := "/tls".
Definition restoreDataInitName := "restore-data".
Definition backupCredsVolumeName := "backup-credentials".
Definition backupCredsMountPath := "/backup-credentials".
Definition second : Z := 10 ^ 9.
Definition defaultIsolationTimeout : Z := 5 * second.
Definition livenessTimeoutBuffer : Z := 2 * second.

(** ** The template hash *)

(** The keys of a map, collected in any order and sorted. *)
Definition sorted_keys {A} (m : gmap string A) : list string :=
  sort_slice string_less ((map_to_list m).*1).

Definition hash_line (key value : string) : string := key +:+ "=" +:+ value +:+ nl.

Definition appendResourceListHash (prefix : string) (resources : gmap string Quantity) : string :=
  String.concat "" ((λ key, hash_line (prefix +:+ "." +:+ key)
    (match resources !! key with Some q => q_String q | None => "" end)) <$> sorted_keys resources).

Definition hash_ref (key : string) (ref : option string) : string :=
  match ref with Some name => hash_line key name | None => "" end.

Definition hash_memory (mem : option MemorySpec) : string :=
  match mem with
  | None => ""
  | Some m =>
      hash_line "memory.maxMemory" (match mem_MaxMemory m with Some q => q_String q | None => "" end) +:+
      hash_line "memory.maxMemoryPercent" (match mem_MaxMemoryPercent m with Some p => itoa p | None => "" end) +:+
      hash_line "memory.maxMemoryPolicy" (mem_MaxMemoryPolicy m)
  end.

(** The text that is hashed. *)
Definition spec_text (operatorImage : string) (s : RedisClusterSpec) : string :=
  hash_line "redisImage" (Spec_ImageName s) +:+
  hash_line "operatorImage" operatorImage +:+
  appendResourceListHash "resources.limits" (Spec_Limits s) +:+
  appendResourceListHash "resources.requests" (default ∅ (Spec_Requests s)) +:+
  hash_ref "authSecret" (Spec_AuthSecret s) +:+
  hash_ref "aclConfigSecret" (Spec_ACLConfigSecret s) +:+
  hash_ref "tlsSecret" (Spec_TLSSecret s) +:+
  hash_ref "caSecret" (Spec_CASecret s) +:+
  String.concat "" ((λ key, hash_line ("redis." +:+ key) (default "" (Spec_Redis s !! key))) <$> sorted_keys (Spec_Redis s)) +:+
  hash_memory (Spec_Memory s) +:+
  (if IsEphemeral (Spec_Storage s) then
     hash_line "storage.type" "emptyDir" +:+ hash_line "storage.size" (q_String (sto_Size (Spec_Storage s)))
   else "").

Definition computeSpecHash (r : ClusterReconciler) (cluster : RedisCluster) : string :=
  Sum256Hex r (spec_text (OperatorImage r) (Spec cluster)).

(** ** Pieces of the pod *)

Definition podLabels (clusterName podName role : string) : gmap string string :=
  let workload := if bool_decide (role = LabelRoleSentinel) then LabelWorkloadSentinel else LabelWorkloadData in
  {[ LabelCluster := clusterName; LabelInstance := podName; LabelRole := role; LabelWorkload := workload ]}.

Definition redisPodSecurityContext : PodSecurityContext := mkPodSecurityContext true 999 999 999 "RuntimeDefault".
Definition redisContainerSecurityContext (readOnlyRootFilesystem : bool) : SecurityContext :=
  mkSecurityContext true false readOnlyRootFilesystem ["ALL"].

(** [cfg != nil && cfg.Duration > 0]. *)
Definition timeout_or_default (t : option Z) : Z :=
  match t with Some d => if bool_decide (0 < d) then d else defaultIsolationTimeout | None => defaultIsolationTimeout end.

(** The code rounds a float64 number of seconds up; below 2^22 seconds a
    float64 resolves nanoseconds, and the exact quotient is what it rounds. *)
Definition livenessTimeoutSeconds (cluster : RedisCluster) : Z :=
  let iso := default (mkIsolation None None None) (Spec_PrimaryIsolation (Spec cluster)) in
  let total := int64 (timeout_or_default (pi_APIServerTimeout iso) + timeout_or_default (pi_PeerTimeout iso) +
                      livenessTimeoutBuffer) in
  let seconds := int32 (- ((- total) / second)) in
  if bool_decide (seconds < 1) then 1 else seconds.

Definition dataVolumeSource (cluster : RedisCluster) (index : Z) : VolumeSource :=
  if IsEphemeral (Spec_Storage (Spec cluster)) then
    let size := sto_Size (Spec_Storage (Spec cluster)) in
    VolEmptyDir (if q_IsZero size then None else Some size)
  else VolPVC (pvcNameForIndex (Name cluster) index).

Definition tlsCertVolume (tls ca : string) : Volume :=
  mkVolume tlsVolumeName (VolProjected
    [(tls, [("tls.crt", "tls.crt"); ("tls.key", "tls.key")]); (ca, [("ca.crt", "ca.crt")])]).
Definition tlsCertVolumeMount : VolumeMount := mkMount tlsVolumeName tlsMountPath true.

(** The volume and its mount, for a TLS cluster. *)
Definition tls_volume (cluster : RedisCluster) : list (Volume * VolumeMount) :=
  match Spec_TLSSecret (Spec cluster), Spec_CASecret (Spec cluster) with
  | Some tls, Some ca => [(tlsCertVolume tls ca, tlsCertVolumeMount)]
  | _, _ => []
  end.

(** [addProjectedSecretKey]. *)
Definition add_projected (m : gmap string (gset string)) (secretName key : string) : gmap string (gset string) :=
  let secretName := TrimSpace secretName in
  let key := TrimSpace key in
  if bool_decide (secretName = "") || bool_decide (key = "") then m
  else <[secretName := {[key]} ∪ default ∅ (m !! secretName)]> m.

Definition projected_keys (cluster : RedisCluster) : gmap string (gset string) :=
  let add m ref key := match ref with Some n => add_projected m n key | None => m end in
  let m := add ∅ (Spec_AuthSecret (Spec cluster)) "password" in
  let m := add m (Spec_ACLConfigSecret (Spec cluster)) "acl" in
  let source := replicaModeSourceAuthSecretName cluster in
  if bool_decide (source = "") then m else add_projected m source "password".

Definition projected_sources (cluster : RedisCluster) : list (string * list (string * string)) :=
  let m := projected_keys cluster in
  (λ name, (name, (λ key, (key, name +:+ "/" +:+ key)) <$>
     sort_slice string_less (elements (default ∅ (m !! name))))) <$> sorted_keys m.

Definition projected_volume (sources : list (string * list (string * string))) : list (Volume * VolumeMount) :=
  if bool_decide (sources = []) then []
  else [(mkVolume projectedVolumeName (VolProjected sources), mkMount projectedVolumeName projectedMountPath false)].

Definition backup_volume (cluster : RedisCluster) : list (Volume * VolumeMount) :=
  match Spec_BackupCredentialsSecret (Spec cluster) with
  | Some name =>
      if bool_decide (name = "") then []
      else [(mkVolume backupCredsVolumeName (VolProjected [(name, [])]),
             mkMount backupCredsVolumeName backupCredsMountPath true)]
  | None => []
  end.

Definition copy_manager (r : ClusterReconciler) : Container :=
  mkContainer "copy-manager" (OperatorImage r) ["/manager"; "copy-binary"; instanceManagerBinaryPath] [] [] [] ∅ None
    (redisContainerSecurityContext false) [mkMount controllerVolumeName controllerMountPath false] None None.

Definition restore_init (r : ClusterReconciler) (cluster : RedisCluster) (backup : RedisBackup) (podName : string)
    : Container :=
  mkContainer restoreDataInitName (OperatorImage r) ["/manager"; "restore"]
    ["--cluster-name=" +:+ Name cluster; "--backup-name=" +:+ b_Name backup;
     "--backup-namespace=" +:+ b_Namespace backup; "--data-dir=" +:+ redisDataMountPath; "--pod-name=" +:+ podName]
    [] [] ∅ None (redisContainerSecurityContext false)
    (mkMount redisDataVolumeName redisDataMountPath false :: (backup_volume cluster).*2) None None.

Definition base_env (cluster : RedisCluster) (podName : string) : list EnvVar :=
  [EnvValue "POD_NAME" podName; EnvValue "CLUSTER_NAME" (Name cluster);
   EnvValue "POD_NAMESPACE" (Namespace cluster); EnvValue "SSL_CERT_FILE" stagedCACertPath].

Definition instance_args (cluster : RedisCluster) (podName : string) : list string :=
  ["--cluster-name=" +:+ Name cluster; "--pod-name=" +:+ podName; "--pod-namespace=" +:+ Namespace cluster].

Definition base_mounts : list VolumeMount :=
  [mkMount redisDataVolumeName redisDataMountPath false; mkMount controllerVolumeName controllerMountPath false].

(** The data pod the reconciler creates. *)
Definition data_pod (r : ClusterReconciler) (cluster : RedisCluster) (podName : string) (index : Z)
    (labels : gmap string string) (restore : list Container) (controller : option string) : Pod :=
  let clusterMode := bool_decide (Spec_Mode (Spec cluster) = ClusterModeCluster) in
  let extra := projected_volume (projected_sources cluster) ++ tls_volume cluster ++ backup_volume cluster in
  {| p_Name := podName;
     p_Labels := labels;
     p_Annotations := {[ specHashAnnotation := computeSpecHash r cluster ]};
     p_Controller := controller;
     p_Volumes := [mkVolume redisDataVolumeName (dataVolumeSource cluster index);
                   mkVolume controllerVolumeName (VolEmptyDir None)] ++ extra.*1;
     p_Template := mkTemplate (serviceAccountName (Name cluster)) redisPodSecurityContext
       (copy_manager r :: restore)
       [mkContainer "redis" (Spec_ImageName (Spec cluster)) [instanceManagerBinaryPath; "instance"]
          (instance_args cluster podName)
          ([("redis", 6379); ("http", 8080)] ++ if clusterMode then [("cluster-bus", 16379)] else [])
          (base_env cluster podName ++ if clusterMode then [EnvFieldRef "POD_IP" "status.podIP"] else [])
          (Spec_Limits (Spec cluster)) (Spec_Requests (Spec cluster)) (redisContainerSecurityContext false)
          (base_mounts ++ extra.*2)
          (Some (mkProbe "/healthz" 8080 10 10 3 (livenessTimeoutSeconds cluster)))
          (Some (mkProbe "/readyz" 8080 5 5 0 0))];
     p_Phase := ""; p_PodIP := ""; p_Conditions := [] |}.

Definition sentinel_pod (r : ClusterReconciler) (cluster : RedisCluster) (podName : string)
    (controller : option string) : Pod :=
  let sources := match Spec_AuthSecret (Spec cluster) with
                 | Some n => if bool_decide (TrimSpace n = "") then [] else [(n, [("password", n +:+ "/password")])]
                 | None => []
                 end in
  let extra := projected_volume sources ++ tls_volume cluster in
  {| p_Name := podName;
     p_Labels := podLabels (Name cluster) podName LabelRoleSentinel;
     p_Annotations := ∅;
     p_Controller := controller;
     p_Volumes := [mkVolume redisDataVolumeName (VolEmptyDir None);
                   mkVolume controllerVolumeName (VolEmptyDir None)] ++ extra.*1;
     p_Template := mkTemplate (serviceAccountName (Name cluster)) redisPodSecurityContext [copy_manager r]
       [mkContainer "sentinel" (Spec_ImageName (Spec cluster)) [instanceManagerBinaryPath; "instance"]
          (instance_args cluster podName ++ ["--role=sentinel"])
          [("sentinel", SentinelPort); ("http", 8080)] (base_env cluster podName)
          (Spec_Limits (Spec cluster)) (Spec_Requests (Spec cluster)) (redisContainerSecurityContext false)
          (base_mounts ++ extra.*2)
          (Some (mkProbe "/healthz" 8080 10 10 0 0)) (Some (mkProbe "/readyz" 8080 5 5 0 0))];
     p_Phase := ""; p_PodIP := ""; p_Conditions := [] |}.

(** ** Creating and adopting pods *)

Definition shouldRestoreFromBackup (cluster : RedisCluster) (podName : string) (index : Z) (role : string) : bool :=
  if bool_decide (default "" (Spec_Bootstrap (Spec cluster)) = "") then false
  else if bool_decide (Spec_Mode (Spec cluster) = ClusterModeCluster) then
    negb (Status_BootstrapCompleted (Status cluster)) && bool_decide (role = LabelRolePrimary)
  else
    bool_decide (Status_CurrentPrimary (Status cluster) = "") && bool_decide (index = 0) &&
    bool_decide (podName = podNameForIndex (Name cluster) 0).

Definition getBootstrapBackup (cluster : RedisCluster) : kprog RedisBackup :=
  let backupName := default "" (Spec_Bootstrap (Spec cluster)) in
  if bool_decide (backupName = "") then Throw (Errorf "spec.bootstrap.backupName is required")
  else kcall (OGetBackup backupName) ≫= check.

(** The init container that restores the backup, where the pod needs one. *)
Definition restore_containers (r : ClusterReconciler) (cluster : RedisCluster) (podName : string) (index : Z)
    (role : string) : kprog (list Container) :=
  if negb (shouldRestoreFromBackup cluster podName index role) then mret []
  else
    backup ← with_ctx ("getting bootstrap backup " +:+ quoted (default "" (Spec_Bootstrap (Spec cluster))))
      (getBootstrapBackup cluster);
    let name := b_Namespace backup +:+ "/" +:+ b_Name backup in
    let method := if bool_decide (bs_Method (b_Spec backup) = "") then BackupMethodRDB else bs_Method (b_Spec backup) in
    if negb (bool_decide (bst_Phase (b_Status backup) = BackupPhaseCompleted)) then
      Throw (Errorf ("bootstrap backup " +:+ name +:+ " is not completed"))
    else if bool_decide (is_Some (Destination_Validate (bs_Destination (b_Spec backup)))) then
      Throw (Errorf ("bootstrap backup " +:+ name +:+ " has invalid destination"))
    else if bool_decide (bst_BackupPath (b_Status backup) = "") then
      Throw (Errorf ("bootstrap backup " +:+ name +:+ " has empty status.backupPath"))
    else if negb (bool_decide (method = BackupMethodRDB)) && negb (bool_decide (method = BackupMethodAOF)) then
      Throw (Errorf ("bootstrap backup " +:+ name +:+ " uses unsupported method " +:+ quoted method))
    else mret [restore_init r cluster backup podName].

(** [if existing.Labels[key] != value] over the desired labels: a missing key
    reads as the empty string. *)
Definition label_differs (existing : gmap string string) (e : string * string) : bool :=
  negb (bool_decide (default "" (existing !! e.1) = e.2)).

Definition merge_labels (existing labels : gmap string string) : gmap string string :=
  list_to_map (filter (λ e, label_differs existing e = true) (map_to_list labels)) ∪ existing.

Definition with_metadata (pod : Pod) (labels : gmap string string) (controller : option string) : Pod :=
  mkPod (p_Name pod) labels (p_Annotations pod) controller (p_Volumes pod) (p_Template pod) (p_Phase pod)
    (p_PodIP pod) (p_Conditions pod).

(** Bring labels and owner reference of an existing pod up to date.  Labels
    always carry the non-empty cluster name, so a nil label map is a change
    already because of that key. *)
Definition adopt_pod (kind : string) (cluster : RedisCluster) (existing : Pod) (labels : gmap string string)
    : kprog unit :=
  let changed := existsb (label_differs (p_Labels existing)) (map_to_list labels) in
  '(controller, adopted) ←
    (match p_Controller existing with
     | Some c => mret (Some c, false)
     | None =>
         c ← SetControllerReference ("setting " +:+ kind +:+ p_Name existing +:+ " owner reference") cluster None;
         mret (c, true)
     end);
  if changed || adopted then
    p ← kcall (OPatchPod existing (with_metadata existing (merge_labels (p_Labels existing) labels) controller));
    check_ctx ("patching " +:+ kind +:+ p_Name existing +:+ " metadata") p;;
    mret tt
  else mret tt.

(** Any error of the read leads to the creation of the pod. *)
Definition createPodWithLabels (r : ClusterReconciler) (cluster : RedisCluster) (podName : string) (index : Z)
    (role : string) (labels : gmap string string) : kprog unit :=
  p ← kcall (OGetPod podName);
  match p with
  | Ok existing => adopt_pod "pod " cluster existing labels
  | Err _ =>
      restore ← restore_containers r cluster podName index role;
      controller ← SetControllerReference "setting pod owner reference" cluster None;
      c ← kcall (OCreatePod (data_pod r cluster podName index labels restore controller));
      check_ctx "creating pod" c;;
      Event EventNormal "PodCreated" ("Created pod " +:+ podName +:+ " with role " +:+ role)
  end.

Definition sentinelPodHasAuthProjection (pod : Pod) (secretName : string) : bool :=
  existsb (λ v, bool_decide (vol_Name v = projectedVolumeName) &&
    match vol_Source v with
    | VolProjected sources => existsb (λ s, bool_decide (s.1 = secretName)) sources
    | _ => false
    end) (p_Volumes pod).

Definition createSentinelPod (r : ClusterReconciler) (cluster : RedisCluster) (podName : string) : kprog unit :=
  p ← kcall (OGetPod podName);
  match p with
  | Ok existing =>
      if match Spec_AuthSecret (Spec cluster) with
         | Some n => negb (sentinelPodHasAuthProjection existing n)
         | None => false
         end
      then delete_pod ("deleting sentinel pod " +:+ podName +:+ " for auth projection update") (p_Name existing)
      else adopt_pod "sentinel pod " cluster existing (podLabels (Name cluster) podName LabelRoleSentinel)
  | Err _ =>
      controller ← SetControllerReference "setting sentinel pod owner reference" cluster None;
      c ← kcall (OCreatePod (sentinel_pod r cluster podName controller));
      check_ctx "creating sentinel pod" c;;
      Event EventNormal "SentinelPodCreated" ("Created sentinel pod " +:+ podName)
  end.

Definition reconcileSentinelPods (r : ClusterReconciler) (cluster : RedisCluster) : kprog unit :=
  if bool_decide (Spec_Mode (Spec cluster) ≠ ClusterModeSentinel) then mret tt
  else if bool_decide (Status_CurrentPrimary (Status cluster) = "") then mret tt
  else
    existingPods ← with_ctx "listing sentinel pods" (listSentinelPods cluster);
    let current := Z.of_nat (length existingPods) in
    for_each (upto SentinelInstances) (λ i,
      let podName := sentinelPodNameForIndex (Name cluster) i in
      with_ctx ("creating sentinel pod " +:+ podName) (createSentinelPod r cluster podName));;
    let byName := sort_slice (λ a b, string_less (p_Name b) (p_Name a)) existingPods in
    for_each (take (Z.to_nat (current - SentinelInstances)) byName) (λ pod,
      delete_pod ("deleting sentinel pod " +:+ p_Name pod) (p_Name pod)).

(** ** Scaling *)

(** The role label of the pod with the given ordinal. *)
Definition pod_role (cluster : RedisCluster) (layout : shardLayout) (i : Z) : string :=
  let podName := podNameForIndex (Name cluster) i in
  let primary :=
    if bool_decide (Spec_Mode (Spec cluster) = ClusterModeCluster) then isPrimary layout podName
    else bool_decide (podName = Status_CurrentPrimary (Status cluster)) ||
         (bool_decide (Status_CurrentPrimary (Status cluster) = "") && bool_decide (i = 0)) in
  if primary then LabelRolePrimary else LabelRoleReplica.

Definition pod_labels (cluster : RedisCluster) (layout : shardLayout) (i : Z) : gmap string string :=
  let podName := podNameForIndex (Name cluster) i in
  default ∅ (labels layout podName) ∪ podLabels (Name cluster) podName (pod_role cluster layout i).

Definition ensure_pods (r : ClusterReconciler) (cluster : RedisCluster) (layout : shardLayout) (desired : Z) : kprog unit :=
  for_each (upto desired) (λ i,
    let podName := podNameForIndex (Name cluster) i in
    with_ctx ("creating pod " +:+ podName)
      (createPodWithLabels r cluster podName i (pod_role cluster layout i) (pod_labels cluster layout i))).

(** One pod of the scale-down. *)
Definition scale_down_pod (cluster : RedisCluster) (pod : Pod) : kprog unit :=
  if bool_decide (p_Name pod = Status_CurrentPrimary (Status cluster)) then mret tt
  else
    delete_pod ("deleting pod " +:+ p_Name pod) (p_Name pod);;
    Event EventNormal "PodDeleted" ("Deleted pod " +:+ p_Name pod +:+ " during scale-down").

(** Delete the highest ordinals.  With a negative target the loop runs past the
    end of the list and panics there. *)
Definition scale_down (cluster : RedisCluster) (existingPods : list Pod) (desired : Z) : kprog unit :=
  let current := Z.of_nat (length existingPods) in
  Event EventNormal "ScaleDown"
    ("Scaling down from " +:+ itoa current +:+ " to " +:+ itoa desired +:+ " instances");;
  sorted ← sorted_desc cluster existingPods;
  for_each (take (Z.to_nat (current - desired)) sorted) (scale_down_pod cluster);;
  if bool_decide (desired < 0) then Throw (Panicked "index out of range") else mret tt.

(** The plan is made in cluster mode only. *)
Definition plan_pods (cluster : RedisCluster) (pods : list Pod) (statuses : gmap string InstanceStatus)
    : kprog shardLayout :=
  if bool_decide (Spec_Mode (Spec cluster) = ClusterModeCluster) then
    ord ← kcall OMapOrder;
    match planShardLayout cluster pods statuses ord with
    | None => Throw (Panicked "slice bounds out of range")
    | Some layout => mret layout
    end
  else mret layout_empty.

(** The first primary of a new cluster. *)
Definition set_initial_primary (cluster : RedisCluster) (desired : Z) : kprog RedisCluster :=
  if negb (bool_decide (Spec_Mode (Spec cluster) = ClusterModeCluster)) &&
     bool_decide (Status_CurrentPrimary (Status cluster) = "") && bool_decide (0 < desired)
  then
    with_ctx "setting initial primary"
      (StatusPatch cluster (set_Phase (set_CurrentPrimary cluster (podNameForIndex (Name cluster) 0)) ClusterPhaseCreating))
  else mret cluster.

Definition reconcilePods (r : ClusterReconciler) (cluster : RedisCluster) (statuses : gmap string InstanceStatus)
    : kprog RedisCluster :=
  existingPods ← with_ctx "listing pods" (listDataPods cluster);
  let desired := DesiredDataInstances (Spec cluster) in
  let current := Z.of_nat (length existingPods) in
  (if bool_decide (current < desired) then
     Event EventNormal "ScaleUp"
       ("Scaling up from " +:+ itoa current +:+ " to " +:+ itoa desired +:+ " instances")
   else mret tt);;
  layout ← plan_pods cluster existingPods statuses;
  ensure_pods r cluster layout desired;;
  (if bool_decide (desired < current) then scale_down cluster existingPods desired else mret tt);;
  set_initial_primary cluster desired.
