(* ===== verification/Reconcile.v ===== *)
(** * The reconciliation pass

    [reconciler.go]: the ordered steps of a pass over one [RedisCluster],
    composed from the components.  A pass ends early with a requeue where the
    code returns, and with the first error.  Metrics are left out. *)
From S2P Require Import Prelude GoStr Json Api Slots Layout Effects.
From S2P Require Import Kube Fencing Status Reshard RollingUpdate Resources Lifecycle Pods.

Definition requeueInterval : Z := 30 * second.

(** Steps 2 to 5: secrets, services, connection secret, poll, status.  A failed
    poll is logged and leaves no statuses. *)
Definition observe (cluster : RedisCluster) : kprog (gmap string InstanceStatus * RedisCluster) :=
  cluster ← with_ctx "reconciling secrets" (reconcileSecrets cluster);
  with_ctx "reconciling services" (reconcileServices cluster);;
  with_ctx "reconciling connection secret" (reconcileConnectionSecret cluster);;
  polled ← catch (pollInstanceStatuses cluster);
  let statuses := match polled with Ok m => m | Err _ => ∅ end in
  cluster ← with_ctx "updating status" (updateStatus cluster statuses);
  mret (statuses, cluster).

(** Step 5.2; [false] ends the pass. *)
Definition reconcile_topology (cluster : RedisCluster) (statuses : gmap string InstanceStatus) (maintenance : bool)
    : kprog (bool * RedisCluster) :=
  if negb maintenance && bool_decide (Spec_Mode (Spec cluster) = ClusterModeCluster) then
    '(ready, cluster) ← with_ctx "reconciling cluster bootstrap" (reconcileClusterBootstrap cluster statuses);
    if negb ready then mret (false, cluster)
    else with_ctx "reconciling cluster reshard" (reconcileClusterReshard cluster statuses)
  else mret (true, cluster).

(** Steps 5.3 and 5.5; [false] ends the pass. *)
Definition reconcile_primary (cluster : RedisCluster) (statuses : gmap string InstanceStatus) (maintenance : bool)
    : kprog (bool * RedisCluster) :=
  '(promoted, cluster) ← with_ctx "reconciling replica mode promotion" (reconcileReplicaModePromotion cluster statuses);
  if (promoted : bool) then mret (false, cluster)
  else
    ord ← kcall OMapOrder;
    if negb maintenance && shouldTriggerFailover cluster statuses ord then
      cluster ← with_ctx "automatic failover" (failover cluster);
      mret (false, cluster)
    else mret (true, cluster).

(** Step 7, with the replacement of volumes during maintenance. *)
Definition reconcile_storage (cluster : RedisCluster) (maintenance : bool) : kprog (gset string * RedisCluster) :=
  let ephemeralStorage := IsEphemeral (Spec_Storage (Spec cluster)) in
  let maintenanceReplace := maintenance && negb (maintenanceReusePVC cluster) in
  (if maintenanceReplace && negb ephemeralStorage then
     with_ctx "recycling PVCs during maintenance replacement" (recyclePVCsForMissingPods cluster)
   else mret tt);;
  if negb ephemeralStorage then with_ctx "reconciling PVCs" (reconcilePVCs cluster)
  else mret (∅, cluster).

(** Step 8; [true] ends the pass before the sentinel step. *)
Definition reconcile_workload (r : ClusterReconciler) (cluster : RedisCluster)
    (statuses : gmap string InstanceStatus) (maintenance maintenanceReplace : bool) (pendingResizePVCs : gset string)
    : kprog (bool * RedisCluster) :=
  if negb maintenance || maintenanceReplace then
    cluster ← with_ctx "reconciling pods" (reconcilePods r cluster statuses);
    if maintenance then mret (false, cluster)
    else
      '(stop, cluster) ←
        (if bool_decide (pendingResizePVCs = ∅) then mret (false, cluster)
         else with_ctx "rolling restart for PVC resize" (restartPodsForPendingResize cluster pendingResizePVCs));
      if (stop : bool) then mret (true, cluster)
      else
        '(_, cluster) ← with_ctx "rolling update" (rollingUpdate cluster (computeSpecHash r cluster));
        mret (false, cluster)
  else mret (false, cluster).

(** Step 9. *)
Definition reconcile_sentinel (r : ClusterReconciler) (cluster : RedisCluster) (maintenance : bool) : kprog unit :=
  if negb maintenance && bool_decide (Spec_Mode (Spec cluster) = ClusterModeSentinel) then
    with_ctx "reconciling sentinel pods" (reconcileSentinelPods r cluster);;
    with_ctx "reconciling sentinel master" (reconcileSentinelMaster (ParsesPEM r) cluster);;
    mret tt
  else mret tt.

(** The steps after the observation. *)
Definition act (r : ClusterReconciler) (cluster : RedisCluster) (statuses : gmap string InstanceStatus)
    (maintenance : bool) : kprog Z :=
  '(ready, cluster) ← reconcile_topology cluster statuses maintenance;
  if negb ready then mret requeueInterval
  else
    '(continue, cluster) ← reconcile_primary cluster statuses maintenance;
    if negb continue then mret requeueInterval
    else
      ord ← kcall OMapOrder;
      if checkReachability cluster statuses ord then mret requeueInterval
      else
        let maintenanceReplace := maintenance && negb (maintenanceReusePVC cluster) in
        '(pendingResizePVCs, cluster) ← reconcile_storage cluster maintenance;
        '(stop, cluster) ← reconcile_workload r cluster statuses maintenance maintenanceReplace pendingResizePVCs;
        if (stop : bool) then mret requeueInterval
        else
          reconcile_sentinel r cluster maintenance;;
          mret requeueInterval.

(** The value is [RequeueAfter]. *)
Definition reconcile (r : ClusterReconciler) (cluster : RedisCluster) : kprog Z :=
  with_ctx "reconciling global resources" (reconcileGlobalResources cluster);;
  '(hibernating, cluster) ← with_ctx "reconciling hibernation" (reconcileHibernation cluster);
  if (hibernating : bool) then mret requeueInterval
  else
    '(maintenance, cluster) ← with_ctx "reconciling maintenance" (reconcileMaintenance cluster);
    '(statuses, cluster) ← observe cluster;
    act r cluster statuses maintenance.

Fixpoint is_panic (e : error) : bool :=
  match e with Panicked _ => true | Wrap _ e' => is_panic e' | _ => false end.

(** The entry point: a missing object ends quietly, an error is recorded and
    returned, a panic unwinds. *)
Definition Reconcile (r : ClusterReconciler) : kprog Z :=
  g ← kcall OGetCluster;
  match g with
  | Err e => if IsNotFound e then mret 0 else Throw e
  | Ok cluster =>
      (if bool_decide (Status_Phase (Status cluster) = ClusterPhaseNone)
       then Event EventNormal "Creating" "Cluster reconciliation started" else mret tt);;
      out ← catch (reconcile r cluster);
      match out with
      | Ok after => mret after
      | Err e =>
          if is_panic e then Throw e
          else Event EventWarning "ReconciliationFailed" "Reconciliation failed";; Throw e
      end
  end.
