(* ===== verification/Footprints.v ===== *)
(** * What each component may write

    The operations of the API fall into kinds; a component's footprint is the
    list of kinds it can issue, whatever the responses.  The guarantees of a
    pass that say which handlers never do something follow from these. *)
From S2P Require Import Prelude GoStr Json Api Slots Layout Effects Kube.
From S2P Require Import Fencing Status Reshard RollingUpdate Resources Lifecycle Pods Reconcile.

(** [KQuiet]: reads, events, metrics, the clock. *)
Inductive op_kind :=
| KQuiet | KPatchCluster | KPatchStatus | KCreatePod | KPatchPod | KDeletePod
| KCreateService | KPatchService | KDeleteService | KCreatePVC | KPatchPVC | KDeletePVC
| KCreatePDB | KPatchPDB | KDeletePDB | KCreateSecret | KUpdateSecret | KDeleteSecret
| KCreateAccess | KUpdateAccess | KDeleteAccess | KPost | KPromote.

#[export] Instance op_kind_eq_dec : EqDecision op_kind.
Proof. solve_decision. Defined.

Definition kind_of (c : kube_op) : op_kind :=
  match c with
  | OPatchCluster _ _ _ => KPatchCluster
  | OPatchStatus _ _ => KPatchStatus
  | OCreatePod _ => KCreatePod
  | OPatchPod _ _ => KPatchPod
  | ODeletePod _ => KDeletePod
  | OCreateService _ => KCreateService
  | OPatchService _ _ => KPatchService
  | ODeleteService _ => KDeleteService
  | OCreatePVC _ => KCreatePVC
  | OPatchPVC _ _ => KPatchPVC
  | ODeletePVC _ => KDeletePVC
  | OCreatePDB _ => KCreatePDB
  | OPatchPDB _ _ => KPatchPDB
  | ODeletePDB _ => KDeletePDB
  | OCreateSecret _ => KCreateSecret
  | OUpdateSecret _ => KUpdateSecret
  | ODeleteSecret _ => KDeleteSecret
  | OCreateConfigMap _ | OCreateServiceAccount _ | OCreateRole _ | OCreateRoleBinding _ => KCreateAccess
  | OUpdateRole _ | OUpdateRoleBinding _ => KUpdateAccess
  | ODeleteRoleBinding _ => KDeleteAccess
  | OPost _ PostPromote => KPromote
  | OPost _ _ => KPost
  | _ => KQuiet
  end.

(** Reads and events are always within. *)
Definition within (l : list op_kind) (c : kube_op) : bool :=
  bool_decide (kind_of c = KQuiet) || bool_decide (kind_of c ∈ l).
Definition avoids (k : op_kind) (c : kube_op) : bool := negb (bool_decide (kind_of c = k)).

(** [P] allows every operation of the kinds in [l]. *)
Definition covers (l : list op_kind) (P : kube_op → bool) : Prop := ∀ c, within l c = true → P c = true.

Lemma covers_within l l' : forallb (λ k, bool_decide (k ∈ l')) l = true → covers l (within l').
Proof.
  intros Hl c. unfold within. rewrite !orb_true_iff, !bool_decide_eq_true. intros [?|Hc]; [by left|right].
  rewrite forallb_forall in Hl. specialize (Hl (kind_of c)). rewrite bool_decide_eq_true, <- list_elem_of_In in Hl. auto.
Qed.

Lemma covers_avoids l k : bool_decide (k ∉ KQuiet :: l) = true → covers l (avoids k).
Proof.
  intros Hk%bool_decide_eq_true c. unfold within, avoids.
  rewrite orb_true_iff, negb_true_iff, !bool_decide_eq_true, bool_decide_eq_false. set_solver.
Qed.

Lemma issues_covers {A} l P (p : kprog A) : kissues (within l) p → covers l P → kissues P p.
Proof.
  intros Hp Hl. induction p as [a|e|c k IH]; simpl in *; [done..|]. destruct Hp as [Hc Hk].
  split; [by apply Hl|]. intros r. apply IH, Hk.
Qed.

#[export] Hint Extern 1 (covers _ (within _)) => (apply covers_within; reflexivity) : redis.
#[export] Hint Extern 1 (covers _ (avoids _)) => (apply covers_avoids; reflexivity) : redis.

(** Walk through a handler; components with a known footprint come from the
    hints. *)
Ltac issues_step :=
  first
    [ progress intros
    | apply issues_with_ctx | apply issues_catch | apply issues_check | apply issues_check_ctx
    | apply issues_for_each
    | (apply issues_call; reflexivity)
    | exact I
    | match goal with |- issues_only _ (_ ≫= _) => apply issues_bind end
    | match goal with |- issues_only _ (match ?x with _ => _ end) => destruct x end ].
Ltac footprint :=
  unfold Event, kcall; repeat first [solve [auto 2 with redis] | progress cbn beta iota zeta | issues_step].
Ltac within_footprint := intros Hcov; eapply issues_covers; [clear Hcov|exact Hcov]; footprint.

(** ** API calls *)

Lemma listClusterPods_fp P c : covers [] P → kissues P (listClusterPods c).
Proof. unfold listClusterPods. within_footprint. Qed.
Lemma listDataPods_fp P c : covers [] P → kissues P (listDataPods c).
Proof. unfold listDataPods, listClusterPods. within_footprint. Qed.
Lemma listSentinelPods_fp P c : covers [] P → kissues P (listSentinelPods c).
Proof. unfold listSentinelPods. within_footprint. Qed.
Lemma SetController_fp P ctx c o : covers [] P → kissues P (SetControllerReference ctx c o).
Proof. unfold SetControllerReference. within_footprint. Qed.
Lemma StatusPatch_fp P b a : covers [KPatchStatus] P → kissues P (StatusPatch b a).
Proof. unfold StatusPatch. within_footprint. Qed.
Lemma Patch_fp P b a : covers [KPatchCluster] P → kissues P (Patch b a).
Proof. unfold Patch. within_footprint. Qed.
Lemma PatchLocked_fp P b a : covers [KPatchCluster] P → kissues P (PatchLocked b a).
Proof. unfold PatchLocked. within_footprint. Qed.
Lemma mark_fp P c t s r m : covers [] P → kissues P (mark c t s r m).
Proof. unfold mark. within_footprint. Qed.
Lemma delete_pod_fp P ctx n : covers [KDeletePod] P → kissues P (delete_pod ctx n).
Proof. unfold delete_pod. within_footprint. Qed.
Lemma sorted_desc_fp P c l : covers [] P → kissues P (sorted_desc c l).
Proof. unfold sorted_desc. within_footprint. Qed.
Lemma updateLeader_fp P c : covers [KPatchService] P → kissues P (updateLeaderServiceSelector c).
Proof. unfold updateLeaderServiceSelector. within_footprint. Qed.
Lemma clearLeader_fp P c : covers [KPatchService] P → kissues P (clearLeaderServiceSelector c).
Proof. unfold clearLeaderServiceSelector. within_footprint. Qed.
Lemma deletePDB_fp P c : covers [KDeletePDB] P → kissues P (deletePDB c).
Proof. unfold deletePDB. within_footprint. Qed.
Lemma postClusterJSON_fp P ip req :
  req ≠ PostPromote → covers [KPost] P → kissues P (postClusterJSON ip req).
Proof. unfold postClusterJSON. intros Hreq. destruct req; try done; within_footprint. Qed.
Lemma promoting_fp P ip req : covers [KPost; KPromote] P → kissues P (postClusterJSON ip req).
Proof. unfold postClusterJSON. destruct req; within_footprint. Qed.
Lemma promoteInstance_fp P ip : covers [KPromote] P → kissues P (promoteInstance ip).
Proof. unfold promoteInstance. within_footprint. Qed.

#[export] Hint Resolve listClusterPods_fp listDataPods_fp listSentinelPods_fp SetController_fp StatusPatch_fp Patch_fp
  PatchLocked_fp mark_fp delete_pod_fp sorted_desc_fp updateLeader_fp clearLeader_fp deletePDB_fp
  promoteInstance_fp : redis.
#[export] Hint Extern 2 (kissues _ (postClusterJSON _ _)) => (apply postClusterJSON_fp; [discriminate|]) : redis.

(** ** Resources *)

Lemma global_fp P c :
  covers [KCreateAccess; KUpdateAccess; KDeleteAccess; KCreatePDB; KPatchPDB; KDeletePDB] P →
  kissues P (reconcileGlobalResources c).
Proof.
  unfold reconcileGlobalResources, reconcileServiceAccount, reconcileRBAC, reconcile_role, reconcile_binding,
    reconcileConfigMap, reconcilePDB, adopt. within_footprint.
Qed.

Lemma services_fp P c :
  covers [KCreateService; KPatchService; KDeleteService] P → kissues P (reconcileServices c).
Proof.
  unfold reconcileServices, ensureClusterHeadlessService, ensureService, deleteServiceIfExists,
    reconcileLeaderServiceAnnotations. within_footprint.
Qed.

Lemma connection_fp P c :
  covers [KCreateSecret; KUpdateSecret; KDeleteSecret; KPatchStatus] P → kissues P (reconcileConnectionSecret c).
Proof.
  unfold reconcileConnectionSecret, ensureConnectionSecret, pruneConnectionSecrets, resolveAuthPassword.
  within_footprint.
Qed.

Lemma collect_versions_fp P refs m : covers [] P → kissues P (collect_versions refs m).
Proof.
  intros HP. revert m; induction refs as [|[k n] refs IH]; intros m; cbn [collect_versions]; [done|].
  apply issues_bind; [eapply issues_covers; [|exact HP]; footprint|]. intros [s|e]; [apply IH|].
  by destruct (IsNotFound e).
Qed.

Lemma ensureAuthSecret_fp P c n : covers [KCreateSecret] P → kissues P (ensureAuthSecret c n).
Proof. unfold ensureAuthSecret. within_footprint. Qed.

Lemma poll_fp P c : covers [] P → kissues P (pollInstanceStatuses c).
Proof.
  intros HP. eapply issues_covers; [|exact HP].
  unfold pollInstanceStatuses. apply issues_bind; [footprint|]. intros pods. generalize (∅ : gmap string InstanceStatus).
  induction pods as [|pod pods IH]; intros m; cbn [poll_pods]; [done|].
  case_bool_decide; [apply IH|]. apply issues_bind; [unfold pollPodStatus; footprint|]. intros [s|e]; [|apply IH].
  apply issues_bind; [footprint|]. intros now. apply IH.
Qed.

Lemma updateStatus_fp P c statuses : covers [KPatchStatus] P → kissues P (updateStatus c statuses).
Proof. unfold updateStatus, countReadySentinelPods. within_footprint. Qed.

#[export] Hint Resolve global_fp services_fp connection_fp collect_versions_fp ensureAuthSecret_fp poll_fp
  updateStatus_fp : redis.

Lemma secrets_fp P c :
  covers [KCreateSecret; KPatchCluster; KPatchStatus] P → kissues P (reconcileSecrets c).
Proof. unfold reconcileSecrets, persist_auth_secret, report_rotations. within_footprint. Qed.

Lemma hibernation_fp P c :
  covers [KDeletePod; KDeletePDB; KPatchStatus; KPatchService] P → kissues P (reconcileHibernation c).
Proof. unfold reconcileHibernation, hibernate, resume. within_footprint. Qed.

Lemma maintenance_fp P c :
  covers [KDeletePDB; KPatchStatus; KCreatePDB; KPatchPDB] P → kissues P (reconcileMaintenance c).
Proof. unfold reconcileMaintenance, reconcilePDB. within_footprint. Qed.

Lemma ensure_pvcs_fp P c indices p : covers [KCreatePVC; KPatchPVC] P → kissues P (ensure_pvcs c indices p).
Proof.
  intros HP. eapply issues_covers; [|exact HP].
  revert p; induction indices as [|i indices IH]; intros p; cbn [ensure_pvcs]; [done|]. cbn zeta.
  apply issues_bind; [footprint|]. intros [pvc|e].
  - apply issues_bind; [|intros pvc'; apply IH]. destruct (q_Cmp _ _); [done..|].
    unfold grow_pvc, canExpandPVC. footprint.
  - destruct (negb _); [done|]. apply issues_bind; [unfold createPVC; footprint|]. intros _. apply IH.
Qed.

Lemma recycle_fp P c : covers [KDeletePVC] P → kissues P (recyclePVCsForMissingPods c).
Proof. unfold recyclePVCsForMissingPods, recycle_pvc. within_footprint. Qed.

Lemma pvcs_fp P c : covers [KCreatePVC; KPatchPVC; KPatchStatus] P → kissues P (reconcilePVCs c).
Proof.
  intros HP. eapply issues_covers; [|exact HP]. unfold reconcilePVCs. cbn zeta.
  apply issues_bind; [apply ensure_pvcs_fp; auto with redis|]. footprint.
Qed.

Lemma replica_mode_fp P c statuses :
  covers [KPatchCluster; KPatchStatus] P → kissues P (reconcileReplicaModePromotion c statuses).
Proof. unfold reconcileReplicaModePromotion, disable_replica_mode. within_footprint. Qed.

Lemma query_sentinels_fp P name roots pods n : covers [] P → kissues P (query_sentinels name roots pods n).
Proof.
  intros HP. eapply issues_covers; [|exact HP].
  revert n; induction pods as [|pod pods IH]; intros n; cbn [query_sentinels]; [done|].
  case_bool_decide; [apply IH|]. apply issues_bind; [unfold querySentinelMaster; footprint|]. intros [[host port]|e]; [done|apply IH].
Qed.

Lemma sentinel_master_fp P parses c :
  covers [KPatchStatus; KPatchService; KPatchPod] P → kissues P (reconcileSentinelMaster parses c).
Proof.
  intros HP. eapply issues_covers; [|exact HP].
  unfold reconcileSentinelMaster, sentinelClientTLSConfig, adopt_master, updateDataPodRoleLabels.
  case_bool_decide; [done|]. apply issues_bind; [footprint|]. intros pods. apply issues_bind; [footprint|]. intros roots.
  apply issues_bind; [apply query_sentinels_fp; auto with redis|]. intros [attempted host]. footprint.
Qed.

(** ** Pods *)

Lemma adopt_pod_fp P kind c pod l : covers [KPatchPod] P → kissues P (adopt_pod kind c pod l).
Proof. unfold adopt_pod. within_footprint. Qed.
Lemma restore_fp P r c n i role : covers [] P → kissues P (restore_containers r c n i role).
Proof. unfold restore_containers, getBootstrapBackup. within_footprint. Qed.
Lemma createPod_fp P r c n i role l :
  covers [KCreatePod; KPatchPod] P → kissues P (createPodWithLabels r c n i role l).
Proof.
  intros HP. eapply issues_covers; [|exact HP]. unfold createPodWithLabels.
  apply issues_bind; [footprint|]. intros [pod|e].
  - apply adopt_pod_fp; auto with redis.
  - unfold restore_containers, getBootstrapBackup. footprint.
Qed.
Lemma scale_down_fp P c pods d : covers [KDeletePod] P → kissues P (scale_down c pods d).
Proof. unfold scale_down, scale_down_pod. within_footprint. Qed.
Lemma sentinel_pods_fp P r c :
  covers [KCreatePod; KPatchPod; KDeletePod] P → kissues P (reconcileSentinelPods r c).
Proof.
  intros HP. eapply issues_covers; [|exact HP].
  unfold reconcileSentinelPods, createSentinelPod. case_bool_decide; [done|]. case_bool_decide; [done|].
  apply issues_bind; [footprint|]. intros pods. cbn zeta. apply issues_bind; [|intros _; footprint].
  apply issues_for_each. intros i _. apply issues_with_ctx, issues_bind; [footprint|]. intros [pod|e]; [|footprint].
  match goal with |- issues_only _ (if ?b then _ else _) => destruct b end;
    [apply delete_pod_fp|apply adopt_pod_fp]; auto with redis.
Qed.

#[export] Hint Resolve secrets_fp hibernation_fp maintenance_fp ensure_pvcs_fp recycle_fp pvcs_fp replica_mode_fp
  query_sentinels_fp sentinel_master_fp adopt_pod_fp restore_fp createPod_fp scale_down_fp sentinel_pods_fp : redis.

(** ** Topology and primaries *)

Lemma add_gaps_fp P n ip gaps cov : covers [KPost] P → kissues P (add_gaps n ip gaps cov).
Proof.
  intros HP. revert cov; induction gaps as [|g gaps IH]; intros cov; cbn [add_gaps]; [done|].
  apply issues_bind; [apply issues_with_ctx; auto with redis|]. intros _. apply IH.
Qed.

Lemma assign_slots_fp P layout pods shards cov b :
  covers [KPost] P → kissues P (assign_slots layout pods shards cov b).
Proof.
  intros HP. revert cov b; induction shards as [|[i t] shards IH]; intros cov b; cbn [assign_slots]; [done|].
  case_bool_decide; [done|]. apply issues_bind; [by apply add_gaps_fp|]. intros cov'. apply IH.
Qed.

Lemma attach_replicas_fp P layout pods statuses names b :
  covers [KPost] P → kissues P (attach_replicas layout pods statuses names b).
Proof.
  intros HP. revert b; induction names as [|n names IH]; intros b; cbn [attach_replicas]; [done|]. cbn zeta.
  destruct (isPrimary layout n); [apply IH|]. destruct (negb _); [apply IH|].
  destruct (handingOver _ _); [apply IH|]. case_bool_decide; [done|]. destruct (_ && _); [apply IH|].
  apply issues_bind; [apply issues_catch; auto with redis|]. intros [u|e]; [apply IH|]. by case_bool_decide.
Qed.

Lemma meet_all_fp P pods coordinator names : covers [KPost] P → kissues P (meet_all pods coordinator names).
Proof. intros HP. unfold meet_all. apply issues_for_each. intros n _. apply issues_with_ctx. auto with redis. Qed.

Lemma finish_fp P c owner : covers [KPatchCluster] P → kissues P (finishClusterHandover c owner).
Proof. unfold finishClusterHandover. within_footprint. Qed.
Lemma begin_fp P c owner heir : covers [KPatchCluster] P → kissues P (beginClusterHandover c owner heir).
Proof. unfold beginClusterHandover. within_footprint. Qed.

#[export] Hint Resolve add_gaps_fp assign_slots_fp attach_replicas_fp meet_all_fp finish_fp begin_fp promoting_fp : redis.

Lemma resume_fp P c pods statuses :
  covers [KPatchCluster; KPost; KPromote] P → kissues P (resumeClusterHandover c pods statuses).
Proof. unfold resumeClusterHandover. within_footprint. Qed.

Lemma bootstrap_fp P c statuses :
  covers [KPatchCluster; KPost; KPromote] P → kissues P (reconcileClusterBootstrap c statuses).
Proof.
  intros HP. eapply issues_covers; [|exact HP]. unfold reconcileClusterBootstrap. case_bool_decide; [done|].
  apply issues_bind; [footprint|]. intros pods. destruct (negb _); [apply resume_fp; auto with redis|].
  unfold bootstrap_pods. footprint.
Qed.

Lemma segment_fp P c statuses pods m :
  covers [KPatchCluster; KPost] P → kissues P (reshard_segment c statuses pods m).
Proof. unfold reshard_segment, handOverShard. within_footprint. Qed.

#[export] Hint Resolve resume_fp bootstrap_fp segment_fp : redis.

Lemma reshard_fp P c statuses :
  covers [KPatchCluster; KPost] P → kissues P (reconcileClusterReshard c statuses).
Proof. unfold reconcileClusterReshard, reshard_pods. within_footprint. Qed.

Lemma setFence_fp P c p : covers [KPatchCluster] P → kissues P (setFence c p).
Proof. unfold setFence, setFencedPods. within_footprint. Qed.
Lemma clearFence_fp P c p : covers [KPatchCluster] P → kissues P (clearFence c p).
Proof. unfold clearFence, setFencedPods. within_footprint. Qed.
Lemma select_fp P c : covers [] P → kissues P (selectFailoverCandidate c).
Proof. unfold selectFailoverCandidate. within_footprint. Qed.

#[export] Hint Resolve reshard_fp setFence_fp clearFence_fp select_fp : redis.

Lemma failover_fp P c :
  covers [KPatchCluster; KPatchStatus; KPatchService; KPromote] P → kissues P (failover c).
Proof. unfold failover. within_footprint. Qed.
Lemma switchover_fp P c :
  covers [KPatchCluster; KPatchStatus; KPatchService; KPromote] P → kissues P (switchover c).
Proof. unfold switchover. within_footprint. Qed.

#[export] Hint Resolve failover_fp switchover_fp : redis.

(** ** Steps of the pass *)

Lemma topology_fp P c statuses m :
  covers [KPatchCluster; KPost; KPromote] P → kissues P (reconcile_topology c statuses m).
Proof. unfold reconcile_topology. within_footprint. Qed.

Lemma primary_fp P c statuses m :
  covers [KPatchCluster; KPatchStatus; KPatchService; KPromote] P → kissues P (reconcile_primary c statuses m).
Proof. unfold reconcile_primary. within_footprint. Qed.

(** During maintenance the operator does not fail over. *)
Lemma primary_maintenance_fp P c statuses :
  covers [KPatchCluster; KPatchStatus] P → kissues P (reconcile_primary c statuses true).
Proof. unfold reconcile_primary. within_footprint. Qed.

Lemma observe_fp P c :
  covers [KCreateSecret; KUpdateSecret; KDeleteSecret; KPatchCluster; KPatchStatus; KCreateService; KPatchService;
          KDeleteService] P →
  kissues P (observe c).
Proof. unfold observe. within_footprint. Qed.

Lemma storage_fp P c m :
  covers [KCreatePVC; KPatchPVC; KDeletePVC; KPatchStatus] P → kissues P (reconcile_storage c m).
Proof. unfold reconcile_storage. within_footprint. Qed.

Lemma sentinel_fp P r c m :
  covers [KCreatePod; KPatchPod; KDeletePod; KPatchStatus; KPatchService] P → kissues P (reconcile_sentinel r c m).
Proof. unfold reconcile_sentinel. within_footprint. Qed.

Lemma reconcilePods_fp P r c statuses :
  covers [KCreatePod; KPatchPod; KDeletePod; KPatchStatus] P → kissues P (reconcilePods r c statuses).
Proof. unfold reconcilePods, plan_pods, ensure_pods, set_initial_primary. within_footprint. Qed.

#[export] Hint Resolve topology_fp primary_fp observe_fp storage_fp sentinel_fp reconcilePods_fp : redis.
