(* ===== verification/ReconcileFacts.v ===== *)
(** * Guarantees of a whole pass

    The components composed: what holds of every run of [reconcile], whatever
    the API server and the instances answer.

    - no instance is promoted in a pass unless the fence of a former primary is
      on record: in the object the pass started from, in an accepted patch, or
      in an object the server returned earlier in the pass. *)
From S2P Require Import Prelude GoStr Json Api Slots Layout LayoutFacts Effects History Kube.
From S2P Require Import Fixtures Fencing FencingFacts Status Reshard RollingUpdate Resources Lifecycle Pods Reconcile Footprints.

(** ** Fences on record *)

Definition is_promote (c : kube_op) : bool := match c with OPost _ PostPromote => true | _ => false end.

(** The event establishes, or shows, that [p] is fenced. *)
Definition shows_fence (p : string) (e : event kube) : Prop :=
  match e with existT c r =>
    match c return kube_ret c → Prop with
    | OPatchCluster _ _ a => λ r, ∃ c', r = Ok c' ∧ (writes_fence a p ∨ p ∈ getFencedPods c')
    | OPatchStatus _ _ | OGetCluster => λ r, ∃ c', r = Ok c' ∧ p ∈ getFencedPods c'
    | _ => λ _, False
    end r
  end.

Section pass.
Context (cluster0 : RedisCluster).

Definition on_record (p : string) (h : trace kube) : Prop :=
  p ∈ getFencedPods cluster0 ∨ ∃ e, e ∈ h ∧ shows_fence p e.

(** Every fence of the object [c] is on record. *)
Definition known (h : trace kube) (c : RedisCluster) : Prop := ∀ p, p ∈ getFencedPods c → on_record p h.

Definition promotion_guard (h : trace kube) (c : kube_op) : Prop :=
  is_promote c = true → ∃ p, on_record p h.

Abbreviation safely h p Q := (safe (S := kube) promotion_guard h p Q).

Lemma on_record_mono p h h' : h `prefix_of` h' → on_record p h → on_record p h'.
Proof.
  intros [tr ->] [H|(e & He & Hs)]; [by left|]. right. exists e. split; [|done]. apply elem_of_app. by left.
Qed.

Lemma known_mono h h' c : h `prefix_of` h' → known h c → known h' c.
Proof. intros Hp Hk p Hin. by eapply on_record_mono, Hk. Qed.

Lemma known_annotations h c c' : Annotations c' = Annotations c → known h c → known h c'.
Proof. unfold known, getFencedPods. by intros ->. Qed.

Lemma known_response h (e : event kube) c :
  (∀ p, p ∈ getFencedPods c → shows_fence p e) → known (h ++ [e]) c.
Proof. intros He p Hp. right. exists e. split; [set_solver|by apply He]. Qed.

Lemma guard_other h c : avoids KPromote c = true → promotion_guard h c.
Proof. unfold avoids, promotion_guard. destruct c as []; try done. by destruct req. Qed.

Lemma safe_quiet {A} h (p : kprog A) : kissues (avoids KPromote) p → safely h p (λ _ _, True).
Proof. intros Hp. eapply safe_issues; [exact Hp|by intros; apply guard_other|done]. Qed.

Lemma safe_kcall {A} h c (f : kube_ret c → kprog A) Q :
  avoids KPromote c = true → (∀ r, safely (h ++ [kev c r]) (f r) Q) → safely h (kcall c ≫= f) Q.
Proof. intros Hc Hf. split; [by apply guard_other|done]. Qed.

Lemma safe_StatusPatch h b a : safely h (StatusPatch b a) known.
Proof.
  split; [by apply guard_other|]. intros r. apply safe_check. intros c ->.
  apply known_response. simpl. eauto.
Qed.

Lemma safe_Patch h b a :
  safely h (Patch b a) (λ h' c', known h' c' ∧ ∀ p, writes_fence a p → on_record p h').
Proof.
  split; [by apply guard_other|]. intros r. apply safe_check. intros c ->. split.
  - apply known_response. simpl. eauto.
  - intros p Hp. right. eexists. split; [apply elem_of_app; right; by apply list_elem_of_singleton|]. simpl. eauto.
Qed.

Lemma safe_PatchLocked h b a : safely h (PatchLocked b a) known.
Proof.
  split; [by apply guard_other|]. intros r. apply safe_check. intros c ->.
  apply known_response. simpl. eauto.
Qed.

Lemma safe_GetCluster ctx h : safely h (kcall OGetCluster ≫= check_ctx ctx) known.
Proof.
  split; [by apply guard_other|]. intros r. apply safe_check_ctx. intros c ->.
  apply known_response. simpl. eauto.
Qed.

Lemma safe_mark h c type status reason message :
  known h c → safely h (mark c type status reason message) known.
Proof.
  intros Hc. apply safe_kcall; [done|]. intros now. simpl.
  eapply known_mono; [by apply prefix_app_r|]. by eapply known_annotations.
Qed.

(** Histories only grow. *)
Ltac prefixes := repeat first
  [ reflexivity | apply prefix_app_r
  | match goal with H : ?a `prefix_of` ?b |- _ `prefix_of` ?b => transitivity a; [clear H|exact H] end ].

Ltac known_by H := eapply known_annotations; [|eapply known_mono; [|exact H]]; [done|prefixes].

(** Run past a component that promotes nobody. *)
Ltac pass_quiet :=
  eapply safe_bind; [apply safe_quiet; solve [footprint]|];
  let h := fresh "h" in let a := fresh "a" in let Hh := fresh "Hpre" in
  intros h a Hh _; cbn beta.

(** Run past a component that returns a known object. *)
Ltac pass_known L :=
  eapply safe_bind; [try apply safe_with_ctx; eapply L; eauto using known_mono|];
  let h := fresh "h" in let a := fresh "a" in let Hh := fresh "Hpre" in let Hk := fresh "Hk" in
  intros h a Hh Hk; cbn beta in *.

Lemma hibernation_safe h c :
  known h c → safely h (reconcileHibernation c) (λ h' x, known h' x.2).
Proof.
  intros Hc. unfold reconcileHibernation. destruct (isHibernationEnabled c).
  - eapply (safe_bind _ _ _ _ known); [|by intros h' c' _ H]. unfold hibernate. do 4 pass_quiet.
    pass_known safe_mark. apply safe_with_ctx, safe_StatusPatch.
  - destruct (wasHibernated c); [|done]. eapply (safe_bind _ _ _ _ known); [|by intros h' c' _ H].
    unfold resume. pass_quiet. pass_known safe_mark. apply safe_with_ctx, safe_StatusPatch.
Qed.

Lemma maintenance_safe h c :
  known h c → safely h (reconcileMaintenance c) (λ h' x, known h' x.2).
Proof.
  intros Hc. unfold reconcileMaintenance. destruct (isMaintenanceInProgress c); simpl negb; cbn iota.
  - pass_quiet. destruct (condition_true c _); [simpl; eauto using known_mono|]. pass_quiet. pass_known safe_mark.
    eapply safe_bind; [apply safe_with_ctx, safe_StatusPatch|]. by intros h' c' _ H.
  - destruct (condition_true c _); [|done]. simpl negb; cbn iota. pass_quiet. pass_known safe_mark.
    eapply safe_bind; [apply safe_with_ctx, safe_StatusPatch|]. by intros h' c' _ H.
Qed.

Lemma secrets_safe h c : known h c → safely h (reconcileSecrets c) known.
Proof.
  intros Hc. unfold reconcileSecrets. eapply (safe_bind _ _ _ _ known).
  { unfold persist_auth_secret. destruct (Spec_AuthSecret (Spec c)); [done|].
    eapply safe_bind; [apply safe_with_ctx, safe_quiet; footprint|]. intros h1 _ _ _.
    pass_quiet. apply safe_GetCluster. }
  intros h1 c1 _ _. apply safe_kcall; [done|]. intros ord.
  eapply safe_bind; [apply safe_quiet; footprint|]. intros h2 versions _ _.
  eapply safe_bind; [apply safe_quiet; unfold report_rotations; footprint|]. intros h3 _ _ _.
  apply safe_with_ctx, safe_StatusPatch.
Qed.

Lemma updateStatus_safe h c statuses : known h c → safely h (updateStatus c statuses) known.
Proof.
  intros Hc. unfold updateStatus. apply safe_kcall; [done|]. intros ord.
  eapply (safe_bind _ _ _ _ known).
  { case_bool_decide.
    - pass_quiet. apply safe_kcall; [done|]. intros ord'.
      destruct (deriveClusterStatus _ _ _ _) as [[[state slots] shards]|]; [|done]. simpl.
      known_by Hc.
    - simpl. known_by Hc. }
  intros h1 c1 _ Hk.
  eapply safe_bind; [apply safe_with_ctx, safe_quiet; unfold countReadySentinelPods; footprint|]. intros h2 n Hpre2 _.
  apply safe_kcall; [done|]. intros ord2. cbn zeta.
  eapply safe_bind; [apply safe_quiet; footprint|]. intros h3 [] Hpre3 _.
  apply safe_kcall; [done|]. intros now. apply safe_kcall; [done|]. intros ord3. cbn zeta.
  case_bool_decide; [|apply safe_StatusPatch]. simpl.
  known_by Hk.
Qed.

(** ** The handlers that promote *)

Lemma setFence_safe h c p :
  known h c → safely h (setFence c p) (λ h' c', known h' c' ∧ on_record p h').
Proof.
  intros Hc. unfold setFence. eapply (safe_bind _ _ _ _ known).
  { case_bool_decide; [|done]. apply safe_with_ctx. eapply safe_mono; [apply safe_Patch|]. by intros h' c' _ []. }
  intros g1 c1 _ Hk1. cbn zeta. case_bool_decide as Hin; [by split; [|apply Hk1]|].
  eapply safe_bind; [apply safe_Patch|]. intros g2 c2 _ [Hk2 Hw]. pass_quiet. simpl.
  split; [by eapply known_mono|]. eapply on_record_mono; [done|]. apply Hw, writes_fence_with. set_solver.
Qed.

Lemma clearFence_safe h c p : safely h (clearFence c p) known.
Proof.
  unfold clearFence. eapply safe_bind; [apply safe_Patch|]. intros g1 c1 _ [Hk _]. pass_quiet. simpl.
  by eapply known_mono.
Qed.

(** A promotion after a fence is on record. *)
Lemma promote_safe h ip p : on_record p h → safely h (promoteInstance ip) (λ _ _, True).
Proof.
  intros Hr. split; [intros _; eauto|]. intros [msg|code body]; simpl; [done|]. by case_bool_decide.
Qed.

Lemma failover_safe h c : known h c → safely h (failover c) known.
Proof.
  intros Hc. unfold failover. pass_quiet.
  eapply safe_bind; [apply safe_with_ctx, setFence_safe; eauto using known_mono|]. intros g1 c1 Hpre1 [Hk1 Hr].
  pass_quiet. case_bool_decide; [done|]. pass_quiet. eapply (safe_bind _ _ _ _ (λ _ _, True)).
  { destruct (promotable _ _); [|done]. eapply safe_with_ctx, promote_safe, on_record_mono; [|exact Hr]. prefixes. }
  intros g2 _ _ _. eapply safe_bind; [apply safe_with_ctx, safe_StatusPatch|]. intros g3 c3 _ Hk3.
  pass_quiet. eapply safe_bind; [apply safe_with_ctx, clearFence_safe|]. intros g4 c4 _ Hk4.
  do 2 pass_quiet. simpl. by eauto using known_mono.
Qed.

Lemma switchover_safe h c : known h c → safely h (switchover c) known.
Proof.
  intros Hc. unfold switchover. case_bool_decide; [done|].
  eapply safe_bind; [apply safe_with_ctx, setFence_safe; eauto using known_mono|]. intros g1 c1 Hpre1 [Hk1 Hr].
  pass_quiet. case_bool_decide; [done|]. pass_quiet. destruct (promotable _ _); [|done].
  eapply safe_bind.
  { eapply safe_with_ctx, promote_safe, on_record_mono; [|exact Hr]. prefixes. }
  intros g2 _ _ _. eapply safe_bind; [apply safe_with_ctx, safe_StatusPatch|]. intros g3 c3 _ Hk3.
  pass_quiet. apply safe_with_ctx, clearFence_safe.
Qed.

Lemma finish_safe h c owner : safely h (finishClusterHandover c owner) known.
Proof.
  unfold finishClusterHandover. eapply safe_bind; [apply safe_with_ctx, safe_PatchLocked|]. intros g1 c1 _ Hk.
  pass_quiet. simpl. by eapply known_mono.
Qed.

Lemma begin_safe h c owner heir : safely h (beginClusterHandover c owner heir) known.
Proof.
  unfold beginClusterHandover. destruct (negb _); [done|]. cbn zeta. destruct (_ || _); [done|].
  eapply safe_bind; [apply safe_with_ctx, safe_PatchLocked|]. intros g1 c1 _ Hk.
  pass_quiet. simpl. by eapply known_mono.
Qed.

Lemma resume_safe h c pods statuses :
  known h c → safely h (resumeClusterHandover c pods statuses) (λ h' x, known h' x.2).
Proof.
  intros Hc. unfold resumeClusterHandover. destruct (ClusterHandoverPods c) as [[owner heir]|] eqn:Hho; [|done].
  cbn zeta.
  assert (∀ h', safely h' (finishClusterHandover c owner ≫= λ c', mret (false, c')) (λ h' x, known h' x.2)) as Hfin.
  { intros h'. eapply safe_bind; [apply finish_safe|]. by intros g1 c1 _ Hk. }
  destruct (last_pod_named pods owner) as [op|]; [|done].
  destruct (last_pod_named pods heir) as [hp|]; [|done].
  destruct (bool_decide_reflect (owner ∈ getFencedPods c)) as [Hin|]; [|done]. simpl negb. cbn [orb].
  destruct (bool_decide (heir ∈ _)); [done|]. destruct (_ || _); [done|]. destruct (_ && _); [done|].
  destruct (_ || _); [done|]. destruct (isPodRunningAndReady op); [done|].
  eapply (safe_bind _ _ _ _ (λ _ _, True)).
  { apply safe_with_ctx. unfold postClusterJSON. case_bool_decide; [done|].
    split; [intros _; exists owner; by apply Hc|].
    intros [msg|code body]; simpl; [done|]. case_bool_decide; [|done]. exact I. }
  intros g1 [] Hpre1 _. pass_quiet. simpl. by eauto using known_mono.
Qed.

Lemma bootstrap_safe h c statuses :
  known h c → safely h (reconcileClusterBootstrap c statuses) (λ h' x, known h' x.2).
Proof.
  intros Hc. unfold reconcileClusterBootstrap. case_bool_decide; [done|].
  pass_quiet. destruct (negb _); [apply resume_safe; eauto using known_mono|].
  unfold bootstrap_pods. cbn zeta. do 2 (case_bool_decide; [simpl; eauto using known_mono|]).
  destruct (negb _); [simpl; eauto using known_mono|].
  eapply safe_bind; [apply safe_quiet; footprint|].
  intros g1 [] Hg1 _. apply safe_kcall; [done|]. intros ord.
  destruct (planShardLayout _ _ _ _) as [layout|]; [|done].
  eapply safe_bind; [apply safe_quiet; footprint|]. intros g2 [performed|] Hg2 _; [|simpl; known_by Hc].
  eapply safe_bind; [apply safe_quiet; footprint|].
  intros g3 [[]|] Hg3 _; simpl; known_by Hc.
Qed.

Lemma reshard_safe h c statuses :
  known h c → safely h (reconcileClusterReshard c statuses) (λ h' x, known h' x.2).
Proof.
  intros Hc. unfold reconcileClusterReshard. do 2 (case_bool_decide; [done|]). destruct (_ || _); [done|].
  pass_quiet. unfold reshard_pods. cbn zeta. apply safe_kcall; [done|]. intros ord.
  destruct (planShardLayout _ _ _ _) as [layout|]; [|done]. cbn zeta.
  destruct (existsb _ _); [simpl; known_by Hc|]. destruct (negb _); [simpl; known_by Hc|].
  destruct (first_misplaced _ _) as [m|]; [|simpl; known_by Hc].
  unfold reshard_segment. cbn zeta. case_bool_decide.
  { eapply safe_bind; [apply safe_with_ctx, safe_quiet; footprint|].
    intros g1 [] Hg1 _. simpl. known_by Hc. }
  destruct (statuses !! ms_owner m) as [src|]; [|simpl; known_by Hc].
  do 2 (case_bool_decide; [simpl; known_by Hc|]). destruct (podIndex _ _); [|done].
  destruct (_ && _).
  - eapply (safe_bind _ _ _ _ known); [|by intros g1 c1 _ Hk1]. unfold handOverShard.
    destruct (_ || _).
    + eapply safe_bind; [apply safe_quiet; footprint|].
      intros g1 [u|e] Hg1 _; [pass_quiet; simpl; known_by Hc|]. case_bool_decide; [simpl; known_by Hc|done].
    + destruct (negb _); [simpl; known_by Hc|]. apply begin_safe.
  - eapply safe_bind; [apply safe_with_ctx, safe_quiet; footprint|].
    intros g1 [] Hg1 _. simpl. known_by Hc.
Qed.

Lemma replica_mode_safe h c statuses :
  known h c → safely h (reconcileReplicaModePromotion c statuses) (λ h' x, known h' x.2).
Proof.
  intros Hc. unfold reconcileReplicaModePromotion. destruct (Spec_ReplicaMode (Spec c)) as [rm|]; [|done]. cbn zeta.
  destruct (_ && negb _); [done|]. case_bool_decide; [done|]. destruct (negb _); [done|].
  eapply (safe_bind _ _ _ _ known).
  { destruct (_ && _); [|done]. unfold disable_replica_mode. pass_quiet. apply safe_GetCluster. }
  intros g1 c1 _ Hk1. destruct (replicaModePromotedConditionSet c1); [done|].
  pass_known safe_mark. eapply safe_bind; [apply safe_with_ctx, safe_StatusPatch|]. intros g2 c2 _ Hk2.
  pass_quiet. simpl. by eapply known_mono.
Qed.

(** ** Storage, pods, updates, sentinels *)

Lemma storage_safe h c m : known h c → safely h (reconcile_storage c m) (λ h' x, known h' x.2).
Proof.
  intros Hc. unfold reconcile_storage. cbn zeta.
  eapply safe_bind; [apply safe_quiet; footprint|].
  intros g1 [] Hg1 _. destruct (negb _); [|simpl; known_by Hc]. apply safe_with_ctx.
  unfold reconcilePVCs. cbn zeta. eapply safe_bind; [apply safe_quiet; footprint|]. intros g2 p Hg2 _.
  apply safe_kcall; [done|]. intros r. pass_quiet. pass_quiet. eapply (safe_bind _ _ _ _ (λ _ _, True)).
  { destruct (pp_resizing p); [apply safe_quiet; unfold mark; footprint|].
    destruct (condition_true _ _); [apply safe_quiet; unfold mark; footprint|done]. }
  intros g3 after Hg3 _. eapply safe_bind; [apply safe_with_ctx, safe_StatusPatch|]. intros g4 c4 Hg4 Hk4.
  do 2 pass_quiet. simpl. known_by Hk4.
Qed.

Lemma pods_safe r h c statuses : known h c → safely h (reconcilePods r c statuses) known.
Proof.
  intros Hc. unfold reconcilePods. pass_quiet. pass_quiet. eapply safe_bind; [apply safe_quiet; unfold plan_pods; footprint|].
  intros g1 layout Hg1 _. eapply safe_bind.
  { apply safe_quiet. unfold ensure_pods. footprint. }
  intros g2 [] Hg2 _. eapply safe_bind; [apply safe_quiet; footprint|].
  intros g3 [] Hg3 _. unfold set_initial_primary. destruct (_ && _ && _); [|simpl; known_by Hc].
  apply safe_with_ctx, safe_StatusPatch.
Qed.

Lemma pause_safe h c : known h c → safely h (pauseForPrimaryApproval c) (λ h' x, known h' x.2).
Proof.
  intros Hc. unfold pauseForPrimaryApproval. cbn zeta. destruct (_ && _); [done|].
  eapply safe_bind; [apply safe_quiet; footprint|]. intros g1 after Hg1 _.
  eapply safe_bind; [apply safe_with_ctx, safe_StatusPatch|]. intros g2 c2 Hg2 Hk2. pass_quiet. simpl. known_by Hk2.
Qed.

Lemma consume_safe h c b : known h c → safely h (consume_approval c b) known.
Proof.
  intros Hc. unfold consume_approval. destruct b; [|done]. apply safe_with_ctx. unfold clearPrimaryUpdateApproval.
  eapply safe_bind; [apply safe_quiet; footprint|]. intros g1 c1 Hg1 _. apply safe_kcall; [done|]. intros now.
  apply safe_with_ctx, safe_StatusPatch.
Qed.

Lemma restart_safe h c pending : known h c → safely h (restartPodsForPendingResize c pending) (λ h' x, known h' x.2).
Proof.
  intros Hc. unfold restartPodsForPendingResize. pass_quiet. unfold restart_pods. cbn zeta. pass_quiet.
  destruct (List.find _ _); [do 2 pass_quiet; simpl; known_by Hc|].
  destruct (negb _); [simpl; known_by Hc|]. destruct (last_pod_named _ _) as [p|]; [|simpl; known_by Hc].
  destruct (negb _); [simpl; known_by Hc|]. case_bool_decide; [do 2 pass_quiet; simpl; known_by Hc|].
  destruct (negb _); [simpl; known_by Hc|]. pass_quiet.
  eapply safe_bind; [apply safe_with_ctx, switchover_safe; known_by Hc|]. by intros g1 c1 _ Hk1.
Qed.

Lemma update_primary_safe h c p replicas : known h c → safely h (update_primary c p replicas) (λ h' x, known h' x.2).
Proof.
  intros Hc. unfold update_primary. cbn zeta. destruct (_ && _); [by apply pause_safe|]. case_bool_decide.
  - pass_quiet. eapply safe_bind; [apply consume_safe; known_by Hc|]. by intros g1 c1 _ Hk1.
  - eapply safe_bind; [apply safe_with_ctx, switchover_safe; done|]. intros g1 c1 _ Hk1.
    eapply safe_bind; [apply consume_safe, Hk1|]. by intros g2 c2 _ Hk2.
Qed.

Lemma shard_safe h c hash podsByName sh :
  known h c →
  safely h (rolling_update_shard c hash podsByName sh) (λ h' x, from_option (λ y, known h' y.2) True x).
Proof.
  intros Hc. unfold rolling_update_shard. cbn zeta. case_bool_decide; [done|]. pass_quiet.
  destruct (List.find _ _); [pass_quiet; simpl; known_by Hc|].
  destruct (last_pod_named _ _) as [p|]; [|done]. destruct (negb _); [done|].
  destruct a as [|candidate rest]; [pass_quiet; simpl; known_by Hc|].
  case_bool_decide; [simpl; known_by Hc|].
  eapply safe_bind; [apply safe_with_ctx, setFence_safe; known_by Hc|]. intros g1 c1 Hg1 [Hk1 Hr].
  eapply safe_bind; [by eapply safe_with_ctx, promote_safe|]. intros g2 [] Hg2 _.
  eapply safe_bind; [apply safe_with_ctx, clearFence_safe|]. by intros g3 c3 _ Hk3.
Qed.

Lemma shards_safe h c hash podsByName shards :
  known h c → safely h (rolling_update_shards c hash podsByName shards) (λ h' x, known h' x.2).
Proof.
  revert h; induction shards as [|i shards IH]; intros h Hc; cbn [rolling_update_shards]; [done|].
  destruct (Status_Shards (Status c) !! shardName i) as [sh|]; [|by apply IH].
  eapply safe_bind; [by eapply shard_safe|]. intros g1 [res|] Hg1 Hk; [exact Hk|]. apply IH. known_by Hc.
Qed.

Lemma rolling_safe h c hash : known h c → safely h (rollingUpdate c hash) (λ h' x, known h' x.2).
Proof.
  intros Hc. unfold rollingUpdate. case_bool_decide.
  - unfold rollingUpdateClusterMode. pass_quiet. case_bool_decide; [simpl; known_by Hc|].
    apply shards_safe. known_by Hc.
  - pass_quiet. unfold rolling_update_pods. cbn zeta. pass_quiet. pass_quiet.
    destruct (List.find _ _); [pass_quiet; simpl; known_by Hc|].
    destruct (last_pod_named _ _) as [p|]; [destruct (outdated _ _)|];
      [apply update_primary_safe; known_by Hc|pass_quiet; simpl; known_by Hc..].
Qed.

(** ** The pass *)

Lemma observe_safe h c : known h c → safely h (observe c) (λ h' x, known h' x.2).
Proof.
  intros Hc. unfold observe. eapply safe_bind; [by apply safe_with_ctx, secrets_safe|]. intros g1 c1 _ Hk1.
  eapply safe_bind; [apply safe_with_ctx, safe_quiet; footprint|]. intros g2 [] Hg2 _.
  eapply safe_bind; [apply safe_with_ctx, safe_quiet; footprint|]. intros g3 [] Hg3 _.
  eapply safe_bind; [apply safe_quiet; footprint|]. intros g4 polled Hg4 _. cbn zeta.
  eapply safe_bind; [apply safe_with_ctx, updateStatus_safe; known_by Hk1|]. by intros g5 c5 _ Hk5.
Qed.

Lemma topology_safe h c statuses m : known h c → safely h (reconcile_topology c statuses m) (λ h' x, known h' x.2).
Proof.
  intros Hc. unfold reconcile_topology. destruct (_ && _); [|done].
  eapply safe_bind; [by apply safe_with_ctx, bootstrap_safe|]. intros g1 [ready c1] _ Hk1.
  destruct (negb ready); [done|]. by apply safe_with_ctx, reshard_safe.
Qed.

Lemma primary_safe h c statuses m : known h c → safely h (reconcile_primary c statuses m) (λ h' x, known h' x.2).
Proof.
  intros Hc. unfold reconcile_primary.
  eapply safe_bind; [by apply safe_with_ctx, replica_mode_safe|]. intros g1 [promoted c1] _ Hk1.
  destruct promoted; [done|]. apply safe_kcall; [done|]. intros ord. destruct (_ && _); [|simpl; known_by Hk1].
  eapply safe_bind; [apply safe_with_ctx, failover_safe; known_by Hk1|]. by intros g2 c2 _ Hk2.
Qed.

Lemma workload_safe r h c statuses m mr pending :
  known h c → safely h (reconcile_workload r c statuses m mr pending) (λ h' x, known h' x.2).
Proof.
  intros Hc. unfold reconcile_workload. destruct (_ || _); [|done].
  eapply safe_bind; [by apply safe_with_ctx, pods_safe|]. intros g1 c1 _ Hk1. destruct m; [done|].
  eapply (safe_bind _ _ _ _ (λ h' x, known h' x.2)); [case_bool_decide; [done|by apply safe_with_ctx, restart_safe]|].
  intros g2 [stop c2] _ Hk2. destruct stop; [done|].
  eapply safe_bind; [by apply safe_with_ctx, rolling_safe|]. by intros g3 [b c3] _ Hk3.
Qed.

Lemma act_safe r h c statuses m : known h c → safely h (act r c statuses m) (λ _ _, True).
Proof.
  intros Hc. unfold act. eapply safe_bind; [by apply topology_safe|]. intros g1 [ready c1] _ Hk1.
  destruct (negb ready); [done|]. eapply safe_bind; [by apply primary_safe|]. intros g2 [cont c2] _ Hk2.
  destruct (negb cont); [done|]. apply safe_kcall; [done|]. intros ord.
  destruct (checkReachability _ _ _); [done|]. cbn zeta.
  eapply safe_bind; [apply storage_safe; known_by Hk2|]. intros g3 [pending c3] _ Hk3.
  eapply safe_bind; [by apply workload_safe|]. intros g4 [stop c4] _ Hk4. destruct stop; [done|].
  by eapply safe_bind; [apply safe_quiet; footprint|].
Qed.

Lemma reconcile_safe r h c : known h c → safely h (reconcile r c) (λ _ _, True).
Proof.
  intros Hc. unfold reconcile. eapply safe_bind; [apply safe_with_ctx, safe_quiet; footprint|].
  intros g1 [] Hg1 _. eapply safe_bind; [apply safe_with_ctx, hibernation_safe; known_by Hc|].
  intros g2 [hibernating c2] _ Hk2. destruct hibernating; [done|].
  eapply safe_bind; [by apply safe_with_ctx, maintenance_safe|]. intros g3 [maintenance c3] _ Hk3.
  eapply safe_bind; [by apply observe_safe|]. intros g4 [statuses c4] _ Hk4. by apply act_safe.
Qed.
End pass.

(** C3: In a whole pass, whatever the API server and the instances answer,
    an instance is asked to promote itself only after the fence of some pod is
    on record: in the object the pass started from, in an accepted patch of the
    object earlier in the pass, or in an object the server returned earlier. *)
Theorem promotion_needs_fence r cluster tr out tr1 e tr2 :
  runs (reconcile r cluster) tr out → tr = tr1 ++ e :: tr2 → is_promote (ev_op e) = true →
  ∃ p, on_record cluster p tr1.
Proof.
  intros Hr -> He.
  assert (known cluster [] cluster) as Hk by by left.
  destruct (safe_runs _ _ _ _ _ _ (reconcile_safe cluster r [] cluster Hk) Hr) as [H _].
  exact (H tr1 e tr2 eq_refl He).
Qed.

(** The primary of [three] does not answer: the pass fails over to [c-2]. *)
Definition plain_reconciler : ClusterReconciler := mkReconciler "operator:1" (λ s, s) (λ _, true).
Definition reply (role : string) (offset : Z) : podStatusResponse :=
  mkPodStatus role offset 0 "up" true "" "" "" [] 0 0.
Definition failing_world : world :=
  mkWorld three (with_label {[ LabelCluster := "c" ]} <$> three_pods)
    {[ "10.0.0.2" := reply "slave" 90; "10.0.0.3" := reply "slave" 120 ]}.

Lemma promotion_needs_fence_witness :
  ∃ p, on_record three p (take 48 (fake_trace failing_world (reconcile plain_reconciler three))).
Proof.
  eapply promotion_needs_fence; [apply fake_runs|symmetry; apply take_drop_middle; vm_compute; reflexivity|reflexivity].
Defined.
