(* ===== verification/PodsFacts.v ===== *)
(** * Scaling: the guarantees

    - a pass over a healthy cluster deletes no doomed pod that still serves
      slots: the topology step stops it until the pod is drained;
    - an unhealthy cluster is not protected this way;
    - a scale-down deletes the highest ordinals only, never the recorded
      primary. *)
From S2P Require Import Prelude GoStr Json Api Slots Layout LayoutFacts Effects Kube Fixtures Fencing.
From S2P Require Import FencingFacts Status Reshard ReshardFacts RollingUpdate RollingUpdateFacts Resources Lifecycle Pods Reconcile Footprints ReconcileFacts.

Abbreviation yields p Q := (does (S := kube) (λ _, True) p Q).

(** ** Draining *)

(** No slot is reported by two instances. *)
Definition exclusive (statuses : gmap string InstanceStatus) : Prop :=
  ∀ n1 n2 st1 st2 z, statuses !! n1 = Some st1 → statuses !! n2 = Some st2 →
    serves (is_SlotsServed st1) z → serves (is_SlotsServed st2) z → n1 = n2.

(** No pod above the desired count serves a slot. *)
Definition drained (cluster : RedisCluster) (statuses : gmap string InstanceStatus) : Prop :=
  ∀ n st z, statuses !! n = Some st → doomed cluster n = true → ¬ serves (is_SlotsServed st) z.

Lemma resume_not_ready c pods statuses : yields (resumeClusterHandover c pods statuses) (λ x, x.1 = false).
Proof.
  unfold resumeClusterHandover. destruct (ClusterHandoverPods c) as [[owner heir]|]; [|done]. cbn zeta.
  assert (yields (finishClusterHandover c owner ≫= λ c', mret (false, c')) (λ x, x.1 = false)) as Hfin.
  { eapply (does_bind _ _ _ (λ _, True)); [by apply does_any|done]. }
  repeat case_match; try done. eapply (does_bind _ _ _ (λ _, True)); [by apply does_any|].
  intros [] _. by eapply (does_bind _ _ _ (λ _, True)); [by apply does_any|].
Qed.

(** A bootstrap that lets the pass continue changed nothing. *)
Lemma bootstrap_ready c statuses :
  yields (reconcileClusterBootstrap c statuses) (λ x, x.1 = true → x.2 = c).
Proof.
  unfold reconcileClusterBootstrap. case_bool_decide; [done|].
  eapply (does_bind _ _ _ (λ _, True)); [by apply does_any|]. intros pods _. destruct (negb _).
  { eapply does_mono; [apply resume_not_ready|]. by intros x ->. }
  unfold bootstrap_pods. cbn zeta. do 2 (case_bool_decide; [done|]). destruct (negb _); [done|].
  eapply (does_bind _ _ _ (λ _, True)); [by apply does_any|]. intros [] _. apply does_kcall; [done|]. intros ord.
  destruct (planShardLayout _ _ _ _) as [layout|]; [|done].
  eapply (does_bind _ _ _ (λ _, True)); [by apply does_any|]. intros [performed|] _; [|done].
  eapply (does_bind _ _ _ (λ _, True)); [by apply does_any|]. by intros [[]|] _.
Qed.

Lemma slot_owner_exclusive statuses picks n st z :
  exclusive statuses → statuses !! n = Some st → serves (is_SlotsServed st) z →
  slot_owner (slot_owners (range_map picks statuses)) z = n.
Proof.
  intros Hex Hn Hz. destruct (slot_owners_some statuses picks z) as [o Ho]; [by exists n, st|].
  unfold slot_owner. rewrite Ho. simpl. apply slot_owners_served in Ho as (st' & Ho & Hz'). by eapply Hex.
Qed.

Lemma desiredShardCount_pos cluster : 0 < desiredShardCount cluster.
Proof. unfold desiredShardCount. case_bool_decide; lia. Qed.

(** Nothing is misplaced: the doomed pods are drained. *)
Lemma settled_drained cluster pods statuses ord picks layout :
  planShardLayout cluster pods statuses ord = Some layout → exclusive statuses →
  let primaries := primary_of layout <$> upto (desiredShardCount cluster) in
  existsb (λ p, bool_decide (p = "")) primaries = false →
  first_misplaced (slot_owners (range_map picks statuses))
    (zip primaries (calculateClusterSlotRanges (Z.of_nat (length primaries)))) = None →
  drained cluster statuses.
Proof.
  intros Hplan Hex primaries Hne Hnone n st z Hn Hd Hz. pose proof (desiredShardCount_pos cluster) as Hpos.
  pose proof (slot_owner_exclusive statuses picks n st z Hex Hn Hz) as Hown.
  pose proof (first_misplaced_spec (slot_owners (range_map picks statuses))
    (zip primaries (calculateClusterSlotRanges (Z.of_nat (length primaries))))) as Hm. rewrite Hnone in Hm.
  assert (Z.of_nat (length primaries) = desiredShardCount cluster) as Hlen.
  { unfold primaries. rewrite length_fmap, length_upto. lia. }
  rewrite Hlen in Hm. destruct (slot_in_some_range _ z Hpos (proj1 Hz)) as (shard & r & Hin & Hr).
  apply list_elem_of_lookup in Hin as [i Hi]. apply lookup_zip_with_Some in Hi as (x & y & [= -> ->] & Hx & Hy).
  assert (primaries !! i = Some (primary_of layout x)) as Hi by (unfold primaries; by rewrite list_lookup_fmap, Hx).
  assert ((primary_of layout x, y) ∈ zip primaries (calculateClusterSlotRanges (desiredShardCount cluster))) as Hin.
  { apply list_elem_of_lookup. exists i. apply lookup_zip_with_Some. eauto. }
  rewrite (Hm _ _ _ Hin Hr) in Hown. unfold primary_of in Hown, Hi.
  destruct (primaryOf layout !! x) as [p|] eqn:Hp; simpl in Hown; subst.
  - apply (planned_primary _ _ _ _ _ Hplan) in Hp as (_ & _ & Hp). congruence.
  - enough (existsb (λ p, bool_decide (p = "")) primaries = true) by congruence.
    apply existsb_exists. exists "". split; [|done]. apply list_elem_of_In. by eapply list_elem_of_lookup_2.
Qed.

Section drained.
Context (cluster : RedisCluster) (statuses : gmap string InstanceStatus).
Hypothesis Hmode : Spec_Mode (Spec cluster) = ClusterModeCluster.
Hypothesis Hstate : Status_ClusterState (Status cluster) = "ok".
Hypothesis Hslots : slotCount ≤ Status_SlotsAssigned (Status cluster).
Hypothesis Hsurplus : DesiredDataInstances (Spec cluster) < Z.of_nat (size statuses).
Hypothesis Hex : exclusive statuses.

Lemma segment_not_ready podsByName m :
  yields (reshard_segment cluster statuses podsByName m) (λ x, x.1 = false).
Proof.
  unfold reshard_segment. cbn zeta.
  repeat case_match; try done; (eapply (does_bind _ _ _ (λ _, True)); [by apply does_any|done]).
Qed.

Lemma reshard_ready : yields (reconcileClusterReshard cluster statuses) (λ x, x.1 = true → drained cluster statuses).
Proof.
  unfold reconcileClusterReshard. do 2 (case_bool_decide; [done || lia|]).
  rewrite Hstate, (bool_decide_false (_ < slotCount)) by lia. cbn [negb orb bool_decide].
  eapply (does_bind _ _ _ (λ _, True)); [by apply does_any|]. intros pods _. unfold reshard_pods. cbn zeta.
  apply does_kcall; [done|]. intros ord. destruct (planShardLayout _ _ _ _) as [layout|] eqn:Hplan; [|done]. cbn zeta.
  destruct (existsb _ _) eqn:Hne; [done|].
  destruct (negb _); [by rewrite bool_decide_true by done|].
  destruct (first_misplaced _ _) as [m|] eqn:Hm.
  - eapply does_mono; [apply segment_not_ready|]. by intros x ->.
  - intros _. by eapply settled_drained.
Qed.

Lemma topology_ready :
  yields (reconcile_topology cluster statuses false) (λ x, x.1 = true → drained cluster statuses).
Proof.
  unfold reconcile_topology. rewrite bool_decide_true by done. simpl andb. cbn iota.
  eapply does_bind; [apply does_with_ctx, bootstrap_ready|]. intros [ready c] Hc. simpl in Hc.
  destruct ready; [|done]. rewrite Hc by done. apply does_with_ctx, reshard_ready.
Qed.
End drained.


(** Three shards without replicas on four pods: the fourth is to go. *)
Definition settled_statuses : gmap string InstanceStatus :=
  {[ "c-0" := shard_node "master" "n0" "" [mkSlotRange 0 5461];
     "c-1" := shard_node "master" "n1" "" [mkSlotRange 5462 10922];
     "c-2" := shard_node "master" "n2" "" [mkSlotRange 10923 16383];
     "c-3" := shard_node "master" "n3" "" [] ]}.
Definition shrinking : RedisCluster :=
  with_cluster_state (base_cluster (base_spec ClusterModeCluster 0 3 0) (base_status "" settled_statuses)) "ok" 16384.
Definition shrinking_pods : list Pod :=
  (λ i, mk_pod (podNameForIndex "c" i) (podNameForIndex "10.0.0." i) {[ LabelCluster := "c" ]} true) <$> upto 4.

Lemma settled_serves n st z :
  settled_statuses !! n = Some st → serves (is_SlotsServed st) z →
  n = (if bool_decide (z ≤ 5461) then "c-0" else if bool_decide (z ≤ 10922) then "c-1" else "c-2").
Proof.
  unfold settled_statuses. intros Hn (_ & r & Hr & Hz).
  repeat (apply lookup_insert_Some in Hn as [[<- <-]|[_ Hn]];
    [simpl in Hr; apply list_elem_of_singleton in Hr as -> || (by apply elem_of_nil in Hr);
     simpl in Hz; repeat case_bool_decide; done || lia|]).
  apply lookup_singleton_Some in Hn as [<- <-]. by apply elem_of_nil in Hr.
Qed.

Lemma settled_exclusive : exclusive settled_statuses.
Proof. intros n1 n2 st1 st2 z H1 H2 ->%(settled_serves n1) ->%(settled_serves n2); done. Qed.

Lemma settled_in_place picks :
  first_misplaced (slot_owners (range_map picks settled_statuses))
    (zip ["c-0"; "c-1"; "c-2"] (calculateClusterSlotRanges 3)) = None.
Proof.
  change (calculateClusterSlotRanges 3) with [mkSlotRange 0 5461; mkSlotRange 5462 10922; mkSlotRange 10923 16383].
  match goal with |- first_misplaced ?so ?ts = None => pose proof (first_misplaced_spec so ts) as Hm;
    destruct (first_misplaced so ts) as [m|] end; [|done]. exfalso.
  destruct Hm as (r & Hin & Hs & He & Hne & Hown). simpl in Hin.
  apply Hne. rewrite <- (Hown (ms_start m)) by lia.
  repeat (apply elem_of_cons in Hin as [[= -> ->]|Hin]; [simpl in *; eapply slot_owner_exclusive;
    [apply settled_exclusive|reflexivity|]; split; [unfold slotCount; lia|]; eexists; split; [apply list_elem_of_here|simpl; lia]|]).
  by apply elem_of_nil in Hin.
Qed.

Definition any_order : oracle := λ _, [].
Definition settled_layout : shardLayout :=
  default layout_empty (planShardLayout shrinking shrinking_pods settled_statuses (oracle_shift 1 any_order)).

Lemma settled_planned :
  planShardLayout shrinking shrinking_pods settled_statuses (oracle_shift 1 any_order) = Some settled_layout.
Proof. vm_compute. reflexivity. Qed.

Lemma settled_primaries : primary_of settled_layout <$> upto (desiredShardCount shrinking) = ["c-0"; "c-1"; "c-2"].
Proof. vm_compute. reflexivity. Qed.

Lemma settled_ready :
  forallb (node_ready (pods_by_name shrinking_pods) settled_statuses) ["c-0"; "c-1"; "c-2"] = true.
Proof. vm_compute. reflexivity. Qed.

Lemma reshard_settled :
  runs (reshard_pods shrinking settled_statuses shrinking_pods) [kev OMapOrder any_order] (Ok (true, shrinking)).
Proof.
  exists any_order, []. split; [done|]. cbv zeta.
  match goal with |- runs (prog_bind _ _ _ ?f _) ?tr ?o => change (runs (f any_order) tr o) end. cbv beta.
  rewrite settled_planned, settled_primaries, settled_ready.
  change (Z.of_nat (length ["c-0"; "c-1"; "c-2"])) with 3. cbn [existsb bool_decide orb negb].
  by rewrite settled_in_place.
Qed.

(** The topology step, with a list of pods that lags behind at first. *)
Definition settled_trace : trace kube :=
  [kev (OListPods {[ LabelCluster := "c" ]}) (Ok []); kev (OListPods {[ LabelCluster := "c" ]}) (Ok shrinking_pods);
   kev OMapOrder any_order].

Lemma topology_settled :
  runs (reconcile_topology shrinking settled_statuses false) settled_trace (Ok (true, shrinking)).
Proof.
  unfold reconcile_topology. simpl andb. cbn iota. apply runs_bind. right.
  exists (true, shrinking), (take 1 settled_trace), (tail settled_trace). split; [done|split].
  - by exists (Ok []), [].
  - apply runs_with_ctx. left. eexists. split; [|done]. unfold reconcileClusterReshard. simpl orb. cbn iota.
    apply runs_bind. right. eexists shrinking_pods, [kev (OListPods {[ LabelCluster := "c" ]}) (Ok shrinking_pods)], _.
    split; [done|split; [|apply reshard_settled]]. by eexists (Ok shrinking_pods), [].
Qed.


(** ** The gap in the guard *)

(** [c-1] does not answer and the nodes report a failed cluster; [c-3], above
    the desired count, still serves slots. *)
Definition failed_statuses : gmap string InstanceStatus :=
  {[ "c-0" := shard_node "master" "n0" "" [mkSlotRange 0 1];
     "c-1" := mkInstanceStatus "" false 0 0 0 "" "" "" [] "" 0 None;
     "c-2" := shard_node "master" "n2" "" [mkSlotRange 2 3];
     "c-3" := shard_node "master" "n3" "" [mkSlotRange 4 5] ]}.
Definition failed_cluster : RedisCluster :=
  with_cluster_state (base_cluster (base_spec ClusterModeCluster 0 3 0) (base_status "" failed_statuses)) "fail" 6.

(** C15: The guard does not hold while the cluster is unhealthy.  There is a
    successful pass that deletes a pod above the desired count although that pod
    is connected, is a master and serves slots: the reshard step returns early
    because the cluster state is not ok, before it would wait for the surviving
    primary that does not answer. *)
Theorem scale_down_drops_slots :
  ∃ r cluster statuses n st tr out,
    Spec_Mode (Spec cluster) = ClusterModeCluster ∧ isMaintenanceInProgress cluster = false ∧
    DesiredDataInstances (Spec cluster) < Z.of_nat (size statuses) ∧
    statuses !! n = Some st ∧ is_Connected st = true ∧ is_Role st = "master" ∧ is_SlotsServed st ≠ [] ∧
    doomed cluster n = true ∧
    runs (act r cluster statuses false) tr (Ok out) ∧ kev (ODeletePod n) (Ok tt) ∈ tr.
Proof.
  set (p := act plain_reconciler failed_cluster failed_statuses false).
  set (w := mkWorld failed_cluster shrinking_pods ∅).
  exists plain_reconciler, failed_cluster, failed_statuses, "c-3", (shard_node "master" "n3" "" [mkSlotRange 4 5]),
    (fake_trace w p), requeueInterval.
  split_and!; [done..| |].
  - assert (fake_result w p = Ok requeueInterval) as <- by (vm_compute; reflexivity). apply fake_runs.
  - apply (list_elem_of_lookup_2 _ 21). vm_compute. reflexivity.
Qed.

(** ** Which pods a scale-down deletes *)

Lemma Sorted_weaken {A} (R R' : relation A) l : (∀ a b, R a b → R' a b) → Sorted R l → Sorted R' l.
Proof. intros HR. induction 1 as [|x l _ IH Hhd]; constructor; [done|]. destruct Hhd; constructor. auto. Qed.

Section scale_down.
Context (cluster : RedisCluster).

Abbreviation ordinal pod := (index_of cluster (p_Name pod)).

Lemma sorted_desc_sorted pods :
  yields (sorted_desc cluster pods) (λ l, l ≡ₚ pods ∧ StronglySorted (λ a b, ordinal b ≤ ordinal a) l).
Proof.
  unfold sorted_desc, sort_by_ordinal_desc. destruct (_ && _); [done|]. split; [apply sort_slice_perm|].
  apply Sorted_StronglySorted; [intros a b c; simpl; lia|].
  eapply Sorted_weaken; [|apply sort_slice_sorted].
  - intros a b. simpl. rewrite bool_decide_eq_false. lia.
  - intros a b. rewrite bool_decide_eq_true, bool_decide_eq_false. lia.
Qed.

(** Behind a pod of the deleted part of the list there are [desired] pods with
    different, smaller ordinals. *)
Lemma deleted_ordinal (l : list Pod) (desired : Z) pod :
  StronglySorted (λ a b, ordinal b ≤ ordinal a) l → NoDup ((λ p, ordinal p) <$> l) →
  (∀ p, p ∈ l → 0 ≤ ordinal p) →
  pod ∈ take (Z.to_nat (Z.of_nat (length l) - desired)) l → desired ≤ ordinal pod.
Proof.
  intros Hs Hnd Hpos (i & Hi & Hlt)%elem_of_take. rewrite <- (take_drop_middle l i pod Hi) in Hs, Hnd.
  apply StronglySorted_app_1_r in Hs. apply StronglySorted_cons in Hs as [Hall _].
  rewrite fmap_app, fmap_cons in Hnd. apply NoDup_app in Hnd as (_ & _ & [Hni Hnd]%NoDup_cons).
  assert ((λ p, ordinal p) <$> drop (S i) l ⊆+ upto (ordinal pod)) as Hsub.
  { apply NoDup_submseteq; [done|]. intros z (p & -> & Hp)%list_elem_of_fmap. apply elem_of_upto.
    assert (ordinal p ≠ ordinal pod) by (intros Heq; apply Hni; rewrite <- Heq; by apply list_elem_of_fmap_2 with (f := λ p, ordinal p)).
    rewrite Forall_forall in Hall. specialize (Hall p Hp). split; [|lia]. apply Hpos.
    eapply subseteq_drop; exact Hp. }
  apply submseteq_length in Hsub. rewrite length_fmap, length_drop, length_upto in Hsub.
  specialize (Hpos pod (list_elem_of_lookup_2 _ _ _ Hi)). apply lookup_lt_Some in Hi. lia.
Qed.

(** The deletions of the scale-down of [pods]. *)
Definition surplus_pod (pods : list Pod) (n : string) : Prop :=
  ∃ pod, pod ∈ pods ∧ p_Name pod = n ∧ n ≠ Status_CurrentPrimary (Status cluster) ∧
    (NoDup ((λ p, ordinal p) <$> pods) → (∀ p, p ∈ pods → 0 ≤ ordinal p) →
     DesiredDataInstances (Spec cluster) ≤ ordinal pod).

Definition deletes_only (D : string → Prop) (c : kube_op) : Prop :=
  match c with ODeletePod n => D n | _ => True end.

Lemma does_avoiding {A} D (p : kprog A) :
  kissues (avoids KDeletePod) p → does (S := kube) (deletes_only D) p (λ _, True).
Proof. intros Hp. eapply does_issues; [exact Hp|]. by intros []. Qed.

Lemma scale_down_does pods :
  does (S := kube) (deletes_only (surplus_pod pods)) (scale_down cluster pods (DesiredDataInstances (Spec cluster)))
    (λ _, True).
Proof.
  unfold scale_down. cbn zeta. eapply does_bind; [apply does_avoiding; footprint|]. intros [] _.
  eapply (does_bind _ _ _ (λ l, l ≡ₚ pods ∧ StronglySorted (λ a b, ordinal b ≤ ordinal a) l)).
  { pose proof (sorted_desc_sorted pods) as H. unfold sorted_desc in *. by destruct (sort_by_ordinal_desc _ _). }
  intros l [Hl Hs]. eapply (does_bind _ _ _ (λ _, True)); [|by intros []; case_bool_decide].
  apply does_for_each. intros pod Hpod. unfold scale_down_pod. case_bool_decide; [done|].
  eapply (does_bind _ _ _ (λ _, True)); [|intros [] _; apply does_avoiding; footprint].
  unfold delete_pod. apply does_kcall; [|by intros r; apply does_check_ctx].
  exists pod. split_and!; [|done|done|].
  - rewrite <- Hl. by eapply subseteq_take.
  - intros Hnd Hpos. apply (deleted_ordinal l); [done|by rewrite Hl|by setoid_rewrite Hl|].
    by rewrite (Permutation_length Hl) in *.
Qed.

(** What a handler does after it listed the data pods. *)
Lemma deletes_after_listing {A} ctx (D : list Pod → string → Prop) (f : list Pod → kprog A) tr out n resp :
  (∀ pods, does (S := kube) (deletes_only (D pods)) (f pods) (λ _, True)) →
  runs (with_ctx ctx (listDataPods cluster) ≫= f) tr out → kev (ODeletePod n) resp ∈ tr →
  ∃ sel all, kev (OListPods sel) (Ok all) ∈ tr ∧
    D (filter (λ pod, pod_label pod LabelRole ≠ LabelRoleSentinel) all) n.
Proof.
  intros Hf (resp' & tr' & -> & Hr) Hin. exists {[ LabelCluster := Name cluster ]}.
  destruct resp' as [all|e]; [|destruct Hr as [-> _]; apply list_elem_of_singleton in Hin; by ev_eq Hin].
  exists all. split; [apply list_elem_of_here|]. apply elem_of_cons in Hin as [Hin|Hin]; [by ev_eq Hin|].
  eapply does_runs in Hr as [Hops _]; [|exact (Hf _)]. by apply Hops in Hin.
Qed.
End scale_down.

(** The pod step deletes listed pods only, never the recorded primary, and,
    where the listed pods have different non-negative ordinals, none whose
    ordinal is below the desired count. *)
Theorem scale_down_highest_ordinals r cluster statuses tr out n resp :
  runs (reconcilePods r cluster statuses) tr out → kev (ODeletePod n) resp ∈ tr →
  ∃ sel all, kev (OListPods sel) (Ok all) ∈ tr ∧
    surplus_pod cluster (filter (λ pod, pod_label pod LabelRole ≠ LabelRoleSentinel) all) n.
Proof.
  intros Hr. eapply deletes_after_listing; [|exact Hr]. clear. intros pods. cbn beta zeta.
  eapply does_bind; [apply does_avoiding; footprint|]. intros [] _.
  eapply does_bind; [apply does_avoiding; unfold plan_pods; footprint|]. intros layout _.
  eapply does_bind; [apply does_avoiding; unfold ensure_pods; footprint|]. intros [] _.
  eapply (does_bind _ _ _ (λ _, True)); [case_bool_decide; [apply scale_down_does|done]|]. intros [] _.
  apply does_avoiding. unfold set_initial_primary. footprint.
Qed.

Definition shrinking_trace : trace kube :=
  fake_trace (mkWorld shrinking shrinking_pods ∅) (reconcilePods plain_reconciler shrinking settled_statuses).

Lemma scale_down_highest_ordinals_witness :
  ∃ sel all, kev (OListPods sel) (Ok all) ∈ shrinking_trace ∧
    surplus_pod shrinking (filter (λ pod, pod_label pod LabelRole ≠ LabelRoleSentinel) all) "c-3".
Proof.
  apply (scale_down_highest_ordinals plain_reconciler shrinking settled_statuses _
    (fake_result (mkWorld shrinking shrinking_pods ∅) (reconcilePods plain_reconciler shrinking settled_statuses))
    "c-3" (Ok tt)); [apply fake_runs|].
  apply (list_elem_of_lookup_2 _ 9). vm_compute. reflexivity.
Defined.

(** ** Created pods and the next pass *)

Lemma sentinel_projection r cluster podName controller authSecret :
  Spec_AuthSecret (Spec cluster) = Some authSecret →
  sentinelPodHasAuthProjection (sentinel_pod r cluster podName controller) authSecret =
    negb (bool_decide (TrimSpace authSecret = "")).
Proof.
  intros Ha. unfold sentinelPodHasAuthProjection, sentinel_pod, tls_volume, projected_volume. rewrite Ha. simpl.
  case_bool_decide; simpl; repeat case_match; simpl; rewrite ?bool_decide_true; done.
Qed.

(** A data pod carries the hash the rolling update compares it with, so a
    pod that was just created is not replaced for the same spec; a sentinel pod
    survives the check for its auth projection exactly when the name of the
    auth secret is not blank. *)
Theorem created_pods_stable r cluster podName index labels restore controller authSecret :
  outdated (computeSpecHash r cluster) (data_pod r cluster podName index labels restore controller) = false ∧
  (Spec_AuthSecret (Spec cluster) = Some authSecret →
   sentinelPodHasAuthProjection (sentinel_pod r cluster podName controller) authSecret =
     negb (bool_decide (TrimSpace authSecret = ""))).
Proof.
  split; [|apply sentinel_projection].
  unfold outdated, getPodSpecHash. simpl. rewrite lookup_singleton_eq. by rewrite bool_decide_true.
Qed.

(** With a blank auth secret name a sentinel pod never settles: the pod the
    operator creates is deleted by the next pass that finds it. *)
Theorem blank_auth_secret_recreates r cluster podName controller authSecret :
  Spec_AuthSecret (Spec cluster) = Some authSecret → TrimSpace authSecret = "" →
  runs (createSentinelPod r cluster podName)
    [kev (OGetPod podName) (Ok (sentinel_pod r cluster podName controller)); kev (ODeletePod podName) (Ok tt)]
    (Ok tt).
Proof.
  intros Ha Hb. unfold createSentinelPod.
  apply runs_bind. right. exists (Ok (sentinel_pod r cluster podName controller)), [kev (OGetPod podName)
    (Ok (sentinel_pod r cluster podName controller))], [kev (ODeletePod podName) (Ok tt)].
  split; [done|]. split; [by eexists _, []|]. cbn beta iota.
  rewrite Ha, sentinel_projection, Hb by done. by exists (Ok tt), [].
Qed.
