(* ===== verification/LifecycleFacts.v ===== *)
(** * Hibernation, maintenance and storage: the guarantees

    - a hibernating pass deletes every pod and touches neither volumes nor
      secrets nor instances;
    - while a maintenance window keeps the volumes, a pass leaves pods and
      primaries alone;
    - volume claims grow and never shrink, and only where the class allows it;
    - claims are deleted only for missing pods during a maintenance window that
      gives the volumes up. *)
From S2P Require Import Prelude GoStr Json Api Slots Layout Effects History Kube Fixtures.
From S2P Require Import Fencing Status Reshard RollingUpdate Resources Lifecycle Pods Reconcile Footprints ReconcileFacts.

(** A loop that ends well ran its body for every element. *)
Lemma for_each_ok {S A} (l : list A) (body : A → prog S unit) tr u x :
  runs (for_each l body) tr (Ok u) → x ∈ l → ∃ tr', runs (body x) tr' (Ok tt) ∧ tr' ⊆ tr.
Proof.
  revert tr; induction l as [|y l IH]; intros tr Hr Hx; [by apply elem_of_nil in Hx|].
  apply runs_bind in Hr as [(e & _ & ?)|([] & tr1 & tr2 & -> & H1 & H2)]; [done|].
  apply elem_of_cons in Hx as [->|Hx]; [exists tr1; split; [done|set_solver]|].
  destruct (IH _ H2 Hx) as (tr' & ? & ?). exists tr'. split; [done|set_solver].
Qed.

(** ** Hibernation *)

Definition hibernation_footprint : list op_kind :=
  [KCreateAccess; KUpdateAccess; KDeleteAccess; KCreatePDB; KPatchPDB; KDeletePDB;
   KDeletePod; KPatchService; KPatchStatus].

(** Every operation is within [l] and the value satisfies [Q]. *)
Abbreviation stays l p Q := (does (S := kube) (λ c, within l c = true) p Q).

Lemma stays_footprint {A} l (p : kprog A) : kissues (within l) p → stays l p (λ _, True).
Proof. intros Hp. by eapply does_issues. Qed.

Lemma hibernating_stays r cluster :
  isHibernationEnabled cluster = true → stays hibernation_footprint (reconcile r cluster) (λ _, True).
Proof.
  intros Hh. unfold reconcile, reconcileHibernation. rewrite Hh.
  eapply does_bind; [apply stays_footprint; footprint|]. intros [] _.
  eapply (does_bind _ _ _ (λ x, x.1 = true)); [|by intros [[] c] [=]].
  apply does_with_ctx. eapply does_bind; [apply stays_footprint; unfold hibernate; footprint|done].
Qed.

Lemma hibernate_deletes cluster tr c :
  runs (hibernate cluster) tr (Ok c) →
  ∃ pods, kev (OListPods {[ LabelCluster := Name cluster ]}) (Ok pods) ∈ tr ∧
    ∀ pod, pod ∈ pods → ∃ resp, kev (ODeletePod (p_Name pod)) resp ∈ tr ∧ delete_ignoring_not_found resp = Ok tt.
Proof.
  unfold hibernate. intros Hr. apply runs_bind in Hr as [(e & _ & ?)|([] & t0 & t1 & -> & _ & Hr)]; [done|].
  apply runs_bind in Hr as [(e & _ & ?)|(pods & t2 & t3 & -> & Hl & Hr)]; [done|].
  apply runs_bind in Hr as [(e & _ & ?)|([] & t4 & t5 & -> & Hd & _)]; [done|].
  exists pods. split.
  - apply runs_with_ctx_ok in Hl. destruct Hl as (resp & t & -> & [-> <-]%runs_check). set_solver.
  - intros pod Hpod. destruct (for_each_ok _ _ _ _ _ Hd Hpod) as (t' & (resp & t & -> & Hc) & Hsub).
    apply runs_check_ctx in Hc as [-> Hc]. exists resp. split; [set_solver|].
    by destruct (delete_ignoring_not_found resp) as [[]|].
Qed.

(** C26: A pass over a hibernating cluster creates no pod, sends no request to an
    instance and leaves volumes and secrets alone; when it ends without an
    error, every pod the cluster's label selected was deleted or already gone,
    sentinels included. *)
Theorem hibernation_pass r cluster tr out :
  isHibernationEnabled cluster = true → runs (reconcile r cluster) tr out →
  (∀ e, e ∈ tr → within hibernation_footprint (ev_op e) = true) ∧
  ∀ after, out = Ok after →
    ∃ pods, kev (OListPods {[ LabelCluster := Name cluster ]}) (Ok pods) ∈ tr ∧
      ∀ pod, pod ∈ pods → ∃ resp, kev (ODeletePod (p_Name pod)) resp ∈ tr ∧ delete_ignoring_not_found resp = Ok tt.
Proof.
  intros Hh Hr. split; [exact (proj1 (does_runs _ _ _ _ _ (hibernating_stays r cluster Hh) Hr))|].
  intros after ->. unfold reconcile, reconcileHibernation in Hr. rewrite Hh in Hr.
  apply runs_bind in Hr as [(e & _ & ?)|([] & t0 & t1 & -> & _ & Hr)]; [done|].
  apply runs_bind in Hr as [(e & _ & ?)|([b c] & t2 & t3 & -> & Hb & _)]; [done|].
  apply runs_with_ctx_ok, runs_bind in Hb as [(e & _ & ?)|(c' & t4 & t5 & -> & Hb & _)]; [done|].
  destruct (hibernate_deletes _ _ _ Hb) as (pods & Hl & Hd). exists pods. split; [set_solver|].
  intros pod Hpod. destruct (Hd pod Hpod) as (resp & ? & ?). exists resp. split; [set_solver|done].
Qed.

(** ** Maintenance *)

(** C27: While a maintenance window keeps the volumes of a cluster that is not in
    replica mode ([spec.replicaMode] unset), the steps after the observation only
    create and grow claims and update the status: no pod is created, changed or
    deleted, no instance gets a request, nobody is promoted and no claim is
    deleted. *)
Theorem maintenance_freezes r cluster statuses tr out :
  Spec_ReplicaMode (Spec cluster) = None → maintenanceReusePVC cluster = true →
  runs (act r cluster statuses true) tr out →
  ∀ e, e ∈ tr → within [KCreatePVC; KPatchPVC; KPatchStatus] (ev_op e) = true.
Proof.
  intros Hrm Hreuse Hr.
  assert (stays [KCreatePVC; KPatchPVC; KPatchStatus] (act r cluster statuses true) (λ _, True)) as Hd;
    [|exact (proj1 (does_runs _ _ _ _ _ Hd Hr))].
  unfold act. eapply (does_bind _ _ _ (λ x, x = (true, cluster))); [done|]. intros ? ->.
  eapply (does_bind _ _ _ (λ x, x = (true, cluster))).
  { unfold reconcile_primary, reconcileReplicaModePromotion. rewrite Hrm. by split. }
  intros ? ->. apply does_kcall; [done|]. intros ord. destruct (checkReachability _ _ _); [done|].
  unfold reconcile_storage, reconcile_workload. rewrite Hreuse. cbn [negb andb orb]. cbn zeta iota.
  eapply does_bind; [apply stays_footprint; footprint|]. by intros [pending c] _.
Qed.

(** ** Volume claims *)

(** The class of the claim was read and allows expansion. *)
Definition class_allows (name : string) (e : event kube) : Prop :=
  ∃ sc, e = kev (OGetStorageClass name) (Ok sc) ∧ sc_AllowVolumeExpansion sc = Some true.

Section claims.
Context (cluster : RedisCluster).

(** A patch raises the request to the desired size, keeps everything else, and
    comes after the class was found to allow it, where there is one. *)
Definition grows (h : trace kube) (c : kube_op) : Prop :=
  match c with
  | OPatchPVC before after =>
      after = with_request before (desired_size cluster) ∧
      q_Cmp (pvc_Request before) (pvc_Request after) = Lt ∧
      (expansion_class cluster before = "" ∨ ∃ e, e ∈ h ∧ class_allows (expansion_class cluster before) e)
  | ODeletePVC _ => False
  | OCreatePVC pvc => pvc_Request pvc = desired_size cluster
  | _ => True
  end.

Abbreviation grown h p Q := (safe (S := kube) grows h p Q).

Lemma canExpand_safe h pvc :
  grown h (canExpandPVC cluster pvc) (λ h' x, x.1 = true →
    expansion_class cluster pvc = "" ∨ ∃ e, e ∈ h' ∧ class_allows (expansion_class cluster pvc) e).
Proof.
  unfold canExpandPVC. cbn zeta. case_bool_decide; [by left|]. split; [done|]. intros [sc|e]; simpl.
  - destruct (sc_AllowVolumeExpansion sc) as [[]|] eqn:Hsc; simpl; [|done..].
    intros _. right. eexists. split; [apply elem_of_app; right; by apply list_elem_of_singleton|]. by exists sc.
  - by destruct (IsNotFound e).
Qed.

Lemma grow_pvc_safe h pvc name :
  q_Cmp (pvc_Request pvc) (desired_size cluster) = Lt → grown h (grow_pvc cluster pvc name) (λ _ _, True).
Proof.
  intros Hlt. unfold grow_pvc. cbn zeta. eapply safe_bind; [apply safe_with_ctx, canExpand_safe|].
  intros h' [expandable reason] Hh Hx. destruct expandable; simpl; [|done].
  split; [by auto|]. by intros [pvc'|e].
Qed.

Lemma ensure_pvcs_safe h indices p : grown h (ensure_pvcs cluster indices p) (λ _ _, True).
Proof.
  revert h p; induction indices as [|i indices IH]; intros h p; cbn [ensure_pvcs]; [done|]. cbn zeta.
  apply (safe_call (S := kube)); [done|]. intros [pvc|e].
  - eapply (safe_bind _ _ _ _ (λ _ _, True)); [|intros; apply IH].
    destruct (q_Cmp (desired_size cluster) (pvc_Request pvc)) eqn:Hc; [done..|].
    apply grow_pvc_safe. unfold q_Cmp in *. by rewrite Z.compare_antisym, Hc.
  - destruct (negb _); [done|]. eapply (safe_bind _ _ _ _ (λ _ _, True)); [|intros; apply IH].
    apply safe_with_ctx. split; [done|]. by intros [[]|].
Qed.
End claims.

(** C28: The storage step outside maintenance never shrinks or deletes a volume
    claim: a claim it changes keeps everything but its request, which strictly
    grows to the desired size, after the storage class of the claim, where it
    has one, was read and allows expansion; a claim it creates requests the
    desired size. *)
Theorem claims_only_grow cluster tr out tr1 e tr2 :
  runs (reconcilePVCs cluster) tr out → tr = tr1 ++ e :: tr2 → grows cluster tr1 (ev_op e).
Proof.
  intros Hr ->. assert (safe (S := kube) (grows cluster) [] (reconcilePVCs cluster) (λ _ _, True)) as Hs.
  { unfold reconcilePVCs. cbn zeta. eapply safe_bind; [apply ensure_pvcs_safe|]. intros h p _ _.
    eapply (safe_issues (S := kube) _ (within [KPatchStatus])); [footprint| |done]. intros h' c. by destruct c. }
  exact (proj1 (safe_runs _ _ _ _ _ _ Hs Hr) tr1 e tr2 eq_refl).
Qed.

(** ** Recycling *)

(** The claim of an ordinal whose pod was not listed, as the server returned it. *)
Definition recyclable (cluster : RedisCluster) (h : trace kube) (c : kube_op) : Prop :=
  match c with
  | ODeletePVC n =>
      isMaintenanceInProgress cluster = true ∧ maintenanceReusePVC cluster = false ∧
      ∃ i all pvc, 0 ≤ i < DesiredDataInstances (Spec cluster) ∧ n = pvc_Name pvc ∧
        kev (OGetPVC (pvcNameForIndex (Name cluster) i)) (Ok pvc) ∈ h ∧ pvc_Deleting pvc = false ∧
        kev (OListPods {[ LabelCluster := Name cluster ]}) (Ok all) ∈ h ∧
        ∀ pod, pod ∈ all → pod_label pod LabelRole ≠ LabelRoleSentinel → p_Name pod ≠ podNameForIndex (Name cluster) i
  | _ => True
  end.

Lemma recycle_safe cluster :
  safe (S := kube) (recyclable cluster) [] (recyclePVCsForMissingPods cluster) (λ _ _, True).
Proof.
  unfold recyclePVCsForMissingPods. destruct (_ || _) eqn:Hm; [done|].
  apply orb_false_iff in Hm as [Hm1%negb_false_iff Hm2].
  eapply (safe_bind _ _ _ _ (λ h pods, ∃ all, kev (OListPods {[ LabelCluster := Name cluster ]}) (Ok all) ∈ h ∧
    pods = filter (λ pod, pod_label pod LabelRole ≠ LabelRoleSentinel) all)).
  { apply safe_with_ctx. split; [done|]. intros [all|e]; [|done]. simpl. exists all. split; [set_solver|done]. }
  intros h pods _ (all & Hall & ->).
  eapply safe_mono; [apply (safe_for_each _ (λ h, kev (OListPods {[ LabelCluster := Name cluster ]}) (Ok all) ∈ h))|done];
    [done|]. intros h' i Hpre Hi%elem_of_upto Hh. destruct (existsb _ _) eqn:Hex; [done|].
  unfold recycle_pvc. cbn zeta. apply (safe_call (S := kube)); [done|].
  intros [pvc|e]; [|destruct (IsNotFound e); simpl; [set_solver|done]].
  destruct (pvc_Deleting pvc) eqn:Hdel; [simpl; set_solver|].
  apply (safe_call (S := kube)).
  - split_and!; [done..|]. exists i, all, pvc. split_and!; [lia|lia|done|set_solver|done|set_solver|].
    intros pod Hpod Hrole Hname.
    enough (existsb (λ pod, bool_decide (p_Name pod = podNameForIndex (Name cluster) i))
      (filter (λ pod, pod_label pod LabelRole ≠ LabelRoleSentinel) all) = true) by congruence.
    apply existsb_exists. exists pod. split; [|by apply bool_decide_eq_true].
    apply list_elem_of_In, list_elem_of_filter. done.
  - intros resp. eapply safe_bind; [apply safe_check_ctx with (Q := λ h _, kev (OListPods {[ LabelCluster := Name cluster ]}) (Ok all) ∈ h); set_solver|].
    intros h'' [] _ Hh'. split; [done|]. intros r. set_solver.
Qed.

(** A claim is deleted only in a maintenance window that gives the volumes
    up, and only when it is the claim of an ordinal whose pod the API server did
    not list before, and is not being deleted already. *)
Theorem recycled_claims cluster tr out tr1 e tr2 :
  runs (recyclePVCsForMissingPods cluster) tr out → tr = tr1 ++ e :: tr2 → recyclable cluster tr1 (ev_op e).
Proof.
  intros Hr ->. exact (proj1 (safe_runs _ _ _ _ _ _ (recycle_safe cluster) Hr) tr1 e tr2 eq_refl).
Qed.

(** ** Witnesses *)

Definition sleeping : RedisCluster := set_Annotations three {[ AnnotationHibernation := "on" ]}.
Definition sleeping_trace : trace kube := fake_trace three_world (reconcile plain_reconciler sleeping).

Lemma hibernation_pass_witness :
  (∀ e, e ∈ sleeping_trace → within hibernation_footprint (ev_op e) = true) ∧
  ∀ after, fake_result three_world (reconcile plain_reconciler sleeping) = Ok after →
    ∃ pods, kev (OListPods {[ LabelCluster := "c" ]}) (Ok pods) ∈ sleeping_trace ∧
      ∀ pod, pod ∈ pods →
        ∃ resp, kev (ODeletePod (p_Name pod)) resp ∈ sleeping_trace ∧ delete_ignoring_not_found resp = Ok tt.
Proof. apply (hibernation_pass plain_reconciler sleeping); [reflexivity|apply fake_runs]. Defined.

(** The three instances in a maintenance window that keeps the volumes. *)
Definition drained_node : RedisCluster :=
  let s := Spec three in
  mkCluster (Name three) (Namespace three) (UID three) (Annotations three)
    (mkSpec (Spec_Instances s) (Spec_Mode s) (Spec_Shards s) (Spec_ReplicasPerShard s) (Spec_PrimaryUpdateStrategy s)
       (Spec_ImageName s) (Spec_Storage s) (Spec_Redis s) (Spec_Limits s) (Spec_Requests s) (Spec_Memory s)
       (Spec_MinSyncReplicas s) (Spec_MaxSyncReplicas s) (Spec_EnablePodDisruptionBudget s) (Spec_AuthSecret s)
       (Spec_ACLConfigSecret s) (Spec_TLSSecret s) (Spec_CASecret s) (Spec_BackupCredentialsSecret s)
       (Spec_PrimaryIsolation s) (Spec_Bootstrap s) (Some (mkMaintenance true None)) (Spec_ReplicaMode s)
       (Spec_ConnectionSecret s)) (Status three).

Lemma maintenance_freezes_witness :
  isMaintenanceInProgress drained_node = true ∧
  ∀ e, e ∈ fake_trace three_world (act plain_reconciler drained_node three_statuses true) →
    within [KCreatePVC; KPatchPVC; KPatchStatus] (ev_op e) = true.
Proof.
  split; [reflexivity|]. apply (maintenance_freezes plain_reconciler drained_node three_statuses _
    (fake_result three_world (act plain_reconciler drained_node three_statuses true))); [done..|apply fake_runs].
Defined.

(** Claims of half the desired size in a class that can grow. *)
Definition small_claims : environment kube world := λ w c,
  match c as c return kube_ret c * world with
  | OGetPVC name => (Ok (mkPVC name ∅ (Some "fast") (quantity_of (gib / 2)) [] false), w)
  | OGetStorageClass name => (Ok (mkStorageClass name (Some true)), w)
  | c => fake w c
  end.

Lemma claims_only_grow_witness :
  let tr := (interp small_claims three_world (reconcilePVCs three)).1.1 in
  ∃ before after, ev_op <$> tr !! 2%nat = Some (OPatchPVC before after) ∧
    grows three (take 2 tr) (OPatchPVC before after).
Proof.
  cbv zeta. do 2 eexists. split; [vm_compute; reflexivity|].
  eapply (claims_only_grow three _ _ (take 2 _) (kev (OPatchPVC _ _) (Ok _)) (drop 3 _));
    [apply (env_runs small_claims three_world)|]. symmetry. apply take_drop_middle. vm_compute. reflexivity.
Defined.

(** [c-1] is missing in a window that gives the volumes up. *)
Definition giving_up : RedisCluster :=
  let s := base_spec ClusterModeStandalone 3 0 0 in
  set_Spec three (mkSpec (Spec_Instances s) (Spec_Mode s) (Spec_Shards s) (Spec_ReplicasPerShard s)
    (Spec_PrimaryUpdateStrategy s) (Spec_ImageName s) (Spec_Storage s) (Spec_Redis s) (Spec_Limits s)
    (Spec_Requests s) (Spec_Memory s) (Spec_MinSyncReplicas s) (Spec_MaxSyncReplicas s)
    (Spec_EnablePodDisruptionBudget s) (Spec_AuthSecret s) (Spec_ACLConfigSecret s) (Spec_TLSSecret s)
    (Spec_CASecret s) (Spec_BackupCredentialsSecret s) (Spec_PrimaryIsolation s) (Spec_Bootstrap s)
    (Some (mkMaintenance true (Some false))) (Spec_ReplicaMode s) (Spec_ConnectionSecret s)).
Definition giving_up_world : world :=
  mkWorld giving_up (filter (λ pod, p_Name pod ≠ "c-1") (w_pods three_world)) ∅.

Lemma recycled_claims_witness :
  recyclable giving_up (take 2 (interp small_claims giving_up_world (recyclePVCsForMissingPods giving_up)).1.1)
    (ODeletePVC "c-data-1").
Proof.
  eapply (recycled_claims giving_up _ _ (take 2 _) (kev (ODeletePVC _) (Ok _)) (drop 3 _));
    [apply (env_runs small_claims giving_up_world)|]. symmetry. apply take_drop_middle. vm_compute. reflexivity.
Defined.
