(* ===== verification/ResourcesFacts.v ===== *)
(** * Services and secrets: the guarantees

    - connection secrets: only secrets the cluster controls are overwritten or
      removed, and a password survives the encoding in the published URL;
    - the selector of the leader service is rewritten by every pass. *)
From S2P Require Import Prelude GoStr Api Effects History Kube Fixtures Resources Url Footprints.
From Stdlib Require Import Ascii.

(** ** Connection secrets *)

Section connection.
Context (cluster : RedisCluster).

Definition connection_name : string :=
  match Spec_ConnectionSecret (Spec cluster) with Some n => TrimSpace n | None => "" end.

(** What the history must show before a secret is written. *)
Definition owned_write (h : trace kube) (c : kube_op) : Prop :=
  match c with
  | OCreateSecret s =>
      sec_Name s = connection_name ∧ connection_name ≠ "" ∧
      ∃ e, kev (OGetSecret connection_name) (Err e) ∈ h ∧ IsNotFound e = true
  | OUpdateSecret s =>
      connection_name ≠ "" ∧
      ∃ existing, kev (OGetSecret connection_name) (Ok existing) ∈ h ∧
        IsControlledBy (sec_Controller existing) cluster = true ∧
        sec_Name s = sec_Name existing ∧ sec_Controller s = sec_Controller existing
  | ODeleteSecret n =>
      n ≠ connection_name ∧
      ∃ items s, kev (OListSecrets (cluster_label cluster)) (Ok items) ∈ h ∧ s ∈ items ∧ sec_Name s = n ∧
        IsControlledBy (sec_Controller s) cluster = true
  | c => within [] c = true
  end.

Abbreviation owned h p Q := (safe (S := kube) owned_write h p Q).

Lemma owned_quiet {A} h (p : kprog A) : kissues (within []) p → owned h p (λ _ _, True).
Proof. intros Hp. eapply (safe_issues (S := kube)); [exact Hp| |done]. by intros h' []. Qed.

Lemma prune_safe h : owned h (pruneConnectionSecrets cluster connection_name) (λ _ _, True).
Proof.
  unfold pruneConnectionSecrets. apply (safe_call (S := kube)); [done|]. intros [items|e]; [|done]. simpl check_ctx.
  match goal with |- safe _ (h ++ [?e]) _ _ => set (ev0 := e) end.
  eapply safe_mono; [apply (safe_for_each (S := kube) _ (λ h, ev0 ∈ h) _ items)|done]; [set_solver|].
  intros h' s Hpre Hs Hh. destruct (_ || _) eqn:Hc; [done|].
  apply orb_false_iff in Hc as [Hname%bool_decide_eq_false Hctl%negb_false_iff].
  apply (safe_call (S := kube)); [split; [done|]; by exists items, s|]. intros resp.
  eapply safe_bind; [apply safe_check_ctx with (Q := λ h _, ev0 ∈ h); set_solver|].
  intros h'' [] _ Hh'. split; [done|]. intros []. set_solver.
Qed.

Lemma ensure_safe h : connection_name ≠ "" → owned h (ensureConnectionSecret cluster connection_name) (λ _ _, True).
Proof.
  intros Hne. unfold ensureConnectionSecret.
  eapply safe_bind; [apply owned_quiet; unfold resolveAuthPassword; footprint|]. intros h1 password _ _. cbn zeta.
  eapply safe_bind; [apply owned_quiet; footprint|]. intros h2 owner _ _.
  apply (safe_call (S := kube)); [done|]. intros [existing|e].
  - destruct (IsControlledBy _ _) eqn:Hctl; simpl negb; cbn iota; [|apply owned_quiet; footprint].
    destruct (_ && _); [done|]. apply (safe_call (S := kube)).
    { split; [done|]. exists existing. split_and!; [set_solver|done..]. }
    intros resp. by apply safe_check_ctx.
  - destruct (IsNotFound e) eqn:He; simpl negb; cbn iota; [|done]. apply (safe_call (S := kube)).
    { split_and!; [done..|]. exists e. split; [set_solver|done]. }
    intros resp. eapply (safe_bind _ _ _ _ (λ _ _, True)); [by apply safe_check_ctx|].
    intros h3 [] _ _. apply owned_quiet. footprint.
Qed.
End connection.

(** C32: The connection-secret step creates the configured secret only after a
    read found none, overwrites it only after a read showed that the cluster
    controls it, keeping its name and controller, and removes only listed
    secrets that the cluster controls and that do not carry the configured
    name; it writes nothing else. *)
Theorem connection_secret_ownership cluster tr out tr1 e tr2 :
  runs (reconcileConnectionSecret cluster) tr out → tr = tr1 ++ e :: tr2 → owned_write cluster tr1 (ev_op e).
Proof.
  intros Hr ->.
  assert (safe (S := kube) (owned_write cluster) [] (reconcileConnectionSecret cluster) (λ _ _, True)) as Hs.
  { unfold reconcileConnectionSecret. fold (connection_name cluster). cbn zeta.
    pose proof (prune_safe cluster) as Hp. case_bool_decide as Hn; [rewrite <- Hn; apply Hp|].
    eapply safe_bind; [by apply ensure_safe|]. intros h [] _ _. apply Hp. }
  exact (proj1 (safe_runs _ _ _ _ _ _ Hs Hr) tr1 e tr2 eq_refl).
Qed.

(** ** The published URL *)

Lemma hex_digits c :
  hex_digit (upper_hex (N_of_ascii c / 16)) = Some (N_of_ascii c / 16)%N ∧
  hex_digit (upper_hex (N_of_ascii c mod 16)) = Some (N_of_ascii c mod 16)%N.
Proof. destruct c as [[] [] [] [] [] [] [] []]; split; vm_compute; reflexivity. Qed.

Lemma unescape_escape keep s : keep "%"%char = false → unescape (escape keep s) = Some s.
Proof.
  intros Hk. induction s as [|c s IH]; [done|]. cbn [escape]. destruct (keep c) eqn:Hc.
  - cbn [unescape]. rewrite bool_decide_false by congruence. by rewrite IH.
  - cbn [unescape]. rewrite bool_decide_true by done. destruct (hex_digits c) as [-> ->].
    rewrite IH. simpl fmap. f_equal. f_equal.
    rewrite <- (N.div_mod (N_of_ascii c) 16) by done. apply ascii_N_embedding.
Qed.

Lemma escape_avoids keep s d :
  keep d = false → d ≠ "%"%char → (∀ n, (n < 16)%N → upper_hex n ≠ d) → contains_char (escape keep s) d = false.
Proof.
  intros Hk Hp Hh. induction s as [|c s IH]; [done|]. cbn [escape]. destruct (keep c) eqn:Hc; cbn [contains_char].
  - rewrite IH, orb_false_r. apply bool_decide_eq_false. congruence.
  - rewrite IH, !bool_decide_false; [done|..|congruence]; apply Hh.
    + by apply N.mod_lt.
    + apply N.Div0.div_lt_upper_bound, N_ascii_bounded.
Qed.

Lemma user_avoids s d :
  keep_user d = false → d ≠ "%"%char → is_alnum d = false → contains_char (escape keep_user s) d = false.
Proof.
  intros Hk Hp Ha. apply escape_avoids; [done..|]. intros n Hn <-.
  assert (is_alnum (upper_hex n) = true) as Hx; [|congruence].
  assert (∀ m, (m < 16)%nat → is_alnum (upper_hex (N.of_nat m)) = true) as H.
  { intros m Hm. do 16 (destruct m as [|m]; [reflexivity|]). lia. }
  specialize (H (N.to_nat n)). rewrite N2Nat.id in H. apply H. lia.
Qed.

(** The URL the connection secret publishes gives the password back: cutting
    what follows the scheme at the first at-sign and the user information at the
    first colon, as a client does, and decoding the parts yields the default
    user and the password, whatever characters the password has. *)
Theorem connection_url_roundtrip scheme password host port :
  password ≠ "" →
  ∃ rest userinfo hostport user pass,
    redisURL scheme password host port = scheme +:+ "://" +:+ rest ∧
    cut_char rest "@" = Some (userinfo, hostport) ∧ cut_char userinfo ":" = Some (user, pass) ∧
    unescape user = Some redisDefaultUser ∧ unescape pass = Some password ∧
    unescape hostport = Some (JoinHostPort host port).
Proof.
  intros Hne. set (user := escape keep_user redisDefaultUser). set (pass := escape keep_user password).
  set (hp := escape keep_host (JoinHostPort host port)).
  exists ((user +:+ String ":" pass) +:+ String "@" hp), (user +:+ String ":" pass), hp, user, pass.
  split_and!; [|rewrite cut_char_app; [done|]|rewrite cut_char_app; [done|]|by apply unescape_escape..].
  - unfold redisURL. by rewrite bool_decide_false, !append_assoc by done.
  - rewrite contains_char_app. cbn [contains_char]. unfold user, pass. by rewrite !user_avoids.
  - by apply user_avoids.
Qed.

Lemma connection_url_roundtrip_witness :
  ∃ rest userinfo hostport user pass,
    redisURL "redis" "p@s:s/%" "c-leader.default.svc" "6379" = "redis" +:+ "://" +:+ rest ∧
    cut_char rest "@" = Some (userinfo, hostport) ∧ cut_char userinfo ":" = Some (user, pass) ∧
    unescape user = Some redisDefaultUser ∧ unescape pass = Some "p@s:s/%" ∧
    unescape hostport = Some (JoinHostPort "c-leader.default.svc" "6379").
Proof. apply connection_url_roundtrip. discriminate. Defined.

(** ** The leader service *)

(** What a settled leader service selects: the recorded primary by name. *)
Definition leader_selector (cluster : RedisCluster) : gmap string string :=
  {[ LabelCluster := Name cluster; LabelInstance := Status_CurrentPrimary (Status cluster) ]}.

Lemma leader_selector_differs cluster : leader_selector cluster ≠ role_selector cluster LabelRolePrimary.
Proof.
  intros H. apply (f_equal (.!! LabelRole)) in H. unfold leader_selector, role_selector in H.
  rewrite lookup_insert_ne, lookup_singleton_ne in H by done. by rewrite lookup_insert_ne, lookup_singleton_eq in H.
Qed.

Definition view_service (e : event kube) : option (res Service) :=
  match e with existT c r =>
    match c return kube_ret c → option (res Service) with OGetService _ => λ r, Some r | _ => λ _, None end r
  end.

(** The step for the leader service alone. *)
Lemma ensure_leader_rewrites cluster svc port t out :
  svc_Selector svc = leader_selector cluster →
  runs (ensureService cluster (leaderServiceName (Name cluster)) (role_selector cluster LabelRolePrimary) port) t out →
  head t ≫= view_service = Some (Ok svc) →
  ∃ e svc' resp, t = [e; kev (OPatchService svc svc') resp] ∧ svc_Selector svc' = role_selector cluster LabelRolePrimary.
Proof.
  intros Hsel (r & t' & -> & Hr) [= ->]. unfold ensureService in Hr. cbn in Hr. rewrite Hsel in Hr.
  rewrite bool_decide_false in Hr by apply leader_selector_differs. simpl in Hr. destruct Hr as (resp & t & -> & Hr).
  apply runs_check in Hr as [-> _]. do 3 eexists. split; [reflexivity|done].
Qed.

(** Outside cluster mode every pass over the services undoes the selector of
    a settled leader service: when the service selects the recorded primary by
    name, the pass first patches it back to select any pod labelled primary,
    before the selector is set again at the end of the step. *)
Theorem leader_selector_rewritten cluster svc tr out :
  Spec_Mode (Spec cluster) ≠ ClusterModeCluster → svc_Selector svc = leader_selector cluster →
  runs (reconcileServices cluster) tr out → head tr ≫= view_service = Some (Ok svc) →
  ∃ e svc' resp tr', tr = e :: kev (OPatchService svc svc') resp :: tr' ∧
    svc_Selector svc' = role_selector cluster LabelRolePrimary.
Proof.
  intros Hm Hsel Hr Hhd. unfold reconcileServices in Hr. cbn zeta in Hr. rewrite bool_decide_false in Hr by done.
  assert (∀ t1 t2 o, runs (with_ctx "leader service" (ensureService cluster (leaderServiceName (Name cluster))
      (role_selector cluster LabelRolePrimary) 6379)) t1 o → tr = t1 ++ t2 →
    ∃ e svc' resp tr', tr = e :: kev (OPatchService svc svc') resp :: tr' ∧
      svc_Selector svc' = role_selector cluster LabelRolePrimary) as H.
  { intros t1 t2 o Ho ->.
    assert (∃ o', runs (ensureService cluster (leaderServiceName (Name cluster))
      (role_selector cluster LabelRolePrimary) 6379) t1 o') as [o' Ho'].
    { apply runs_with_ctx in Ho as [(a & ? & _)|(e & ? & _)]; eauto. }
    destruct (ensure_leader_rewrites _ _ _ _ _ Hsel Ho') as (e & svc' & resp & -> & ?); [|by exists e, svc', resp, t2].
    destruct Ho' as (? & ? & -> & _). exact Hhd. }
  apply runs_bind in Hr as [(e & Hr & _)|(u & t1 & t2 & -> & Hr & _)].
  - eapply (H tr []); [exact Hr|by rewrite app_nil_r].
  - by eapply H.
Qed.

(** ** Witnesses *)

Lemma leader_selector_rewritten_witness :
  ∃ e svc' resp tr',
    fake_trace three_world (reconcileServices three) = e :: kev (OPatchService leader_service svc') resp :: tr' ∧
    svc_Selector svc' = role_selector three LabelRolePrimary.
Proof.
  eapply (leader_selector_rewritten three leader_service);
    [discriminate|vm_compute; reflexivity|apply fake_runs|vm_compute; reflexivity].
Defined.

(** The cluster publishes [conn], which does not exist yet. *)
Definition publishing : RedisCluster :=
  let s := base_spec ClusterModeStandalone 3 0 0 in
  set_Spec three (mkSpec (Spec_Instances s) (Spec_Mode s) (Spec_Shards s) (Spec_ReplicasPerShard s)
    (Spec_PrimaryUpdateStrategy s) (Spec_ImageName s) (Spec_Storage s) (Spec_Redis s) (Spec_Limits s)
    (Spec_Requests s) (Spec_Memory s) (Spec_MinSyncReplicas s) (Spec_MaxSyncReplicas s)
    (Spec_EnablePodDisruptionBudget s) (Spec_AuthSecret s) (Spec_ACLConfigSecret s) (Spec_TLSSecret s)
    (Spec_CASecret s) (Spec_BackupCredentialsSecret s) (Spec_PrimaryIsolation s) (Spec_Bootstrap s)
    (Spec_NodeMaintenanceWindow s) (Spec_ReplicaMode s) (Some "conn")).

Definition with_auth : environment kube world := λ w c,
  match c as c return kube_ret c * world with
  | OGetSecret "c-auth" => (Ok (mkSecret "c-auth" ∅ None "1" "Opaque" {[ "password" := "pw" ]}), w)
  | c => fake w c
  end.

Lemma connection_secret_ownership_witness :
  let tr := (interp with_auth three_world (reconcileConnectionSecret publishing)).1.1 in
  ∃ s, ev_op <$> tr !! 3%nat = Some (OCreateSecret s) ∧ owned_write publishing (take 3 tr) (OCreateSecret s).
Proof.
  cbv zeta. eexists. split; [vm_compute; reflexivity|].
  eapply (connection_secret_ownership publishing _ _ (take 3 _) (kev (OCreateSecret _) (Ok _)) (drop 4 _));
    [apply (env_runs with_auth three_world)|]. symmetry. apply take_drop_middle. vm_compute. reflexivity.
Defined.
