(* ===== verification/Protocol.v ===== *)
(** * The failover protocol

    What replacing a primary promises, as an abstract machine: the former
    primary is fenced before anything else happens, a listed pod is promoted, it
    is the primary that is recorded, and only then is the fence released.
    [switchover] refines the machine, [failover] refines the variant that may
    record a pod without a promotion when none of its name has an address. *)
From S2P Require Import Prelude GoStr Json Api Effects Simulation Kube Fixtures Fencing.
From S2P Require Import FencingFacts Status Reshard RollingUpdate Resources Lifecycle Pods Reconcile Footprints.

(** ** The machine *)

(** [Promote] names the address the promotion was sent to; what pod has the
    address is known from the listing the handler acts on. *)
Inductive action :=
| Fence | Observe (pods : list Pod) | Promote (ip : string) | Record (primary : string) | Release.

Record protocol := mkProtocol {
  v_fenced : bool;
  v_pods : list Pod;
  v_promoted : option string;
  v_primary : option string
}.

(** The pod named [q] in the listing is the one that was promoted. *)
Definition was_promoted (v : protocol) (q : string) : Prop :=
  ∃ pod, pod ∈ v_pods v ∧ p_Name pod = q ∧ v_promoted v = Some (p_PodIP pod).

(** Nothing was promoted, and no listed pod named [q] has an address. *)
Definition not_promotable (v : protocol) (q : string) : Prop :=
  v_promoted v = None ∧ ∀ pod, pod ∈ v_pods v → p_Name pod = q → p_PodIP pod = "".

Section machine.
Context (strict : bool).

Definition may_record (v : protocol) (q : string) : Prop :=
  was_promoted v q ∨ (strict = false ∧ not_promotable v q).

Inductive protocol_step : protocol → action → protocol → Prop :=
| step_fence v :
    v_primary v = None → protocol_step v Fence (mkProtocol true (v_pods v) (v_promoted v) None)
| step_observe v pods :
    v_promoted v = None → v_primary v = None →
    protocol_step v (Observe pods) (mkProtocol (v_fenced v) pods None None)
| step_promote v ip :
    v_fenced v = true → v_promoted v = None → v_primary v = None →
    protocol_step v (Promote ip) (mkProtocol true (v_pods v) (Some ip) None)
| step_record v q :
    v_fenced v = true → v_primary v = None → may_record v q →
    protocol_step v (Record q) (mkProtocol true (v_pods v) (v_promoted v) (Some q))
| step_release v q :
    v_primary v = Some q → protocol_step v Release (mkProtocol false (v_pods v) (v_promoted v) (Some q)).

(** Until a new primary is recorded the former one stays fenced once anybody
    was promoted; the recorded primary is the instance that was promoted, or,
    in the lax machine, one that could not be. *)
Definition protocol_inv (v : protocol) : Prop :=
  (is_Some (v_promoted v) → v_primary v = None → v_fenced v = true) ∧
  (∀ q, v_primary v = Some q → may_record v q).

Lemma protocol_step_inv v a v' : protocol_inv v → protocol_step v a v' → protocol_inv v'.
Proof.
  intros [H1 H2] Hs. destruct Hs as [v Hv|v pods Hp Hv|v ip Hf Hp Hv|v q Hf Hv Hr|v q Hv]; split; simpl.
  3: by intros [? [=]].
  all: try (intros; congruence).
  - by intros q' [= <-].
  - intros q' [= <-]. exact (H2 q Hv).
Qed.
End machine.

(** ** What the code's events mean for the former primary [p] *)

Definition abstracts (p : string) (e : event kube) (oa : option action) : Prop :=
  match e with existT c r =>
    match c return kube_ret c → Prop with
    | OPatchCluster _ b a => λ r,
        match r with
        | Err _ => oa = None
        | Ok c' =>
            (oa = Some Fence ∧ (writes_fence a p ∨ p ∈ getFencedPods c')) ∨
            (oa = None ∧ Annotations a !! FencingAnnotationKey = Annotations b !! FencingAnnotationKey) ∨
            (oa = Some Release ∧ a = with_fenced_pods b (filter (λ q, q ≠ p) (getFencedPods b)))
        end
    | OPatchStatus _ a => λ r,
        oa = match r with Ok _ => Some (Record (Status_CurrentPrimary (Status a))) | Err _ => None end
    | OPost ip PostPromote => λ r,
        oa = match r with HttpStatus code _ => if bool_decide (code = 200) then Some (Promote ip) else None | _ => None end
    | OListPods _ => λ r, oa = match r with Ok pods => Some (Observe pods) | Err _ => None end
    | c => λ _, within [KPatchService] c = true ∧ oa = None
    end r
  end.

Section refinement.
Context (strict : bool) (p : string).

Abbreviation refining v q Q := (refines (S := kube) (abstracts p) (protocol_step strict) v q Q).

(** Neither a listing nor a write other than of a service. *)
Definition unobserving (c : kube_op) : bool :=
  within [KPatchService] c && match c with OListPods _ => false | _ => true end.

Lemma silent {A} v (q : kprog A) : kissues unobserving q → refining v q (λ v' _, v' = v).
Proof.
  intros Hq. eapply refines_silent; [exact Hq|]. intros c r Hc. destruct c as []; try by split.
  all: try done. by destruct req.
Qed.

Lemma setFence_refines v c :
  v_primary v = None → (p ∈ getFencedPods c → v_fenced v = true) →
  refining v (setFence c p) (λ v' _, v' = mkProtocol true (v_pods v) (v_promoted v) None).
Proof.
  intros Hv Hc. unfold setFence.
  eapply (refines_bind _ _ _ _ _ (λ v' c', v_primary v' = None ∧ v_promoted v' = v_promoted v ∧ v_pods v' = v_pods v ∧
    (p ∈ getFencedPods c' → v_fenced v' = true))).
  { case_bool_decide; [|done]. apply refines_with_ctx. intros [c'|e]; [|by exists None, v].
    destruct (decide (p ∈ getFencedPods c')) as [Hin|Hin].
    - exists (Some Fence), (mkProtocol true (v_pods v) (v_promoted v) None).
      split_and!; [by left; auto|by constructor|done].
    - exists None, v. split_and!; [right; left; split; [done|]|done|done].
      simpl. by rewrite lookup_delete_ne. }
  intros v1 c1 (Hv1 & Hp1 & Hl1 & Hf1). cbn zeta. case_bool_decide as Hin.
  { simpl. destruct v1; simpl in *; subst. by rewrite (Hf1 Hin). }
  unfold setFencedPods, Patch.
  eapply (refines_bind _ _ _ _ _ (λ v' _, v' = mkProtocol true (v_pods v) (v_promoted v) None)).
  - intros [c'|e]; [|by exists None, v1]. exists (Some Fence), (mkProtocol true (v_pods v) (v_promoted v) None).
    split_and!; [left; split; [done|]; left; apply writes_fence_with; set_solver| |done].
    simpl. rewrite <- Hp1, <- Hl1. by constructor.
  - intros v' c' ->. eapply refines_bind; [apply silent; unfold Event, kcall; issues|]. by intros ? ? ->.
Qed.

Lemma list_refines v c :
  v_promoted v = None → v_primary v = None →
  refining v (listClusterPods c) (λ v' pods, v' = mkProtocol (v_fenced v) pods None None).
Proof.
  intros Hp Hv [pods|e].
  - exists (Some (Observe pods)), (mkProtocol (v_fenced v) pods None None). split_and!; [done|by constructor|done].
  - by exists None, v.
Qed.

Lemma promote_refines v ip :
  v_fenced v = true → v_promoted v = None → v_primary v = None →
  refining v (promoteInstance ip) (λ v' _, v' = mkProtocol true (v_pods v) (Some ip) None).
Proof.
  intros Hf Hp Hv. unfold promoteInstance. intros [msg|code body]; [by exists None, v|].
  destruct (decide (code = 200)) as [->|Hc].
  - exists (Some (Promote ip)), (mkProtocol true (v_pods v) (Some ip) None). split_and!; [done|by constructor|done].
  - exists None, v. split_and!; [simpl; by rewrite bool_decide_false|done|]. simpl. by rewrite bool_decide_false.
Qed.

Lemma record_refines v b a :
  v_fenced v = true → v_primary v = None → may_record strict v (Status_CurrentPrimary (Status a)) →
  refining v (StatusPatch b a)
    (λ v' _, v' = mkProtocol true (v_pods v) (v_promoted v) (Some (Status_CurrentPrimary (Status a)))).
Proof.
  intros Hf Hv Hs [c|e]; [|by exists None, v]. eexists (Some (Record _)), _. split_and!; [done|by constructor|done].
Qed.

Lemma clearFence_refines v c q :
  v_primary v = Some q →
  refining v (clearFence c p) (λ v' _, v' = mkProtocol false (v_pods v) (v_promoted v) (Some q)).
Proof.
  intros Hv. unfold clearFence, setFencedPods, Patch. cbn zeta.
  eapply (refines_bind _ _ _ _ _ (λ v' _, v' = mkProtocol false (v_pods v) (v_promoted v) (Some q))).
  - intros [c'|e]; [|by exists None, v]. exists (Some Release), (mkProtocol false (v_pods v) (v_promoted v) (Some q)).
    split_and!; [by right; right|by constructor|done].
  - intros v' c' ->. eapply refines_bind; [apply silent; unfold Event, kcall; issues|]. by intros ? ? ->.
Qed.
End refinement.

(** The machine at the start of a handler. *)
Definition protocol_start (cluster : RedisCluster) : protocol :=
  mkProtocol (bool_decide (Status_CurrentPrimary (Status cluster) ∈ getFencedPods cluster)) [] None None.

Lemma protocol_start_inv strict cluster : protocol_inv strict (protocol_start cluster).
Proof. split; [by intros [? [=]]|done]. Qed.

(** The protocol is complete: a primary is recorded and the fence released. *)
Definition protocol_done (v : protocol) : Prop := v_fenced v = false ∧ is_Some (v_primary v).

Lemma promotable_listed q pods :
  match promotable q pods with
  | Some pod => pod ∈ pods ∧ p_Name pod = q
  | None => ∀ pod, pod ∈ pods → p_Name pod = q → p_PodIP pod = ""
  end.
Proof.
  unfold promotable. destruct (List.find _ pods) as [pod|] eqn:E.
  - apply List.find_some in E as [Hin Hb]. split; [by apply list_elem_of_In|].
    apply andb_true_iff in Hb as [Hb _]. by apply bool_decide_eq_true in Hb.
  - intros pod Hin Hn. apply list_elem_of_In in Hin. pose proof (List.find_none _ _ E pod Hin) as Hb. cbn beta in Hb.
    rewrite bool_decide_true in Hb by done. simpl in Hb. apply negb_false_iff in Hb. by apply bool_decide_eq_true in Hb.
Qed.

Ltac silently :=
  eapply refines_bind; [try apply refines_with_ctx; apply silent;
    unfold selectFailoverCandidate, updateLeaderServiceSelector, Event, kcall; issues|]; intros ? ? ->.

Lemma switchover_simulates cluster :
  refines (S := kube) (abstracts (Status_CurrentPrimary (Status cluster))) (protocol_step true)
    (protocol_start cluster) (switchover cluster) (λ v _, protocol_done v).
Proof.
  unfold switchover. cbn zeta. case_bool_decide; [done|].
  eapply refines_bind; [apply refines_with_ctx, setFence_refines; [done|intros; by apply bool_decide_eq_true]|].
  intros v c1 ->. silently. case_bool_decide; [done|].
  eapply refines_bind; [by apply refines_with_ctx, list_refines|]. intros v pods ->.
  pose proof (promotable_listed a pods) as Hp. destruct (promotable _ _) as [pod|]; [|done]. destruct Hp as [Hin Hn].
  eapply refines_bind; [by apply refines_with_ctx, promote_refines|]. intros v u ->.
  eapply refines_bind; [apply refines_with_ctx, record_refines; [done|done|by left; exists pod]|].
  intros v c2 ->. silently.
  eapply refines_with_ctx, refines_mono; [by apply clearFence_refines|]. intros v c3 ->. by repeat split.
Qed.

Lemma failover_simulates cluster :
  refines (S := kube) (abstracts (Status_CurrentPrimary (Status cluster))) (protocol_step false)
    (protocol_start cluster) (failover cluster) (λ v _, protocol_done v).
Proof.
  unfold failover. cbn zeta. silently.
  eapply refines_bind; [apply refines_with_ctx, setFence_refines; [done|intros; by apply bool_decide_eq_true]|].
  intros v c1 ->. silently. case_bool_decide; [done|].
  eapply refines_bind; [by apply refines_with_ctx, list_refines|]. intros v pods ->.
  eapply (refines_bind _ _ _ _ _ (λ v _, v_fenced v = true ∧ v_primary v = None ∧ may_record false v a0)).
  { pose proof (promotable_listed a0 pods) as Hp. destruct (promotable _ _) as [pod|].
    - destruct Hp as [Hin Hn]. eapply refines_with_ctx, refines_mono; [by apply promote_refines|].
      intros v u ->. split_and!; [done|done|]. by left; exists pod.
    - split_and!; [done|done|]. by right. }
  intros v u (Hf & Hv & Hr). eapply refines_bind; [by apply refines_with_ctx, record_refines|]. intros v' c2 ->. silently.
  eapply refines_bind; [by apply refines_with_ctx, clearFence_refines|]. intros v'' c3 ->. do 2 silently. by repeat split.
Qed.

(** C4: Every run of [switchover] is a run of the abstract protocol: its events,
    read as fencing, listing, promotion, recording and release for the former
    primary, follow the machine from the state of the object, so that nobody is
    promoted over an unfenced primary and the primary recorded is a listed pod
    whose address was promoted; a run that ends without an error completes the
    protocol. *)
Theorem switchover_refines_protocol cluster tr out :
  runs (switchover cluster) tr out →
  ∃ acts v, abs_trace (abstracts (Status_CurrentPrimary (Status cluster))) tr acts ∧
    path (protocol_step true) (protocol_start cluster) acts v ∧ protocol_inv true v ∧
    ∀ c, out = Ok c → v_fenced v = false ∧ ∃ q, v_primary v = Some q ∧ was_promoted v q.
Proof.
  intros Hr. destruct (refines_runs _ _ _ _ _ _ _ (switchover_simulates cluster) Hr) as (acts & v & Ht & Hp & HQ).
  assert (protocol_inv true v) as Hinv by (eapply path_inv; [apply protocol_step_inv|apply protocol_start_inv|exact Hp]).
  exists acts, v. split_and!; [done..|]. intros c Hc. destruct (HQ c Hc) as [Hf [q Hq]].
  split; [done|]. exists q. split; [done|]. destruct Hinv as [_ Hinv]. by destruct (Hinv q Hq) as [|[? _]].
Qed.

(** C5: Every run of [failover] is a run of the abstract protocol in its lax
    form: the primary recorded is a listed pod whose address was promoted, or
    nothing was promoted and no listed pod of that name has an address; a run
    that ends without an error has recorded a primary and released the fence. *)
Theorem failover_refines_protocol cluster tr out :
  runs (failover cluster) tr out →
  ∃ acts v, abs_trace (abstracts (Status_CurrentPrimary (Status cluster))) tr acts ∧
    path (protocol_step false) (protocol_start cluster) acts v ∧ protocol_inv false v ∧
    ∀ c, out = Ok c → v_fenced v = false ∧ ∃ q, v_primary v = Some q ∧ (was_promoted v q ∨ not_promotable v q).
Proof.
  intros Hr. destruct (refines_runs _ _ _ _ _ _ _ (failover_simulates cluster) Hr) as (acts & v & Ht & Hp & HQ).
  assert (protocol_inv false v) as Hinv by (eapply path_inv; [apply protocol_step_inv|apply protocol_start_inv|exact Hp]).
  exists acts, v. split_and!; [done..|]. intros c Hc. destruct (HQ c Hc) as [Hf [q Hq]].
  split; [done|]. exists q. split; [done|]. destruct Hinv as [_ Hinv]. destruct (Hinv q Hq) as [|[_ ?]]; auto.
Qed.

(** ** Witnesses *)

Lemma switchover_refines_protocol_witness :
  ∃ acts v, abs_trace (abstracts "c-0") (fake_trace three_world (switchover three)) acts ∧
    path (protocol_step true) (protocol_start three) acts v ∧ protocol_inv true v ∧
    ∀ c, fake_result three_world (switchover three) = Ok c →
      v_fenced v = false ∧ ∃ q, v_primary v = Some q ∧ was_promoted v q.
Proof. apply (switchover_refines_protocol three), fake_runs. Defined.

Lemma failover_refines_protocol_witness :
  ∃ acts v, abs_trace (abstracts "c-0") (fake_trace three_world (failover three)) acts ∧
    path (protocol_step false) (protocol_start three) acts v ∧ protocol_inv false v ∧
    ∀ c, fake_result three_world (failover three) = Ok c →
      v_fenced v = false ∧ ∃ q, v_primary v = Some q ∧ (was_promoted v q ∨ not_promotable v q).
Proof. apply (failover_refines_protocol three), fake_runs. Defined.
