(* ===== verification/Webhooks.v ===== *)
(** * Admission webhooks

    [rediscluster_defaulter.go] and [rediscluster_validator.go]: the defaults
    written into a spec and the checks a create or an update must pass.  The
    validator reads other objects through an optional reader, so it is a
    program; [reader] says whether the reader is configured.  The DNS-1123 check
    is a function of the Kubernetes libraries and a parameter here.  The value a
    field error quotes is left out; its kind, path and message are kept. *)
From S2P Require Import Prelude GoStr Api Effects Kube.
From Stdlib Require Import Ascii.

(** ** Defaulting *)

(** [resource.MustParse] of the literals. *)
Definition quantity_128Mi : Quantity := mkQuantity (2 ^ 27 * 10 ^ 9) (2 ^ 27) "128Mi".
Definition quantity_100m : Quantity := mkQuantity (10 ^ 8) 1 "100m".

Definition seconds (n : Z) : Z := n * 10 ^ 9.
Definition MaxMemoryPolicyNoEviction := "noeviction".

Definition default_isolation (p : option PrimaryIsolationSpec) : PrimaryIsolationSpec :=
  let p := default (mkIsolation None None None) p in
  mkIsolation (Some (default true (pi_Enabled p)))
    (Some (default (seconds 5) (pi_APIServerTimeout p)))
    (Some (default (seconds 5) (pi_PeerTimeout p))).

Definition default_memory (m : MemorySpec) : MemorySpec :=
  mkMemory (mem_MaxMemory m) (mem_MaxMemoryPercent m)
    (if bool_decide (mem_MaxMemoryPolicy m = "") then MaxMemoryPolicyNoEviction else mem_MaxMemoryPolicy m).

Definition default_maintenance (w : NodeMaintenanceWindow) : NodeMaintenanceWindow :=
  mkMaintenance (nmw_InProgress w) (Some (default true (nmw_ReusePVC w))).

Definition default_spec (s : RedisClusterSpec) : RedisClusterSpec :=
  let mode := if bool_decide (Spec_Mode s = ModeUnset) then ClusterModeStandalone else Spec_Mode s in
  let cluster := bool_decide (mode = ClusterModeCluster) in
  {| Spec_Instances :=
       if negb cluster && bool_decide (Spec_Instances s = 0) then 1 else Spec_Instances s;
     Spec_Mode := mode;
     Spec_Shards := if cluster && bool_decide (Spec_Shards s = 0) then 3 else Spec_Shards s;
     Spec_ReplicasPerShard := Spec_ReplicasPerShard s;
     Spec_PrimaryUpdateStrategy :=
       if bool_decide (Spec_PrimaryUpdateStrategy s = PrimaryUpdateStrategyUnset)
       then PrimaryUpdateStrategyUnsupervised else Spec_PrimaryUpdateStrategy s;
     Spec_ImageName := if bool_decide (Spec_ImageName s = "") then "redis:7.2" else Spec_ImageName s;
     Spec_Storage :=
       mkStorage
         (if bool_decide (sto_Type (Spec_Storage s) = StorageTypeUnset) then StorageTypePVC
          else sto_Type (Spec_Storage s))
         (if q_IsZero (sto_Size (Spec_Storage s)) then quantity_1Gi else sto_Size (Spec_Storage s))
         (sto_StorageClassName (Spec_Storage s));
     Spec_Redis := Spec_Redis s;
     Spec_Limits := Spec_Limits s;
     Spec_Requests :=
       Some (default {[ ResourceMemory := quantity_128Mi; ResourceCPU := quantity_100m ]} (Spec_Requests s));
     Spec_Memory := default_memory <$> Spec_Memory s;
     Spec_MinSyncReplicas := Spec_MinSyncReplicas s;
     Spec_MaxSyncReplicas := Spec_MaxSyncReplicas s;
     Spec_EnablePodDisruptionBudget := Some (default true (Spec_EnablePodDisruptionBudget s));
     Spec_AuthSecret := Spec_AuthSecret s;
     Spec_ACLConfigSecret := Spec_ACLConfigSecret s;
     Spec_TLSSecret := Spec_TLSSecret s;
     Spec_CASecret := Spec_CASecret s;
     Spec_BackupCredentialsSecret := Spec_BackupCredentialsSecret s;
     Spec_PrimaryIsolation := Some (default_isolation (Spec_PrimaryIsolation s));
     Spec_Bootstrap := Spec_Bootstrap s;
     Spec_NodeMaintenanceWindow := default_maintenance <$> Spec_NodeMaintenanceWindow s;
     Spec_ReplicaMode := Spec_ReplicaMode s;
     Spec_ConnectionSecret := Spec_ConnectionSecret s |}.

Definition Default (cluster : RedisCluster) : RedisCluster := set_Spec cluster (default_spec (Spec cluster)).

(** ** Field errors *)

Inductive error_kind := Invalid | Required | Forbidden | NotFound | InternalError.
Record field_error := mkFieldError { fe_kind : error_kind; fe_path : string; fe_detail : string }.
Abbreviation ErrorList := (list field_error).

(** [if cond { allErrs = append(allErrs, err) }] *)
Definition report (cond : bool) (kind : error_kind) (path detail : string) : ErrorList :=
  if cond then [mkFieldError kind path detail] else [].

Definition dquote : string := String (ascii_of_nat 34) EmptyString.

Definition sentinelInstancesMinMessage := "sentinel mode requires at least 3 redis instances".
Definition clusterShardsMinMessage := "cluster mode requires spec.shards >= 3".
Definition clusterInstancesForbiddenMessage :=
  "spec.instances is not allowed in cluster mode; use shards and replicasPerShard".
Definition clusterMinSyncUnsupportedMessage := "minSyncReplicas is not supported in cluster mode".
Definition clusterMaxSyncUnsupportedMessage := "maxSyncReplicas is not supported in cluster mode".
Definition clusterReplicaModeUnsupported := "replicaMode is not supported in cluster mode".
Definition tlsSecretRequiredMessage := "tlsSecret is required when caSecret is set".
Definition caSecretRequiredMessage := "caSecret is required when tlsSecret is set".
Definition primaryUpdateApprovalValue := "must be " +:+ dquote +:+ "true" +:+ dquote +:+ " when present".
Definition maintenanceSingleInstanceMessage :=
  "nodeMaintenanceWindow.reusePVC=false is not allowed for single-instance clusters; set reusePVC=true or scale up first".
Definition replicaModeSourceRequiredMessage := "source is required when replicaMode.enabled=true".
Definition replicaModeHostRequiredMessage := "source.host is required when replicaMode.enabled=true".
Definition replicaModePromoteMessage := "replicaMode.promote=true requires replicaMode.enabled=true".
Definition replicaModeDisableMessage :=
  "replicaMode.enabled cannot be disabled directly; set replicaMode.promote=true first".
Definition ephemeralBootstrapMessage :=
  "bootstrap is not supported with ephemeral storage (storage.type=emptyDir); restored data would be lost when pods are recreated".
Definition ephemeralStorageClassMessage :=
  "storageClassName has no effect with ephemeral storage (storage.type=emptyDir); remove it".
Definition storageTypeImmutableMessage :=
  "storage.type is immutable after creation; switching between pvc and emptyDir would destroy or migrate data".
Definition memoryRedisConflictMessage :=
  "configure Redis memory via spec.memory; remove maxmemory/maxmemory-policy from spec.redis".
Definition memoryMutualExclusiveMessage :=
  "spec.memory.maxMemory and spec.memory.maxMemoryPercent are mutually exclusive; set only one".
Definition memoryPercentRequiresLimit :=
  "spec.memory.maxMemoryPercent requires spec.resources.limits.memory to be set".
Definition memoryExceedsLimitMessage := "spec.memory.maxMemory must not exceed spec.resources.limits.memory".
Definition memoryNonPositiveMessage := "spec.memory.maxMemory must be greater than 0".
Definition modeTransitionUnsupportedMessage := "unsupported mode transition; only standalone->sentinel is supported as an in-place migration (set instances>=3 and do not enable TLS). See docs/runbooks/standalone-to-sentinel-migration.md".
Definition modeMigrationNotReadyMessage := "cannot migrate standalone->sentinel until status.currentPrimary is set; wait for the cluster to become Healthy before changing mode".
Definition modeMigrationTLSMessage := "cannot migrate standalone->sentinel in place for a TLS-enabled cluster; the in-place migration does not support TLS (clearing tlsSecret/caSecret in the same change would strand the migration). Sentinel mode itself does support TLS for clusters created as sentinel. Use the backup/recreate path. See docs/runbooks/standalone-to-sentinel-migration.md".

(** ** Checks of one object *)

Definition rawMaxMemoryKey (key : string) : bool :=
  let normalized := ToLower (TrimSpace key) in
  bool_decide (normalized = "maxmemory") || bool_decide (normalized = "maxmemory-policy").

(** [picks] orders the iteration over [spec.redis]. *)
Definition validateMemory (cluster : RedisCluster) (picks : list nat) : ErrorList :=
  match Spec_Memory (Spec cluster) with
  | None => []
  | Some mem =>
      let limit := MemoryLimitBytes (Spec cluster) in
      mjoin ((λ e, report (rawMaxMemoryKey e.1) Forbidden ("spec.redis[" +:+ e.1 +:+ "]") memoryRedisConflictMessage)
               <$> range_map picks (Spec_Redis (Spec cluster))) ++
      report (bool_decide (is_Some (mem_MaxMemory mem)) && bool_decide (is_Some (mem_MaxMemoryPercent mem)))
        Forbidden "spec.memory.maxMemoryPercent" memoryMutualExclusiveMessage ++
      report (bool_decide (is_Some (mem_MaxMemoryPercent mem)) && bool_decide (limit ≤ 0))
        Invalid "spec.memory.maxMemoryPercent" memoryPercentRequiresLimit ++
      match mem_MaxMemory mem with
      | None => []
      | Some q =>
          if bool_decide (q_Value q ≤ 0) then report true Invalid "spec.memory.maxMemory" memoryNonPositiveMessage
          else report (bool_decide (0 < limit) && bool_decide (limit < q_Value q))
                 Invalid "spec.memory.maxMemory" memoryExceedsLimitMessage
      end
  end.

Definition validateStorage (cluster : RedisCluster) : ErrorList :=
  if negb (IsEphemeral (Spec_Storage (Spec cluster))) then []
  else
    report (match Spec_Bootstrap (Spec cluster) with Some b => negb (bool_decide (b = "")) | None => false end)
      Forbidden "spec.bootstrap" ephemeralBootstrapMessage ++
    report (match sto_StorageClassName (Spec_Storage (Spec cluster)) with
            | Some c => negb (bool_decide (c = "")) | None => false end)
      Forbidden "spec.storage.storageClassName" ephemeralStorageClassMessage.

(** The part of [validate] before it consults helpers. *)
Definition validate_fields (cluster : RedisCluster) : ErrorList :=
  let s := Spec cluster in
  let mode := Spec_Mode s in
  let tls := bool_decide (is_Some (Spec_TLSSecret s)) in
  let ca := bool_decide (is_Some (Spec_CASecret s)) in
  report (bool_decide (mode = ClusterModeSentinel) && bool_decide (Spec_Instances s < 3))
    Invalid "spec.instances" sentinelInstancesMinMessage ++
  report (tls && negb ca) Required "spec.caSecret" caSecretRequiredMessage ++
  report (ca && negb tls) Required "spec.tlsSecret" tlsSecretRequiredMessage ++
  match Annotations cluster !! AnnotationHibernation with
  | Some val => report (negb (bool_decide (val ∈ ["on"; "off"; "true"; "false"; ""]))) Invalid
      ("metadata.annotations." +:+ AnnotationHibernation)
      ("must be " +:+ dquote +:+ "on" +:+ dquote +:+ ", " +:+ dquote +:+ "off" +:+ dquote +:+ ", " +:+ dquote +:+
       "true" +:+ dquote +:+ ", " +:+ dquote +:+ "false" +:+ dquote +:+ ", or empty")
  | None => []
  end ++
  match Annotations cluster !! AnnotationApprovePrimaryUpdate with
  | Some val => report (negb (bool_decide (val = "true")) && negb (bool_decide (val = ""))) Invalid
      ("metadata.annotations." +:+ AnnotationApprovePrimaryUpdate) primaryUpdateApprovalValue
  | None => []
  end ++
  (if bool_decide (mode = ClusterModeCluster) then
     report (bool_decide (Spec_Shards s < 3)) Invalid "spec.shards" clusterShardsMinMessage ++
     report (negb (bool_decide (Spec_Instances s = 0))) Invalid "spec.instances" clusterInstancesForbiddenMessage ++
     report (negb (bool_decide (Spec_MinSyncReplicas s = 0))) Invalid "spec.minSyncReplicas"
       clusterMinSyncUnsupportedMessage ++
     report (negb (bool_decide (Spec_MaxSyncReplicas s = 0))) Invalid "spec.maxSyncReplicas"
       clusterMaxSyncUnsupportedMessage ++
     report (bool_decide (is_Some (Spec_ReplicaMode s))) Forbidden "spec.replicaMode" clusterReplicaModeUnsupported
   else report (bool_decide (Spec_Instances s < 1)) Invalid "spec.instances" "must be at least 1") ++
  report (negb (bool_decide (mode = ClusterModeCluster)) &&
          bool_decide (int32 (Spec_Instances s - 1) < Spec_MinSyncReplicas s))
    Invalid "spec.minSyncReplicas" "must be less than or equal to instances - 1" ++
  report (negb (bool_decide (mode = ClusterModeCluster)) &&
          bool_decide (Spec_MaxSyncReplicas s < Spec_MinSyncReplicas s))
    Invalid "spec.maxSyncReplicas" "must be greater than or equal to minSyncReplicas" ++
  report (match Spec_NodeMaintenanceWindow s with
          | Some w => nmw_InProgress w &&
              match nmw_ReusePVC w with Some reuse => negb reuse | None => false end &&
              bool_decide (DesiredDataInstances s = 1)
          | None => false
          end)
    Invalid "spec.nodeMaintenanceWindow.reusePVC" maintenanceSingleInstanceMessage.

(** ** Checks that read other objects *)

Section validator.
(** Whether [v.Reader] is set. *)
Context (reader : bool).
(** [validation.IsDNS1123Subdomain]: the messages for a name. *)
Context (IsDNS1123Subdomain : string → list string).

Definition validateConnectionSecret (cluster : RedisCluster) : ErrorList :=
  match Spec_ConnectionSecret (Spec cluster) with
  | None => []
  | Some n =>
      let name := TrimSpace n in
      if bool_decide (name = "") then
        report true Required "spec.connectionSecret.name" "name is required when connectionSecret is set"
      else mkFieldError Invalid "spec.connectionSecret.name" <$> IsDNS1123Subdomain name
  end.

Definition validateReplicaMode (cluster : RedisCluster) : kprog ErrorList :=
  match Spec_ReplicaMode (Spec cluster) with
  | None => mret []
  | Some rm =>
      let errs := report (rm_Promote rm && negb (rm_Enabled rm)) Invalid "spec.replicaMode.promote"
                    replicaModePromoteMessage in
      if negb (rm_Enabled rm) then mret errs
      else
        match rm_Source rm with
        | None => mret (errs ++ report true Required "spec.replicaMode.source" replicaModeSourceRequiredMessage)
        | Some src =>
            let authSecretName := TrimSpace (rs_AuthSecretName src) in
            let errs := errs ++
              report (bool_decide (TrimSpace (rs_Host src) = "")) Required "spec.replicaMode.source.host"
                replicaModeHostRequiredMessage ++
              report (bool_decide (rs_Port src < 0) || bool_decide (65535 < rs_Port src)) Invalid
                "spec.replicaMode.source.port" "must be between 1 and 65535 when set" ++
              report (negb (bool_decide (rs_AuthSecretName src = "")) && bool_decide (authSecretName = "")) Invalid
                "spec.replicaMode.source.authSecretName" "must not be empty when set" in
            if negb (bool_decide (authSecretName = "")) && reader then
              r ← kcall (OGetSecret authSecretName);
              mret (errs ++ match r with
                | Ok _ => []
                | Err e => report true (if IsNotFound e then NotFound else InternalError)
                    "spec.replicaMode.source.authSecretName" ("getting secret " +:+ authSecretName)
                end)
            else mret errs
        end
  end.

Definition validateBootstrapReference (cluster : RedisCluster) : kprog ErrorList :=
  let backupName := default "" (Spec_Bootstrap (Spec cluster)) in
  let path := "spec.bootstrap.backupName" in
  if bool_decide (backupName = "") then mret []
  else if negb reader then mret (report true InternalError path "validator reader is not configured")
  else
    r ← kcall (OGetBackup backupName);
    match r with
    | Err e => mret (report true (if IsNotFound e then NotFound else InternalError) path
                       ("fetching RedisBackup " +:+ backupName))
    | Ok backup =>
        mret (report (negb (bool_decide (bst_Phase (b_Status backup) = BackupPhaseCompleted))) Invalid path
                ("referenced RedisBackup must be in phase " +:+ dquote +:+ "Completed" +:+ dquote) ++
              report (bool_decide (is_Some (Destination_Validate (bs_Destination (b_Spec backup))))) Invalid path
                "referenced RedisBackup has an invalid destination" ++
              report (bool_decide (bst_BackupPath (b_Status backup) = "") &&
                      bool_decide (size (bst_ShardArtifacts (b_Status backup)) = 0)%nat) Invalid path
                "referenced RedisBackup must have status.backupPath or status.shardArtifacts set")
    end.

Definition validate (cluster : RedisCluster) : kprog ErrorList :=
  replicaMode ← (if bool_decide (Spec_Mode (Spec cluster) = ClusterModeCluster) then mret []
                 else validateReplicaMode cluster);
  bootstrap ← validateBootstrapReference cluster;
  ord ← kcall OMapOrder;
  mret (validate_fields cluster ++ replicaMode ++ validateConnectionSecret cluster ++ bootstrap ++
        validateStorage cluster ++ validateMemory cluster (ord 0%nat)).

(** ** Checks of an update *)

Definition listClusterPVCs (cluster : RedisCluster) : kprog (list PersistentVolumeClaim) :=
  kcall (OListPVCs {[ LabelCluster := Name cluster ]}) ≫= check.

(** The first class that does not allow expansion, in map order; [""] when all
    do. *)
Fixpoint check_classes (classes : list string) : kprog (bool * string) :=
  match classes with
  | [] => mret (true, "")
  | name :: classes' =>
      r ← kcall (OGetStorageClass name);
      match r with
      | Err e =>
          if IsNotFound e then mret (false, "storageClass " +:+ dquote +:+ name +:+ dquote +:+ " was not found")
          else Throw (Wrap ("getting storageClass " +:+ name) e)
      | Ok sc =>
          if negb (default false (sc_AllowVolumeExpansion sc))
          then mret (false, "storageClass " +:+ dquote +:+ name +:+ dquote +:+ " does not allow volume expansion")
          else check_classes classes'
      end
  end.

Definition named_class (c : option string) : gset string :=
  match c with Some n => if bool_decide (n = "") then ∅ else {[n]} | None => ∅ end.

Definition validateStorageClassExpansion (cluster : RedisCluster) : kprog (bool * string) :=
  if negb reader then mret (true, "")
  else
    pvcs ← with_ctx "listing cluster PVCs" (listClusterPVCs cluster);
    let classes := foldl (λ s pvc, s ∪ named_class (pvc_StorageClassName pvc))
                     (named_class (sto_StorageClassName (Spec_Storage (Spec cluster)))) pvcs in
    ord ← kcall OMapOrder;
    check_classes (shuffle (size classes) (ord 0%nat) (elements classes)).

Definition max_requested (pvcs : list PersistentVolumeClaim) : Quantity :=
  foldl (λ m pvc, match q_Cmp (pvc_Request pvc) m with Gt => pvc_Request pvc | _ => m end) quantity_zero pvcs.

Definition storageSizePath := "spec.storage.size".

Definition validate_resize (oldCluster newCluster : RedisCluster) : kprog ErrorList :=
  let oldSize := sto_Size (Spec_Storage (Spec oldCluster)) in
  let newSize := sto_Size (Spec_Storage (Spec newCluster)) in
  if IsEphemeral (Spec_Storage (Spec newCluster)) then mret []
  else
    match q_Cmp oldSize newSize with
    | Gt =>
        if negb reader then
          mret (report true Forbidden storageSizePath
                  "storage size cannot be decreased after creation; only increases are allowed")
        else
          r ← catch (listClusterPVCs newCluster);
          match r with
          | Err _ => mret (report true InternalError storageSizePath "listing cluster PVCs")
          | Ok pvcs =>
              let m := max_requested pvcs in
              mret (report (match q_Cmp m newSize with Gt => true | _ => false end) Forbidden storageSizePath
                ("storage size cannot be decreased below currently requested PVC size " +:+ dquote +:+ q_String m +:+ dquote))
          end
    | Lt =>
        r ← catch (validateStorageClassExpansion newCluster);
        match r with
        | Err _ => mret (report true InternalError storageSizePath "checking storage class expansion")
        | Ok (expandable, reason) => mret (report (negb expandable) Forbidden storageSizePath reason)
        end
    | Eq => mret []
    end.

Definition validateModeTransition (oldCluster newCluster : RedisCluster) : ErrorList :=
  if bool_decide (Spec_Mode (Spec oldCluster) = ClusterModeStandalone) &&
     bool_decide (Spec_Mode (Spec newCluster) = ClusterModeSentinel)
  then
    if bool_decide (Status_CurrentPrimary (Status newCluster) = "")
    then report true Forbidden "spec.mode" modeMigrationNotReadyMessage
    else report (bool_decide (is_Some (Spec_TLSSecret (Spec oldCluster))) ||
                 bool_decide (is_Some (Spec_CASecret (Spec oldCluster))) ||
                 bool_decide (is_Some (Spec_TLSSecret (Spec newCluster))) ||
                 bool_decide (is_Some (Spec_CASecret (Spec newCluster))))
           Forbidden "spec.mode" modeMigrationTLSMessage
  else report true Forbidden "spec.mode" modeTransitionUnsupportedMessage.

Definition replicaModeEnabled (rm : option ReplicaModeSpec) : bool :=
  match rm with Some r => rm_Enabled r | None => false end.
Definition promoteRequested (rm : option ReplicaModeSpec) : bool :=
  match rm with Some r => rm_Promote r | None => false end.

Definition validateUpdate (oldCluster newCluster : RedisCluster) : kprog ErrorList :=
  let o := Spec oldCluster in
  let n := Spec newCluster in
  resize ← validate_resize oldCluster newCluster;
  mret (
    report (negb (bool_decide (sto_Type (Spec_Storage o) = sto_Type (Spec_Storage n)))) Forbidden
      "spec.storage.type" storageTypeImmutableMessage ++
    resize ++
    (if bool_decide (Spec_Mode o = Spec_Mode n) then [] else validateModeTransition oldCluster newCluster) ++
    report (negb (bool_decide (default "" (Spec_Bootstrap o) = default "" (Spec_Bootstrap n)))) Forbidden
      "spec.bootstrap.backupName" "bootstrap backupName is immutable after creation" ++
    report (replicaModeEnabled (Spec_ReplicaMode o) && negb (replicaModeEnabled (Spec_ReplicaMode n)) &&
            negb (promoteRequested (Spec_ReplicaMode o))) Forbidden
      "spec.replicaMode.enabled" replicaModeDisableMessage ++
    report (negb (replicaModeEnabled (Spec_ReplicaMode o)) && promoteRequested (Spec_ReplicaMode n)) Forbidden
      "spec.replicaMode.promote" "replicaMode.promote can only be set after replicaMode is already enabled").

(** ** Warnings and entry points *)

Definition hasRawMaxMemory (cluster : RedisCluster) (picks : list nat) : bool :=
  existsb (λ e, EqualFold (TrimSpace e.1) "maxmemory" && negb (bool_decide (TrimSpace e.2 = "")))
    (range_map picks (Spec_Redis (Spec cluster))).

Definition memoryWarnings (cluster : RedisCluster) (picks : list nat) : list string :=
  let limit := MemoryLimitBytes (Spec cluster) in
  if bool_decide (limit ≤ 0) then []
  else
    match ResolveMaxMemoryBytes (Spec cluster) with
    | None =>
        if hasRawMaxMemory cluster picks then []
        else ["spec.resources.limits.memory is set (" +:+ itoa limit +:+ " bytes) but no Redis maxmemory is configured; Redis may be OOM-killed at the container limit instead of applying eviction. Set spec.memory.maxMemory or spec.memory.maxMemoryPercent."]
    | Some bytes =>
        if bool_decide (int64 (limit * 9) ≤ int64 (bytes * 10))
        then ["spec.memory resolves maxmemory to " +:+ itoa bytes +:+ " bytes, at least 90% of the " +:+ itoa limit +:+ " byte container limit; leave headroom for replication buffers, copy-on-write during persistence, and fragmentation."]
        else []
    end.

(** [ToAggregate]: nil for an empty list. *)
Definition ToAggregate (errs : ErrorList) : kprog unit :=
  match errs with [] => mret tt | e :: _ => Throw (Errorf (fe_path e +:+ ": " +:+ fe_detail e)) end.

Definition ValidateCreate (cluster : RedisCluster) : kprog (list string) :=
  errs ← validate cluster;
  ToAggregate errs;;
  ord ← kcall OMapOrder;
  mret (memoryWarnings cluster (ord 0%nat)).

Definition ValidateUpdate (oldCluster newCluster : RedisCluster) : kprog (list string) :=
  errs ← validate newCluster;
  errs' ← validateUpdate oldCluster newCluster;
  ToAggregate (errs ++ errs');;
  ord ← kcall OMapOrder;
  mret (memoryWarnings newCluster (ord 0%nat)).

Definition ValidateDelete (cluster : RedisCluster) : kprog (list string) := mret [].
End validator.
