(* ===== verification/WebhooksFacts.v ===== *)
(** * Admission: the guarantees

    - defaulting fills every field the controller relies on, keeps what is set
      and changes nothing when applied again;
    - an admitted object satisfies the invariants the controller's arithmetic
      needs, whatever the API server answered to the reads;
    - an admitted update keeps what must not change. *)
From S2P Require Import Prelude GoStr Api Effects Kube Fixtures Resources Lifecycle Webhooks.

(** ** Defaults *)

(** The fields the controller takes for granted. *)
Record defaulted (s : RedisClusterSpec) : Prop := {
  df_mode : Spec_Mode s ≠ ModeUnset;
  df_instances : Spec_Mode s ≠ ClusterModeCluster → Spec_Instances s ≠ 0;
  df_shards : Spec_Mode s = ClusterModeCluster → Spec_Shards s ≠ 0;
  df_strategy : Spec_PrimaryUpdateStrategy s ≠ PrimaryUpdateStrategyUnset;
  df_image : Spec_ImageName s ≠ "";
  df_storage : sto_Type (Spec_Storage s) ≠ StorageTypeUnset ∧ q_IsZero (sto_Size (Spec_Storage s)) = false;
  df_requests : is_Some (Spec_Requests s);
  df_pdb : is_Some (Spec_EnablePodDisruptionBudget s);
  df_isolation : ∃ p, Spec_PrimaryIsolation s = Some p ∧ is_Some (pi_Enabled p) ∧
    is_Some (pi_APIServerTimeout p) ∧ is_Some (pi_PeerTimeout p);
  df_memory m : Spec_Memory s = Some m → mem_MaxMemoryPolicy m ≠ "";
  df_maintenance w : Spec_NodeMaintenanceWindow s = Some w → is_Some (nmw_ReusePVC w)
}.

Lemma default_spec_defaulted s : defaulted (default_spec s).
Proof.
  split; simpl.
  - case_bool_decide; congruence.
  - intros Hm. rewrite (bool_decide_false (_ = ClusterModeCluster)) by done. simpl.
    by destruct (bool_decide_reflect (Spec_Instances s = 0)).
  - intros Hm. rewrite (bool_decide_true (_ = ClusterModeCluster)) by done. simpl.
    by destruct (bool_decide_reflect (Spec_Shards s = 0)).
  - by case_bool_decide.
  - by case_bool_decide.
  - split; [by case_bool_decide|]. destruct (q_IsZero (sto_Size (Spec_Storage s))) eqn:E; [done|exact E].
  - done.
  - done.
  - by eexists.
  - intros m (m' & _ & ->)%fmap_Some. simpl. by case_bool_decide.
  - intros w (w' & _ & ->)%fmap_Some. done.
Qed.

(** On a spec with all defaults there is nothing to write. *)
Lemma default_spec_fixed s : defaulted s → default_spec s = s.
Proof.
  intros [Hmode Hinst Hshards Hstrat Himg [Hst Hsz] [req Hreq] [pdb Hpdb] (p & Hp & [en Hen] & [api Hapi] & [peer Hpeer]) Hmem Hmw].
  destruct p as [en' api' peer'], s; simpl in *; subst. unfold default_spec; simpl.
  rewrite (bool_decide_false (Spec_Mode = ModeUnset)) by done. rewrite (bool_decide_false (Spec_PrimaryUpdateStrategy = _)) by done.
  rewrite (bool_decide_false (Spec_ImageName = _)) by done.
  destruct Spec_Storage as [ty sz cls]; simpl in *. rewrite (bool_decide_false (ty = _)), Hsz by done.
  f_equal.
  - destruct (bool_decide_reflect (Spec_Mode = ClusterModeCluster)); simpl; [done|]. by rewrite bool_decide_false by auto.
  - destruct (bool_decide_reflect (Spec_Mode = ClusterModeCluster)); simpl; [|done]. by rewrite bool_decide_false by auto.
  - destruct Spec_Memory as [[mm pct pol]|]; [|done]. simpl. unfold default_memory. simpl.
    by rewrite bool_decide_false by (by apply (Hmem _ eq_refl)).
  - destruct Spec_NodeMaintenanceWindow as [[ip reuse]|]; [|done]. destruct (Hmw _ eq_refl) as [b Hb]. simpl in Hb. by subst.
Qed.

(** What was given is kept: every field that was set, and inside the structures
    that are filled up each of their fields that was set; a structure without
    required defaults is not introduced. *)
Definition kept {A} (old new : option A) : Prop := is_Some old → new = old.

Record keeps (s s' : RedisClusterSpec) : Prop := {
  kp_Mode : Spec_Mode s ≠ ModeUnset → Spec_Mode s' = Spec_Mode s;
  kp_Instances : Spec_Instances s ≠ 0 → Spec_Instances s' = Spec_Instances s;
  kp_Shards : Spec_Shards s ≠ 0 → Spec_Shards s' = Spec_Shards s;
  kp_Strategy : Spec_PrimaryUpdateStrategy s ≠ PrimaryUpdateStrategyUnset →
    Spec_PrimaryUpdateStrategy s' = Spec_PrimaryUpdateStrategy s;
  kp_ImageName : Spec_ImageName s ≠ "" → Spec_ImageName s' = Spec_ImageName s;
  kp_StorageType : sto_Type (Spec_Storage s) ≠ StorageTypeUnset →
    sto_Type (Spec_Storage s') = sto_Type (Spec_Storage s);
  kp_StorageSize : q_IsZero (sto_Size (Spec_Storage s)) = false →
    sto_Size (Spec_Storage s') = sto_Size (Spec_Storage s);
  kp_StorageClass : sto_StorageClassName (Spec_Storage s') = sto_StorageClassName (Spec_Storage s);
  kp_Requests : kept (Spec_Requests s) (Spec_Requests s');
  kp_PDB : kept (Spec_EnablePodDisruptionBudget s) (Spec_EnablePodDisruptionBudget s');
  kp_Isolation p : Spec_PrimaryIsolation s = Some p → ∃ p', Spec_PrimaryIsolation s' = Some p' ∧
    kept (pi_Enabled p) (pi_Enabled p') ∧ kept (pi_APIServerTimeout p) (pi_APIServerTimeout p') ∧
    kept (pi_PeerTimeout p) (pi_PeerTimeout p');
  kp_NoMemory : Spec_Memory s = None → Spec_Memory s' = None;
  kp_Memory m : Spec_Memory s = Some m → ∃ m', Spec_Memory s' = Some m' ∧
    mem_MaxMemory m' = mem_MaxMemory m ∧ mem_MaxMemoryPercent m' = mem_MaxMemoryPercent m ∧
    (mem_MaxMemoryPolicy m ≠ "" → mem_MaxMemoryPolicy m' = mem_MaxMemoryPolicy m);
  kp_NoWindow : Spec_NodeMaintenanceWindow s = None → Spec_NodeMaintenanceWindow s' = None;
  kp_Window w : Spec_NodeMaintenanceWindow s = Some w → ∃ w', Spec_NodeMaintenanceWindow s' = Some w' ∧
    nmw_InProgress w' = nmw_InProgress w ∧ kept (nmw_ReusePVC w) (nmw_ReusePVC w');
  kp_ReplicasPerShard : Spec_ReplicasPerShard s' = Spec_ReplicasPerShard s;
  kp_Redis : Spec_Redis s' = Spec_Redis s;
  kp_Limits : Spec_Limits s' = Spec_Limits s;
  kp_MinSyncReplicas : Spec_MinSyncReplicas s' = Spec_MinSyncReplicas s;
  kp_MaxSyncReplicas : Spec_MaxSyncReplicas s' = Spec_MaxSyncReplicas s;
  kp_AuthSecret : Spec_AuthSecret s' = Spec_AuthSecret s;
  kp_ACLConfigSecret : Spec_ACLConfigSecret s' = Spec_ACLConfigSecret s;
  kp_TLSSecret : Spec_TLSSecret s' = Spec_TLSSecret s;
  kp_CASecret : Spec_CASecret s' = Spec_CASecret s;
  kp_BackupCredentialsSecret : Spec_BackupCredentialsSecret s' = Spec_BackupCredentialsSecret s;
  kp_Bootstrap : Spec_Bootstrap s' = Spec_Bootstrap s;
  kp_ReplicaMode : Spec_ReplicaMode s' = Spec_ReplicaMode s;
  kp_ConnectionSecret : Spec_ConnectionSecret s' = Spec_ConnectionSecret s
}.

Lemma kept_default {A} (x : A) (o : option A) : kept o (Some (default x o)).
Proof. by intros [y ->]. Qed.

Lemma default_spec_keeps s : keeps s (default_spec s).
Proof.
  split; simpl; try done.
  - intros H. by rewrite bool_decide_false.
  - intros H. rewrite (bool_decide_false (Spec_Instances s = 0)) by done. by rewrite andb_false_r.
  - intros H. rewrite (bool_decide_false (Spec_Shards s = 0)) by done. by rewrite andb_false_r.
  - intros H. by rewrite bool_decide_false.
  - intros H. by rewrite bool_decide_false.
  - intros H. by rewrite bool_decide_false.
  - by intros ->.
  - apply kept_default.
  - apply kept_default.
  - intros p ->. eexists. split; [done|]. simpl. split_and!; apply kept_default.
  - by intros ->.
  - intros m ->. eexists. split; [done|]. simpl. split_and!; [done..|]. intros H. by rewrite bool_decide_false.
  - by intros ->.
  - intros w ->. eexists. split; [done|]. split; [done|]. apply kept_default.
Qed.

(** C31: Defaulting is total, stable and conservative: the spec it returns has
    every field the controller relies on, applying it again changes nothing, every
    field of the spec that was set keeps its value (inside the isolation, memory
    and maintenance structures too), those without a default are left as they are,
    and nothing but the spec is touched. *)
Theorem defaulting_complete cluster :
  let s := Spec cluster in
  let s' := Spec (Default cluster) in
  defaulted s' ∧ keeps s s' ∧ Default (Default cluster) = Default cluster ∧
  set_Spec (Default cluster) s = cluster.
Proof.
  cbv zeta. split_and!.
  - apply default_spec_defaulted.
  - apply default_spec_keeps.
  - unfold Default. simpl. f_equal. apply default_spec_fixed, default_spec_defaulted.
  - by destruct cluster.
Qed.

(** The defaults of an empty spec. *)
Example default_values :
  let none := mkSpec 0 ModeUnset 0 0 PrimaryUpdateStrategyUnset "" (mkStorage StorageTypeUnset (mkQuantity 0 0 "0") None) ∅ ∅
                None (Some (mkMemory None None "")) 0 0 None None None None None None None None
                (Some (mkMaintenance true None)) None None in
  default_spec none =
    mkSpec 1 ClusterModeStandalone 0 0 PrimaryUpdateStrategyUnsupervised "redis:7.2"
      (mkStorage StorageTypePVC quantity_1Gi None) ∅ ∅
      (Some {[ "memory" := quantity_128Mi; "cpu" := quantity_100m ]}) (Some (mkMemory None None "noeviction")) 0 0
      (Some true) None None None None None (Some (mkIsolation (Some true) (Some 5000000000) (Some 5000000000))) None
      (Some (mkMaintenance true (Some true))) None None.
Proof. vm_compute. reflexivity. Qed.

(** ** Admitted objects *)

(** What every admitted object satisfies. *)
Record admitted (cluster : RedisCluster) : Prop := {
  ad_sentinel : Spec_Mode (Spec cluster) = ClusterModeSentinel → 3 ≤ Spec_Instances (Spec cluster);
  ad_tls : is_Some (Spec_TLSSecret (Spec cluster)) ↔ is_Some (Spec_CASecret (Spec cluster));
  ad_cluster : Spec_Mode (Spec cluster) = ClusterModeCluster →
    3 ≤ Spec_Shards (Spec cluster) ∧ Spec_Instances (Spec cluster) = 0 ∧
    Spec_MinSyncReplicas (Spec cluster) = 0 ∧ Spec_MaxSyncReplicas (Spec cluster) = 0 ∧
    Spec_ReplicaMode (Spec cluster) = None;
  ad_instances : Spec_Mode (Spec cluster) ≠ ClusterModeCluster →
    1 ≤ Spec_Instances (Spec cluster) ∧
    Spec_MinSyncReplicas (Spec cluster) ≤ int32 (Spec_Instances (Spec cluster) - 1) ∧
    Spec_MinSyncReplicas (Spec cluster) ≤ Spec_MaxSyncReplicas (Spec cluster);
  ad_maintenance w : Spec_NodeMaintenanceWindow (Spec cluster) = Some w →
    nmw_InProgress w = true → nmw_ReusePVC w = Some false → DesiredDataInstances (Spec cluster) ≠ 1;
  ad_ephemeral : IsEphemeral (Spec_Storage (Spec cluster)) = true →
    default "" (Spec_Bootstrap (Spec cluster)) = "" ∧
    default "" (sto_StorageClassName (Spec_Storage (Spec cluster))) = "";
  ad_memory m : Spec_Memory (Spec cluster) = Some m →
    (mem_MaxMemory m = None ∨ mem_MaxMemoryPercent m = None) ∧
    (is_Some (mem_MaxMemoryPercent m) → 0 < MemoryLimitBytes (Spec cluster)) ∧
    (∀ q, mem_MaxMemory m = Some q → 0 < q_Value q ∧
       (0 < MemoryLimitBytes (Spec cluster) → q_Value q ≤ MemoryLimitBytes (Spec cluster))) ∧
    (∀ key v, Spec_Redis (Spec cluster) !! key = Some v → rawMaxMemoryKey key = false)
}.

Lemma report_nil cond kind path detail : report cond kind path detail = [] ↔ cond = false.
Proof. by destruct cond. Qed.

Lemma validateStorage_nil cluster :
  validateStorage cluster = [] → IsEphemeral (Spec_Storage (Spec cluster)) = true →
  default "" (Spec_Bootstrap (Spec cluster)) = "" ∧
  default "" (sto_StorageClassName (Spec_Storage (Spec cluster))) = "".
Proof.
  intros H He. unfold validateStorage in H. rewrite He in H. apply app_nil in H as [H1 H2].
  rewrite report_nil in H1, H2. split; repeat case_match; simpl in *; by bsimpl.
Qed.

Lemma validateMemory_nil cluster picks m :
  validateMemory cluster picks = [] → Spec_Memory (Spec cluster) = Some m →
  (mem_MaxMemory m = None ∨ mem_MaxMemoryPercent m = None) ∧
  (is_Some (mem_MaxMemoryPercent m) → 0 < MemoryLimitBytes (Spec cluster)) ∧
  (∀ q, mem_MaxMemory m = Some q → 0 < q_Value q ∧
     (0 < MemoryLimitBytes (Spec cluster) → q_Value q ≤ MemoryLimitBytes (Spec cluster))) ∧
  (∀ key v, Spec_Redis (Spec cluster) !! key = Some v → rawMaxMemoryKey key = false).
Proof.
  intros H Hm. unfold validateMemory in H. rewrite Hm in H. cbv zeta in H.
  apply app_nil in H as [Hkeys H]. apply app_nil in H as [Hboth H]. apply app_nil in H as [Hpct H].
  rewrite report_nil in Hboth, Hpct. split_and!.
  - destruct (mem_MaxMemory m), (mem_MaxMemoryPercent m); auto; done.
  - intros Hs. rewrite bool_decide_true in Hpct by done. simpl in Hpct. apply bool_decide_eq_false in Hpct. lia.
  - intros q Hq. rewrite Hq in H. case_bool_decide; [done|]. rewrite report_nil in H. split; [lia|]. intros Hl.
    rewrite (bool_decide_true (0 < _)) in H by done. simpl in H. apply bool_decide_eq_false in H. lia.
  - intros key v Hkv. destruct (rawMaxMemoryKey key) eqn:Hraw; [|done]. exfalso.
    apply (elem_of_range_map picks) in Hkv.
    assert (mkFieldError Forbidden ("spec.redis[" +:+ key +:+ "]") memoryRedisConflictMessage ∈ ([] : ErrorList)) as Hin;
      [|by apply elem_of_nil in Hin].
    rewrite <- Hkeys. apply list_elem_of_join. eexists. split; [|by apply list_elem_of_fmap_2].
    simpl. rewrite Hraw. apply list_elem_of_here.
Qed.

Lemma validate_nil cluster picks :
  validate_fields cluster = [] → validateStorage cluster = [] → validateMemory cluster picks = [] →
  admitted cluster.
Proof.
  intros Hf Hs Hm. unfold validate_fields in Hf. cbv zeta in Hf.
  repeat (apply app_nil in Hf as [?Hf Hf] || rewrite report_nil in * ). split.
  - intros Hmode. rewrite (bool_decide_true _ Hmode) in Hf0. simpl in Hf0. apply bool_decide_eq_false in Hf0. lia.
  - destruct (Spec_TLSSecret _), (Spec_CASecret _); simpl in *; try done; split; by intros [].
  - intros Hmode. rewrite bool_decide_true in Hf5 by done.
    repeat (apply app_nil in Hf5 as [?Hf5 Hf5] || rewrite report_nil in * ). bsimpl.
    split_and!; [lia|done..|]. by apply eq_None_not_Some.
  - intros Hmode. rewrite (bool_decide_false _ Hmode) in Hf5, Hf6, Hf7. rewrite report_nil in Hf5.
    simpl in Hf6, Hf7. bsimpl. lia.
  - intros w Hw Hp Hr H1. rewrite Hw, Hp, Hr, H1 in Hf. done.
  - by apply validateStorage_nil.
  - intros m. by eapply validateMemory_nil.
Qed.

Lemma ToAggregate_ok errs tr u : runs (S := kube) (ToAggregate errs) tr (Ok u) → errs = [].
Proof. destruct errs; [done|]. by intros []. Qed.

Section admission.
Context (reader : bool) (IsDNS1123Subdomain : string → list string).

Abbreviation validating c := (validate reader IsDNS1123Subdomain c).

Lemma validate_admits cluster :
  does (S := kube) (λ _, True) (validating cluster) (λ errs, errs = [] → admitted cluster).
Proof.
  unfold validate. eapply (does_bind _ _ _ (λ _, True)); [by apply does_any|]. intros rm _.
  eapply (does_bind _ _ _ (λ _, True)); [by apply does_any|]. intros bs _. apply does_kcall; [done|]. intros ord. simpl.
  intros H. apply app_nil in H as [Hf H]. do 3 apply app_nil in H as [_ H]. apply app_nil in H as [Hs Hm].
  by eapply validate_nil.
Qed.

(** ** Admitted updates *)

Definition uses_tls (s : RedisClusterSpec) : Prop := is_Some (Spec_TLSSecret s) ∨ is_Some (Spec_CASecret s).

(** What an admitted update keeps; the claims that were listed are in [tr]. *)
Record admitted_update (old new : RedisCluster) (tr : trace kube) : Prop := {
  au_storage : sto_Type (Spec_Storage (Spec new)) = sto_Type (Spec_Storage (Spec old));
  au_bootstrap : default "" (Spec_Bootstrap (Spec new)) = default "" (Spec_Bootstrap (Spec old));
  au_mode : Spec_Mode (Spec new) = Spec_Mode (Spec old) ∨
    Spec_Mode (Spec old) = ClusterModeStandalone ∧ Spec_Mode (Spec new) = ClusterModeSentinel ∧
    Status_CurrentPrimary (Status new) ≠ "" ∧ ¬ uses_tls (Spec old) ∧ ¬ uses_tls (Spec new);
  au_disable : replicaModeEnabled (Spec_ReplicaMode (Spec old)) = true →
    replicaModeEnabled (Spec_ReplicaMode (Spec new)) = true ∨ promoteRequested (Spec_ReplicaMode (Spec old)) = true;
  au_promote : promoteRequested (Spec_ReplicaMode (Spec new)) = true →
    replicaModeEnabled (Spec_ReplicaMode (Spec old)) = true;
  au_size : IsEphemeral (Spec_Storage (Spec new)) = false →
    q_amount (sto_Size (Spec_Storage (Spec new))) < q_amount (sto_Size (Spec_Storage (Spec old))) →
    reader = true ∧ ∃ pvcs, kev (OListPVCs {[ LabelCluster := Name new ]}) (Ok pvcs) ∈ tr ∧
      ∀ pvc, pvc ∈ pvcs → q_amount (pvc_Request pvc) ≤ q_amount (sto_Size (Spec_Storage (Spec new)))
}.

Lemma max_requested_bound pvcs pvc : pvc ∈ pvcs → q_amount (pvc_Request pvc) ≤ q_amount (max_requested pvcs).
Proof.
  unfold max_requested.
  set (f := λ (m : Quantity) (pvc : PersistentVolumeClaim),
    match q_Cmp (pvc_Request pvc) m with Gt => pvc_Request pvc | _ => m end).
  assert (∀ m x, q_amount m ≤ q_amount (f m x) ∧ q_amount (pvc_Request x) ≤ q_amount (f m x)) as Hf.
  { intros m x. unfold f, q_Cmp. destruct (Z.compare_spec (q_amount (pvc_Request x)) (q_amount m)); lia. }
  generalize quantity_zero. induction pvcs as [|x l IH]; intros m Hin; simpl; [by apply elem_of_nil in Hin|].
  assert (∀ l m, q_amount m ≤ q_amount (foldl f m l)) as Hmono.
  { induction l0 as [|y l0 IH0]; intros m0; simpl; [lia|]. specialize (IH0 (f m0 y)). destruct (Hf m0 y). lia. }
  apply elem_of_cons in Hin as [->|Hin]; [|by apply IH]. destruct (Hf m x). specialize (Hmono l (f m x)). lia.
Qed.

Lemma validate_resize_size old new tr errs :
  runs (validate_resize reader old new) tr (Ok errs) → errs = [] → IsEphemeral (Spec_Storage (Spec new)) = false →
  q_amount (sto_Size (Spec_Storage (Spec new))) < q_amount (sto_Size (Spec_Storage (Spec old))) →
  reader = true ∧ ∃ pvcs, kev (OListPVCs {[ LabelCluster := Name new ]}) (Ok pvcs) ∈ tr ∧
    ∀ pvc, pvc ∈ pvcs → q_amount (pvc_Request pvc) ≤ q_amount (sto_Size (Spec_Storage (Spec new))).
Proof.
  intros Hr He Hs Hlt. unfold validate_resize in Hr. cbv zeta in Hr. rewrite Hs in Hr. unfold q_Cmp at 1 in Hr.
  rewrite (proj2 (Z.compare_gt_iff _ _) Hlt) in Hr. destruct reader; simpl negb in Hr; cbn iota in Hr.
  - split; [done|]. apply runs_bind in Hr as [(e & _ & ?)|(r & t1 & t2 & -> & Hc & Hr)]; [done|].
    apply runs_catch in Hc as (x & (resp & t & -> & Hl) & [= ->]). apply runs_check in Hl as [-> ->].
    destruct resp as [pvcs|e]; [|destruct Hr as [_ Hr]; by simplify_eq/=]. exists pvcs. split; [set_solver|].
    destruct Hr as [_ Herr]. injection Herr as Herr. rewrite He in Herr. symmetry in Herr. apply report_nil in Herr.
    intros pvc Hp%max_requested_bound. unfold q_Cmp in Herr.
    destruct (Z.compare_spec (q_amount (max_requested pvcs)) (q_amount (sto_Size (Spec_Storage (Spec new))))); [lia|lia|done].
  - destruct Hr as [_ Hr]. by simplify_eq/=.
Qed.

Lemma validateModeTransition_nil old new :
  validateModeTransition old new = [] →
  Spec_Mode (Spec old) = ClusterModeStandalone ∧ Spec_Mode (Spec new) = ClusterModeSentinel ∧
  Status_CurrentPrimary (Status new) ≠ "" ∧ ¬ uses_tls (Spec old) ∧ ¬ uses_tls (Spec new).
Proof.
  unfold validateModeTransition, uses_tls. destruct (_ && _) eqn:Hm; [|done]. bsimpl.
  destruct (bool_decide_reflect (Status_CurrentPrimary (Status new) = "")); [done|].
  rewrite report_nil. intros H'. bsimpl. tauto.
Qed.

Lemma validateUpdate_admits old new tr :
  runs (validateUpdate reader old new) tr (Ok []) → admitted_update old new tr.
Proof.
  unfold validateUpdate. cbv zeta. intros Hr.
  apply runs_bind in Hr as [(e & _ & ?)|(resize & t1 & t2 & -> & Hz & [-> Hr])]; [done|]. rewrite app_nil_r.
  injection Hr as Hr. symmetry in Hr. repeat (apply app_nil in Hr as [?Hr Hr] || rewrite report_nil in * ). bsimpl.
  split.
  - done.
  - done.
  - case_bool_decide; [by left|]. right. by apply validateModeTransition_nil.
  - intros H. rewrite H in *. simpl in *. destruct (replicaModeEnabled _), (promoteRequested _); auto.
  - intros H. rewrite H, andb_true_r in Hr. by bsimpl.
  - by eapply validate_resize_size.
Qed.
End admission.

(** The memory bound the checks leave. *)
Lemma admitted_memory cluster b :
  admitted cluster → ResolveMaxMemoryBytes (Spec cluster) = Some b → 0 < MemoryLimitBytes (Spec cluster) →
  MemoryLimitBytes (Spec cluster) * 100 < 2 ^ 63 →
  (∀ m pct, Spec_Memory (Spec cluster) = Some m → mem_MaxMemoryPercent m = Some pct → pct ≤ 100) →
  0 < b ≤ MemoryLimitBytes (Spec cluster).
Proof.
  intros Had Hb Hl Hover Hpct. unfold ResolveMaxMemoryBytes in Hb.
  destruct (Spec_Memory (Spec cluster)) as [m|] eqn:Hm; [|done].
  destruct (ad_memory _ Had m Hm) as (_ & _ & Hmax & _). destruct (mem_MaxMemory m) as [q|] eqn:Hq.
  - destruct (Hmax q eq_refl) as [Hpos Hle]. cbv zeta in Hb. case_bool_decide; simplify_eq. auto.
  - destruct (mem_MaxMemoryPercent m) as [pct|] eqn:Hp; [|done]. cbv zeta in Hb.
    destruct (_ || _) eqn:Hz; [done|]. bsimpl. specialize (Hpct m pct eq_refl Hp).
    rewrite int64_small in Hb by (unfold in_int64; nia). case_bool_decide; simplify_eq. split; [done|].
    rewrite Z.quot_div_nonneg by nia. apply Z.div_le_upper_bound; nia.
Qed.


(** C30: An admitted update keeps the storage type and the bootstrap source; it
    changes the mode only from standalone to sentinel, with a recorded primary
    and without TLS; it leaves replica mode only after a promotion was
    requested; and it lowers the storage size only when the claims that exist
    request no more than the new size. *)
Theorem admission_update reader dns old new tr ws :
  runs (ValidateUpdate reader dns old new) tr (Ok ws) → ∃ tr1 tr2 tr3, tr = tr1 ++ tr2 ++ tr3 ∧ admitted_update reader old new tr2.
Proof.
  intros Hr. apply runs_bind in Hr as [(e & _ & ?)|(errs & t1 & t2 & -> & _ & Hr)]; [done|].
  apply runs_bind in Hr as [(e & _ & ?)|(errs' & t3 & t4 & -> & Hu & Hr)]; [done|].
  apply runs_bind in Hr as [(e & _ & ?)|(u & t5 & t6 & -> & Ha & _)]; [done|].
  apply ToAggregate_ok, app_nil in Ha as [_ ->]. exists t1, t3, (t5 ++ t6). split; [done|]. by apply validateUpdate_admits.
Qed.

(** The checks bound shards and replicas from below only: an admitted spec can
    overflow the 32-bit product, here to a desired count of zero. *)
Theorem desired_count_wraps :
  ∃ cluster tr ws, runs (ValidateCreate true (λ _, []) cluster) tr (Ok ws) ∧
    in_int32 (Spec_Shards (Spec cluster)) ∧ in_int32 (Spec_ReplicasPerShard (Spec cluster)) ∧
    3 ≤ Spec_Shards (Spec cluster) ∧ 0 ≤ Spec_ReplicasPerShard (Spec cluster) ∧
    DesiredDataInstances (Spec cluster) = 0.
Proof.
  set (c := base_cluster (base_spec ClusterModeCluster 0 65536 65535) (base_status "" ∅)).
  exists c, (fake_trace three_world (ValidateCreate true (λ _, []) c)), []. split_and!; [|done..].
  assert (fake_result three_world (ValidateCreate true (λ _, []) c) = Ok []) as <- by (vm_compute; reflexivity).
  apply fake_runs.
Qed.

(** ** Witnesses *)


(** A standalone cluster with a recorded primary becomes a sentinel cluster. *)
Definition to_sentinel : RedisCluster := set_Spec three (base_spec ClusterModeSentinel 3 0 0).

Lemma admission_update_witness :
  ∃ tr1 tr2 tr3, fake_trace three_world (ValidateUpdate true (λ _, []) three to_sentinel) = tr1 ++ tr2 ++ tr3 ∧
    admitted_update true three to_sentinel tr2.
Proof.
  apply (admission_update true (λ _, []) three to_sentinel _ []).
  assert (fake_result three_world (ValidateUpdate true (λ _, []) three to_sentinel) = Ok []) as <- by (vm_compute; reflexivity).
  apply fake_runs.
Defined.
