(* ===== verification/Backups.v ===== *)
(** * The backup controllers ([internal/controller/backup])

    [Reconcile] of [reconciler.go] drives one [RedisBackup] through its phases:
    it picks the pods, asks their instance managers for an artifact and records
    what they answer.  [reconcile_scheduled] of [scheduled_reconciler.go]
    creates backups on a schedule and prunes old ones; [validateSchedule] is its
    admission check in [webhooks/redisscheduledbackup_validator.go].

    A status patch responds with the object the server returns, which is decoded
    over the caller's copy; after a failed patch the caller keeps its own,
    already changed, copy.  The cron parser and the time-zone database are not
    part of the repository: they are the parameters of the second section. *)
From S2P Require Import Prelude GoStr Api Effects Kube.

(** ** The scheduled backup's types ([redisscheduledbackup_types.go]) *)

Inductive ScheduledBackupPhase := ScheduledPhaseNone | ScheduledPhaseActive | ScheduledPhaseSuspended.

Record RedisScheduledBackupSpec := mkScheduledSpec {
  sp_Schedule : string;
  sp_TimeZone : string;
  sp_ClusterName : string;
  sp_Target : BackupTarget;
  sp_Method : string;
  sp_Destination : option BackupDestination;
  sp_Suspend : option bool;
  sp_SuccessfulBackupsHistoryLimit : option Z;
  sp_FailedBackupsHistoryLimit : option Z
}.

(** Times are nanoseconds since the epoch. *)
Record RedisScheduledBackupStatus := mkScheduledStatus {
  sst_Phase : ScheduledBackupPhase;
  sst_LastScheduleTime : option Z;
  sst_NextScheduleTime : option Z;
  sst_LastBackupName : string;
  sst_Conditions : list Condition
}.

Record RedisScheduledBackup := mkScheduled {
  sb_Name : string;
  sb_Generation : Z;
  sb_CreationTimestamp : Z;
  sb_Spec : RedisScheduledBackupSpec;
  sb_Status : RedisScheduledBackupStatus
}.

(** ** Operations *)

(** [BackupResult] of [executor.go]. *)
Record BackupResult := mkBackupResult {
  br_ArtifactType : string;
  br_BackupPath : string;
  br_BackupSize : Z;
  br_ChecksumSHA256 : string
}.

Record backup_request := mkBackupRequest {
  rq_BackupName : string;
  rq_Method : string;
  rq_Destination : option BackupDestination
}.

(** A POST of the backup endpoint: a transport error (an unusable URL is one
    too), or a status code with the text and the decoding of the body. *)
Inductive backup_response :=
| BackupTransport (msg : string)
| BackupBody (code : Z) (text : string) (decoded : res BackupResult).

Inductive backup_op :=
| BEvent (type : event_type) (reason message : string)
| BNow
| BGetBackup
| BGetCluster (name : string)
| BListPods (selector : gmap string string)
| BPatchBackupStatus (before after : RedisBackup)
| BPostBackup (ip : string) (req : backup_request)
| BListAllBackups
| BSetMetrics (counts : list (string * Z)) (lastSuccessful : Z)
| BGetScheduled
| BPatchScheduledStatus (before after : RedisScheduledBackup)
| BCreateBackup (b : RedisBackup)
| BListBackups (selector : gmap string string)
| BDeleteBackup (name : string).

Definition backup_ret (c : backup_op) : Type :=
  match c with
  | BEvent _ _ _ => unit
  | BNow => Z
  | BGetBackup => res RedisBackup
  | BGetCluster _ => res RedisCluster
  | BListPods _ => res (list Pod)
  | BPatchBackupStatus _ _ => res RedisBackup
  | BPostBackup _ _ => backup_response
  | BListAllBackups => res (list RedisBackup)
  | BSetMetrics _ _ => unit
  | BGetScheduled => res RedisScheduledBackup
  | BPatchScheduledStatus _ _ => res RedisScheduledBackup
  | BCreateBackup _ => res RedisBackup
  | BListBackups _ => res (list RedisBackup)
  | BDeleteBackup _ => res unit
  end.

Definition backups : sig := mkSig backup_op backup_ret.
Abbreviation bprog := (prog backups).
Abbreviation bev c r := (ev (S := backups) c r).
Definition bcall (c : backup_op) : bprog (backup_ret c) := call (S := backups) c.

(** ** The backup reconciler *)

Definition second_ns : Z := 10 ^ 9.
Definition backupRequeueInterval : Z := 30 * second_ns.

Definition with_backup_status (b : RedisBackup) (s : RedisBackupStatus) : RedisBackup :=
  mkBackup (b_Name b) (b_Namespace b) (b_Labels b) (b_CreationTimestamp b) (b_Spec b) s.

Definition PatchBackupStatus (before after : RedisBackup) : bprog RedisBackup :=
  bcall (BPatchBackupStatus before after) ≫= check.

Definition destination_error (e : DestinationError) : string :=
  match e with
  | DestinationRequired => "destination is required"
  | DestinationNone => "destination requires exactly one of s3 or azure"
  | DestinationBoth => "destination must set exactly one of s3 or azure"
  | BucketRequired => "destination.s3.bucket is required"
  | ContainerRequired => "destination.azure.container is required"
  end.

(** [triggerBackupWithOptions] of [executor.go]. *)
Definition backup_url (podIP : string) : string := "http://" +:+ podIP +:+ ":8080/v1/backup".

Definition triggerBackupWithOptions (podIP backupName method : string) (destination : option BackupDestination)
  : bprog BackupResult :=
  resp ← bcall (BPostBackup podIP (mkBackupRequest backupName method destination));
  match resp with
  | BackupTransport msg => Throw (Errorf ("POST " +:+ backup_url podIP +:+ ": " +:+ msg))
  | BackupBody code text decoded =>
      if bool_decide (code ≠ 200) then
        Throw (Errorf ("POST " +:+ backup_url podIP +:+ " returned " +:+ itoa code +:+ ": " +:+
                       TrimSpace (String.substring 0 4096 text)))
      else
        payload ← check_ctx "decoding backup response" decoded;
        if bool_decide (br_BackupPath payload = "")
        then Throw (Errorf "instance manager backup response is missing backupPath")
        else mret payload
  end.

Definition triggerBackup (podIP : string) (backup : RedisBackup) : bprog BackupResult :=
  triggerBackupWithOptions podIP (b_Name backup) (bs_Method (b_Spec backup)) (bs_Destination (b_Spec backup)).

Definition setBackupPending (backup : RedisBackup) : bprog unit :=
  let s := b_Status backup in
  if bool_decide (bst_Phase s = BackupPhasePending) then mret tt
  else
    PatchBackupStatus backup
      (with_backup_status backup
        (mkBackupStatus BackupPhasePending (bst_TargetPod s) (bst_StartedAt s) (bst_CompletedAt s) (bst_BackupSize s)
           (bst_BackupPath s) (bst_ArtifactType s) (bst_ShardArtifacts s) "")) ≫= λ _, mret tt.

Definition setBackupFailed (backup : RedisBackup) (errMsg : string) : bprog unit :=
  let s := b_Status backup in
  PatchBackupStatus backup
    (with_backup_status backup
      (mkBackupStatus BackupPhaseFailed (bst_TargetPod s) (bst_StartedAt s) (bst_CompletedAt s) (bst_BackupSize s)
         (bst_BackupPath s) (bst_ArtifactType s) (bst_ShardArtifacts s) errMsg)) ≫= λ _, mret tt.

(** The first entries of a non-empty artifact map, in the order of their names,
    and the sum of the sizes in 64 bits. *)
Definition shard_summary (artifacts : gmap string ShardBackupArtifact) : string * string * Z :=
  let names := sort_slice string_less ((map_to_list artifacts).*1) in
  let at_name n := default (mkShardArtifact "" "" 0 "" "") (artifacts !! n) in
  let first := at_name (default "" (names !! 0%nat)) in
  (sba_BackupPath first, sba_ArtifactType first,
   foldl (λ total n, int64 (total + sba_BackupSize (at_name n))) 0 names).

Definition setBackupCompleted (backup : RedisBackup) (result : option BackupResult)
    (shardArtifacts : gmap string ShardBackupArtifact) : bprog unit :=
  now ← bcall BNow;
  let s := b_Status backup in
  let s' :=
    match result with
    | Some r =>
        mkBackupStatus BackupPhaseCompleted (bst_TargetPod s) (bst_StartedAt s) (Some now) (br_BackupSize r)
          (br_BackupPath r) (if bool_decide (br_ArtifactType r = "") then bst_ArtifactType s else br_ArtifactType r)
          ∅ (bst_Error s)
    | None =>
        if bool_decide (shardArtifacts = ∅) then
          mkBackupStatus BackupPhaseCompleted (bst_TargetPod s) (bst_StartedAt s) (Some now) (bst_BackupSize s)
            (bst_BackupPath s) (bst_ArtifactType s) ∅ (bst_Error s)
        else
          let '(path, type, size) := shard_summary shardArtifacts in
          mkBackupStatus BackupPhaseCompleted (bst_TargetPod s) (bst_StartedAt s) (Some now) size path type
            shardArtifacts (bst_Error s)
    end in
  PatchBackupStatus backup (with_backup_status backup s') ≫= λ _, mret tt.

Definition listBackupPods (cluster : RedisCluster) : bprog (list Pod) :=
  bcall (BListPods {[ LabelCluster := Name cluster ]}) ≫= check.

Definition selectTargetPod (cluster : RedisCluster) (target : BackupTarget) : bprog (string * string) :=
  pods ← with_ctx "listing pods" (listBackupPods cluster);
  let primary := Status_CurrentPrimary (Status cluster) in
  let replica := List.find (λ p, bool_decide (p_Name p ≠ primary) && bool_decide (p_PodIP p ≠ "")) pods in
  let owner := List.find (λ p, bool_decide (p_Name p = primary) && bool_decide (p_PodIP p ≠ "")) pods in
  match (if bool_decide (target = BackupTargetPreferReplica) then replica else None), owner with
  | Some p, _ => mret (p_Name p, p_PodIP p)
  | None, Some p => mret (p_Name p, p_PodIP p)
  | None, None => Throw (Errorf "no suitable pod found for backup")
  end.

(** [clusterBackupTarget]: the pod's name and address. *)
Abbreviation clusterBackupTarget := (string * string)%type.

Definition targets_by_status (cluster : RedisCluster) (pods : list Pod) : gmap string clusterBackupTarget :=
  omap (λ st : ShardStatus,
          if bool_decide (ss_PrimaryPod st = "") then None
          else
            match pods_by_name pods !! ss_PrimaryPod st with
            | Some pod => if bool_decide (p_PodIP pod = "") then None else Some (p_Name pod, p_PodIP pod)
            | None => None
            end) (Status_Shards (Status cluster)).

Definition targets_by_label (pods : list Pod) : gmap string clusterBackupTarget :=
  foldl (λ targets pod,
          if bool_decide (pod_label pod LabelRole = LabelRoleSentinel) then targets
          else if bool_decide (pod_label pod LabelShardRole ≠ LabelRolePrimary) then targets
          else if bool_decide (pod_label pod LabelShard = "") || bool_decide (p_PodIP pod = "") then targets
          else <[pod_label pod LabelShard := (p_Name pod, p_PodIP pod)]> targets) ∅ pods.

Definition cluster_targets (cluster : RedisCluster) (pods : list Pod) : gmap string clusterBackupTarget :=
  if bool_decide (targets_by_status cluster pods = ∅) then targets_by_label pods else targets_by_status cluster pods.

Definition selectClusterBackupTargets (cluster : RedisCluster) : bprog (gmap string clusterBackupTarget) :=
  pods ← with_ctx "listing pods" (listBackupPods cluster);
  let targets := cluster_targets cluster pods in
  if bool_decide (targets = ∅)
  then Throw (Errorf "no shard primary pods with IP found for cluster backup")
  else mret targets.

(** Record the start: the caller's copy after the patch, and its outcome. *)
Definition mark_running (backup : RedisBackup) (targetPod : string) : bprog (RedisBackup * res unit) :=
  now ← bcall BNow;
  let s := b_Status backup in
  let running :=
    with_backup_status backup
      (mkBackupStatus BackupPhaseRunning targetPod (Some now) (bst_CompletedAt s) (bst_BackupSize s)
         (bst_BackupPath s) (bst_ArtifactType s) (bst_ShardArtifacts s) (bst_Error s)) in
  r ← bcall (BPatchBackupStatus backup running);
  match r with
  | Ok returned => mret (returned, Ok tt)
  | Err e => mret (running, Err e)
  end.

Definition startBackup (backup : RedisBackup) (targetPod targetIP : string) : bprog (RedisBackup * res BackupResult) :=
  started ← mark_running backup targetPod;
  match started with
  | (backup, Err e) => mret (backup, Err e)
  | (backup, Ok _) => result ← catch (triggerBackup targetIP backup); mret (backup, result)
  end.

Fixpoint backup_shards (backup : RedisBackup) (targets : gmap string clusterBackupTarget) (shards : list string)
    (artifacts : gmap string ShardBackupArtifact) : bprog (gmap string ShardBackupArtifact) :=
  match shards with
  | [] => mret artifacts
  | shardName :: rest =>
      let '(podName, podIP) := default ("", "") (targets !! shardName) in
      result ← with_ctx ("triggering shard backup " +:+ shardName +:+ " on pod " +:+ podName)
                 (triggerBackupWithOptions podIP (b_Name backup +:+ "-" +:+ shardName) (bs_Method (b_Spec backup))
                    (bs_Destination (b_Spec backup)));
      backup_shards backup targets rest
        (<[shardName := mkShardArtifact podName (br_BackupPath result) (br_BackupSize result)
                          (br_ArtifactType result) (br_ChecksumSHA256 result)]> artifacts)
  end.

Definition startClusterBackup (backup : RedisBackup) (targets : gmap string clusterBackupTarget)
  : bprog (RedisBackup * res (gmap string ShardBackupArtifact)) :=
  let targetPodNames := sort_slice string_less (fst <$> (map_to_list targets).*2) in
  started ← mark_running backup (String.concat "," targetPodNames);
  match started with
  | (backup, Err e) => mret (backup, Err e)
  | (backup, Ok _) =>
      artifacts ← catch (backup_shards backup targets (sort_slice string_less ((map_to_list targets).*1)) ∅);
      mret (backup, artifacts)
  end.

(** The two branches of [Reconcile], for a cluster that is healthy and a valid
    destination. *)
Definition starts_now (phase : BackupPhase) : bool :=
  bool_decide (phase = BackupPhaseNone) || bool_decide (phase = BackupPhasePending).

Definition backup_failed (backup : RedisBackup) (ctx : string) (e : error) : bprog Z :=
  bcall (BEvent EventWarning "BackupFailed" ("Backup failed: " +:+ Error e));;
  setBackupFailed backup (ctx +:+ ": " +:+ Error e);;
  mret 0.

Definition reconcile_cluster_backup (backup : RedisBackup) (cluster : RedisCluster) : bprog Z :=
  let currentPhase := bst_Phase (b_Status backup) in
  targets ← catch (selectClusterBackupTargets cluster);
  match targets with
  | Err e => setBackupFailed backup ("selecting cluster backup targets: " +:+ Error e);; mret 0
  | Ok targets =>
      if starts_now currentPhase then
        bcall (BEvent EventNormal "BackupStarted" "Cluster backup started");;
        started ← startClusterBackup backup targets;
        match started with
        | (backup, Err e) => backup_failed backup "starting cluster backup" e
        | (backup, Ok artifacts) =>
            setBackupCompleted backup None artifacts;;
            bcall (BEvent EventNormal "BackupCompleted" "Cluster backup completed successfully");;
            mret 0
        end
      else if bool_decide (currentPhase = BackupPhaseRunning) then mret backupRequeueInterval
      else
        setBackupCompleted backup None ∅;;
        bcall (BEvent EventNormal "BackupCompleted" "Cluster backup completed successfully");;
        mret 0
  end.

Definition reconcile_single_backup (backup : RedisBackup) (cluster : RedisCluster) : bprog Z :=
  let currentPhase := bst_Phase (b_Status backup) in
  target ← catch (selectTargetPod cluster (bs_Target (b_Spec backup)));
  match target with
  | Err e => setBackupFailed backup ("selecting target pod: " +:+ Error e);; mret 0
  | Ok (targetPod, targetIP) =>
      if starts_now currentPhase then
        bcall (BEvent EventNormal "BackupStarted" ("Backup started on pod " +:+ targetPod));;
        started ← startBackup backup targetPod targetIP;
        match started with
        | (backup, Err e) => backup_failed backup "starting backup" e
        | (backup, Ok result) =>
            setBackupCompleted backup (Some result) ∅;;
            bcall (BEvent EventNormal "BackupCompleted" "Backup completed successfully");;
            mret 0
        end
      else if bool_decide (currentPhase = BackupPhaseRunning) then mret backupRequeueInterval
      else
        setBackupCompleted backup None ∅;;
        bcall (BEvent EventNormal "BackupCompleted" "Backup completed successfully");;
        mret 0
  end.

(** The body of [Reconcile] after the backup was read. *)
Definition reconcile_backup (backup : RedisBackup) : bprog Z :=
  let phase := bst_Phase (b_Status backup) in
  let clusterName := bs_ClusterName (b_Spec backup) in
  if bool_decide (phase = BackupPhaseCompleted) || bool_decide (phase = BackupPhaseFailed) then mret 0
  else
    r ← bcall (BGetCluster clusterName);
    match r with
    | Err e =>
        bcall (BEvent EventWarning "BackupFailed" ("Cluster " +:+ clusterName +:+ " not found"));;
        setBackupFailed backup ("cluster " +:+ clusterName +:+ " not found: " +:+ Error e);;
        mret 0
    | Ok cluster =>
        if bool_decide (Status_Phase (Status cluster) ≠ ClusterPhaseHealthy) then
          setBackupPending backup;;
          mret backupRequeueInterval
        else
          match Destination_Validate (bs_Destination (b_Spec backup)) with
          | Some e => setBackupFailed backup ("invalid backup destination: " +:+ destination_error e);; mret 0
          | None =>
              if bool_decide (Spec_Mode (Spec cluster) = ClusterModeCluster)
              then reconcile_cluster_backup backup cluster
              else reconcile_single_backup backup cluster
          end
    end.

(** ** Metrics ([metrics.go]) *)

Definition unknownBackupPhase := "Unknown".
Definition knownBackupPhases : list string :=
  [BackupPhasePending; BackupPhaseRunning; BackupPhaseCompleted; BackupPhaseFailed; unknownBackupPhase].

Definition normalizeBackupPhase (phase : BackupPhase) : string :=
  if bool_decide (phase = "") then unknownBackupPhase
  else if bool_decide (phase ∈ knownBackupPhases) then phase
  else unknownBackupPhase.

(** The counts by known phase, each a label of the gauge, and the time of the
    last completed backup. *)
Definition summarizeBackupMetrics (l : list RedisBackup) : list (string * Z) * Z :=
  ((λ ph, (ph, Z.of_nat (length (filter (λ b, normalizeBackupPhase (bst_Phase (b_Status b)) = ph) l))))
     <$> knownBackupPhases,
   foldl (λ last b,
           if bool_decide (bst_Phase (b_Status b) = BackupPhaseCompleted) then
             match bst_CompletedAt (b_Status b) with
             | Some t => if bool_decide (last < t / second_ns) then t / second_ns else last
             | None => last
             end
           else last) 0 l).

Definition refreshClusterBackupMetrics (namespace clusterName : string) : bprog unit :=
  if bool_decide (namespace = "") || bool_decide (clusterName = "") then mret tt
  else
    l ← bcall BListAllBackups ≫= check_ctx "listing RedisBackup resources for metrics";
    let '(counts, last) := summarizeBackupMetrics (filter (λ b, bs_ClusterName (b_Spec b) = clusterName) l) in
    bcall (BSetMetrics counts last).

(** The deferred refresh runs after every outcome; its error is only logged. *)
Definition Reconcile_backup : bprog Z :=
  r ← bcall BGetBackup;
  match r with
  | Err e => if IsNotFound e then mret 0 else Throw e
  | Ok backup =>
      if bool_decide (bs_ClusterName (b_Spec backup) = "") then reconcile_backup backup
      else
        out ← catch (reconcile_backup backup);
        catch (refreshClusterBackupMetrics (b_Namespace backup) (bs_ClusterName (b_Spec backup)));;
        check out
  end.

(** ** Scheduled backups *)

Section scheduled.
(** [cron.ParseStandard] and [Schedule.Next] of robfig/cron, [time.LoadLocation]
    and [meta.SetStatusCondition].  [Next sched loc t] is the first occurrence
    after [t] read in [loc]; [None] is the zero time, which the package returns
    when there is none.  [SetStatusCondition] takes the generation the condition
    was observed at. *)
Context {Schedule Location : Type}.
Context (ParseStandard : string → res Schedule) (Next : Schedule → Location → Z → option Z).
Context (LoadLocation : string → res Location) (UTC : Location).
Context (SetStatusCondition : list Condition → Z → Condition → list Condition).

Definition baselineTime (scheduled : RedisScheduledBackup) : Z :=
  default (sb_CreationTimestamp scheduled) (sst_LastScheduleTime (sb_Status scheduled)).

Definition parseSchedule (schedule timeZone : string) : res (Schedule * Location) :=
  let tz := if bool_decide (timeZone = "") then "UTC" else timeZone in
  match LoadLocation tz with
  | Err e => Err (Wrap ("invalid timeZone " +:+ quoted tz) e)
  | Ok loc =>
      match ParseStandard schedule with
      | Err e => Err (Wrap ("invalid schedule " +:+ quoted schedule) e)
      | Ok sched => Ok (sched, loc)
      end
  end.

(** [next.Sub(now)] saturates at the range of a 64-bit duration. *)
Definition time_Sub (next now : Z) : Z := Z.max (- 2 ^ 63) (Z.min (2 ^ 63 - 1) (next - now)).

Definition requeueDelay (next now : Z) : Z :=
  let d := time_Sub next now in
  if bool_decide (second_ns < d) then d else second_ns.

Definition ConditionScheduleValid := "ScheduleValid".
Definition scheduleValidCondition : Condition :=
  mkCondition ConditionScheduleValid ConditionTrue 0 "ScheduleParsed" "Schedule parsed successfully".

Definition with_scheduled_status (b : RedisScheduledBackup) (s : RedisScheduledBackupStatus) : RedisScheduledBackup :=
  mkScheduled (sb_Name b) (sb_Generation b) (sb_CreationTimestamp b) (sb_Spec b) s.

Definition PatchScheduledStatus (before after : RedisScheduledBackup) : bprog RedisScheduledBackup :=
  bcall (BPatchScheduledStatus before after) ≫= check.

Definition markScheduleInvalid (scheduled : RedisScheduledBackup) (cause : error) : bprog Z :=
  let s := sb_Status scheduled in
  PatchScheduledStatus scheduled
    (with_scheduled_status scheduled
      (mkScheduledStatus ScheduledPhaseActive (sst_LastScheduleTime s) (sst_NextScheduleTime s) (sst_LastBackupName s)
        (SetStatusCondition (sst_Conditions s) (sb_Generation scheduled)
          (mkCondition ConditionScheduleValid ConditionFalse 0 "InvalidSchedule" (Error cause)))));;
  bcall (BEvent EventWarning "InvalidSchedule" ("Cannot schedule backups: " +:+ Error cause));;
  mret 0.

(** Oldest first, equal creation times by name. *)
Definition created_before (a b : RedisBackup) : bool :=
  if bool_decide (b_CreationTimestamp a = b_CreationTimestamp b) then string_less (b_Name a) (b_Name b)
  else bool_decide (b_CreationTimestamp a < b_CreationTimestamp b).

Definition sortByCreationTime : list RedisBackup → list RedisBackup := sort_slice created_before.

(** [for i := int32(0); i < excess; i++ { r.Delete(ctx, &l[i]) }]: an index past
    the end panics. *)
Fixpoint delete_first (ctx : string) (excess : nat) (l : list RedisBackup) : bprog unit :=
  match excess, l with
  | O, _ => mret tt
  | S _, [] => Throw (Panicked "index out of range")
  | S excess', b :: rest =>
      bcall (BDeleteBackup (b_Name b)) ≫= check_ctx ctx;;
      delete_first ctx excess' rest
  end.

Definition trim_history (ctx : string) (limit : option Z) (l : list RedisBackup) : bprog unit :=
  let limit := default 3 limit in
  let count := int32 (Z.of_nat (length l)) in
  if bool_decide (limit < count)
  then delete_first ctx (Z.to_nat (int32 (count - limit))) l
  else mret tt.

Definition scheduledBackupLabel := "redis.io/scheduled-backup".

Definition in_phase (phase : BackupPhase) (l : list RedisBackup) : list RedisBackup :=
  filter (λ b, bst_Phase (b_Status b) = phase) l.

Definition cleanupOldBackups (scheduled : RedisScheduledBackup) : bprog unit :=
  items ← bcall (BListBackups {[ scheduledBackupLabel := sb_Name scheduled ]}) ≫= check_ctx "listing backups";
  trim_history "deleting old successful backup" (sp_SuccessfulBackupsHistoryLimit (sb_Spec scheduled))
    (sortByCreationTime (in_phase BackupPhaseCompleted items));;
  trim_history "deleting old failed backup" (sp_FailedBackupsHistoryLimit (sb_Spec scheduled))
    (sortByCreationTime (in_phase BackupPhaseFailed items)).

Definition no_backup_status : RedisBackupStatus := mkBackupStatus BackupPhaseNone "" None None 0 "" "" ∅ "".

(** The backup created at [now]; the server sets its creation time. *)
Definition scheduled_backup (scheduled : RedisScheduledBackup) (namespace : string) (now : Z) : RedisBackup :=
  let spec := sb_Spec scheduled in
  mkBackup (sb_Name scheduled +:+ "-" +:+ itoa (now / second_ns)) namespace
    {[ LabelCluster := sp_ClusterName spec; scheduledBackupLabel := sb_Name scheduled ]} 0
    (mkBackupSpec (sp_ClusterName spec) (sp_Target spec) (sp_Method spec) (sp_Destination spec)) no_backup_status.

(** A panic of the clean-up is not an error value: it ends the pass. *)
Definition log_error (p : bprog unit) : bprog unit :=
  r ← catch p;
  match r with Err (Panicked msg) => Throw (Panicked msg) | _ => mret tt end.

(** The schedule is due: create the backup, then move the schedule past [now].
    Without a next occurrence the recorded time is the zero time, which is
    stored as null, and the delay is the minimum. *)
Definition fire (scheduled : RedisScheduledBackup) (namespace : string) (sched : Schedule) (loc : Location) (now : Z)
  : bprog Z :=
  let backup := scheduled_backup scheduled namespace now in
  bcall (BCreateBackup backup) ≫= check_ctx "creating RedisBackup";;
  bcall (BEvent EventNormal "ScheduledBackupTriggered"
           ("Created backup " +:+ b_Name backup +:+ " from schedule " +:+ sp_Schedule (sb_Spec scheduled)));;
  let nextRun := Next sched loc now in
  scheduled ← PatchScheduledStatus scheduled
    (with_scheduled_status scheduled
      (mkScheduledStatus ScheduledPhaseActive (Some now) nextRun (b_Name backup)
        (SetStatusCondition (sst_Conditions (sb_Status scheduled)) (sb_Generation scheduled) scheduleValidCondition)));
  log_error (cleanupOldBackups scheduled);;
  mret (match nextRun with Some next => requeueDelay next now | None => second_ns end).

(** The body of [Reconcile] after the scheduled backup and its cluster were
    read: [now] is read once the schedule was parsed. *)
Definition schedule_step (scheduled : RedisScheduledBackup) (namespace : string) : bprog Z :=
  let spec := sb_Spec scheduled in
  match parseSchedule (sp_Schedule spec) (sp_TimeZone spec) with
  | Err e => markScheduleInvalid scheduled e
  | Ok (sched, loc) =>
      now ← bcall BNow;
      match Next sched loc (baselineTime scheduled) with
      | None =>
          markScheduleInvalid scheduled
            (Errorf ("schedule " +:+ quoted (sp_Schedule spec) +:+ " has no upcoming occurrences"))
      | Some next =>
          if bool_decide (now < next) then
            let s := sb_Status scheduled in
            PatchScheduledStatus scheduled
              (with_scheduled_status scheduled
                (mkScheduledStatus ScheduledPhaseActive (sst_LastScheduleTime s) (Some next) (sst_LastBackupName s)
                  (SetStatusCondition (sst_Conditions s) (sb_Generation scheduled) scheduleValidCondition)));;
            mret (requeueDelay next now)
          else fire scheduled namespace sched loc now
      end
  end.

Definition Reconcile_scheduled (namespace : string) : bprog Z :=
  r ← bcall BGetScheduled;
  match r with
  | Err e => if IsNotFound e then mret 0 else Throw e
  | Ok scheduled =>
      let s := sb_Status scheduled in
      if bool_decide (sp_Suspend (sb_Spec scheduled) = Some true) then
        PatchScheduledStatus scheduled
          (with_scheduled_status scheduled
            (mkScheduledStatus ScheduledPhaseSuspended (sst_LastScheduleTime s) (sst_NextScheduleTime s)
              (sst_LastBackupName s) (sst_Conditions s)));;
        mret 0
      else
        let cluster := sp_ClusterName (sb_Spec scheduled) in
        bcall (BGetCluster cluster) ≫= check_ctx ("cluster " +:+ cluster +:+ " not found");;
        schedule_step scheduled namespace
  end.

(** ** Admission ([redisscheduledbackup_validator.go]) *)

(** The fields with an error, in the order they are reported; [now] is the time
    of the request. *)
Definition validateSchedule (now : Z) (scheduled : RedisScheduledBackup) : list (string * string) :=
  let spec := sb_Spec scheduled in
  let '(zone_errors, loc) :=
    if bool_decide (sp_TimeZone spec = "") then ([], UTC)
    else
      match LoadLocation (sp_TimeZone spec) with
      | Err e => ([("spec.timeZone", "not a valid IANA time zone: " +:+ Error e)], UTC)
      | Ok l => ([], l)
      end in
  zone_errors ++
  match ParseStandard (sp_Schedule spec) with
  | Err e => [("spec.schedule", "not a valid cron expression: " +:+ Error e)]
  | Ok sched =>
      match Next sched loc now with
      | None => [("spec.schedule", "cron expression has no upcoming occurrences")]
      | Some _ => []
      end
  end.
End scheduled.
