(* ===== verification/BackupsFacts.v ===== *)
(** * The backup controllers: theorems

    A new or pending backup is recorded as completed only with what the instance
    managers acknowledged, one artifact per reachable shard in cluster mode, and
    one in a phase the operator does not know without any; a backup left in the running phase is never resumed; a
    schedule fires only when due and once per pass; the history limits delete the
    oldest backups first and keep the newest; the admission check accepts exactly the schedules the
    controller can follow. *)
From S2P Require Import Prelude GoStr Api Effects History Kube Fixtures Backups.

(** ** Completion *)

(** The instance manager at [ip] answered the request for [name] with [r]. *)
Definition acked (h : trace backups) (ip name : string) (r : BackupResult) : Prop :=
  br_BackupPath r ≠ "" ∧
  ∃ method dest text,
    bev (BPostBackup ip (mkBackupRequest name method dest)) (BackupBody 200 text (Ok r)) ∈ h.

(** The listed pod that serves a shard: the primary the cluster's status names,
    or one that is labelled as the primary of the shard. *)
Definition status_primary (cluster : RedisCluster) (pods : list Pod) (shard : string) (pod : Pod) : Prop :=
  pod ∈ pods ∧ p_PodIP pod ≠ "" ∧
  ∃ st, Status_Shards (Status cluster) !! shard = Some st ∧ ss_PrimaryPod st = p_Name pod ∧ p_Name pod ≠ "".

Definition labelled_primary (pods : list Pod) (shard : string) (pod : Pod) : Prop :=
  pod ∈ pods ∧ p_PodIP pod ≠ "" ∧ shard ≠ "" ∧ pod_label pod "redis.io/shard" = shard ∧
  pod_label pod "redis.io/shard-role" = "primary" ∧ pod_label pod "redis.io/role" ≠ "sentinel".

(** The artifact recorded for a shard is the answer of the instance manager of
    a primary of that shard. *)
Definition recorded (h : trace backups) (cluster : RedisCluster) (pods : list Pod) (name shard : string)
    (a : ShardBackupArtifact) : Prop :=
  ∃ pod r, (status_primary cluster pods shard pod ∨ labelled_primary pods shard pod) ∧
    acked h (p_PodIP pod) (name +:+ "-" +:+ shard) r ∧ sba_TargetPod a = p_Name pod ∧
    sba_BackupPath a = br_BackupPath r ∧ sba_BackupSize a = br_BackupSize r ∧
    sba_ArtifactType a = br_ArtifactType r ∧ sba_ChecksumSHA256 a = br_ChecksumSHA256 r.

(** No shard is missing: each one whose primary in the status is listed with an
    address has an artifact and, when there is no such shard, each one a pod is
    labelled as the primary of. *)
Definition shards_covered (cluster : RedisCluster) (pods : list Pod) (shards : gset string) : Prop :=
  NoDup (p_Name <$> pods) →
  (∀ shard pod, status_primary cluster pods shard pod → shard ∈ shards) ∧
  ((∀ shard pod, ¬ status_primary cluster pods shard pod) →
   ∀ shard pod, labelled_primary pods shard pod → shard ∈ shards).

(** A status with the artifacts the instance managers acknowledged: one from
    the primary or, when the backup prefers a replica, another pod; or one for
    each shard. *)
Definition acknowledged (h : trace backups) (backup after : RedisBackup) : Prop :=
  let s := b_Status after in
  ∃ name cluster sel pods, bev (BGetCluster name) (Ok cluster) ∈ h ∧ bev (BListPods sel) (Ok pods) ∈ h ∧
  if bool_decide (Spec_Mode (Spec cluster) = ClusterModeCluster) then
    bst_ShardArtifacts s ≠ ∅ ∧
    (∀ shard a, bst_ShardArtifacts s !! shard = Some a → recorded h cluster pods (b_Name after) shard a) ∧
    shards_covered cluster pods (dom (bst_ShardArtifacts s))
  else
    ∃ pod r, pod ∈ pods ∧ p_PodIP pod ≠ "" ∧
      (p_Name pod = Status_CurrentPrimary (Status cluster) ∨ bs_Target (b_Spec backup) = BackupTargetPreferReplica) ∧
      acked h (p_PodIP pod) (b_Name after) r ∧
      bst_BackupPath s = br_BackupPath r ∧ bst_BackupSize s = br_BackupSize r ∧ bst_ShardArtifacts s = ∅.

(** What a completed status may say after the events [h].  A backup read with
    a phase the operator does not know passes every test of the phase: it is
    marked as completed as it is. *)
Definition completed_ok (h : trace backups) (after : RedisBackup) : Prop :=
  ∃ backup, bev BGetBackup (Ok backup) ∈ h ∧
  let phase := bst_Phase (b_Status backup) in
  if bool_decide (phase = "" ∨ phase = "Pending") then acknowledged h backup after
  else phase ∉ ["Running"; "Completed"; "Failed"] ∧ bst_ShardArtifacts (b_Status after) = ∅ ∧
    bst_BackupPath (b_Status after) = bst_BackupPath (b_Status backup).

Definition completion_guard (h : trace backups) (c : backup_op) : Prop :=
  match c with
  | BPatchBackupStatus _ after => bst_Phase (b_Status after) = BackupPhaseCompleted → completed_ok h after
  | _ => True
  end.

Abbreviation bissues P p := (issues_only (S := backups) P p).
Abbreviation bsafe h p Q := (safe (S := backups) completion_guard h p Q).

Definition never_completes (c : backup_op) : bool :=
  match c with
  | BPatchBackupStatus _ after => negb (bool_decide (bst_Phase (b_Status after) = BackupPhaseCompleted))
  | _ => true
  end.

Lemma never_completes_guard h c : never_completes c = true → completion_guard h c.
Proof. destruct c; simpl; try done. rewrite negb_true_iff, bool_decide_eq_false. done. Qed.

Lemma bsafe_quiet {A} h (p : bprog A) : bissues never_completes p → bsafe h p (λ _ _, True).
Proof. intros Hp. by eapply (safe_issues (S := backups)); [exact Hp|apply never_completes_guard|]. Qed.

Lemma setBackupFailed_quiet b msg : bissues never_completes (setBackupFailed b msg).
Proof. unfold setBackupFailed, PatchBackupStatus, bcall. issues. Qed.
Lemma setBackupPending_quiet b : bissues never_completes (setBackupPending b).
Proof. unfold setBackupPending, PatchBackupStatus, bcall. issues. Qed.
Lemma mark_running_quiet b pod : bissues never_completes (mark_running b pod).
Proof. unfold mark_running, bcall. issues. Qed.
Lemma backup_failed_quiet b ctx e : bissues never_completes (backup_failed b ctx e).
Proof. unfold backup_failed, setBackupFailed, PatchBackupStatus, bcall. issues. Qed.
#[export] Hint Resolve setBackupFailed_quiet setBackupPending_quiet mark_running_quiet backup_failed_quiet : redis.

Lemma acked_mono h h' ip name r : h `prefix_of` h' → acked h ip name r → acked h' ip name r.
Proof. intros [k ->] (Hp & m & d & t & Hin). split; [done|]. exists m, d, t. set_solver. Qed.

Lemma recorded_mono h h' cluster pods name shard a :
  h `prefix_of` h' → recorded h cluster pods name shard a → recorded h' cluster pods name shard a.
Proof. intros Hh (pod & r & Hp & Hr & ?). exists pod, r. split; [done|]. split; [by eapply acked_mono|done]. Qed.

(** The targets are the listed primaries of the shards. *)
Lemma status_targets cluster pods shard n ip :
  targets_by_status cluster pods !! shard = Some (n, ip) →
  ∃ pod, status_primary cluster pods shard pod ∧ n = p_Name pod ∧ ip = p_PodIP pod.
Proof.
  unfold targets_by_status. rewrite lookup_omap. destruct (Status_Shards (Status cluster) !! shard) as [st|] eqn:Hst; [|done]. simpl. case_bool_decide; [done|].
  destruct (pods_by_name pods !! _) as [pod|] eqn:Hp; [|done]. apply pods_by_name_lookup in Hp as [Hin Hn].
  case_bool_decide; [done|]. intros [= <- <-]. exists pod. split; [|done]. split; [done|]. split; [done|].
  exists st. split; [done|]. split; [done|congruence].
Qed.

Lemma status_targets_complete cluster pods shard pod :
  NoDup (p_Name <$> pods) → status_primary cluster pods shard pod → is_Some (targets_by_status cluster pods !! shard).
Proof.
  intros Hnd (Hin & Hip & st & Hst & Hpr & Hn). unfold targets_by_status. rewrite lookup_omap, Hst. simpl.
  rewrite Hpr, bool_decide_false by done. rewrite (pods_by_name_listed pods pod) by done.
  rewrite bool_decide_false by done. by eexists.
Qed.

Definition label_target (pod : Pod) : option string :=
  if bool_decide (pod_label pod LabelRole = LabelRoleSentinel) then None
  else if bool_decide (pod_label pod LabelShardRole ≠ LabelRolePrimary) then None
  else if bool_decide (pod_label pod LabelShard = "") || bool_decide (p_PodIP pod = "") then None
  else Some (pod_label pod LabelShard).

Lemma targets_by_label_step pods pod :
  targets_by_label (pods ++ [pod]) =
  match label_target pod with
  | Some shard => <[shard := (p_Name pod, p_PodIP pod)]> (targets_by_label pods)
  | None => targets_by_label pods
  end.
Proof.
  unfold targets_by_label, label_target. rewrite foldl_app. simpl.
  by repeat match goal with |- context [if ?b then _ else _] => destruct b end.
Qed.

Lemma label_target_spec pods pod shard : pod ∈ pods → label_target pod = Some shard ↔ labelled_primary pods shard pod.
Proof.
  intros Hin. unfold label_target, labelled_primary. change "sentinel" with LabelRoleSentinel.
  change "redis.io/role" with LabelRole. change "redis.io/shard" with LabelShard.
  change "redis.io/shard-role" with LabelShardRole. change "primary" with LabelRolePrimary.
  repeat case_bool_decide; simpl; naive_solver.
Qed.

Lemma labelled_mono pods pods' shard pod : pods ⊆ pods' → labelled_primary pods shard pod → labelled_primary pods' shard pod.
Proof. intros Hs (Hin & ?). split; [by apply Hs|done]. Qed.

Lemma label_targets pods shard n ip :
  targets_by_label pods !! shard = Some (n, ip) →
  ∃ pod, labelled_primary pods shard pod ∧ n = p_Name pod ∧ ip = p_PodIP pod.
Proof.
  induction pods as [|p pods IH] using rev_ind; [done|]. rewrite targets_by_label_step.
  assert (targets_by_label pods !! shard = Some (n, ip) →
          ∃ pod, labelled_primary (pods ++ [p]) shard pod ∧ n = p_Name pod ∧ ip = p_PodIP pod) as Hold.
  { intros (pod & Hp & ?)%IH. exists pod. split; [|done]. eapply labelled_mono, Hp. set_solver. }
  destruct (label_target p) as [s|] eqn:Hl; [|exact Hold]. rewrite lookup_insert. case_decide as Hs; [|exact Hold].
  intros [= <- <-]. subst s. exists p. split; [|done]. apply label_target_spec; [set_solver|done].
Qed.

Lemma label_targets_complete pods shard pod :
  labelled_primary pods shard pod → is_Some (targets_by_label pods !! shard).
Proof.
  intros H. assert (Hin := proj1 H). apply (label_target_spec pods) in H; [|done].
  induction pods as [|p pods IH] using rev_ind; [by apply elem_of_nil in Hin|]. rewrite targets_by_label_step.
  apply elem_of_app in Hin as [Hin|Hin%list_elem_of_singleton].
  - destruct (label_target p) as [s|]; [|by apply IH]. rewrite lookup_insert. case_decide; [by eexists|by apply IH].
  - subst p. rewrite H. rewrite lookup_insert_eq. by eexists.
Qed.

Lemma cluster_targets_sound cluster pods shard n ip :
  cluster_targets cluster pods !! shard = Some (n, ip) →
  ∃ pod, (status_primary cluster pods shard pod ∨ labelled_primary pods shard pod) ∧ n = p_Name pod ∧ ip = p_PodIP pod.
Proof.
  unfold cluster_targets. case_bool_decide.
  - intros (pod & ? & ?)%label_targets. exists pod. auto.
  - intros (pod & ? & ?)%status_targets. exists pod. auto.
Qed.

Lemma cluster_targets_covered cluster pods : shards_covered cluster pods (dom (cluster_targets cluster pods)).
Proof.
  intros Hnd. split.
  - intros shard pod Hp. apply (status_targets_complete _ _ _ _ Hnd) in Hp as [t Ht]. apply elem_of_dom.
    exists t. unfold cluster_targets. rewrite bool_decide_false; [done|]. intros He. rewrite He in Ht. by apply lookup_empty_Some in Ht.
  - intros Hno shard pod Hp. apply elem_of_dom. unfold cluster_targets. rewrite bool_decide_true.
    + by eapply label_targets_complete.
    + apply map_empty. intros s. destruct (targets_by_status cluster pods !! s) as [[n ip]|] eqn:Hs; [|done].
      apply status_targets in Hs as (q & Hq & _). by destruct (Hno s q).
Qed.

Lemma trigger_safe h ip name m d :
  bsafe h (triggerBackupWithOptions ip name m d) (λ h' r, acked h' ip name r).
Proof.
  apply (safe_call (S := backups)); [done|]. intros [msg|code text decoded]; [done|].
  case_bool_decide as Hc; [done|]. subst code. destruct decoded as [r|e]; [|done].
  cbn [check_ctx mbind prog_bind]. case_bool_decide; [done|]. split; [done|]. exists m, d, text. set_solver.
Qed.

Lemma backup_shards_safe h b cluster pods shards artifacts :
  (∀ s a, artifacts !! s = Some a → recorded h cluster pods (b_Name b) s a) →
  (∀ s, s ∈ shards → s ∈ dom (cluster_targets cluster pods)) →
  bsafe h (backup_shards b (cluster_targets cluster pods) shards artifacts) (λ h' m,
    (∀ s a, m !! s = Some a → recorded h' cluster pods (b_Name b) s a) ∧ dom m = dom artifacts ∪ list_to_set shards).
Proof.
  revert h artifacts; induction shards as [|shard shards IH]; intros h artifacts Ha Hs; cbn [backup_shards].
  { split; [done|]. set_solver. }
  assert (shard ∈ dom (cluster_targets cluster pods)) as [[n ip] Ht]%elem_of_dom by (apply Hs; set_solver).
  rewrite Ht. cbn [default].
  eapply safe_bind; [apply safe_with_ctx, trigger_safe|]. intros h' r Hh Hr.
  eapply safe_mono; [apply IH; [|set_solver]|].
  - intros s a. rewrite lookup_insert. case_decide as Hss; [|intros Hl; by eapply recorded_mono, Ha].
    intros [= <-]. subst s. apply cluster_targets_sound in Ht as (pod & Hp & -> & ->). by exists pod, r.
  - intros h'' m _ [Hm Hd]. split; [done|]. rewrite Hd. set_solver.
Qed.

Lemma startBackup_safe h b pod ip :
  bsafe h (startBackup b pod ip) (λ h' x, ∀ r, x.2 = Ok r → acked h' ip (b_Name x.1) r).
Proof.
  eapply safe_bind; [apply bsafe_quiet; auto with redis|]. intros h' [b' [[]|e]] _ _; [|done].
  eapply safe_bind; [apply safe_catch, trigger_safe|]. intros h'' x _ Hx r Hr. by apply Hx.
Qed.

Lemma elem_of_shard_names {V} (targets : gmap string V) s :
  s ∈ sort_slice string_less ((map_to_list targets).*1) ↔ s ∈ dom targets.
Proof.
  rewrite elem_of_sort_slice, elem_of_dom, list_elem_of_fmap. split.
  - intros ([s' t] & -> & Hin%elem_of_map_to_list). by exists t.
  - intros [t Ht]. exists (s, t). split; [done|]. by apply elem_of_map_to_list.
Qed.

Lemma startClusterBackup_safe h b cluster pods :
  bsafe h (startClusterBackup b (cluster_targets cluster pods)) (λ h' x, ∀ m, x.2 = Ok m →
    (∀ s a, m !! s = Some a → recorded h' cluster pods (b_Name x.1) s a) ∧ dom m = dom (cluster_targets cluster pods)).
Proof.
  eapply safe_bind; [apply bsafe_quiet; auto with redis|]. intros h' [b' [[]|e]] _ _; [|done].
  eapply safe_bind; [apply safe_catch, backup_shards_safe; [intros s a; by rewrite lookup_empty|]|].
  { intros s. by rewrite elem_of_shard_names. }
  intros h'' x _ Hx m Hm. destruct (Hx m Hm) as [Hrec Hdom]. split; [done|]. rewrite Hdom, dom_empty_L, (left_id_L ∅ (∪)).
  apply leibniz_equiv. intros s. by rewrite elem_of_list_to_set, elem_of_shard_names.
Qed.

(** A pass that writes [Completed] through [setBackupCompleted]. *)
Lemma setBackupCompleted_safe h b result artifacts :
  (∀ now after, b_Name after = b_Name b →
     (match result with
      | Some r => bst_BackupPath (b_Status after) = br_BackupPath r ∧ bst_BackupSize (b_Status after) = br_BackupSize r ∧
          bst_ShardArtifacts (b_Status after) = ∅
      | None => bst_ShardArtifacts (b_Status after) = artifacts ∧
          (artifacts = ∅ → bst_BackupPath (b_Status after) = bst_BackupPath (b_Status b))
      end) → completed_ok (h ++ [bev BNow now]) after) →
  bsafe h (setBackupCompleted b result artifacts) (λ _ _, True).
Proof.
  intros H. apply (safe_call (S := backups)); [done|]. intros now. cbn zeta.
  destruct result as [r|]; [|case_bool_decide as He; [|destruct (shard_summary artifacts) as [[path type] size]]];
    (apply (safe_call (S := backups)); [|by intros []]); intros _; apply H; done.
Qed.

Lemma completed_ok_intro h backup after :
  bev BGetBackup (Ok backup) ∈ h → starts_now (bst_Phase (b_Status backup)) = true →
  acknowledged h backup after → completed_ok h after.
Proof.
  intros Hb Hs Ha. exists backup. split; [done|]. cbn zeta. rewrite bool_decide_true; [done|].
  unfold starts_now in Hs. apply orb_true_iff in Hs as [?%bool_decide_eq_true|?%bool_decide_eq_true]; auto.
Qed.

Lemma completed_foreign h b :
  bev BGetBackup (Ok b) ∈ h → starts_now (bst_Phase (b_Status b)) = false →
  bst_Phase (b_Status b) ∉ ["Running"; "Completed"; "Failed"] →
  bsafe h (setBackupCompleted b None ∅) (λ _ _, True).
Proof.
  intros Hb Hs Hp. apply setBackupCompleted_safe. intros now after _ [He Hpath]. exists b. split; [set_solver|].
  cbn zeta. rewrite bool_decide_false.
  - split; [done|]. split; [done|by apply Hpath].
  - unfold starts_now in Hs. apply orb_false_iff in Hs as [?%bool_decide_eq_false ?%bool_decide_eq_false]. by intros [].
Qed.

Lemma select_targets_safe h cluster :
  bsafe h (selectClusterBackupTargets cluster) (λ h' targets, targets ≠ ∅ ∧
    ∃ sel pods, bev (BListPods sel) (Ok pods) ∈ h' ∧ targets = cluster_targets cluster pods).
Proof.
  eapply (safe_bind _ _ _ _ (λ h' pods, bev (BListPods {[ LabelCluster := Name cluster ]}) (Ok pods) ∈ h')).
  - apply safe_with_ctx. apply (safe_call (S := backups)); [done|]. intros [pods|e]; [|done]. simpl. set_solver.
  - intros h' pods _ Hin. cbn beta zeta. case_bool_decide; [done|]. split; [done|]. by eexists _, pods.
Qed.

Lemma select_target_safe h cluster target :
  bsafe h (selectTargetPod cluster target) (λ h' x, ∃ sel pods pod, bev (BListPods sel) (Ok pods) ∈ h' ∧
    pod ∈ pods ∧ p_PodIP pod ≠ "" ∧ x = (p_Name pod, p_PodIP pod) ∧
    (p_Name pod = Status_CurrentPrimary (Status cluster) ∨ target = BackupTargetPreferReplica)).
Proof.
  eapply (safe_bind _ _ _ _ (λ h' pods, bev (BListPods {[ LabelCluster := Name cluster ]}) (Ok pods) ∈ h')).
  { apply safe_with_ctx. apply (safe_call (S := backups)); [done|]. intros [pods|e]; [|done]. simpl. set_solver. }
  intros h' pods _ Hin. cbn beta zeta.
  destruct (List.find (λ p, bool_decide (p_Name p = _) && _) pods) as [q|] eqn:Hq;
    [apply find_some in Hq as [Hqin [Hqn%bool_decide_eq_true Hqip%bool_decide_eq_true]%andb_prop]; apply list_elem_of_In in Hqin|];
    (case_bool_decide;
      [destruct (List.find (λ p, bool_decide (p_Name p ≠ _) && _) pods) as [p|] eqn:Hp;
         [apply find_some in Hp as [Hpin [Hpn Hpip%bool_decide_eq_true]%andb_prop]; apply list_elem_of_In in Hpin;
          eexists _, pods, p; split_and!; by eauto|]|]); try done; eexists _, pods, q; split_and!; by eauto.
Qed.

Lemma selectTarget_quiet cluster t : bissues never_completes (selectTargetPod cluster t).
Proof. unfold selectTargetPod, listBackupPods, bcall. issues. Qed.
Lemma refresh_quiet ns n : bissues never_completes (refreshClusterBackupMetrics ns n).
Proof. unfold refreshClusterBackupMetrics, bcall. issues. Qed.
#[export] Hint Resolve selectTarget_quiet refresh_quiet : redis.

Ltac bquiet :=
  apply bsafe_quiet; unfold bcall; repeat first [solve [auto with redis] | done | apply issues_bind | progress intros].

(** The phases in which [Reconcile] goes past its first test. *)
Definition unfinished (b : RedisBackup) : Prop :=
  bst_Phase (b_Status b) ≠ BackupPhaseCompleted ∧ bst_Phase (b_Status b) ≠ BackupPhaseFailed.

Lemma foreign_phase b :
  unfinished b → bst_Phase (b_Status b) ≠ BackupPhaseRunning →
  bst_Phase (b_Status b) ∉ ["Running"; "Completed"; "Failed"].
Proof. intros [Hc Hf] Hr Hin. set_solver. Qed.

Lemma single_safe h b cluster name :
  unfinished b → bev BGetBackup (Ok b) ∈ h → bev (BGetCluster name) (Ok cluster) ∈ h →
  Spec_Mode (Spec cluster) ≠ ClusterModeCluster →
  bsafe h (reconcile_single_backup b cluster) (λ _ _, True).
Proof.
  intros Hu Hb Hc Hm. eapply safe_bind; [apply safe_catch, select_target_safe|]. intros h' [[pod ip]|e] [k1 ->] Hsel; [|bquiet].
  destruct (Hsel _ eq_refl) as (sel & pods & p & Hlist & Hpin & Hip & [= -> ->] & Hwhich).
  cbn beta iota zeta. destruct (starts_now _) eqn:Hs.
  - apply (safe_call (S := backups)); [done|]. intros [].
    eapply safe_bind; [apply startBackup_safe|]. intros h'' [b' [r|e]] [k2 ->] Hr; [|apply bsafe_quiet; auto with redis].
    eapply safe_bind; [apply setBackupCompleted_safe|by intros h3 [] _ _].
    intros now after Hn (Hpath & Hsize & Harts). apply (completed_ok_intro _ b); [set_solver|done|].
    exists name, cluster, sel, pods. split; [set_solver|]. split; [set_solver|]. rewrite bool_decide_false by done.
    exists p, r. split_and!; try done. rewrite Hn. eapply acked_mono; [|by apply Hr]. by eexists.
  - case_bool_decide as Hrun; [done|]. eapply safe_bind; [apply completed_foreign|by intros h3 [] _ _];
      [set_solver|done|by apply foreign_phase].
Qed.

Lemma cluster_safe h b cluster name :
  unfinished b → bev BGetBackup (Ok b) ∈ h → bev (BGetCluster name) (Ok cluster) ∈ h →
  Spec_Mode (Spec cluster) = ClusterModeCluster →
  bsafe h (reconcile_cluster_backup b cluster) (λ _ _, True).
Proof.
  intros Hu Hb Hc Hm. eapply safe_bind; [apply safe_catch, select_targets_safe|]. intros h' [targets|e] [k1 ->] Ht; [|bquiet].
  destruct (Ht targets eq_refl) as (Hne & sel & pods & Hp & ->). cbn beta iota zeta. destruct (starts_now _) eqn:Hs.
  - apply (safe_call (S := backups)); [done|]. intros [].
    eapply safe_bind; [apply startClusterBackup_safe|]. intros h'' [b' [m|e]] [k2 ->] Hr; [|apply bsafe_quiet; auto with redis].
    destruct (Hr m eq_refl) as [Hrec Hdom].
    eapply safe_bind; [apply setBackupCompleted_safe|by intros h3 [] _ _].
    intros now after Hn (Harts & _). apply (completed_ok_intro _ b); [set_solver|done|].
    exists name, cluster, sel, pods. split; [set_solver|]. split; [set_solver|]. rewrite bool_decide_true by done.
    rewrite Harts, Hn, Hdom. split_and!.
    + intros ->. apply Hne, dom_empty_iff_L. by rewrite <- Hdom, dom_empty_L.
    + intros s a Ha. eapply recorded_mono; [|by apply Hrec]. by eexists.
    + apply cluster_targets_covered.
  - case_bool_decide as Hrun; [done|]. eapply safe_bind; [apply completed_foreign|by intros h3 [] _ _];
      [set_solver|done|by apply foreign_phase].
Qed.

Lemma reconcile_backup_safe h b : bev BGetBackup (Ok b) ∈ h → bsafe h (reconcile_backup b) (λ _ _, True).
Proof.
  intros Hb. unfold reconcile_backup. destruct (_ || _) eqn:Hph; [done|].
  apply orb_false_iff in Hph as [Hc%bool_decide_eq_false Hf%bool_decide_eq_false].
  apply (safe_call (S := backups)); [done|]. intros [cluster|e]; [|bquiet].
  destruct (bool_decide (_ ≠ ClusterPhaseHealthy)); [bquiet|].
  destruct (Destination_Validate _); [bquiet|].
  destruct (bool_decide_reflect (Spec_Mode (Spec cluster) = ClusterModeCluster)).
  - eapply cluster_safe; [done|set_solver|apply elem_of_app; right; apply list_elem_of_here|done].
  - eapply single_safe; [done|set_solver|apply elem_of_app; right; apply list_elem_of_here|done].
Qed.


(** ** A backup left running *)

(** The listed pods contain one the backup could run on. *)
Definition has_target (cluster : RedisCluster) (pods : list Pod) : bool :=
  if bool_decide (Spec_Mode (Spec cluster) = ClusterModeCluster)
  then negb (bool_decide (cluster_targets cluster pods = ∅))
  else existsb (λ p, bool_decide (p_Name p = Status_CurrentPrimary (Status cluster)) && bool_decide (p_PodIP p ≠ "")) pods.

(** Take the response of the first operation of a run from the answers. *)
Ltac served H Hs :=
  let r := fresh "r" in let tr := fresh "tr" in let Hr := fresh in
  destruct H as (r & tr & -> & H); apply Forall_cons in Hs as [Hr Hs]; simpl in Hr; subst r;
  match type of H with
  | runs (prog_bind _ _ _ ?f (Ret ?a)) ?t ?o => change (runs (f a) t o) in H; cbn beta iota in H
  | _ => idtac
  end.

(** The server answers with this cluster and these pods. *)
Definition serves (cluster : RedisCluster) (pods : list Pod) (e : event backups) : Prop :=
  match e with existT c r =>
    match c return backup_ret c → Prop with
    | BGetCluster _ => λ r, r = Ok cluster
    | BListPods _ => λ r, r = Ok pods
    | _ => λ _, True
    end r
  end.

(** A backup that was left in the phase [Running] (the controller stopped
    between recording the start and recording the result, or the patch of the
    result failed) is neither retried nor failed: over a healthy cluster with
    a usable pod and a valid destination every pass reads the cluster and the
    pods, writes nothing and asks to be called again after 30 seconds. *)
Theorem running_backup_stuck b cluster pods tr out :
  bst_Phase (b_Status b) = BackupPhaseRunning →
  Destination_Validate (bs_Destination (b_Spec b)) = None →
  Status_Phase (Status cluster) = ClusterPhaseHealthy → has_target cluster pods = true →
  runs (reconcile_backup b) tr out → Forall (serves cluster pods) tr →
  projT1 <$> tr = [BGetCluster (bs_ClusterName (b_Spec b)); BListPods {[ LabelCluster := Name cluster ]}] ∧
  out = Ok backupRequeueInterval.
Proof.
  intros Hph Hd Hh Ht Hr Hs. unfold reconcile_backup, bcall in Hr. rewrite Hph, Hd in Hr. cbn zeta in Hr.
  simpl (_ || _) in Hr. cbn iota in Hr.
  served Hr Hs. rewrite bool_decide_false in Hr by (intros Hn; by apply Hn).
  unfold has_target in Ht. destruct (bool_decide (Spec_Mode _ = _)); served Hr Hs.
  - cbn in Hr. apply negb_true_iff in Ht. rewrite Ht in Hr. cbn in Hr. rewrite Hph in Hr. cbn in Hr.
    by destruct Hr as [-> ->].
  - cbn in Hr.
    apply existsb_exists in Ht as (p & Hp & Hok).
    destruct (if bool_decide (bs_Target _ = _) then _ else _) as [q|];
      [|destruct (List.find _ _) eqn:Hf; [|exfalso; eapply find_none in Hf; [|exact Hp]; congruence]];
      cbn in Hr; rewrite Hph in Hr; cbn in Hr; by destruct Hr as [-> ->].
Qed.

(** ** Scheduling *)

Section scheduling.
Context {Schedule Location : Type}.
Context (ParseStandard : string → res Schedule) (Next : Schedule → Location → Z → option Z).
Context (LoadLocation : string → res Location) (UTC : Location).
Context (SetStatusCondition : list Condition → Z → Condition → list Condition).

Abbreviation step := (schedule_step ParseStandard Next LoadLocation SetStatusCondition).
Abbreviation pass := (Reconcile_scheduled ParseStandard Next LoadLocation SetStatusCondition).

(** What a pass may write after the events [h].  A backup is created only when
    the next occurrence after the baseline of the schedule that was read has
    passed, and carries that schedule's settings; the status patched after a
    creation records the time of the creation, the baseline of later passes. *)
Definition schedule_guard (namespace : string) (h : trace backups) (c : backup_op) : Prop :=
  match c with
  | BCreateBackup b =>
      ∃ scheduled sched loc next now,
        bev BGetScheduled (Ok scheduled) ∈ h ∧ bev BNow now ∈ h ∧
        sp_Suspend (sb_Spec scheduled) ≠ Some true ∧
        parseSchedule ParseStandard LoadLocation (sp_Schedule (sb_Spec scheduled)) (sp_TimeZone (sb_Spec scheduled))
          = Ok (sched, loc) ∧
        Next sched loc (baselineTime scheduled) = Some next ∧ next ≤ now ∧
        b = scheduled_backup scheduled namespace now
  | BPatchScheduledStatus before after =>
      ∀ b r, bev (BCreateBackup b) r ∈ h →
        ∃ now, bev BNow now ∈ h ∧ sst_LastScheduleTime (sb_Status after) = Some now ∧
          sst_LastBackupName (sb_Status after) = b_Name b ∧ b = scheduled_backup before namespace now
  | BPostBackup _ _ | BPatchBackupStatus _ _ => False
  | BDeleteBackup _ => ∃ b r before after r', bev (BCreateBackup b) (Ok r) ∈ h ∧
      bev (BPatchScheduledStatus before after) (Ok r') ∈ h
  | _ => True
  end.

Definition is_create (c : backup_op) : bool := match c with BCreateBackup _ => true | _ => false end.
Definition uncreated (h : trace backups) : Prop := Forall (λ e, is_create (projT1 e) = false) h.

Lemma uncreated_no h b r : uncreated h → bev (BCreateBackup b) r ∉ h.
Proof. intros Hh Hin. unfold uncreated in Hh. rewrite Forall_forall in Hh. by specialize (Hh _ Hin). Qed.

Lemma uncreated_snoc h e : uncreated h → is_create (projT1 e) = false → uncreated (h ++ [e]).
Proof. intros Hh He. apply Forall_app. by split; [|constructor]. Qed.

Abbreviation ssafe ns h p := (safe (S := backups) (schedule_guard ns) h p (λ _ _, True)).

Lemma patch_uncreated {A} ns h before after (f : RedisScheduledBackup → bprog A) Q :
  uncreated h →
  (∀ r, safe (S := backups) (schedule_guard ns) (h ++ [bev (BPatchScheduledStatus before after) (Ok r)]) (f r) Q) →
  safe (S := backups) (schedule_guard ns) h (PatchScheduledStatus before after ≫= f) Q.
Proof.
  intros Hh Hf. split; [intros b r Hin; by apply uncreated_no in Hin|]. intros [r|e]; [apply Hf|done].
Qed.

Lemma markScheduleInvalid_safe ns h s e : uncreated h → ssafe ns h (markScheduleInvalid SetStatusCondition s e).
Proof. intros Hh. apply patch_uncreated; [done|]. intros r. by repeat split. Qed.

(** Deletions are allowed once the creation is on record. *)
Definition created (h : trace backups) : Prop :=
  ∃ b r before after r', bev (BCreateBackup b) (Ok r) ∈ h ∧ bev (BPatchScheduledStatus before after) (Ok r') ∈ h.

Lemma created_mono h h' : h `prefix_of` h' → created h → created h'.
Proof. intros [k ->] (b & r & x & y & z & H1 & H2). exists b, r, x, y, z. rewrite !elem_of_app; auto. Qed.

Lemma delete_first_safe ns ctx n l h :
  created h → safe (S := backups) (schedule_guard ns) h (delete_first ctx n l) (λ h' _, created h').
Proof.
  revert l h; induction n as [|n IH]; intros l h Hh; cbn [delete_first]; [by destruct l|].
  destruct l as [|b l]; [done|]. split; [exact Hh|].
  intros [[]|e]; [|done]. apply IH. eapply created_mono; [|exact Hh]. by eexists.
Qed.

Lemma trim_history_safe ns ctx limit l h :
  created h → safe (S := backups) (schedule_guard ns) h (trim_history ctx limit l) (λ h' _, created h').
Proof. intros Hh. unfold trim_history. case_bool_decide; [by apply delete_first_safe|done]. Qed.

Lemma cleanup_safe ns s h : created h → ssafe ns h (cleanupOldBackups s).
Proof.
  intros Hh. eapply (safe_bind _ _ _ _ (λ h' _, created h')).
  { split; [done|]. intros [items|e]; [|done]. eapply created_mono; [by eexists|exact Hh]. }
  intros h1 items _ Hh1. eapply safe_bind; [by apply trim_history_safe|].
  intros h' [] _ Hh'. eapply safe_mono; [by apply trim_history_safe|done].
Qed.

Lemma fire_safe ns h scheduled sched loc next now :
  uncreated h → bev BGetScheduled (Ok scheduled) ∈ h → bev BNow now ∈ h →
  sp_Suspend (sb_Spec scheduled) ≠ Some true →
  parseSchedule ParseStandard LoadLocation (sp_Schedule (sb_Spec scheduled)) (sp_TimeZone (sb_Spec scheduled))
    = Ok (sched, loc) →
  Next sched loc (baselineTime scheduled) = Some next → next ≤ now →
  ssafe ns h (fire Next SetStatusCondition scheduled ns sched loc now).
Proof.
  intros Hh Hg Hn Hs Hp Hnext Hle. split; [by exists scheduled, sched, loc, next, now|].
  intros [r|e]; [|done]. split; [done|]. intros []. split.
  { intros b r' [[Hin|Hin%list_elem_of_singleton]%elem_of_app|Hin%list_elem_of_singleton]%elem_of_app.
    - by apply uncreated_no in Hin.
    - apply (f_equal (@projT1 _ _)) in Hin. simpl in Hin. injection Hin as ->. exists now.
      split; [|done]. rewrite !elem_of_app; auto.
    - by apply (f_equal (@projT1 _ _)) in Hin. }
  intros [scheduled'|e]; [|done].
  lazymatch goal with |- safe ?G ?h' (prog_bind _ _ _ ?f _) ?Q => change (safe G h' (f scheduled') Q); cbn beta end.
  eapply (safe_bind _ _ _ _ (λ _ _, True)); [|by intros h' [] _ _].
  eapply safe_bind; [apply safe_catch, cleanup_safe|intros h' [x|e] _ _; [exact I|by destruct e]].
  eexists _, r, _, _, scheduled'. rewrite !elem_of_app, !list_elem_of_singleton. split; [left; left; by right|by right].
Qed.

Lemma step_safe ns h scheduled :
  uncreated h → bev BGetScheduled (Ok scheduled) ∈ h → sp_Suspend (sb_Spec scheduled) ≠ Some true →
  ssafe ns h (step scheduled ns).
Proof.
  intros Hh Hg Hs. unfold schedule_step. cbn zeta.
  destruct (parseSchedule _ _ _ _) as [[sched loc]|e] eqn:Hp; [|by apply markScheduleInvalid_safe].
  apply (safe_call (S := backups)); [done|]. intros now.
  assert (uncreated (h ++ [bev BNow now])) as Hh' by by apply uncreated_snoc.
  destruct (Next _ _ _) as [next|] eqn:Hn; [|by apply markScheduleInvalid_safe].
  case_bool_decide; [by apply patch_uncreated|].
  eapply fire_safe; [done| |by apply elem_of_app; right; apply list_elem_of_here|done..|lia].
  by apply elem_of_app; left.
Qed.

Lemma trim_history_no_create ctx limit l :
  bissues (λ c, negb (is_create c)) (trim_history ctx limit l).
Proof.
  unfold trim_history. destruct (bool_decide _); [|done]. generalize (Z.to_nat (int32 (int32 (Z.of_nat (length l)) - default 3 limit))).
  intros n; revert l; induction n as [|n IH]; intros [|b l]; cbn [delete_first]; try done.
  unfold bcall. issues. apply IH.
Qed.

Lemma fire_once scheduled ns sched loc now :
  at_most (S := backups) is_create 1 (fire Next SetStatusCondition scheduled ns sched loc now).
Proof.
  intros [r|e]; [|done]. apply at_most_none. unfold cleanupOldBackups, log_error, PatchScheduledStatus, bcall.
  repeat first [apply trim_history_no_create | apply issues_bind | progress issues].
Qed.

(** Reduce a bind whose first program has returned. *)
Ltac ret_bind :=
  repeat match goal with
  | |- context [prog_bind ?S ?A ?B ?f (Ret ?a)] => change (prog_bind S A B f (Ret a)) with (f a); cbn beta iota zeta
  end.

Lemma pass_once ns : at_most (S := backups) is_create 1 (pass ns).
Proof.
  intros [scheduled|e]; ret_bind; [|by destruct (IsNotFound e)]. destruct (bool_decide _).
  { apply at_most_none. unfold PatchScheduledStatus, bcall. issues. }
  intros [cluster|e]; ret_bind; [|done]. unfold schedule_step. cbn [check_ctx mbind prog_bind]. cbn zeta.
  destruct (parseSchedule _ _ _ _) as [[sched loc]|e].
  2: { apply at_most_none. unfold markScheduleInvalid, PatchScheduledStatus, bcall. issues. }
  intros now. ret_bind. destruct (Next _ _ _) as [next|].
  2: { apply at_most_none. unfold markScheduleInvalid, PatchScheduledStatus, bcall. issues. }
  destruct (bool_decide _); [|apply fire_once]. apply at_most_none. unfold PatchScheduledStatus, bcall. issues.
Qed.

(** C22: A pass of the scheduled-backup controller creates at most one backup,
    however many occurrences were missed, and only when the first occurrence
    after the last creation (or the object's creation) has passed; it carries
    the schedule's settings.  The status patched after it records the time the
    backup was created, which is the baseline of later passes; nothing is
    pruned before that; and the pass itself triggers no artifact. *)
Theorem scheduled_fires_when_due namespace tr out :
  runs (pass namespace) tr out →
  (length (List.filter (λ e, is_create (projT1 e)) tr) ≤ 1)%nat ∧
  ∀ tr1 e tr2, tr = tr1 ++ e :: tr2 → schedule_guard namespace tr1 (projT1 e).
Proof.
  intros Hr. split; [exact (at_most_runs _ _ _ _ _ (pass_once namespace) Hr)|].
  refine (proj1 (safe_runs (schedule_guard namespace) [] _ (λ _ _, True) _ _ _ Hr)).
  split; [done|]. intros [scheduled|e]; ret_bind; [|by destruct (IsNotFound e)].
  assert (uncreated [bev BGetScheduled (Ok scheduled)]) as Hh by by constructor.
  case_bool_decide as Hs; [by apply patch_uncreated|]. split; [done|]. intros [cluster|e]; [|done].
  cbn [check_ctx mbind prog_bind]. apply step_safe; [by apply uncreated_snoc|apply list_elem_of_here|done].
Qed.

(** ** Admission *)

(** C24: The admission check accepts a schedule exactly when the controller can
    parse it, in the same time zone, and it has an occurrence after the time of
    the request ([LoadLocation] is documented to return UTC for that name). *)
Theorem schedule_admission_matches now scheduled :
  LoadLocation "UTC" = Ok UTC →
  validateSchedule ParseStandard Next LoadLocation UTC now scheduled = [] ↔
  ∃ sched loc next,
    parseSchedule ParseStandard LoadLocation (sp_Schedule (sb_Spec scheduled)) (sp_TimeZone (sb_Spec scheduled))
      = Ok (sched, loc) ∧ Next sched loc now = Some next.
Proof.
  intros Hutc. unfold validateSchedule, parseSchedule. cbn zeta.
  case_bool_decide; [rewrite Hutc|destruct (LoadLocation (sp_TimeZone (sb_Spec scheduled))) as [loc|e]];
    try (split; [done|]; by intros (? & ? & ? & ? & ?));
    destruct (ParseStandard _) as [sched|e]; try (split; [done|]; by intros (? & ? & ? & ? & ?));
    (match goal with |- context [Next ?a ?b ?c] => destruct (Next a b c) eqn:Hn end; split; intros Hx; [by eauto|done|done|]; destruct Hx as (? & ? & ? & [= <- <-] & ?); congruence).
Qed.
End scheduling.

(** ** Retention *)

Definition deletions (tr : trace backups) : list string :=
  omap (λ e : event backups, match projT1 e with BDeleteBackup n => Some n | _ => None end) tr.

Lemma deletions_app tr1 tr2 : deletions (tr1 ++ tr2) = deletions tr1 ++ deletions tr2.
Proof. apply omap_app. Qed.

#[export] Instance created_before_trans : Transitive (λ x y, created_before y x = false).
Proof.
  intros x y z Hxy Hyz. unfold created_before in *.
  destruct (bool_decide_reflect (b_CreationTimestamp y = b_CreationTimestamp x)) as [E1|E1];
    destruct (bool_decide_reflect (b_CreationTimestamp z = b_CreationTimestamp y)) as [E2|E2];
    destruct (bool_decide_reflect (b_CreationTimestamp z = b_CreationTimestamp x)) as [E3|E3];
    rewrite ?bool_decide_eq_false in *; try lia.
  exact (string_less_trans _ _ _ Hxy Hyz).
Qed.

Lemma created_before_asym a b : created_before a b = true → created_before b a = false.
Proof.
  unfold created_before.
  destruct (bool_decide_reflect (b_CreationTimestamp a = b_CreationTimestamp b)) as [E1|E1];
    destruct (bool_decide_reflect (b_CreationTimestamp b = b_CreationTimestamp a)) as [E2|E2]; try lia;
    [apply string_less_asym|]. rewrite bool_decide_eq_true, bool_decide_eq_false. lia.
Qed.

(** Created earlier, or at the same time under a smaller name. *)
Definition older (a b : RedisBackup) : Prop :=
  b_CreationTimestamp a < b_CreationTimestamp b ∨
  b_CreationTimestamp a = b_CreationTimestamp b ∧ string_less (b_Name a) (b_Name b) = true.

(** [dropped] is what a history limit removes from [l]: all but the newest, and
    the older before the newer. *)
Definition trimmed (limit : option Z) (l dropped : list RedisBackup) : Prop :=
  ∃ kept, l ≡ₚ dropped ++ kept ∧ Z.of_nat (length kept) = Z.min (default 3 limit) (Z.of_nat (length l)) ∧
    (∀ d k, d ∈ dropped → k ∈ kept → ¬ older k d) ∧
    (∀ i j d d', dropped !! i = Some d → dropped !! j = Some d' → (i < j)%nat → ¬ older d' d).

Lemma created_before_older a b : created_before a b = false ↔ ¬ older a b.
Proof.
  unfold created_before, older.
  destruct (bool_decide_reflect (b_CreationTimestamp a = b_CreationTimestamp b)) as [E|E].
  - destruct (string_less (b_Name a) (b_Name b)); split; naive_solver lia.
  - rewrite bool_decide_eq_false. naive_solver lia.
Qed.

(** In the sorted list no backup is older than one before it. *)
Lemma sorted_by_age l i j d d' :
  sortByCreationTime l !! i = Some d → sortByCreationTime l !! j = Some d' → (i < j)%nat → ¬ older d' d.
Proof.
  intros Hi Hj Hij. apply created_before_older.
  assert (StronglySorted (λ x y, created_before y x = false) (sortByCreationTime l)) as Hs.
  { apply Sorted_StronglySorted; [apply created_before_trans|apply sort_slice_sorted, created_before_asym]. }
  rewrite <- (take_drop j (sortByCreationTime l)) in Hs.
  eapply (StronglySorted_app_1_elem_of _ _ _ _ _ Hs).
  - apply list_elem_of_lookup. exists i. rewrite lookup_take. by case_decide.
  - apply list_elem_of_lookup. exists 0%nat. by rewrite lookup_drop, Nat.add_0_r.
Qed.

Lemma delete_first_deletes ctx n l tr :
  runs (delete_first ctx n l) tr (Ok tt) → deletions tr = b_Name <$> take n l.
Proof.
  revert l tr; induction n as [|n IH]; intros l tr Hr; [by destruct l, Hr as [-> _]|].
  destruct l as [|b l]; [by destruct Hr|]. destruct Hr as (r & tr' & -> & Hr).
  destruct r as [[]|e]; [|by destruct Hr]. simpl. f_equal. by apply IH.
Qed.

Lemma trim_history_drops ctx limit l tr :
  0 ≤ default 3 limit → Z.of_nat (length l) < 2 ^ 31 → runs (trim_history ctx limit (sortByCreationTime l)) tr (Ok tt) →
  ∃ dropped, deletions tr = b_Name <$> dropped ∧ trimmed limit l dropped.
Proof.
  intros Hlim Hlen. unfold trim_history. pose proof (sort_slice_perm created_before l) as Hperm.
  fold (sortByCreationTime l) in Hperm. rewrite (Permutation_length Hperm).
  rewrite int32_small by (unfold in_int32; lia). case_bool_decide.
  - rewrite int32_small by (unfold in_int32; lia). intros Hr%delete_first_deletes.
    eexists; split; [exact Hr|]. exists (drop (Z.to_nat (Z.of_nat (length l) - default 3 limit)) (sortByCreationTime l)).
    rewrite take_drop, length_drop, (Permutation_length Hperm). split; [done|]. split; [lia|]. split.
    + intros d k (i & Hi)%list_elem_of_lookup (j & Hj)%list_elem_of_lookup.
      rewrite lookup_take in Hi. case_decide; [|done]. rewrite lookup_drop in Hj. eapply sorted_by_age; [exact Hi|exact Hj|lia].
    + intros i j d d'. rewrite !lookup_take. case_decide; [|done]. case_decide; [|done]. apply sorted_by_age.
  - intros [-> _]. exists []. split; [done|]. exists l. split; [done|]. split; [lia|]. split; [by intros d k Hd%elem_of_nil|done].
Qed.

Definition lists_backups (items : list RedisBackup) (e : event backups) : Prop :=
  match e with existT c r =>
    match c return backup_ret c → Prop with BListBackups _ => λ r, r = Ok items | _ => λ _, True end r
  end.

(** C23: A clean-up that succeeds deletes, of the completed and of the failed
    backups of the schedule separately, all but the newest up to the history
    limit (three unless configured), the oldest first: no backup it keeps, and
    none it deletes later, is older than one it deleted; equal creation times are
    ordered by name.  It touches no backup in another phase.  The limits are not
    negative and fewer than 2^31 backups are listed. *)
Theorem retention_keeps_newest scheduled items tr :
  let spec := sb_Spec scheduled in
  0 ≤ default 3 (sp_SuccessfulBackupsHistoryLimit spec) → 0 ≤ default 3 (sp_FailedBackupsHistoryLimit spec) →
  Z.of_nat (length items) < 2 ^ 31 →
  runs (cleanupOldBackups scheduled) tr (Ok tt) → Forall (lists_backups items) tr →
  ∃ completed failed, deletions tr = b_Name <$> completed ++ failed ∧
    trimmed (sp_SuccessfulBackupsHistoryLimit spec) (filter (λ b, bst_Phase (b_Status b) = "Completed") items) completed ∧
    trimmed (sp_FailedBackupsHistoryLimit spec) (filter (λ b, bst_Phase (b_Status b) = "Failed") items) failed.
Proof.
  cbn zeta. intros Hs Hf Hlen Hr Hserve.
  assert (∀ ph, Z.of_nat (length (in_phase ph items)) < 2 ^ 31) as Hsub.
  { intros ph. pose proof (length_filter (λ b, bst_Phase (b_Status b) = ph) items). unfold in_phase. lia. }
  apply runs_bind in Hr as [(e & _ & ?)|(l & tr1 & tr2 & -> & H1 & Hr)]; [done|].
  destruct H1 as (r & tr' & -> & H1). apply Forall_app in Hserve as [Hserve _]. apply Forall_cons in Hserve as [Hl _].
  simpl in Hl. subst r. destruct H1 as [-> [= ->]].
  apply runs_bind in Hr as [(e & _ & ?)|([] & tr1 & tr3 & -> & H1 & H2)]; [done|].
  apply trim_history_drops in H1 as (completed & Hd1 & Ht1); [|done..].
  apply trim_history_drops in H2 as (failed & Hd2 & Ht2); [|done..].
  exists completed, failed. split; [|done].
  by rewrite !deletions_app, Hd1, Hd2, fmap_app.
Qed.

(** ** Witnesses *)

Definition backup_named (name : string) (phase : BackupPhase) (created : Z) : RedisBackup :=
  mkBackup name "default" ∅ created
    (mkBackupSpec "c" BackupTargetPreferReplica "" (Some (mkDestination (Some (mkS3 "bucket" "" "" "")) None)))
    (mkBackupStatus phase "" None None 0 "" "" ∅ "").

(** What the environment holds: the backup, its cluster and pods. *)
Record backup_world := mkBackupWorld { bw_backup : RedisBackup; bw_cluster : RedisCluster; bw_pods : list Pod }.

Definition backup_env : environment backups backup_world := λ w c,
  match c return backup_ret c * backup_world with
  | BEvent _ _ _ => (tt, w)
  | BNow => (1000 * second_ns, w)
  | BGetBackup => (Ok (bw_backup w), w)
  | BGetCluster _ => (Ok (bw_cluster w), w)
  | BListPods _ => (Ok (bw_pods w), w)
  | BPatchBackupStatus _ after => (Ok after, mkBackupWorld after (bw_cluster w) (bw_pods w))
  | BPostBackup ip req =>
      (BackupBody 200 "" (Ok (mkBackupResult "rdb" ("s3://bucket/" +:+ rq_BackupName req +:+ ".rdb") 10 "00")), w)
  | BListAllBackups => (Ok [bw_backup w], w)
  | BSetMetrics _ _ => (tt, w)
  | BGetScheduled => (Err (ENotFound ""), w)
  | BPatchScheduledStatus _ after => (Ok after, w)
  | BCreateBackup b => (Ok b, w)
  | BListBackups _ => (Ok [], w)
  | BDeleteBackup _ => (Ok tt, w)
  end.

Lemma bworld_runs {W A} (env : environment backups W) w (p : bprog A) :
  runs p (interp env w p).1.1 (interp env w p).1.2.
Proof. destruct (interp env w p) as [[tr out] w'] eqn:E. by eapply interp_runs. Defined.

Definition pending_world : backup_world := mkBackupWorld (backup_named "b" BackupPhaseNone 0) three three_pods.
Definition pending_trace : trace backups := (interp backup_env pending_world Reconcile_backup).1.1.


Definition stuck_backup : RedisBackup := backup_named "b" BackupPhaseRunning 0.
Definition stuck_run := interp backup_env (mkBackupWorld stuck_backup three three_pods) (reconcile_backup stuck_backup).

Lemma running_backup_stuck_witness :
  stuck_run.1.2 = Ok backupRequeueInterval ∧ length stuck_run.1.1 = 2%nat.
Proof.
  destruct (running_backup_stuck stuck_backup three three_pods stuck_run.1.1 stuck_run.1.2) as [Htr Hout];
    [reflexivity..|apply bworld_runs|repeat constructor|].
  split; [exact Hout|]. apply (f_equal List.length) in Htr. rewrite length_fmap in Htr. exact Htr.
Defined.

(** The controller that cannot record the result leaves the backup running. *)
Definition forgetful : environment backups backup_world := λ w c,
  match c as c return backup_ret c * backup_world with
  | BPatchBackupStatus b a =>
      if bool_decide (bst_Phase (b_Status a) = BackupPhaseCompleted) then (Err (EAPI "timeout"), w) else backup_env w (BPatchBackupStatus b a)
  | c => backup_env w c
  end.

Example result_lost_leaves_running :
  bst_Phase (b_Status (bw_backup (interp forgetful pending_world Reconcile_backup).2)) = BackupPhaseRunning.
Proof. vm_compute. reflexivity. Qed.

(** Midnight every day, in UTC. *)
Definition day : Z := 86400 * second_ns.
Definition daily (_ : unit) (_ : unit) (t : Z) : option Z := Some ((t / day + 1) * day).
Definition parse_daily (s : string) : res unit := if bool_decide (s = "@daily") then Ok tt else Err (Errorf "unsupported").
Definition only_utc (s : string) : res unit := if bool_decide (s = "UTC") then Ok tt else Err (Errorf "unknown time zone").
Definition keep_conditions (l : list Condition) (_ : Z) (c : Condition) : list Condition := setCondition l c.

Definition nightly : RedisScheduledBackup :=
  mkScheduled "nightly" 1 0 (mkScheduledSpec "@daily" "" "c" BackupTargetPreferReplica "" None None None (Some 1))
    (mkScheduledStatus ScheduledPhaseActive (Some day) None "" []).

(** Ten days later; two failed backups are on record. *)
Definition nightly_env : environment backups unit := λ w c,
  match c as c return backup_ret c * unit with
  | BGetScheduled => (Ok nightly, tt)
  | BNow => (11 * day + 5, tt)
  | BListBackups _ => (Ok [backup_named "new" BackupPhaseFailed 9; backup_named "old" BackupPhaseFailed 4], tt)
  | BEvent _ _ _ => (tt, tt)
  | BGetBackup => (Err (ENotFound ""), tt)
  | BGetCluster _ => (Ok three, tt)
  | BListPods _ => (Ok three_pods, tt)
  | BPatchBackupStatus _ after => (Ok after, tt)
  | BPostBackup _ _ => (BackupTransport "", tt)
  | BListAllBackups => (Ok [], tt)
  | BSetMetrics _ _ => (tt, tt)
  | BPatchScheduledStatus _ after => (Ok after, tt)
  | BCreateBackup b => (Ok b, tt)
  | BDeleteBackup _ => (Ok tt, tt)
  end.

Definition nightly_pass : bprog Z := Reconcile_scheduled parse_daily daily only_utc keep_conditions "default".
Definition nightly_trace : trace backups := (interp nightly_env tt nightly_pass).1.1.

Lemma scheduled_fires_when_due_witness :
  projT1 <$> nightly_trace !! 3%nat = Some (BCreateBackup (scheduled_backup nightly "default" (11 * day + 5))) ∧
  schedule_guard parse_daily daily only_utc "default" (take 3 nightly_trace)
    (BCreateBackup (scheduled_backup nightly "default" (11 * day + 5))).
Proof.
  split; [vm_compute; reflexivity|].
  apply (proj2 (scheduled_fires_when_due parse_daily daily only_utc keep_conditions "default" nightly_trace _
    (bworld_runs nightly_env tt nightly_pass)) (take 3 nightly_trace)
    (bev (BCreateBackup (scheduled_backup nightly "default" (11 * day + 5)))
       (Ok (scheduled_backup nightly "default" (11 * day + 5)))) (drop 4 nightly_trace)).
  symmetry. apply take_drop_middle. vm_compute. reflexivity.
Defined.

Lemma schedule_admission_matches_witness :
  only_utc "UTC" = Ok tt ∧ validateSchedule parse_daily daily only_utc tt 7 nightly = [].
Proof.
  split; [reflexivity|]. apply (schedule_admission_matches parse_daily daily only_utc tt 7 nightly); [reflexivity|].
  exists tt, tt, day. split; reflexivity.
Defined.

Definition cleanup_trace : trace backups := (interp nightly_env tt (cleanupOldBackups nightly)).1.1.

Lemma retention_keeps_newest_witness :
  ∃ completed failed, deletions cleanup_trace = b_Name <$> completed ++ failed ∧
    deletions cleanup_trace = ["old"] ∧
    trimmed (Some 1) [backup_named "new" BackupPhaseFailed 9; backup_named "old" BackupPhaseFailed 4] failed.
Proof.
  destruct (retention_keeps_newest nightly
    [backup_named "new" BackupPhaseFailed 9; backup_named "old" BackupPhaseFailed 4] cleanup_trace)
    as (completed & failed & Hd & _ & Hf); [by vm_compute..|exact (bworld_runs nightly_env tt (cleanupOldBackups nightly))|repeat constructor|].
  exists completed, failed. split; [exact Hd|]. split; [vm_compute; reflexivity|exact Hf].
Defined.

(** A shard whose primary pod has no address when the pods are listed is left
    out, and the backup is recorded as completed without it. *)
Definition two_of_three : RedisCluster :=
  let s := Status six in
  set_Status six (mkStatus ClusterPhaseHealthy (Status_CurrentPrimary s) (Status_ReadyInstances s)
    (Status_SentinelReadyInstances s) (Status_Instances s) (Status_InstancesStatus s)
    (Status_ClusterState s) (Status_SlotsAssigned s) (Status_BootstrapCompleted s)
    {[ "s0" := mkShardStatus "c-0" [] [] "" 0; "s1" := mkShardStatus "c-1" [] [] "" 0; "s2" := mkShardStatus "c-2" [] [] "" 0 ]}
    (Status_HealthyPVC s) (Status_DanglingPVC s) (Status_SecretsResourceVersion s) (Status_Conditions s)).

Example backup_skips_unreachable_shard :
  let w := mkBackupWorld (backup_named "b" BackupPhaseNone 0) two_of_three
             [mk_pod "c-0" "10.0.0.1" ∅ true; mk_pod "c-1" "" ∅ true; mk_pod "c-2" "10.0.0.3" ∅ true] in
  let s := b_Status (bw_backup (interp backup_env w Reconcile_backup).2) in
  bst_Phase s = BackupPhaseCompleted ∧ bst_ShardArtifacts s !! "s1" = None.
Proof. vm_compute. split; reflexivity. Qed.

(** The phase is an open string: one that is none of the constants is neither
    started nor left alone, and the backup is recorded as completed although no
    instance manager was asked for an artifact. *)
Example foreign_phase_completes :
  let w := mkBackupWorld (backup_named "b" "Queued" 0) three three_pods in
  let run := interp backup_env w Reconcile_backup in
  bst_Phase (b_Status (bw_backup run.2)) = BackupPhaseCompleted ∧
  bst_BackupPath (b_Status (bw_backup run.2)) = "" ∧
  forallb (λ e : event backups, match projT1 e with BPostBackup _ _ => false | _ => true end) run.1.1 = true.
Proof. vm_compute. repeat split; reflexivity. Qed.
