(* ===== verification/ReplicationFacts.v ===== *)
(** * Reading what Redis prints

    [CLUSTER NODES] prints a line per node; the reference printer below follows
    its documented format.  Parsing gives the nodes back. *)
From S2P Require Import Prelude GoStr Api Replication.
From Stdlib Require Import Ascii.

(** ** Printing *)

Definition show_range (r : SlotRange) : string :=
  if bool_decide (sr_Start r = sr_End r) then itoa (sr_Start r) else itoa (sr_Start r) +:+ "-" +:+ itoa (sr_End r).

(** The words of a line: besides the fields that are read, the bus port and the
    times of the last ping and pong. *)
Definition node_words (n : ClusterNode) (busPort ping pong : Z) : list string :=
  [cn_ID n; cn_IP n +:+ ":" +:+ itoa (cn_Port n) +:+ "@" +:+ itoa busPort; String.concat "," (cn_Flags n); cn_MasterID n;
   itoa ping; itoa pong; itoa (cn_ConfigEpoch n); cn_LinkState n] ++ (show_range <$> cn_SlotRanges n).

Definition show_node (n : ClusterNode) (busPort ping pong : Z) : string :=
  String.concat " " (node_words n busPort ping pong).

(** A line per node, each ended by a newline. *)
Fixpoint show_nodes (l : list (ClusterNode * (Z * Z * Z))) : string :=
  match l with
  | [] => ""
  | (n, (bus, ping, pong)) :: l' => show_node n bus ping pong +:+ String LF (show_nodes l')
  end.

Definition plain (c : ascii) : bool := negb (is_space c).
Definition is_word (w : string) : bool := negb (bool_decide (w = "")) && all_chars plain w.
Definition host_char (c : ascii) : bool :=
  plain c && negb (bool_decide (c = ":"%char)) && negb (bool_decide (c = "@"%char)) &&
  negb (bool_decide (c = "["%char)) && negb (bool_decide (c = "]"%char)).
Definition flag_char (c : ascii) : bool := plain c && negb (bool_decide (c = ","%char)).

Definition range_wf (r : SlotRange) : Prop := 0 ≤ sr_Start r < 2 ^ 31 ∧ 0 ≤ sr_End r < 2 ^ 31.

(** The values Redis prints: words without white space, addresses without
    brackets, numbers in their range. *)
Definition node_wf (n : ClusterNode) : Prop :=
  is_word (cn_ID n) = true ∧ is_word (cn_MasterID n) = true ∧ is_word (cn_LinkState n) = true ∧
  cn_IP n ≠ "" ∧ all_chars host_char (cn_IP n) = true ∧
  cn_Flags n ≠ [] ∧ Forall (λ f, f ≠ "" ∧ all_chars flag_char f = true) (cn_Flags n) ∧
  0 ≤ cn_Port n < 2 ^ 63 ∧ 0 ≤ cn_ConfigEpoch n < 2 ^ 63 ∧ Forall range_wf (cn_SlotRanges n).

(** ** Characters *)

Lemma digit_plain c : is_digit c = true → plain c = true.
Proof. destruct c as [[] [] [] [] [] [] [] []]; reflexivity || discriminate. Qed.

Lemma digit_not c d : is_digit c = true → is_digit d = false → c ≠ d.
Proof. intros Hc Hd ->. congruence. Qed.

Lemma itoa_plain z : 0 ≤ z → all_chars plain (itoa z) = true.
Proof. intros Hz. eapply all_chars_mono; [apply digit_plain|by apply itoa_digits]. Qed.

Lemma itoa_word z : 0 ≤ z → is_word (itoa z) = true.
Proof.
  intros Hz. unfold is_word. rewrite bool_decide_false by apply itoa_nonempty. simpl.
  by apply itoa_plain.
Qed.

Lemma itoa_no z c : 0 ≤ z → is_digit c = false → contains_char (itoa z) c = false.
Proof. intros Hz. apply contains_char_all. by apply itoa_digits. Qed.

Lemma cut_last_app a b c : contains_char b c = false → cut_last (a +:+ String c b) c = Some (a, b).
Proof.
  intros Hb. assert (cut_last b c = None) as Hn.
  { clear a. induction b as [|d b IH]; [done|]. cbn in *. apply orb_false_iff in Hb as [Hd Hb]. by rewrite IH, Hd. }
  induction a as [|d a IH]; [simpl; by rewrite Hn, bool_decide_true|].
  change (String d a +:+ String c b) with (String d (a +:+ String c b)). cbn [cut_last]. by rewrite IH.
Qed.

(** ** Fields *)

Lemma append_empty_r s : s +:+ "" = s.
Proof. induction s as [|c s IH]; [done|]. change (String c (s +:+ "") = String c s). by rewrite IH. Qed.

Lemma fields_word cur w s :
  w ≠ "" → all_chars plain w = true → fields_from cur (w +:+ s) = fields_from (Some (default "" cur +:+ w)) s.
Proof.
  revert cur; induction w as [|c w IH]; intros cur Hne Hw; [done|]. cbn [all_chars] in Hw.
  apply andb_true_iff in Hw as [Hc Hw]. change (String c w +:+ s) with (String c (w +:+ s)). cbn [fields_from].
  apply negb_true_iff in Hc. rewrite Hc. destruct w as [|d w]; [done|].
  rewrite IH by done. change (default "" (Some ?x)) with x. by rewrite append_assoc.
Qed.

Lemma fields_concat ws :
  Forall (λ w, is_word w = true) ws → Fields (String.concat " " ws) = ws.
Proof.
  unfold Fields. induction 1 as [|w ws Hw Hws IH]; [done|].
  apply andb_true_iff in Hw as [Hne%negb_true_iff%bool_decide_eq_false Hw]. destruct ws as [|v ws].
  - change (String.concat " " [w]) with w. rewrite <- (append_empty_r w) at 1. by rewrite fields_word.
  - rewrite concat_cons, fields_word by done.
    change (w :: fields_from None (String.concat " " (v :: ws)) = w :: v :: ws). by rewrite IH.
Qed.

Lemma fields_trim_right cur s : fields_from cur (trim_right s) = fields_from cur s.
Proof.
  revert cur; induction s as [|c s IH]; intros cur; [done|]. cbn [trim_right].
  destruct (trim_right s) as [|d t] eqn:Ht.
  - cbn [fields_from]. destruct (is_space c) eqn:Hc.
    + rewrite <- (IH None). destruct cur; [|done]. simpl. done.
    + rewrite <- IH. cbn [fields_from]. by rewrite Hc.
  - cbn [fields_from] in *. destruct (is_space c); [destruct cur|]; by rewrite <- IH.
Qed.

Lemma fields_trim s : Fields (TrimSpace s) = Fields s.
Proof.
  unfold Fields, TrimSpace. rewrite fields_trim_right. induction s as [|c s IH]; [done|].
  cbn [trim_left fields_from]. by destruct (is_space c) eqn:Hc; [|cbn [fields_from]; rewrite Hc].
Qed.

(** ** The round trip *)

Lemma parse_slot_itoa z : 0 ≤ z < 2 ^ 31 → parse_slot (itoa z) = Some z.
Proof. intros Hz. unfold parse_slot. by rewrite (ParseInt_itoa 32) by lia. Qed.

Lemma itoa_not_bracket z : 0 ≤ z → HasPrefix (itoa z) "[" = false.
Proof.
  intros Hz. pose proof (itoa_digits z Hz) as Hd. destruct (itoa z) as [|c s]; [done|]. cbn [all_chars] in Hd.
  apply andb_true_iff in Hd as [Hd _]. unfold HasPrefix. cbn [String.prefix].
  destruct (ascii_dec "["%char c) as [<-|]; done.
Qed.

Lemma bracket_app s t : s ≠ "" → HasPrefix s "[" = false → HasPrefix (s +:+ t) "[" = false.
Proof.
  destruct s as [|c s]; [done|]. intros _. change (String c s +:+ t) with (String c (s +:+ t)).
  unfold HasPrefix. cbn [String.prefix]. destruct (ascii_dec _ c); [by destruct s|done].
Qed.

Lemma cut_char_none s c : contains_char s c = false → cut_char s c = None.
Proof. induction s as [|d s IH]; [done|]. cbn. intros [Hd Hs]%orb_false_iff. by rewrite Hd, IH. Qed.

Lemma slot_token_show r : range_wf r → slot_token (show_range r) = Some r.
Proof.
  intros [Hs He]. destruct r as [a b]; simpl in *. unfold slot_token, show_range. simpl. case_bool_decide.
  - subst. rewrite itoa_not_bracket by lia. rewrite cut_char_none by (apply itoa_no; [lia|done]). simpl.
    by rewrite parse_slot_itoa.
  - assert (HasPrefix (itoa a +:+ "-" +:+ itoa b) "[" = false) as ->.
    { apply bracket_app; [apply itoa_nonempty|apply itoa_not_bracket; lia]. }
    change ("-" +:+ itoa b) with (String "-" (itoa b)). rewrite cut_char_app by (apply itoa_no; [lia|done]).
    simpl. by rewrite !parse_slot_itoa.
Qed.

Lemma parseSlotRanges_show rs : Forall range_wf rs → parseSlotRanges (show_range <$> rs) = rs.
Proof.
  unfold parseSlotRanges. induction 1 as [|r rs Hr Hrs IH]; [done|]. cbn [fmap list_fmap].
  cbn [omap list_omap]. rewrite slot_token_show by done. f_equal. exact IH.
Qed.

Lemma show_range_word r : range_wf r → is_word (show_range r) = true.
Proof.
  intros [Hs He]. unfold show_range. case_bool_decide; [apply itoa_word; lia|].
  pose proof (itoa_word (sr_Start r) ltac:(lia)) as Ha. pose proof (itoa_word (sr_End r) ltac:(lia)) as Hb.
  apply andb_true_iff in Ha as [Ha1 Ha], Hb as [_ Hb]. apply andb_true_iff.
  rewrite !all_chars_app, Ha, Hb. split; [|done]. apply negb_true_iff, bool_decide_eq_false.
  apply negb_true_iff, bool_decide_eq_false in Ha1. by destruct (itoa (sr_Start r)).
Qed.

Lemma address_show ip port bus :
  ip ≠ "" → all_chars host_char ip = true → 0 ≤ port < 2 ^ 63 → 0 ≤ bus →
  parseClusterNodeAddress (ip +:+ ":" +:+ itoa port +:+ "@" +:+ itoa bus) = (ip, port).
Proof.
  intros Hne Hip Hport Hbus. unfold parseClusterNodeAddress.
  assert (∀ c, host_char c = false → contains_char ip c = false) as Hno by (intros c; by apply contains_char_all).
  change ("@" +:+ itoa bus) with (String "@" (itoa bus)).
  rewrite <- (append_assoc ":" (itoa port)), <- append_assoc, split_char_line.
  2: { by rewrite !contains_char_app, Hno, itoa_no by (done || lia). }
  change (default "" ((?a :: ?l) !! 0%nat)) with a. change (":" +:+ itoa port) with (String ":" (itoa port)).
  unfold SplitHostPort. rewrite cut_last_app by (apply itoa_no; [lia|done]).
  assert (HasPrefix (ip +:+ String ":" (itoa port)) "[" = false) as ->.
  { apply bracket_app; [done|]. destruct ip as [|c ip]; [done|]. cbn [all_chars] in Hip.
    apply andb_true_iff in Hip as [Hc _].
    unfold HasPrefix. cbn [String.prefix]. destruct (ascii_dec "["%char c) as [<-|]; done. }
  rewrite !contains_char_app, !Hno by done. cbn [contains_char]. rewrite !itoa_no by (done || lia).
  rewrite !bool_decide_false by done. cbn [orb]. by rewrite Atoi_itoa.
Qed.

Lemma flags_word l :
  l ≠ [] → Forall (λ f, f ≠ "" ∧ all_chars flag_char f = true) l → is_word (String.concat "," l) = true.
Proof.
  intros Hne Hl. assert (String.concat "," l ≠ "" ∧ all_chars plain (String.concat "," l) = true) as [H1 H2].
  { induction Hl as [|f l [Hf Hp] Hl IH]; [done|].
    assert (all_chars plain f = true) as Hpl.
    { eapply all_chars_mono; [|exact Hp]. intros c. by intros [? _]%andb_true_iff. }
    destruct l as [|g l]; [done|]. rewrite concat_cons. destruct IH as [_ IH]; [done|].
    rewrite !all_chars_app, Hpl, IH. split; [by destruct f|done]. }
  unfold is_word. by rewrite bool_decide_false, H2.
Qed.

Lemma node_words_words n bus ping pong :
  node_wf n → 0 ≤ bus → 0 ≤ ping → 0 ≤ pong → Forall (λ w, is_word w = true) (node_words n bus ping pong).
Proof.
  intros (Hid & Hm & Hl & Hip & Hipc & Hf & Hfc & Hport & Hep & Hr) Hbus Hping Hpong.
  unfold node_words. apply Forall_app. split; [|apply Forall_fmap; eapply Forall_impl; [exact Hr|apply show_range_word]].
  repeat constructor; try done; try (by apply itoa_word; lia); [|by apply flags_word].
  unfold is_word. rewrite !all_chars_app, bool_decide_false by by destruct (cn_IP n). rewrite !itoa_plain by lia.
  rewrite (all_chars_mono host_char plain); [done| |done]. intros c Hc. unfold host_char in Hc.
  by repeat apply andb_true_iff in Hc as [Hc _].
Qed.

Lemma parse_node_show n bus ping pong :
  node_wf n → 0 ≤ bus → 0 ≤ ping → 0 ≤ pong → parse_node (show_node n bus ping pong) = Some n.
Proof.
  intros Hn Hbus Hping Hpong. unfold parse_node, show_node.
  rewrite fields_trim, fields_concat by by apply node_words_words.
  destruct Hn as (_ & _ & _ & Hip & Hipc & Hf & Hfc & Hport & Hep & Hr).
  unfold node_words. cbn [app]. rewrite address_show by done. rewrite parseSlotRanges_show by done.
  rewrite split_char_concat; [|done|].
  - unfold read_int. rewrite (ParseInt_itoa 64) by (simpl; lia). by destruct n.
  - eapply Forall_impl; [exact Hfc|]. intros f [_ Hc]. by eapply contains_char_all.
Qed.

Lemma concat_no_newline ws : Forall (λ w, is_word w = true) ws → contains_char (String.concat " " ws) LF = false.
Proof.
  induction 1 as [|w ws Hw Hws IH]; [done|]. apply andb_true_iff in Hw as [_ Hw].
  assert (contains_char w LF = false) as Hn by by eapply contains_char_all.
  destruct ws as [|v ws]; [done|]. by rewrite concat_cons, !contains_char_app, Hn, IH.
Qed.

Definition printed_ok (x : ClusterNode * (Z * Z * Z)) : Prop := node_wf x.1 ∧ 0 ≤ x.2.1.1 ∧ 0 ≤ x.2.1.2 ∧ 0 ≤ x.2.2.

Lemma parse_show_nodes l : Forall printed_ok l → parseClusterNodes (show_nodes l) = l.*1.
Proof.
  unfold parseClusterNodes. induction 1 as [|[n [[bus ping] pong]] l (Hn & Hb & Hpi & Hpo) Hl IH]; [done|].
  cbn [show_nodes]. rewrite split_char_line by by apply concat_no_newline, node_words_words.
  cbn [omap list_omap fmap list_fmap]. rewrite parse_node_show by done. simpl. f_equal. exact IH.
Qed.

(** Parsing what Redis prints for [CLUSTER NODES] gives the nodes back:
    ids, addresses with their ports, flags, primaries, epochs, link states and
    slot ranges (single slots and intervals), for any number of nodes. *)
Theorem cluster_nodes_roundtrip l : Forall printed_ok l → parseClusterNodes (show_nodes l) = l.*1.
Proof. apply parse_show_nodes. Qed.

Definition sample_node : ClusterNode :=
  mkClusterNode "07c37d" "10.0.0.1" 6379 ["myself"; "master"] "-" 4 "connected" [mkSlotRange 0 5460; mkSlotRange 7000 7000].

Lemma cluster_nodes_roundtrip_witness :
  show_nodes [(sample_node, (16379, 0, 12))] =
    "07c37d 10.0.0.1:6379@16379 myself,master - 0 12 4 connected 0-5460 7000" +:+ String LF "" ∧
  parseClusterNodes (show_nodes [(sample_node, (16379, 0, 12))]) = [sample_node].
Proof.
  split; [vm_compute; reflexivity|]. apply (cluster_nodes_roundtrip [(sample_node, (16379, 0, 12))]).
  repeat constructor; done || (vm_compute; congruence).
Defined.

(** A text of [INFO replication] as Redis prints it. *)
Example replication_info :
  parseInfo (String.concat (String CR (String LF ""))
    ["# Replication"; "role:slave"; "master_host:10.0.0.7"; "master_port:6379"; "master_link_status:up";
     "slave_repl_offset:1204"; "connected_slaves:0"; "master_repl_offset:1199"; ""]) =
  mkInfo "slave" 0 1199 1204 "up" "10.0.0.7" 6379 0.
Proof. vm_compute. reflexivity. Qed.
