(* ===== verification/Storage.v ===== *)
(** * Object storage, shared by backup and restore

    The instance manager's [webserver/backup.go] uploads a backup and names it by
    a URL; [restore.go] reads the URL back and downloads the object.  Both have
    their own copy of the client construction; it is stated here once, over any
    signature that offers the SDK's constructors ([ObjectStore]). *)
From S2P Require Import Prelude GoStr Api Effects Resources Replication Url.
From Stdlib Require Import Ascii.

(** ** Object names *)

Definition buildObjectKey (pathPrefix backupName artifactType : string) : string :=
  let extension := if bool_decide (artifactType = BackupArtifactTypeAOFArchive) then ".aof.tar.gz" else ".rdb" in
  let objectName := backupName +:+ extension in
  let prefix := trim_char pathPrefix "/"%char in
  if bool_decide (prefix = "") then objectName else prefix +:+ "/" +:+ objectName.

Definition s3_url (bucket key : string) : string := "s3://" +:+ bucket +:+ "/" +:+ key.
Definition azblob_url (container blob : string) : string := "azblob://" +:+ container +:+ "/" +:+ blob.

(** The two [resolve...Location] functions differ in the scheme and in the names
    their errors use. *)
Section location.
Context (scheme kind object : string).

Definition resolve_location (configured backupPath : string) : res (string * string) :=
  let trimmedPath := TrimSpace backupPath in
  let missing := Errorf (scheme +:+ " backup path " +:+ quoted trimmedPath +:+ " is missing " +:+ kind) in
  let no_object := "backup path " +:+ quoted trimmedPath +:+ " is missing " +:+ object in
  if bool_decide (trimmedPath = "") then Err (Errorf "backup path is empty")
  else if HasPrefix trimmedPath (scheme +:+ "://") then
    match url_Parse (TrimPrefix trimmedPath (scheme +:+ "://")) with
    | None => Err (Errorf ("parsing " +:+ scheme +:+ " backup path " +:+ quoted trimmedPath))
    | Some (host, path) =>
        if bool_decide (host = "") then Err missing
        else
          let bucket := if bool_decide (configured = "") then host else configured in
          if negb (bool_decide (configured = "")) && negb (bool_decide (configured = host))
          then Err (Errorf ("backup path " +:+ kind +:+ " " +:+ quoted host +:+ " does not match configured " +:+ kind +:+
                      " " +:+ quoted configured))
          else
            let key := TrimPrefix path "/" in
            if bool_decide (key = "") then Err (Errorf (scheme +:+ " " +:+ no_object)) else Ok (bucket, key)
    end
  else if bool_decide (configured = "")
  then Err (Errorf ("backup path " +:+ quoted trimmedPath +:+ " is not an " +:+ scheme +:+ ":// URL and no destination " +:+
              kind +:+ " is configured"))
  else
    let key := TrimPrefix trimmedPath "/" in
    if bool_decide (key = "") then Err (Errorf no_object) else Ok (configured, key).
End location.

Definition resolveBackupLocation : string → string → res (string * string) :=
  resolve_location "s3" "bucket" "object key".
Definition resolveAzureBlobLocation : string → string → res (string * string) :=
  resolve_location "azblob" "container" "blob name".

(** ** Credentials *)

Definition access_key_names := ["AWS_ACCESS_KEY_ID"; "aws_access_key_id"; "accessKeyId"; "access_key_id"].
Definition secret_key_names := ["AWS_SECRET_ACCESS_KEY"; "aws_secret_access_key"; "secretAccessKey"; "secret_access_key"].
Definition session_token_names := ["AWS_SESSION_TOKEN"; "aws_session_token"; "sessionToken"; "session_token"].
Definition connection_string_names :=
  ["AZURE_STORAGE_CONNECTION_STRING"; "azureStorageConnectionString"; "connectionString"].
Definition account_name_names := ["AZURE_STORAGE_ACCOUNT"; "azureStorageAccount"; "accountName"].
Definition account_key_names := ["AZURE_STORAGE_KEY"; "azureStorageKey"; "accountKey"].
Definition sas_token_names := ["AZURE_STORAGE_SAS_TOKEN"; "azureStorageSasToken"; "sasToken"].

Record aws_credentials := mkAWS { aws_AccessKeyID : string; aws_SecretAccessKey : string; aws_SessionToken : string }.
Record azure_credentials := mkAzureCredentials {
  ac_ConnectionString : string; ac_AccountName : string; ac_AccountKey : string; ac_SASToken : string
}.

(** [restore.go]: the first of the keys whose value is not blank. *)
Fixpoint secretValue (data : gmap string string) (keys : list string) : string :=
  match keys with
  | [] => ""
  | key :: rest =>
      match data !! key with
      | Some value => if bool_decide (TrimSpace value = "") then secretValue data rest else TrimSpace value
      | None => secretValue data rest
      end
  end.

Definition readAWSCredentials (data : gmap string string) : res aws_credentials :=
  let accessKeyID := secretValue data access_key_names in
  let secretAccessKey := secretValue data secret_key_names in
  let sessionToken := secretValue data session_token_names in
  if bool_decide (accessKeyID = "") || bool_decide (secretAccessKey = "")
  then Err (Errorf "secret must include access key and secret key")
  else Ok (mkAWS accessKeyID secretAccessKey sessionToken).

Definition readAzureCredentials (data : gmap string string) : azure_credentials :=
  mkAzureCredentials (secretValue data connection_string_names) (secretValue data account_name_names)
    (secretValue data account_key_names) (secretValue data sas_token_names).

(** ** Clients *)

Definition defaultAWSRegion := "us-east-1".

(** [sc_BaseEndpoint] with path-style addressing when it is set. *)
Record s3_client := mkS3Client {
  sc_Region : string;
  sc_Credentials : aws_credentials;
  sc_BaseEndpoint : option string;
  sc_UsePathStyle : bool
}.

Inductive azure_client :=
| FromConnectionString (connectionString : string)
| WithSharedKey (serviceURL account key : string)
| WithNoCredential (url : string).

(** What the SDKs offer: every constructor may refuse its arguments. *)
Class ObjectStore (S : sig) := {
  LoadDefaultConfig : string → prog S (res unit);
  NewSharedKeyCredential : string → string → prog S (res unit);
  NewAzureClient : azure_client → prog S (res unit)
}.

Definition azureServiceURL (accountName endpoint : string) : res string :=
  if negb (bool_decide (endpoint = "")) then Ok endpoint
  else if bool_decide (accountName = "")
  then Err (Errorf "azure destination requires accountName or endpoint when not using a connection string")
  else Ok ("https://" +:+ accountName +:+ ".blob.core.windows.net/").

Definition appendSASToken (serviceURL sasToken : string) : string :=
  trim_suffix_char serviceURL "/"%char +:+ "/?" +:+ TrimPrefix sasToken "?".

Section clients.
Context {S : sig} `{ObjectStore S}.

Definition newS3Client (destination : S3Destination) (creds : aws_credentials) : prog S s3_client :=
  let region := if bool_decide (s3_Region destination = "") then defaultAWSRegion else s3_Region destination in
  LoadDefaultConfig region ≫= check;;
  let custom := negb (bool_decide (s3_Endpoint destination = "")) in
  mret (mkS3Client region creds (if custom then Some (s3_Endpoint destination) else None) custom).

Definition newAzureBlobClient (destination : AzureBlobDestination) (creds : azure_credentials) : prog S azure_client :=
  if negb (bool_decide (ac_ConnectionString creds = "")) then
    let client := FromConnectionString (ac_ConnectionString creds) in
    NewAzureClient client ≫= check_ctx "creating azure client from connection string";;
    mret client
  else
    let effectiveAccount :=
      if bool_decide (az_AccountName destination = "") then ac_AccountName creds else az_AccountName destination in
    serviceURL ← check (azureServiceURL effectiveAccount (az_Endpoint destination));
    if negb (bool_decide (ac_AccountKey creds = "")) then
      if bool_decide (effectiveAccount = "") then Throw (Errorf "azure shared-key auth requires an account name")
      else
        NewSharedKeyCredential effectiveAccount (ac_AccountKey creds) ≫= check_ctx "creating azure shared key credential";;
        let client := WithSharedKey serviceURL effectiveAccount (ac_AccountKey creds) in
        NewAzureClient client ≫= check_ctx "creating azure client with shared key";;
        mret client
    else if negb (bool_decide (ac_SASToken creds = "")) then
      let client := WithNoCredential (appendSASToken serviceURL (ac_SASToken creds)) in
      NewAzureClient client ≫= check_ctx "creating azure client with SAS token";;
      mret client
    else Throw (Errorf "azure backup credentials must include a connection string, a key or a SAS token").
End clients.

Example sas_url : appendSASToken "https://a.blob.core.windows.net/" "?sv=1" = "https://a.blob.core.windows.net/?sv=1".
Proof. reflexivity. Qed.
