(* ===== verification/Paths.v ===== *)
(** * File paths ([path.Clean], [filepath.Join])

    On Unix, where the two packages agree.  A path is cleaned component by
    component: empty and dot components disappear, a double dot removes the
    component before it; at the root there is nothing to remove, and at the
    start of a relative path the double dot stays. *)
From S2P Require Import Prelude GoStr.
From Stdlib Require Import Ascii.

(** The cleaned components so far, the last one first. *)
Definition clean_step (rooted : bool) (stack : list string) (comp : string) : list string :=
  if bool_decide (comp = "") || bool_decide (comp = ".") then stack
  else if bool_decide (comp = "..") then
    match stack with
    | [] => if rooted then [] else [".."]
    | top :: rest => if bool_decide (top = "..") then ".." :: stack else rest
    end
  else comp :: stack.

Definition clean_components (rooted : bool) (comps : list string) : list string :=
  rev (foldl (clean_step rooted) [] comps).

(** A cleaned path as text. *)
Definition path_text (rooted : bool) (comps : list string) : string :=
  let body := String.concat "/" comps in
  if rooted then "/" +:+ body else if bool_decide (body = "") then "." else body.

Definition Clean (p : string) : string :=
  let rooted := HasPrefix p "/" in
  path_text rooted (clean_components rooted (split_char p "/"%char)).

(** [filepath.Join]: empty elements are ignored. *)
Definition Join (elems : list string) : string :=
  match filter (λ e, e ≠ "") elems with
  | [] => ""
  | l => Clean (String.concat "/" l)
  end.

(** [filepath.Dir] of a cleaned path with at least one component. *)
Definition Dir (p : string) : string :=
  let rooted := HasPrefix p "/" in
  path_text rooted (removelast (clean_components rooted (split_char p "/"%char))).

(** The rest of both lists after their common prefix. *)
Fixpoint strip_common (base targ : list string) : list string * list string :=
  match base, targ with
  | b :: base', t :: targ' => if bool_decide (b = t) then strip_common base' targ' else (base, targ)
  | _, _ => (base, targ)
  end.

(** [filepath.Rel]; [None] is its error. *)
Definition Rel (basepath targpath : string) : option string :=
  let base := Clean basepath in
  let targ := Clean targpath in
  if bool_decide (base = targ) then Some "."
  else
    let rooted p := HasPrefix p "/" in
    let comps p := clean_components (rooted p) (split_char p "/"%char) in
    if xorb (rooted base) (rooted targ) then None
    else
      match strip_common (comps base) (if bool_decide (targ = ".") then ["."] else comps targ) with
      | ([], rest) => Some (String.concat "/" rest)
      | (b :: bs, rest) =>
          if bool_decide (b = "..") && negb (bool_decide (rest = [])) then None
          else Some (String.concat "/" ((const ".." <$> b :: bs) ++ rest))
      end.

Example rel_examples :
  Rel "/data/appendonlydir" "/data/appendonlydir/a/b" = Some "a/b" ∧ Rel "/a" "/b/c" = Some "../b/c" ∧
  Rel "/a/b" "/a" = Some ".." ∧ Rel ".." "a" = None ∧ Rel "/a" "b" = None ∧ Rel "." "a" = Some "a".
Proof. vm_compute. repeat split. Qed.

Example clean_examples :
  Clean "/data/../etc//./x" = "/etc/x" ∧ Clean "a/../../b" = "../b" ∧ Clean "" = "." ∧ Clean "/.." = "/" ∧
  Join ["/data"; ""; "a/b"] = "/data/a/b" ∧ Dir "/data/a/b" = "/data/a" ∧ Dir "/x" = "/".
Proof. vm_compute. repeat split. Qed.

(** ** Cleaned paths *)

(** A component of a cleaned path that does not climb. *)
Definition normal (c : string) : Prop := c ≠ "" ∧ c ≠ "." ∧ c ≠ ".." ∧ contains_char c "/"%char = false.

Lemma split_char_no_sep s c : Forall (λ w, contains_char w c = false) (split_char s c).
Proof.
  induction s as [|d s IH]; [by repeat constructor|]. cbn [split_char]. destruct (bool_decide (d = c)) eqn:Hd.
  - by constructor.
  - destruct (split_char s c) as [|w ws]; [by repeat constructor; cbn; rewrite Hd|].
    inversion IH as [|? ? Hw Hws]; subst. constructor; [by cbn; rewrite Hd, Hw|done].
Qed.

Lemma clean_step_normal rooted st c : normal c → clean_step rooted st c = c :: st.
Proof.
  intros (H1 & H2 & H3 & _). unfold clean_step. rewrite !bool_decide_false by done. done.
Qed.

Lemma clean_normal rooted st l : Forall normal l → foldl (clean_step rooted) st l = rev l ++ st.
Proof.
  revert st; induction l as [|c l IH]; intros st Hl; [done|]. inversion Hl as [|? ? Hc Hl']; subst.
  cbn [foldl]. rewrite clean_step_normal, IH by done. cbn [rev]. by rewrite <- app_assoc.
Qed.

(** The stack of a cleaned path: normal components above the climbs, and no
    climb in a rooted one. *)
Definition stack_ok (rooted : bool) (st : list string) : Prop :=
  ∃ ns k, st = ns ++ replicate k ".." ∧ Forall normal ns ∧ (rooted = true → k = 0%nat).

Lemma clean_step_ok rooted st c :
  contains_char c "/"%char = false → stack_ok rooted st → stack_ok rooted (clean_step rooted st c).
Proof.
  intros Hc (ns & k & -> & Hns & Hk). unfold clean_step.
  destruct (bool_decide_reflect (c = "")) as [|H1]; [by exists ns, k|].
  destruct (bool_decide_reflect (c = ".")) as [|H2]; [by exists ns, k|]. cbn [orb].
  destruct (bool_decide_reflect (c = "..")) as [->|H3].
  - destruct ns as [|n ns].
    + destruct k as [|k]; cbn.
      * destruct rooted; [by exists [], 0%nat|by exists [], 1%nat].
      * exists [], (S (S k)). split; [done|]. split; [done|]. intros Hr. by specialize (Hk Hr).
    + inversion Hns as [|? ? Hn Hns']; subst. cbn. rewrite bool_decide_false by apply Hn. by exists ns, k.
  - exists (c :: ns), k. split; [done|]. split; [by constructor|done].
Qed.

Lemma clean_components_ok rooted l :
  Forall (λ w, contains_char w "/"%char = false) l →
  ∃ k ns, clean_components rooted l = replicate k ".." ++ ns ∧ Forall normal ns ∧ (rooted = true → k = 0%nat).
Proof.
  intros Hl. assert (stack_ok rooted (foldl (clean_step rooted) [] l)) as (ns & k & Heq & Hns & Hk).
  { assert (stack_ok rooted []) as H0 by (by exists [], 0%nat). revert H0. generalize (@nil string) as st.
    induction Hl as [|c l Hc Hl IH]; intros st Hst; [done|]. by apply IH, clean_step_ok. }
  exists k, (rev ns). unfold clean_components. rewrite Heq, rev_app_distr. split; [|split; [by apply Forall_rev|done]].
  f_equal. clear. induction k as [|k IH]; [done|]. cbn [replicate rev]. rewrite IH, <- replicate_S_end. done.
Qed.

Lemma normal_no_sep l : Forall normal l → Forall (λ w, contains_char w "/"%char = false) l.
Proof. intros Hl. eapply Forall_impl; [exact Hl|]. by intros c (_ & _ & _ & ?). Qed.

(** Splitting a rooted text gives an empty first component, which disappears. *)
Lemma rooted_components rest :
  clean_components true (split_char ("/" +:+ rest) "/"%char) = clean_components true (split_char rest "/"%char).
Proof. change ("/" +:+ rest) with (String "/" rest). cbn [split_char]. by rewrite bool_decide_true. Qed.

Lemma clean_rooted rest :
  Clean ("/" +:+ rest) = path_text true (clean_components true (split_char rest "/"%char)).
Proof.
  unfold Clean. replace (HasPrefix ("/" +:+ rest) "/") with true by (by destruct rest).
  by rewrite rooted_components.
Qed.

Lemma clean_split l rooted : Forall normal l → clean_components rooted (split_char (String.concat "/" l) "/"%char) = l.
Proof.
  intros Hl. destruct l as [|c l]; [by destruct rooted|].
  rewrite split_char_concat; [|done|by apply normal_no_sep].
  unfold clean_components. rewrite clean_normal by done. by rewrite app_nil_r, rev_involutive.
Qed.

Lemma Clean_path_text l : Forall normal l → Clean (path_text true l) = path_text true l.
Proof. intros Hl. unfold path_text at 1. cbn iota. by rewrite clean_rooted, clean_split. Qed.

Lemma concat_app_sep b e : b ≠ [] → e ≠ [] → String.concat "/" (b ++ e) = String.concat "/" b +:+ "/" +:+ String.concat "/" e.
Proof.
  intros Hb He. induction b as [|w b IH]; [done|]. destruct b as [|v b].
  - destruct e; [done|]. done.
  - cbn [app]. rewrite !concat_cons. cbn [app] in IH. rewrite IH by done. by rewrite !append_assoc.
Qed.

(** A cleaned relative path below a cleaned absolute directory. *)
Lemma Join_below b e :
  b ≠ [] → Forall normal b → e ≠ [] → Forall normal e →
  Join [path_text true b; String.concat "/" e] = path_text true (b ++ e).
Proof.
  intros Hb0 Hb He0 He. unfold Join.
  rewrite !filter_cons_True; [| |done]; [cbn [filter list_filter]|].
  - rewrite concat_cons. change (String.concat "/" [String.concat "/" e]) with (String.concat "/" e).
    unfold path_text at 1. cbn iota. rewrite append_assoc, <- concat_app_sep, clean_rooted by done.
    rewrite clean_split; [done|]. by apply Forall_app.
  - destruct e as [|c e]; [done|]. inversion He as [|? ? (Hc & _) _]; subst. destruct e as [|d e]; [done|].
    rewrite concat_cons. by destruct c.
Qed.

Lemma HasPrefix_split s p : HasPrefix s p = true → ∃ rest, s = p +:+ rest.
Proof.
  unfold HasPrefix. revert s; induction p as [|c p IH]; intros s; [by exists s|].
  destruct s as [|d s]; [done|]. cbn [String.prefix]. destruct (ascii_dec c d) as [<-|]; [|done].
  intros [rest ->]%IH. by exists rest.
Qed.

(** The text of a relative path starts with its first component. *)
Lemma concat_no_prefix e c : e ≠ [] → Forall normal e → ¬ normal c → contains_char c "/"%char = false →
  HasPrefix (String.concat "/" e) (c +:+ "/") = false ∧ String.concat "/" e ≠ c.
Proof.
  intros He0 He Hc Hslash. assert (split_char (String.concat "/" e) "/"%char = e) as Hsplit
    by (apply split_char_concat; [done|by apply normal_no_sep]). split.
  - destruct (HasPrefix _ _) eqn:Hp; [|done]. apply HasPrefix_split in Hp as [rest Hp].
    rewrite Hp, append_assoc in Hsplit. change ("/" +:+ rest) with (String "/" rest) in Hsplit.
    rewrite split_char_line in Hsplit by done. rewrite <- Hsplit in He. by inversion He.
  - intros Heq. rewrite Heq, split_char_none in Hsplit by done. rewrite <- Hsplit in He. by inversion He.
Qed.

Lemma Clean_relative e : e ≠ [] → Forall normal e → Clean (String.concat "/" e) = String.concat "/" e.
Proof.
  intros He0 He. unfold Clean.
  destruct (concat_no_prefix e "" He0 He) as [Hp Hne]; [by intros [? _]|done|]. change ("" +:+ "/") with "/" in Hp.
  rewrite Hp, clean_split by done. unfold path_text. by rewrite bool_decide_false.
Qed.

(** A path below a directory, made relative to it. *)
Lemma Rel_below b e :
  b ≠ [] → Forall normal b → e ≠ [] → Forall normal e →
  Rel (path_text true b) (path_text true (b ++ e)) = Some (String.concat "/" e).
Proof.
  intros Hb0 Hb He0 He. assert (Forall normal (b ++ e)) as Hbe by (by apply Forall_app). unfold Rel.
  assert (∀ l, HasPrefix (path_text true l) "/" = true) as Hroot by (intros l; unfold path_text; by destruct (String.concat "/" l)).
  assert (∀ l, Forall normal l → clean_components true (split_char (path_text true l) "/"%char) = l) as Hcomps.
  { intros l Hl. unfold path_text. by rewrite rooted_components, clean_split. }
  rewrite !Clean_path_text, !Hroot, !Hcomps by done. cbn [xorb].
  rewrite bool_decide_false.
  2:{ intros Heq. apply (f_equal (λ p, clean_components true (split_char p "/"%char))) in Heq. rewrite !Hcomps in Heq by done.
      apply (f_equal length) in Heq. rewrite length_app in Heq. destruct e; [done|simpl in Heq; lia]. }
  rewrite bool_decide_false by done.
  replace (strip_common b (b ++ e)) with (@nil string, e); [done|].
  clear. induction b as [|x b IH]; [done|]. cbn [app strip_common]. by rewrite bool_decide_true.
Qed.
