(* ===== verification/InstanceManager.v ===== *)
(** * The instance manager's reconciler ([internal/instance-manager/reconciler])

    Inside each data pod the instance manager watches the [RedisCluster] and
    drives the local Redis: it stops a fenced server, gives it the replication
    role the status records, reloads configuration, secrets and certificates,
    and reports what it sees.  [inst] is the signature of everything it asks
    for: Redis commands, files, the API server and HTTP requests to its peers. *)
From S2P Require Import Prelude GoStr Paths Api Effects History Kube Fencing Resources Replication Url Storage.
From Stdlib Require Import Ascii.

(** ** Operations *)

(** The local server, or one reached over the network. *)
Inductive redis_client := Local | Remote (ip : string) (port : Z).
#[export] Instance redis_client_eq_dec : EqDecision redis_client.
Proof. solve_decision. Defined.

(** The next thing the isolation check receives: a peer's answer, a transport
    error, or the end of the time allowed. *)
Inductive peer_event :=
| PeerDone (err : string)
| PeerError (target msg : string)
| PeerStatus (target : string) (code : Z).

(** One call of [filepath.WalkDir] on its visitor. *)
Record walk_step := mkWalk {
  ws_path : string;
  ws_err : option error;
  ws_is_dir : bool;
  ws_info : res bool;
  ws_header : res unit
}.

(** Files the manager opens and closes. *)
Inductive handle := TempFile (path : string) | TarWriter | GzipWriter | FileAt (path : string).

(** [ICmd] is a command whose reply is only checked for an error, [IText] one
    that replies with a text.  [IKeys] replies with a list: [None] is a reply of
    another type, and in the list an element that is not a string.
    [IInterrupt] sends SIGINT to redis-server.  [IStartPeer] starts a concurrent
    GET of a peer's status endpoint, [INextPeer] receives what comes first.
    [ITick] waits for a timer and says whether the context ended instead. *)
Inductive inst_op :=
| IEvent (type : event_type) (reason message : string)
| IMapOrder
| IGetCluster
| IGetPod (name : string)
| IListPods (selector : gmap string string)
| IPatchStatus (before after : RedisCluster)
| ICmd (c : redis_client) (args : list string)
| IText (c : redis_client) (args : list string)
| IKeys (c : redis_client) (args : list string)
| IInterrupt
| IGetenv (name : string)
| IReadFile (path : string)
| IWriteFile (path content : string)
| IStat (path : string)
| IMkdirAll (path : string)
| IRemove (path : string)
| ICreateTemp (pattern : string)
| IOpenArchive (path : string)
| IOpen (path : string)
| IClose (h : handle)
| IWalkDir (dir : string)
| IWriteHeader (name : string)
| ICopyFile (path : string)
| ITick
| IStartPeer (ip : string) (port : Z)
| INextPeer
| ILoadAWSConfig (region : string)
| ISharedKey (account key : string)
| IAzureClient (client : azure_client)
| IPutObject (client : s3_client) (bucket key path : string)
| IUploadBlob (client : azure_client) (container blob path : string)
| IKubeConfig
| IKubeClient
| INewManager
| ISetupReconciler
| IStartServer (listenAddr : string)
| IStartManager
| IStartWatch
| IStartProcess (name conf : string)
| IWaitProcess (name : string).

Definition inst_ret (c : inst_op) : Type :=
  match c with
  | IEvent _ _ _ => unit
  | IMapOrder => oracle
  | IGetCluster => res RedisCluster
  | IGetPod _ => res Pod
  | IListPods _ => res (list Pod)
  | IPatchStatus _ _ => res RedisCluster
  | ICmd _ _ => res unit
  | IText _ _ => res string
  | IKeys _ _ => res (option (list (option string)))
  | IInterrupt => unit
  | IGetenv _ => string
  | IReadFile _ => res string
  | IWriteFile _ _ => res unit
  | IStat _ => res Z
  | IMkdirAll _ => res unit
  | IRemove _ => unit
  | ICreateTemp _ => res string
  | IOpenArchive _ | IOpen _ | IClose _ => res unit
  | IWalkDir _ => list walk_step
  | IWriteHeader _ | ICopyFile _ => res unit
  | ITick => bool
  | IStartPeer _ _ => unit
  | INextPeer => peer_event
  | ILoadAWSConfig _ | ISharedKey _ _ | IAzureClient _ => res unit
  | IPutObject _ _ _ _ | IUploadBlob _ _ _ _ => res unit
  | IKubeConfig | IKubeClient | INewManager | ISetupReconciler => res unit
  | IStartServer _ | IStartManager | IStartWatch => unit
  | IStartProcess _ _ | IWaitProcess _ => res unit
  end.

Definition inst : sig := mkSig inst_op inst_ret.
Abbreviation iprog := (prog inst).
Abbreviation iev c r := (ev (S := inst) c r).
Abbreviation iissues P p := (issues_only (S := inst) P p).
Definition icall (c : inst_op) : iprog (inst_ret c) := call (S := inst) c.

#[export] Instance inst_store : ObjectStore inst := {|
  LoadDefaultConfig r := icall (ILoadAWSConfig r);
  NewSharedKeyCredential a k := icall (ISharedKey a k);
  NewAzureClient c := icall (IAzureClient c)
|}.

Definition redis (c : redis_client) (args : list string) : iprog unit := icall (ICmd c args) ≫= check.

(** [replication.GetInfo] *)
Definition GetInfo (c : redis_client) : iprog Info :=
  raw ← icall (IText c ["info"; "replication"]) ≫= check_ctx "INFO replication";
  mret (parseInfo raw).

Definition ReplicationOffset (c : redis_client) : iprog Z :=
  info ← GetInfo c;
  mret (if bool_decide (i_Role info = "master") then i_MasterReplOffset info else i_SlaveReplOffset info).

Definition IsConnectedToPrimary (c : redis_client) : iprog bool :=
  info ← GetInfo c;
  mret (bool_decide (i_MasterLinkStatus info = "up")).

Definition GetClusterInfo (c : redis_client) : iprog ClusterInfo :=
  raw ← icall (IText c ["cluster"; "info"]) ≫= check_ctx "CLUSTER INFO";
  mret (parseClusterInfo raw).

Definition GetClusterNodes (c : redis_client) : iprog (list ClusterNode) :=
  raw ← icall (IText c ["cluster"; "nodes"]) ≫= check_ctx "CLUSTER NODES";
  mret (parseClusterNodes raw).

Definition ClusterGetKeysInSlot (c : redis_client) (slot count : Z) : iprog (list string) :=
  reply ← icall (IKeys c (cmd_GetKeysInSlot slot count)) ≫=
            check_ctx ("CLUSTER GETKEYSINSLOT " +:+ itoa slot +:+ " " +:+ itoa count);
  match reply with
  | None => Throw (Errorf "CLUSTER GETKEYSINSLOT returned unexpected type")
  | Some values =>
      match mapM id values with
      | None => Throw (Errorf "CLUSTER GETKEYSINSLOT returned non-string key type")
      | Some keys => mret keys
      end
  end.

Definition MigrateKeys (c : redis_client) (targetIP : string) (targetPort timeoutMillis : Z) (keys : list string)
  : iprog unit :=
  if bool_decide (keys = []) then mret tt
  else
    with_ctx ("MIGRATE " +:+ targetIP +:+ ":" +:+ itoa targetPort +:+ " keys=" +:+ itoa (Z.of_nat (length keys)))
      (redis c (cmd_MigrateKeys targetIP targetPort timeoutMillis keys)).

(** ** Replica mode *)

Definition defaultReplicaModePort : Z := 6379.

Definition replicaModeEnabled (cluster : RedisCluster) : bool :=
  match Spec_ReplicaMode (Spec cluster) with Some rm => rm_Enabled rm | None => false end.

Definition replicaModeSource (cluster : RedisCluster) : option ReplicaSourceSpec :=
  Spec_ReplicaMode (Spec cluster) ≫= rm_Source.

Definition replicaModeSourceEndpoint (cluster : RedisCluster) : res (string * Z) :=
  match replicaModeSource cluster with
  | None => Err (Errorf "replica mode source is not configured")
  | Some source =>
      let host := TrimSpace (rs_Host source) in
      if bool_decide (host = "") then Err (Errorf "replica mode source host is empty")
      else Ok (host, if bool_decide (rs_Port source ≤ 0) then defaultReplicaModePort else rs_Port source)
  end.

Definition promote_requested (cluster : RedisCluster) : bool :=
  match Spec_ReplicaMode (Spec cluster) with Some rm => rm_Promote rm | None => false end.

(** ** The reconciler *)

Section reconciler.
(** The pod the manager runs in, whether it has started a server, and the
    digest of a file (SHA-256 in hexadecimal). *)
Context (podName : string) (has_process : bool) (sha256 : string → string).

Definition stopRedis : iprog unit := if has_process then icall IInterrupt else mret tt.

Definition getPodIP (name : string) : iprog string :=
  pod ← icall (IGetPod name) ≫= check_ctx ("getting pod " +:+ name +:+ " for IP resolution");
  if bool_decide (p_PodIP pod = "") then Throw (Errorf ("pod " +:+ name +:+ " has no IP assigned yet"))
  else mret (p_PodIP pod).

Definition reconcile_replica_mode (cluster : RedisCluster) (info : Info) : iprog unit :=
  endpoint ← check (replicaModeSourceEndpoint cluster);
  let '(sourceHost, sourcePort) := endpoint in
  if promote_requested cluster && bool_decide (Status_CurrentPrimary (Status cluster) = podName) then
    if bool_decide (i_Role info = "slave") then
      icall (IEvent EventNormal "ReplicaModePromoteRequested" ("Promoting pod " +:+ podName +:+ " out of replica mode"));;
      redis Local cmd_Promote
    else mret tt
  else if bool_decide (i_Role info ≠ "slave") || bool_decide (i_MasterHost info ≠ sourceHost) ||
          bool_decide (i_MasterPort info ≠ sourcePort) then
    icall (IEvent EventNormal "ReplicaModeSourceUpdated"
      ("Pod " +:+ podName +:+ " configured to replicate from external source " +:+ sourceHost +:+ ":" +:+ itoa sourcePort));;
    redis Local (cmd_SetReplicaOf sourceHost sourcePort)
  else mret tt.

Definition reconcileRole (cluster : RedisCluster) : iprog unit :=
  if bool_decide (Spec_Mode (Spec cluster) = ClusterModeCluster) then mret tt
  else
    info ← with_ctx "getting replication info" (GetInfo Local);
    if replicaModeEnabled cluster then reconcile_replica_mode cluster info
    else
      let primary := Status_CurrentPrimary (Status cluster) in
      if bool_decide (primary = podName) then
        if bool_decide (i_Role info = "slave") then
          icall (IEvent EventNormal "PromotedToPrimary" ("Pod " +:+ podName +:+ " promoted to primary"));;
          redis Local cmd_Promote
        else mret tt
      else if bool_decide (i_Role info = "master") then
        primaryIP ← with_ctx "resolving primary IP" (getPodIP primary);
        icall (IEvent EventNormal "DemotedToReplica" ("Pod " +:+ podName +:+ " demoted to replica of " +:+ primary));;
        redis Local (cmd_SetReplicaOf primaryIP defaultReplicaModePort)
      else if bool_decide (i_Role info = "slave") then
        primaryIP ← with_ctx "resolving primary IP" (getPodIP primary);
        if bool_decide (i_MasterHost info ≠ primaryIP) || bool_decide (i_MasterPort info ≠ defaultReplicaModePort) then
          icall (IEvent EventNormal "ReplicaReconfigured"
            ("Pod " +:+ podName +:+ " reconfigured to replicate from primary " +:+ primary));;
          redis Local (cmd_SetReplicaOf primaryIP defaultReplicaModePort)
        else mret tt
      else mret tt.

Definition restart_keys : list string := ["bind"; "port"; "tls-port"; "unixsocket"; "databases"; "loadmodule"].

(** The text before the first blank or tab. *)
Fixpoint directive (key : string) : string :=
  match key with
  | EmptyString => EmptyString
  | String c rest => if bool_decide (c = " "%char) || bool_decide (c = "009"%char) then EmptyString else String c (directive rest)
  end.

Definition requiresRestart (key : string) : bool := bool_decide (directive key ∈ restart_keys).

Definition config_set (key val : string) : iprog unit :=
  with_ctx ("CONFIG SET " +:+ key) (redis Local (cmd_ConfigSet key val)).

Definition reconcileConfig (cluster : RedisCluster) : iprog unit :=
  ord ← icall IMapOrder;
  for_each (range_map (ord 0%nat) (Spec_Redis (Spec cluster)))
    (λ kv, if requiresRestart kv.1 then mret tt else config_set kv.1 kv.2);;
  match ResolveMaxMemoryBytes (Spec cluster) with
  | Some bytes => config_set "maxmemory" (itoa bytes)
  | None => mret tt
  end;;
  let policy := EffectiveMaxMemoryPolicy (Spec cluster) in
  if bool_decide (policy = "") then mret tt else config_set "maxmemory-policy" policy.

Definition resolve_path (env default_ : string) : iprog string :=
  value ← icall (IGetenv env);
  mret (if bool_decide (TrimSpace value = "") then default_ else TrimSpace value).

Definition resolveProjectedSecretsDir : iprog string := resolve_path "REDIS_OPERATOR_PROJECTED_SECRETS_DIR" "/projected".
Definition resolveACLFilePath : iprog string := resolve_path "REDIS_OPERATOR_ACL_FILE_PATH" "/data/users.acl".

(** A missing file reads as the empty string. *)
Definition readSecretKey (secretName key : string) : iprog string :=
  dir ← resolveProjectedSecretsDir;
  r ← icall (IReadFile (Join [dir; secretName; key]));
  match r with
  | Ok data => mret (TrimSpace data)
  | Err e => if IsNotFound e then mret "" else Throw (Wrap ("reading projected secret " +:+ secretName +:+ "/" +:+ key) e)
  end.

Definition usingGeneratedAuthSecretFallback (cluster : RedisCluster) (authSecretName : string) : bool :=
  negb (bool_decide (TrimSpace authSecretName = "")) &&
  match Spec_AuthSecret (Spec cluster) with Some n => bool_decide (TrimSpace n = "") | None => true end &&
  bool_decide (authSecretName = generatedAuthSecretName (Name cluster)).

(** [errFallbackAuthSecretUnavailable] is the only error of [reconcileSecrets]
    that ends the pass. *)
Definition fallback_unavailable (e : error) : bool :=
  match e with Wrap ctx _ => bool_decide (ctx = "fallback auth secret unavailable") | _ => false end.

Definition reconcile_auth (cluster : RedisCluster) : iprog string :=
  let authSecretName := effectiveAuthSecretName cluster in
  if bool_decide (authSecretName = "") then mret ""
  else
    password ← with_ctx "reading auth secret" (readSecretKey authSecretName "password");
    if bool_decide (password = "") then
      if usingGeneratedAuthSecretFallback cluster authSecretName
      then Throw (Wrap "fallback auth secret unavailable"
                    (Errorf ("projected secret " +:+ authSecretName +:+ "/password is empty or missing")))
      else mret ""
    else
      config_set "requirepass" password;;
      config_set "masterauth" password;;
      mret password.

Definition reconcile_acl (cluster : RedisCluster) : iprog unit :=
  match Spec_ACLConfigSecret (Spec cluster) with
  | None => mret tt
  | Some name =>
      acl ← with_ctx "reading ACL secret" (readSecretKey name "acl");
      if bool_decide (acl = "") then mret tt
      else
        path ← resolveACLFilePath;
        icall (IWriteFile path acl) ≫= check_ctx "writing ACL file";;
        with_ctx "ACL LOAD" (redis Local ["ACL"; "LOAD"])
  end.

Definition reconcileInstanceSecrets (cluster : RedisCluster) : iprog unit :=
  localAuthPassword ← reconcile_auth cluster;
  reconcile_acl cluster;;
  let upstream := match replicaModeSource cluster with Some s => TrimSpace (rs_AuthSecretName s) | None => "" end in
  if replicaModeEnabled cluster && negb (bool_decide (upstream = "")) then
    password ← with_ctx "reading replica mode auth secret" (readSecretKey upstream "password");
    if bool_decide (password = "")
    then Throw (Errorf ("replica mode auth secret " +:+ upstream +:+ "/password is empty or missing"))
    else with_ctx "CONFIG SET masterauth for replica mode" (redis Local (cmd_ConfigSet "masterauth" password))
  else if bool_decide (localAuthPassword = "")
  then with_ctx "CONFIG SET masterauth clear" (redis Local (cmd_ConfigSet "masterauth" ""))
  else mret tt.

Definition tls_files : list (string * string) :=
  [("tls-cert-file", "/tls/tls.crt"); ("tls-key-file", "/tls/tls.key"); ("tls-ca-cert-file", "/tls/ca.crt")].

(** The three files are a Go map literal: the order they are read in is not
    specified; the order in which one of several missing files is reported is
    all it decides. *)
Definition readTLSCertChecksums : iprog (gmap string string) :=
  ord ← icall IMapOrder;
  (fix go (files : list (string * string)) (sums : gmap string string) : iprog (gmap string string) :=
     match files with
     | [] => mret sums
     | (key, path) :: rest =>
         content ← icall (IReadFile path) ≫= check_ctx ("reading TLS certificate file " +:+ path);
         go rest (<[key := sha256 content]> sums)
     end) (range_map (ord 0%nat) (list_to_map tls_files : gmap string string)) ∅.

(** The checksums the manager keeps, after the step. *)
Definition reconcileTLSCerts (known : gmap string string) (cluster : RedisCluster)
  : iprog (gmap string string * res unit) :=
  if negb (isTLSEnabled cluster) then mret (∅, Ok tt)
  else
    current ← catch readTLSCertChecksums;
    match current with
    | Err e => mret (known, Err e)
    | Ok current =>
        if bool_decide (known = ∅) then mret (current, Ok tt)
        else if bool_decide (known = current) then mret (known, Ok tt)
        else
          done ← catch (for_each tls_files (λ kv, config_set kv.1 kv.2));
          match done with
          | Err e => mret (known, Err e)
          | Ok _ =>
              icall (IEvent EventNormal "CertificatesRotated" "TLS certificates reloaded");;
              mret (current, Ok tt)
          end
    end.

Definition reported (info : Info) (status : InstanceStatus) : InstanceStatus :=
  mkInstanceStatus (i_Role info) true
    (if bool_decide (i_Role info = "slave") then i_SlaveReplOffset info else i_MasterReplOffset info)
    (is_ReplicaLagBytes status) (int32 (i_ConnectedReplicas info)) (i_MasterLinkStatus info) (is_NodeID status)
    (is_PrimaryNodeID status) (is_SlotsServed status) (is_ClusterState status) (is_CurrentEpoch status)
    (is_LastSeenAt status).

Definition InstanceStatus_zero : InstanceStatus := mkInstanceStatus "" false 0 0 0 "" "" "" [] "" 0 None.

Definition with_instance_status (cluster : RedisCluster) (name : string) (st : InstanceStatus) : RedisCluster :=
  let s := Status cluster in
  set_Status cluster
    (mkStatus (Status_Phase s) (Status_CurrentPrimary s) (Status_ReadyInstances s) (Status_SentinelReadyInstances s)
       (Status_Instances s) (<[name := st]> (Status_InstancesStatus s)) (Status_ClusterState s) (Status_SlotsAssigned s)
       (Status_BootstrapCompleted s) (Status_Shards s) (Status_HealthyPVC s) (Status_DanglingPVC s)
       (Status_SecretsResourceVersion s) (Status_Conditions s)).

Definition reportStatus (cluster : RedisCluster) : iprog unit :=
  info ← with_ctx "getting replication info for status" (GetInfo Local);
  let status := default InstanceStatus_zero (Status_InstancesStatus (Status cluster) !! podName) in
  icall (IPatchStatus cluster (with_instance_status cluster podName (reported info status))) ≫= check;;
  mret tt.

(** The whole pass: the checksums kept afterwards, and its outcome. *)
Definition Reconcile_instance (known : gmap string string) : iprog (gmap string string * res unit) :=
  r ← icall IGetCluster;
  match r with
  | Err e => mret (known, Err (Wrap "fetching RedisCluster" e))
  | Ok cluster =>
      if requiresHardFence podName cluster then
        icall (IEvent EventWarning "InstanceFenced" ("Pod " +:+ podName +:+ " is fenced, stopping redis-server"));;
        stopRedis;;
        mret (known, Ok tt)
      else
        role ← catch (reconcileRole cluster);
        match role with
        | Err e => mret (known, Err e)
        | Ok _ =>
            config ← catch (reconcileConfig cluster);
            match config with
            | Ok _ => if bool_decide (Spec_Redis (Spec cluster) = ∅) then mret tt
                      else icall (IEvent EventNormal "ConfigReloaded" "Redis configuration reloaded")
            | Err _ => mret tt
            end;;
            secrets ← catch (reconcileInstanceSecrets cluster);
            match secrets with
            | Err e =>
                if fallback_unavailable e then mret (known, Err e)
                else
                  tls ← reconcileTLSCerts known cluster;
                  status ← catch (reportStatus cluster);
                  mret (tls.1, status)
            | Ok _ =>
                tls ← reconcileTLSCerts known cluster;
                status ← catch (reportStatus cluster);
                mret (tls.1, status)
            end
        end
  end.
End reconciler.

(** ** Automation *)

(** One checked call of the instance manager. *)
Ltac inst_step :=
  lazymatch goal with
  | |- safe ?G ?h (mbind ?f (mbind ?chk (icall ?c))) ?Q =>
      simple refine (safe_call (S := inst) G h c (λ r, prog_bind inst _ _ f (chk r)) Q _ _);
      [|intros [?|?]; [|exact I]; cbn beta; cbn [check_ctx check];
        lazymatch goal with |- safe ?G ?h' (prog_bind _ _ _ ?g (Ret ?a)) ?Q => change (safe G h' (g a) Q); cbn beta end]
  | |- safe ?G ?h (mbind ?chk (icall ?c)) ?Q =>
      simple refine (safe_call (S := inst) G h c chk Q _ _); [|intros [?|?]; [cbn [check_ctx check]|exact I]]
  end.
