(* ===== verification/Webserver.v ===== *)
(** * The instance manager's HTTP server ([internal/instance-manager/webserver])

    The probes, the status endpoint the operator polls, and the commands it
    posts: promotion, cluster membership, slot migration.  A handler reads one
    [Server] and a request and answers; the liveness probe also returns the
    server it leaves, because it refreshes the list of peers.  Request bodies
    arrive decoded: [None] is a body the JSON decoder refuses.  The backup
    endpoint is in [BackupUpload]. *)
From S2P Require Import Prelude GoStr Api Effects Json Kube Fencing Resources Replication Paths InstanceManager.
From Stdlib Require Import Ascii.

Definition defaultIsolationTimeout : Z := 5 * 10 ^ 9.
Definition defaultPeerStatusPort : Z := 8080.
Definition defaultBackupDataDir := "/data".
Definition defaultBackupCredsMountPath := "/backup-credentials".

Record PrimaryIsolationConfig := mkIsolationConfig {
  pic_Enabled : bool;
  pic_ClusterName : string;
  pic_Namespace : string;
  pic_PodName : string;
  pic_APIServerTimeout : Z;
  pic_PeerTimeout : Z
}.

(** [GET /v1/status] *)
Record StatusResponse := mkStatusResponse {
  sr_Role : string;
  sr_ReplicationOffset : Z;
  sr_ConnectedReplicas : Z;
  sr_MasterLinkStatus : string;
  sr_Connected : bool;
  sr_NodeID : string;
  sr_PrimaryNodeID : string;
  sr_ClusterState : string;
  sr_SlotsServed : list SlotRange;
  sr_Epoch : Z;
  sr_ClusterKnownNodes : Z;
  sr_SlotsAssigned : Z
}.

(** The supervised process: no command or not started, running, or reaped. *)
Inductive process := NoProcess | Running | Exited.
#[export] Instance process_eq_dec : EqDecision process.
Proof. solve_decision. Defined.

(** [sv_redisClient] and [sv_k8sClient] say whether the client is set.  The
    injected HTTP client and uploader are nil outside the tests. *)
Record Server := mkServer {
  sv_redisClient : bool;
  sv_listenAddr : string;
  sv_promoteFunc : iprog unit;
  sv_demoteFunc : string → Z → iprog unit;
  sv_processName : string;
  sv_dataDir : string;
  sv_redisCmd : process;
  sv_exposeDataEndpoints : bool;
  sv_backupCredentialsDir : string;
  sv_k8sClient : bool;
  sv_primaryIsolationEnabled : bool;
  sv_clusterName : string;
  sv_namespace : string;
  sv_podName : string;
  sv_apiServerTimeout : Z;
  sv_peerTimeout : Z;
  sv_peerStatusPort : Z;
  sv_cachedPeerTargets : list string;
  sv_clusterMode : bool
}.

(** ** Construction *)

Definition NewServer (redisClient : bool) (listenAddr : string) (promoteFunc : iprog unit)
    (demoteFunc : string → Z → iprog unit) : Server :=
  mkServer redisClient listenAddr promoteFunc demoteFunc "redis-server" defaultBackupDataDir NoProcess true
    defaultBackupCredsMountPath false false "" "" "" 0 0 defaultPeerStatusPort [] false.

Definition nil_func : iprog unit := Throw (Panicked "invalid memory address or nil pointer dereference").

Definition SetRedisCmd (cmd : process) (s : Server) : Server :=
  mkServer (sv_redisClient s) (sv_listenAddr s) (sv_promoteFunc s) (sv_demoteFunc s) (sv_processName s) (sv_dataDir s)
    cmd (sv_exposeDataEndpoints s) (sv_backupCredentialsDir s) (sv_k8sClient s) (sv_primaryIsolationEnabled s)
    (sv_clusterName s) (sv_namespace s) (sv_podName s) (sv_apiServerTimeout s) (sv_peerTimeout s)
    (sv_peerStatusPort s) (sv_cachedPeerTargets s) (sv_clusterMode s).

Definition NewSentinelServer (redisClient : bool) (listenAddr : string) (sentinelCmd : process) : Server :=
  SetRedisCmd sentinelCmd
    (mkServer redisClient listenAddr nil_func (λ _ _, nil_func) "redis-sentinel" "" NoProcess false
       "" false false "" "" "" 0 0 defaultPeerStatusPort [] false).

Definition SetPrimaryIsolationConfig (k8sClient : bool) (cfg : PrimaryIsolationConfig) (s : Server) : Server :=
  let timeout t := if bool_decide (t ≤ 0) then defaultIsolationTimeout else t in
  mkServer (sv_redisClient s) (sv_listenAddr s) (sv_promoteFunc s) (sv_demoteFunc s) (sv_processName s) (sv_dataDir s)
    (sv_redisCmd s) (sv_exposeDataEndpoints s) (sv_backupCredentialsDir s) k8sClient (pic_Enabled cfg)
    (pic_ClusterName cfg) (pic_Namespace cfg) (pic_PodName cfg) (timeout (pic_APIServerTimeout cfg))
    (timeout (pic_PeerTimeout cfg)) (sv_peerStatusPort s) (sv_cachedPeerTargets s) (sv_clusterMode s).

Definition SetMetricsIdentity (clusterName namespace podName : string) (s : Server) : Server :=
  mkServer (sv_redisClient s) (sv_listenAddr s) (sv_promoteFunc s) (sv_demoteFunc s) (sv_processName s) (sv_dataDir s)
    (sv_redisCmd s) (sv_exposeDataEndpoints s) (sv_backupCredentialsDir s) (sv_k8sClient s)
    (sv_primaryIsolationEnabled s) clusterName namespace podName (sv_apiServerTimeout s) (sv_peerTimeout s)
    (sv_peerStatusPort s) (sv_cachedPeerTargets s) (sv_clusterMode s).

Definition SetClusterMode (enabled : bool) (s : Server) : Server :=
  mkServer (sv_redisClient s) (sv_listenAddr s) (sv_promoteFunc s) (sv_demoteFunc s) (sv_processName s) (sv_dataDir s)
    (sv_redisCmd s) (sv_exposeDataEndpoints s) (sv_backupCredentialsDir s) (sv_k8sClient s)
    (sv_primaryIsolationEnabled s) (sv_clusterName s) (sv_namespace s) (sv_podName s) (sv_apiServerTimeout s)
    (sv_peerTimeout s) (sv_peerStatusPort s) (sv_cachedPeerTargets s) enabled.

Definition with_peer_targets (targets : list string) (s : Server) : Server :=
  mkServer (sv_redisClient s) (sv_listenAddr s) (sv_promoteFunc s) (sv_demoteFunc s) (sv_processName s) (sv_dataDir s)
    (sv_redisCmd s) (sv_exposeDataEndpoints s) (sv_backupCredentialsDir s) (sv_k8sClient s)
    (sv_primaryIsolationEnabled s) (sv_clusterName s) (sv_namespace s) (sv_podName s) (sv_apiServerTimeout s)
    (sv_peerTimeout s) (sv_peerStatusPort s) targets (sv_clusterMode s).

(** The paths [Start] registers. *)
Definition routes (s : Server) : list string :=
  ["/healthz"; "/readyz"] ++
  (if sv_exposeDataEndpoints s
   then ["/metrics"; "/v1/status"; "/v1/promote"; "/v1/demote"; "/v1/cluster/meet"; "/v1/cluster/addslots";
         "/v1/cluster/replicate"; "/v1/cluster/migrate-range"; "/v1/backup"]
   else []).

(** ** Requests and answers *)

Inductive method := GET | POST | OtherMethod.
#[export] Instance method_eq_dec : EqDecision method.
Proof. solve_decision. Defined.

Inductive reply :=
| Text (code : Z) (body : string)
| StatusJSON (r : StatusResponse).

Definition reply_code (r : reply) : Z := match r with Text code _ => code | StatusJSON _ => 200 end.

(** [http.Error] ends the text with a newline. *)
Definition http_Error (msg : string) (code : Z) : reply := Text code (msg +:+ nl).
Definition method_not_allowed : reply := http_Error "method not allowed" 405.

(** ** Liveness and primary isolation *)

Definition shouldRunPrimaryIsolationCheck (s : Server) : iprog bool :=
  if negb (sv_primaryIsolationEnabled s) || negb (sv_exposeDataEndpoints s) || negb (sv_k8sClient s)
     || negb (sv_redisClient s)
  then mret false
  else
    info ← catch (GetInfo Local);
    mret (match info with Ok info => bool_decide (i_Role info = "master") | Err _ => false end).

Fixpoint dedupe_from (last : string) (values : list string) : list string :=
  match values with
  | [] => []
  | v :: rest => if bool_decide (v = last) then dedupe_from last rest else v :: dedupe_from v rest
  end.

(** Adjacent duplicates are dropped. *)
Definition dedupeStrings (values : list string) : list string :=
  match values with [] => [] | v :: rest => v :: dedupe_from v rest end.

Definition peer_selector (clusterName : string) : gmap string string :=
  {[ LabelCluster := clusterName; LabelWorkload := LabelWorkloadData ]}.

Definition listPeerTargetsFromAPI (clusterName podName : string) : iprog (list string) :=
  pods ← icall (IListPods (peer_selector clusterName)) ≫= check;
  let targets := p_PodIP <$> filter (λ pod, p_Name pod ≠ podName ∧ p_PodIP pod ≠ "") pods in
  mret (dedupeStrings (sort_slice string_less targets)).

(** The server with its refreshed peers, and whether the API server answered. *)
Definition checkAPIServerReachable (s : Server) : iprog (Server * res unit) :=
  if negb (sv_k8sClient s) then mret (s, Err (Errorf "kubernetes client not configured"))
  else if bool_decide (sv_clusterName s = "") || bool_decide (sv_namespace s = "")
  then mret (s, Err (Errorf "primary isolation cluster identity not configured"))
  else
    cluster ← icall IGetCluster;
    match cluster with
    | Err e => mret (s, Err e)
    | Ok _ =>
        peers ← catch (listPeerTargetsFromAPI (sv_clusterName s) (sv_podName s));
        mret (match peers with Ok targets => with_peer_targets targets s | Err _ => s end, Ok tt)
    end.

Inductive peer_outcome := NoPeerTargets | PeerReachable | PeersUnreachable (e : error).

Definition peer_failure (e : peer_event) : option error :=
  match e with
  | PeerDone msg => Some (Errorf msg)
  | PeerError _ msg => Some (Errorf msg)
  | PeerStatus target code =>
      if bool_decide (code = 200) then None
      else Some (Errorf ("peer " +:+ target +:+ " returned status " +:+ itoa code))
  end.

(** One result per request, in the order they arrive; the end of the time
    allowed ends the wait. *)
Fixpoint await_peers (n : nat) (lastErr : option error) : iprog peer_outcome :=
  match n with
  | O => mret (PeersUnreachable (default (Errorf "no peer targets responded") lastErr))
  | S n' =>
      e ← icall INextPeer;
      match e, peer_failure e with
      | PeerDone _, Some err => mret (PeersUnreachable (default err lastErr))
      | _, None => mret PeerReachable
      | _, Some err => await_peers n' (Some err)
      end
  end.

Definition checkAnyPeerReachable (s : Server) : iprog peer_outcome :=
  let targets := sv_cachedPeerTargets s in
  if bool_decide (targets = []) then mret NoPeerTargets
  else
    let statusPort := if bool_decide (sv_peerStatusPort s ≤ 0) then defaultPeerStatusPort else sv_peerStatusPort s in
    for_each targets (λ target, icall (IStartPeer target statusPort));;
    await_peers (length targets) None.

Definition isolated_body := "primary isolated: cannot reach API server or any peer".

Definition handleHealthz (s : Server) : iprog (Server * reply) :=
  let processName := if bool_decide (sv_processName s = "") then "redis-server" else sv_processName s in
  if negb (bool_decide (sv_redisCmd s = Running)) then mret (s, Text 503 (processName +:+ " not running"))
  else
    isolation ← shouldRunPrimaryIsolationCheck s;
    if negb isolation then mret (s, Text 200 "ok")
    else
      api ← checkAPIServerReachable s;
      match api with
      | (s', Ok _) => mret (s', Text 200 "ok")
      | (s', Err _) =>
          peers ← checkAnyPeerReachable s';
          mret (s', match peers with
                    | PeerReachable | NoPeerTargets => Text 200 "ok"
                    | PeersUnreachable _ => Text 503 isolated_body
                    end)
      end.

(** ** Readiness *)

Definition podIsFenced (cluster : RedisCluster) (podName : string) : bool :=
  if bool_decide (podName = "") then false
  else
    let raw := default "" (Annotations cluster !! FencingAnnotationKey) in
    if bool_decide (raw = "") then false
    else
      match unmarshal_strings raw with
      | None => false
      | Some fencedPods => bool_decide (podName ∈ fencedPods)
      end.

Definition isCurrentPodFenced (s : Server) : iprog bool :=
  if negb (sv_k8sClient s) || bool_decide (sv_clusterName s = "") || bool_decide (sv_namespace s = "")
     || bool_decide (sv_podName s = "")
  then mret false
  else
    cluster ← icall IGetCluster ≫= check;
    mret (podIsFenced cluster (sv_podName s)).

Definition handleReadyz (s : Server) : iprog reply :=
  fenced ← catch (isCurrentPodFenced s);
  match fenced with
  | Err _ => mret (http_Error "cannot verify fencing state" 503)
  | Ok true => mret (http_Error "pod is fenced" 503)
  | Ok false =>
      ping ← icall (ICmd Local ["ping"]);
      mret (match ping with Err e => Text 503 ("redis not ready: " +:+ Error e) | Ok _ => Text 200 "ok" end)
  end.

(** ** Status *)

Fixpoint findSelfClusterNode (nodes : list ClusterNode) : string * string * list SlotRange :=
  match nodes with
  | [] => ("", "", [])
  | node :: rest =>
      if negb (hasNodeFlag (cn_Flags node) "myself") then findSelfClusterNode rest
      else (cn_ID node, if bool_decide (cn_MasterID node = "-") then "" else cn_MasterID node, cn_SlotRanges node)
  end.

Definition replication_offset (info : Info) : Z :=
  if bool_decide (i_Role info = "slave") then i_SlaveReplOffset info else i_MasterReplOffset info.

Definition handleStatus (s : Server) (m : method) : iprog reply :=
  if negb (bool_decide (m = GET)) then mret method_not_allowed
  else
    info ← catch (GetInfo Local);
    match info with
    | Err e => mret (http_Error ("failed to get replication info: " +:+ Error e) 500)
    | Ok info =>
        let base id primary state slots epoch known assigned :=
          StatusJSON (mkStatusResponse (i_Role info) (replication_offset info) (i_ConnectedReplicas info)
                        (i_MasterLinkStatus info) true id primary state slots epoch known assigned) in
        if negb (sv_clusterMode s) then mret (base "" "" "" [] 0 0 0)
        else
          clusterInfo ← catch (GetClusterInfo Local);
          match clusterInfo with
          | Err e => mret (http_Error ("failed to get cluster info: " +:+ Error e) 500)
          | Ok ci =>
              nodes ← catch (GetClusterNodes Local);
              match nodes with
              | Err e => mret (http_Error ("failed to get cluster nodes: " +:+ Error e) 500)
              | Ok nodes =>
                  let '(nodeID, primaryID, slots) := findSelfClusterNode nodes in
                  mret (base nodeID primaryID (ci_State ci) slots (ci_CurrentEpoch ci) (ci_KnownNodes ci)
                          (ci_SlotsAssigned ci))
              end
          end
    end.

(** What the operator's [podStatusResponse] decodes from the same field names. *)
Definition decode_status (r : StatusResponse) : podStatusResponse :=
  {| ps_Role := sr_Role r; ps_ReplicationOffset := sr_ReplicationOffset r;
     ps_ConnectedReplicas := sr_ConnectedReplicas r; ps_MasterLinkStatus := sr_MasterLinkStatus r;
     ps_Connected := sr_Connected r; ps_NodeID := sr_NodeID r; ps_PrimaryNodeID := sr_PrimaryNodeID r;
     ps_ClusterState := sr_ClusterState r; ps_SlotsServed := sr_SlotsServed r; ps_Epoch := sr_Epoch r;
     ps_SlotsAssigned := sr_SlotsAssigned r |}.

(** ** Commands *)

(** Run a command and answer: the error's text with code 500, or the text. *)
Definition answer (ctx ok : string) (p : iprog unit) : iprog reply :=
  r ← catch p;
  mret (match r with Ok _ => Text 200 ok | Err e => http_Error (ctx +:+ Error e) 500 end).

Definition handlePromote (s : Server) (m : method) (query : string → string) : iprog reply :=
  if negb (bool_decide (m = POST)) then mret method_not_allowed
  else
    answer "promote failed: " "promoted"
      (if sv_clusterMode s then redis Local (cmd_ClusterFailover (ToUpper (TrimSpace (query "mode")))) else sv_promoteFunc s).

Definition handleDemote (s : Server) (m : method) (query : string → string) : iprog reply :=
  if negb (bool_decide (m = POST)) then mret method_not_allowed
  else if sv_clusterMode s then
    let primaryNodeID := TrimSpace (query "primaryNodeID") in
    if bool_decide (primaryNodeID = "") then mret (http_Error "missing primaryNodeID query parameter" 400)
    else answer "demote failed: " "demoted" (redis Local (cmd_ClusterReplicate primaryNodeID))
  else
    let primaryIP := query "primaryIP" in
    let portStr := query "port" in
    if bool_decide (primaryIP = "") then mret (http_Error "missing primaryIP query parameter" 400)
    else
      match (if bool_decide (portStr = "") then (6379, None) else Atoi portStr) with
      | (_, Some _) => mret (http_Error "invalid port" 400)
      | (port, None) => answer "demote failed: " "demoted" (sv_demoteFunc s primaryIP port)
      end.

(** The guards every cluster command starts with. *)
Definition cluster_command {A} (s : Server) (m : method) (body : option A) (k : A → iprog reply) : iprog reply :=
  if negb (bool_decide (m = POST)) then mret method_not_allowed
  else if negb (sv_clusterMode s) then mret (http_Error "cluster mode is disabled" 400)
  else match body with None => mret (http_Error "invalid request body" 400) | Some req => k req end.

Definition handleClusterMeet (s : Server) (m : method) (body : option (string * Z)) : iprog reply :=
  cluster_command s m body (λ '(ip, port),
    if bool_decide (TrimSpace ip = "") then mret (http_Error "ip is required" 400)
    else answer "cluster meet failed: " "ok"
           (redis Local (cmd_ClusterMeet ip (if bool_decide (port = 0) then 6379 else port)))).

Definition handleClusterAddSlots (s : Server) (m : method) (body : option (Z * Z)) : iprog reply :=
  cluster_command s m body (λ '(start, end_),
    if bool_decide (end_ < start) then mret (http_Error "end must be greater than or equal to start" 400)
    else answer "cluster addslots failed: " "ok" (redis Local (cmd_ClusterAddSlotsRange start end_))).

Definition knowsClusterNode (nodeID : string) : iprog bool :=
  nodes ← GetClusterNodes Local;
  mret (existsb (λ node, bool_decide (cn_ID node = nodeID)) nodes).

Definition handleClusterReplicate (s : Server) (m : method) (body : option string) : iprog reply :=
  cluster_command s m body (λ nodeID,
    let nodeID := TrimSpace nodeID in
    if bool_decide (nodeID = "") then mret (http_Error "nodeID is required" 400)
    else
      known ← catch (knowsClusterNode nodeID);
      match known with
      | Err e => mret (http_Error ("cluster nodes lookup failed: " +:+ Error e) 500)
      | Ok false => mret (http_Error ("node " +:+ nodeID +:+ " is not known to this instance yet") 409)
      | Ok true => answer "cluster replicate failed: " "ok" (redis Local (cmd_ClusterReplicate nodeID))
      end).

(** ** Slot migration *)

(** The request with its defaults and blanks removed, or the reason it is
    refused. *)
Definition migrate_request (req : clusterMigrateRangePayload) : string + clusterMigrateRangePayload :=
  let targetIP := TrimSpace (mg_TargetIP req) in
  let targetNodeID := TrimSpace (mg_TargetNodeID req) in
  let sourceNodeID := TrimSpace (mg_SourceNodeID req) in
  let positive n d := if bool_decide (n ≤ 0) then d else n in
  if bool_decide (targetIP = "") then inl "targetIP is required"
  else if bool_decide (targetNodeID = "") then inl "targetNodeID is required"
  else if bool_decide (sourceNodeID = "") then inl "sourceNodeID is required"
  else if bool_decide (mg_End req < mg_Start req) then inl "end must be greater than or equal to start"
  else inr (mkMigrate targetIP (positive (mg_TargetPort req) 6379) targetNodeID sourceNodeID (mg_Start req) (mg_End req)
              (positive (mg_BatchSize req) 64) (positive (mg_TimeoutMS req) 5000)).

Section migrate.
Context (req : clusterMigrateRangePayload).

Definition target_client : redis_client := Remote (mg_TargetIP req) (mg_TargetPort req).

(** The inner loop: batches of keys until the source has none.  [None] when the
    fuel ends first: the handler is still running. *)
Fixpoint drain_slot (fuel : nat) (slot : Z) : iprog (option unit) :=
  match fuel with
  | O => mret None
  | S fuel' =>
      keys ← with_ctx ("get keys in slot " +:+ itoa slot) (ClusterGetKeysInSlot Local slot (mg_BatchSize req));
      if bool_decide (keys = []) then mret (Some tt)
      else
        with_ctx ("migrate keys for slot " +:+ itoa slot)
          (MigrateKeys Local (mg_TargetIP req) (mg_TargetPort req) (mg_TimeoutMS req) keys);;
        drain_slot fuel' slot
  end.

Definition migrate_slot (fuel : nat) (slot : Z) : iprog (option unit) :=
  with_ctx ("target importing slot " +:+ itoa slot)
    (redis target_client (cmd_SetSlotImporting slot (mg_SourceNodeID req)));;
  with_ctx ("source migrating slot " +:+ itoa slot)
    (redis Local (cmd_SetSlotMigrating slot (mg_TargetNodeID req)));;
  drained ← drain_slot fuel slot;
  match drained with
  | None => mret None
  | Some _ =>
      with_ctx ("source assign slot " +:+ itoa slot) (redis Local (cmd_SetSlotNode slot (mg_TargetNodeID req)));;
      with_ctx ("target assign slot " +:+ itoa slot) (redis target_client (cmd_SetSlotNode slot (mg_TargetNodeID req)));;
      mret (Some tt)
  end.

(** The outer loop: the counter is an [int32]. *)
Fixpoint migrate_slots (fuel : nat) (slot : Z) : iprog (option unit) :=
  match fuel with
  | O => mret None
  | S fuel' =>
      if bool_decide (slot ≤ mg_End req) then
        done ← migrate_slot fuel slot;
        match done with None => mret None | Some _ => migrate_slots fuel' (int32 (slot + 1)) end
      else mret (Some tt)
  end.
End migrate.

Definition handleClusterMigrateRange (fuel : nat) (s : Server) (m : method) (body : option clusterMigrateRangePayload)
  : iprog (option reply) :=
  if negb (bool_decide (m = POST)) then mret (Some method_not_allowed)
  else if negb (sv_clusterMode s) then mret (Some (http_Error "cluster mode is disabled" 400))
  else
    match body with
    | None => mret (Some (http_Error "invalid request body" 400))
    | Some req =>
        match migrate_request req with
        | inl msg => mret (Some (http_Error msg 400))
        | inr req =>
            done ← catch (migrate_slots req fuel (mg_Start req));
            mret (match done with
                  | Err e => Some (http_Error (Error e) 500)
                  | Ok None => None
                  | Ok (Some _) => Some (Text 200 "ok")
                  end)
        end
    end.
