(* ===== verification/BackupUpload.v ===== *)
(** * The backup endpoint ([webserver/backup.go])

    A backup is taken by Redis itself ([BGSAVE] or [BGREWRITEAOF]), waited for,
    archived when it is a directory, uploaded under a name derived from the
    request, and described in the answer: URL, object key, size, checksum.
    Closing a file that was only read is left out, its error is ignored. *)
From S2P Require Import Prelude GoStr Api Effects Kube Backups Resources Replication Storage Paths InstanceManager Webserver.
From Stdlib Require Import Ascii.

Definition defaultBackupFilename := "dump.rdb".
Definition defaultAOFDirName := "appendonlydir".
Definition defaultAOFManifestFilename := "appendonly.aof.manifest".

Record backupResponse := mkBackupResponse {
  bp_ArtifactType : string;
  bp_BackupPath : string;
  bp_ObjectKey : string;
  bp_BackupSize : Z;
  bp_ChecksumSHA256 : string
}.

(** ** Waiting for Redis *)

Definition parseInfoKeyValues (raw : string) : gmap string string :=
  foldl (λ values line,
    match info_line line with Some (k, v) => <[k := v]> values | None => values end) ∅ (split_crlf raw).

(** [None] when the fuel ends first: the handler is still polling. *)
Fixpoint waitForPersistenceCompletion (fuel : nat) (inProgressKey lastStatusKey : string) : iprog (option unit) :=
  match fuel with
  | O => mret None
  | S fuel' =>
      infoRaw ← icall (IText Local ["info"; "persistence"]) ≫= check_ctx "INFO persistence";
      let info := parseInfoKeyValues infoRaw in
      match info !! inProgressKey with
      | None => Throw (Errorf ("INFO persistence missing key " +:+ quoted inProgressKey))
      | Some inProgress =>
          if bool_decide (inProgress = "0") then
            let status := default "" (info !! lastStatusKey) in
            if negb (bool_decide (status = "")) && negb (bool_decide (status = "ok"))
            then Throw (Errorf (lastStatusKey +:+ "=" +:+ status))
            else mret (Some tt)
          else
            done ← icall ITick;
            if (done : bool) then Throw (Wrap "waiting for persistence completion" (Errorf "context deadline exceeded"))
            else waitForPersistenceCompletion fuel' inProgressKey lastStatusKey
      end
  end.

(** ** The archive *)

(** [filepath.ToSlash(filepath.Rel(dir, path))] *)
Definition archive_name (sourceDir path : string) : res string :=
  match Rel sourceDir path with
  | Some rel => Ok rel
  | None => Err (Errorf ("Rel: can't make " +:+ path +:+ " relative to " +:+ sourceDir))
  end.

(** The visitor of [writeTarGz]. *)
Definition visit (sourceDir : string) (step : walk_step) : iprog unit :=
  let path := ws_path step in
  match ws_err step with
  | Some e => Throw e
  | None =>
      if bool_decide (path = sourceDir) then mret tt
      else
        regular ← check_ctx ("reading file info for " +:+ path) (ws_info step);
        relPath ← check_ctx ("computing relative path for " +:+ path) (archive_name sourceDir path);
        check_ctx ("building tar header for " +:+ path) (ws_header step);;
        icall (IWriteHeader relPath) ≫= check_ctx ("writing tar header for " +:+ path);;
        if ws_is_dir step then mret tt
        else if negb regular then Throw (Errorf ("unsupported file type " +:+ path))
        else
          icall (IOpen path) ≫= check_ctx ("opening " +:+ path);;
          copied ← icall (ICopyFile path);
          closed ← icall (IClose (FileAt path));
          check_ctx ("archiving " +:+ path) copied;;
          check_ctx ("closing source file " +:+ path) closed
  end.

(** [errors.Join] of up to three results. *)
Definition join_errors (l : list (res unit)) : option error :=
  foldr (λ r acc,
    match r, acc with
    | Ok _, _ => acc
    | Err e, None => Some e
    | Err e, Some e' => Some (ErrorsJoin e e')
    end) None l.

Definition writeTarGz (sourceDir archivePath : string) : iprog unit :=
  icall (IOpenArchive archivePath) ≫= check_ctx ("opening archive file " +:+ archivePath);;
  steps ← icall (IWalkDir sourceDir);
  walked ← catch (for_each steps (visit sourceDir));
  tarClose ← icall (IClose TarWriter);
  gzipClose ← icall (IClose GzipWriter);
  fileClose ← icall (IClose (FileAt archivePath));
  match walked with
  | Err walkErr =>
      Throw (Wrap ("creating tar.gz archive from " +:+ sourceDir)
               (match join_errors [tarClose; gzipClose; fileClose] with
                | Some closeErr => ErrorsJoin walkErr closeErr
                | None => walkErr
                end))
  | Ok _ =>
      check_ctx "closing tar writer" tarClose;;
      check_ctx "closing gzip writer" gzipClose;;
      check_ctx ("closing archive file " +:+ archivePath) fileClose
  end.

Definition archiveDirectoryAsTarGz (directoryPath requiredFile : string) : iprog string :=
  let requiredPath := Join [directoryPath; requiredFile] in
  icall (IStat requiredPath) ≫= check_ctx ("required file " +:+ requiredPath +:+ " is missing");;
  tempPath ← icall (ICreateTemp "redis-backup-*.tar.gz") ≫= check_ctx "creating temp archive file";
  closed ← icall (IClose (TempFile tempPath));
  match closed with
  | Err e =>
      icall (IRemove tempPath);;
      Throw (Wrap "closing temp archive file" e)
  | Ok _ =>
      written ← catch (writeTarGz directoryPath tempPath);
      match written with
      | Err e => icall (IRemove tempPath);; Throw e
      | Ok _ => mret tempPath
      end
  end.

(** ** The handler *)

Section handler.
Context (sha256 : string → string) (s : Server).

Definition backupDataDir : string := if bool_decide (sv_dataDir s = "") then defaultBackupDataDir else sv_dataDir s.
Definition backupCredentialsMountDir : string :=
  if bool_decide (sv_backupCredentialsDir s = "") then defaultBackupCredsMountPath else sv_backupCredentialsDir s.

(** The artifact's path, its type, and whether it is a temporary file. *)
Definition prepareBackupArtifact (fuel : nat) (method : string) : iprog (option (string * string * bool)) :=
  if bool_decide (method = BackupMethodRDB) then
    with_ctx "triggering BGSAVE" (redis Local ["bgsave"]);;
    waited ← waitForPersistenceCompletion fuel "rdb_bgsave_in_progress" "rdb_last_bgsave_status";
    match waited with
    | None => mret None
    | Some _ =>
        let rdbPath := Join [backupDataDir; defaultBackupFilename] in
        icall (IStat rdbPath) ≫= check_ctx ("checking RDB file " +:+ rdbPath);;
        mret (Some (rdbPath, BackupArtifactTypeRDB, false))
    end
  else if bool_decide (method = BackupMethodAOF) then
    with_ctx "triggering BGREWRITEAOF" (redis Local ["BGREWRITEAOF"]);;
    waited ← waitForPersistenceCompletion fuel "aof_rewrite_in_progress" "aof_last_bgrewrite_status";
    match waited with
    | None => mret None
    | Some _ =>
        archivePath ← archiveDirectoryAsTarGz (Join [backupDataDir; defaultAOFDirName]) defaultAOFManifestFilename;
        mret (Some (archivePath, BackupArtifactTypeAOFArchive, true))
    end
  else Throw (Errorf ("unsupported backup method " +:+ quoted method)).

(** The first of the files that exists and is not blank. *)
Fixpoint firstCredentialValue (mountDir : string) (names : list string) : iprog string :=
  match names with
  | [] => mret ""
  | name :: rest =>
      let path := Join [mountDir; name] in
      raw ← icall (IReadFile path);
      match raw with
      | Ok raw => if bool_decide (TrimSpace raw = "") then firstCredentialValue mountDir rest else mret (TrimSpace raw)
      | Err e => if IsNotFound e then firstCredentialValue mountDir rest else Throw (Wrap ("reading credential file " +:+ path) e)
      end
  end.

Definition readAWSCredentialsFromDir (mountDir : string) : iprog aws_credentials :=
  accessKeyID ← firstCredentialValue mountDir access_key_names;
  secretAccessKey ← firstCredentialValue mountDir secret_key_names;
  sessionToken ← firstCredentialValue mountDir session_token_names;
  if bool_decide (accessKeyID = "") || bool_decide (secretAccessKey = "")
  then Throw (Errorf "backup credentials secret must include AWS access key and secret key")
  else mret (mkAWS accessKeyID secretAccessKey sessionToken).

Definition readAzureCredentialsFromDir (mountDir : string) : iprog azure_credentials :=
  connectionString ← firstCredentialValue mountDir connection_string_names;
  accountName ← firstCredentialValue mountDir account_name_names;
  accountKey ← firstCredentialValue mountDir account_key_names;
  sasToken ← firstCredentialValue mountDir sas_token_names;
  mret (mkAzureCredentials connectionString accountName accountKey sasToken).

(** Size and checksum of the uploaded file. *)
Definition describe (artifactPath artifactType url key : string) : iprog backupResponse :=
  size ← icall (IStat artifactPath) ≫= check_ctx ("reading artifact metadata for " +:+ artifactPath);
  content ← icall (IReadFile artifactPath) ≫= check_ctx ("computing checksum for " +:+ artifactPath);
  mret (mkBackupResponse artifactType url key size (sha256 content)).

Definition uploadBackupToS3 (backupName : string) (destination : S3Destination) (artifactPath artifactType : string)
  : iprog backupResponse :=
  creds ← readAWSCredentialsFromDir backupCredentialsMountDir;
  client ← with_ctx "loading AWS config" (newS3Client destination creds);
  icall (IOpen artifactPath) ≫= check_ctx ("opening artifact " +:+ artifactPath);;
  let objectKey := buildObjectKey (s3_Path destination) backupName artifactType in
  icall (IPutObject client (s3_Bucket destination) objectKey artifactPath) ≫=
    check_ctx ("uploading to " +:+ s3_url (s3_Bucket destination) objectKey);;
  describe artifactPath artifactType (s3_url (s3_Bucket destination) objectKey) objectKey.

Definition uploadBackupToAzure (backupName : string) (destination : AzureBlobDestination)
    (artifactPath artifactType : string) : iprog backupResponse :=
  creds ← readAzureCredentialsFromDir backupCredentialsMountDir;
  client ← newAzureBlobClient destination creds;
  icall (IOpen artifactPath) ≫= check_ctx ("opening artifact " +:+ artifactPath);;
  let blobName := buildObjectKey (az_Path destination) backupName artifactType in
  icall (IUploadBlob client (az_Container destination) blobName artifactPath) ≫=
    check_ctx ("uploading to azure container " +:+ quoted (az_Container destination) +:+ " blob " +:+ quoted blobName);;
  describe artifactPath artifactType (azblob_url (az_Container destination) blobName) blobName.

Definition uploadBackup (backupName : string) (destination : BackupDestination) (artifactPath artifactType : string)
  : iprog backupResponse :=
  match bd_S3 destination, bd_Azure destination with
  | Some s3, _ => uploadBackupToS3 backupName s3 artifactPath artifactType
  | None, Some az => uploadBackupToAzure backupName az artifactPath artifactType
  | None, None => Throw (Errorf "no backup destination configured")
  end.

Definition destination_message (e : DestinationError) : string :=
  match e with
  | DestinationRequired => "destination is required"
  | DestinationNone => "destination requires exactly one of s3 or azure"
  | DestinationBoth => "destination must set exactly one of s3 or azure"
  | BucketRequired => "destination.s3.bucket is required"
  | ContainerRequired => "destination.azure.container is required"
  end.

(** An error, or the description of the uploaded artifact. *)
Inductive backup_reply := BackupText (r : reply) | BackupJSON (r : backupResponse).

Definition cleanup (temporary : bool) (artifactPath : string) : iprog unit :=
  if temporary then icall (IRemove artifactPath) else mret tt.

(** Past the guards.  The temporary archive is removed however the upload
    ends. *)
Definition take_backup (fuel : nat) (backupName method : string) (destination : BackupDestination)
  : iprog (option backup_reply) :=
  prepared ← catch (prepareBackupArtifact fuel method);
  match prepared with
  | Err e => mret (Some (BackupText (http_Error ("preparing backup artifact: " +:+ Error e) 500)))
  | Ok None => mret None
  | Ok (Some (artifactPath, artifactType, temporary)) =>
      result ← catch (uploadBackup backupName destination artifactPath artifactType);
      cleanup temporary artifactPath;;
      mret (Some (match result with
                  | Err e => BackupText (http_Error ("uploading backup artifact: " +:+ Error e) 500)
                  | Ok r => BackupJSON r
                  end))
  end.

Definition handleBackup (fuel : nat) (m : method) (body : res backup_request) : iprog (option backup_reply) :=
  if negb (bool_decide (m = POST)) then mret (Some (BackupText method_not_allowed))
  else if negb (sv_redisClient s) then mret (Some (BackupText (http_Error "redis client is not configured" 500)))
  else
    match body with
    | Err e => mret (Some (BackupText (http_Error ("invalid request body: " +:+ Error e) 400)))
    | Ok req =>
        if bool_decide (rq_BackupName req = "") then mret (Some (BackupText (http_Error "backupName is required" 400)))
        else
          match Destination_Validate (rq_Destination req), rq_Destination req with
          | None, Some destination =>
              take_backup fuel (rq_BackupName req)
                (if bool_decide (rq_Method req = "") then BackupMethodRDB else rq_Method req) destination
          | Some e, _ => mret (Some (BackupText (http_Error (destination_message e) 400)))
          | None, None => mret (Some (BackupText (http_Error (destination_message DestinationRequired) 400)))
          end
    end.
End handler.

(** What the operator's [BackupResult] decodes. *)
Definition decode_backup (r : backupResponse) : BackupResult :=
  mkBackupResult (bp_ArtifactType r) (bp_BackupPath r) (bp_BackupSize r) (bp_ChecksumSHA256 r).
