(* ===== verification/Restore.v ===== *)
(** * Restoring a backup ([internal/cmd/manager/restore])

    The init container of a pod that bootstraps from a backup: it reads the
    [RedisBackup] and the [RedisCluster], decides which artifact is this pod's,
    downloads it and, for an AOF archive, extracts it beside the data directory
    and puts it in place with one rename.  [rest] is the signature of what it
    asks for: the API server, the object store, and the file system. *)
From S2P Require Import Prelude GoStr Api Effects Kube Resources Replication Url Storage Paths.
From Stdlib Require Import Ascii.

(** ** Operations *)

(** [tarReader.Next] *)
Inductive typeflag := TypeDir | TypeReg | TypeXHeader | TypeXGlobalHeader | TypeOther (flag : Z).
#[export] Instance typeflag_eq_dec : EqDecision typeflag.
Proof. solve_decision. Defined.

Record tar_header := mkHeader { th_Name : string; th_Typeflag : typeflag; th_Size : Z }.
Inductive tar_next := TarEOF | TarError (e : error) | TarEntry (h : tar_header).

(** [RCopyEntry path size] copies at most [size] bytes of the current tar entry
    and answers with what it wrote. *)
Inductive rest_op :=
| RKubeConfig
| RKubeClient
| RGetBackup (namespace name : string)
| RGetCluster (namespace name : string)
| RGetSecret (namespace name : string)
| RLoadAWSConfig (region : string)
| RSharedKey (account key : string)
| RAzureClient (client : azure_client)
| RGetObject (client : s3_client) (bucket key : string)
| RCopyBody (path : string)
| RDownloadBlob (client : azure_client) (container blob path : string)
| RCreateTemp (dir pattern : string)
| RStat (path : string)
| ROpen (path : string)
| RGzipReader (path : string)
| RNext
| RMkdirAll (path : string) (mode : Z)
| RChmod (path : string) (mode : Z)
| RCreate (path : string) (mode : Z)
| RCopyEntry (path : string) (size : Z)
| RClose (path : string)
| RRemove (path : string)
| RRemoveAll (path : string)
| RRename (old new : string).

Definition rest_ret (c : rest_op) : Type :=
  match c with
  | RKubeConfig | RKubeClient => res unit
  | RGetBackup _ _ => res RedisBackup
  | RGetCluster _ _ => res RedisCluster
  | RGetSecret _ _ => res (gmap string string)
  | RLoadAWSConfig _ | RSharedKey _ _ | RAzureClient _ => res unit
  | RGetObject _ _ _ | RCopyBody _ | RDownloadBlob _ _ _ _ => res unit
  | RCreateTemp _ _ => res string
  | RStat _ => res Z
  | ROpen _ | RGzipReader _ => res unit
  | RNext => tar_next
  | RMkdirAll _ _ | RChmod _ _ | RCreate _ _ => res unit
  | RCopyEntry _ _ => Z * option error
  | RClose _ => res unit
  | RRemove _ => unit
  | RRemoveAll _ | RRename _ _ => res unit
  end.

Definition rest : sig := mkSig rest_op rest_ret.
Abbreviation rprog := (prog rest).
Abbreviation rev_ c r := (ev (S := rest) c r).
Definition rcall (c : rest_op) : rprog (rest_ret c) := call (S := rest) c.

#[export] Instance rest_store : ObjectStore rest := {|
  LoadDefaultConfig r := rcall (RLoadAWSConfig r);
  NewSharedKeyCredential a k := rcall (RSharedKey a k);
  NewAzureClient c := rcall (RAzureClient c)
|}.

(** ** Constants *)

Definition defaultBackupFilename := "dump.rdb".
Definition defaultAOFDirectory := "appendonlydir".
Definition defaultAOFManifest := "appendonly.aof.manifest".
Definition maxExtractedBytes : Z := Z.shiftl 32 30.
Definition restoredAOFDirMode : Z := 511.
Definition restoredAOFFileMode : Z := 438.

(** ** Which artifact *)

(** Go's integer division and remainder truncate. *)
Definition clusterShardFromPod (clusterName : string) (replicasPerShard : Z) (podName : string) : res (string * bool) :=
  if bool_decide (clusterName = "") || bool_decide (podName = "") then Err (Errorf "cluster and pod name are required")
  else
    let prefix := clusterName +:+ "-" in
    if negb (HasPrefix podName prefix)
    then Err (Errorf ("pod " +:+ podName +:+ " does not match cluster prefix " +:+ prefix))
    else
      match Atoi (TrimPrefix podName prefix) with
      | (_, Some _) => Err (Errorf ("parsing pod ordinal from " +:+ podName))
      | (index, None) =>
          let size := int32 (1 + replicasPerShard) in
          let groupSize := if bool_decide (size ≤ 0) then 1 else size in
          Ok ("s" +:+ itoa (Z.quot index groupSize), bool_decide (Z.rem index groupSize = 0))
      end.

Definition resolveArtifactType (backup : RedisBackup) : res string :=
  let recorded := bst_ArtifactType (b_Status backup) in
  if negb (bool_decide (recorded = "")) then
    if bool_decide (recorded = BackupArtifactTypeRDB) || bool_decide (recorded = BackupArtifactTypeAOFArchive)
    then Ok recorded
    else Err (Errorf ("unknown status.artifactType " +:+ quoted recorded))
  else
    let method := if bool_decide (bs_Method (b_Spec backup) = "") then BackupMethodRDB else bs_Method (b_Spec backup) in
    if bool_decide (method = BackupMethodRDB) then Ok BackupArtifactTypeRDB
    else if bool_decide (method = BackupMethodAOF) then Ok BackupArtifactTypeAOFArchive
    else Err (Errorf ("unsupported backup method " +:+ quoted method)).

(** ** Downloads *)

(** [os.Remove] of a temporary file before the error is returned. *)
Definition or_remove (tempPath ctx : string) (r : res unit) : rprog unit :=
  match r with
  | Ok _ => mret tt
  | Err e => rcall (RRemove tempPath);; Throw (Wrap ctx e)
  end.

Definition downloadObjectToFile (client : s3_client) (bucket key outputPath : string) : rprog unit :=
  rcall (RMkdirAll (Dir outputPath) 493) ≫= check_ctx "creating output directory";;
  rcall (RGetObject client bucket key) ≫= check;;
  let tempPath := outputPath +:+ ".tmp" in
  rcall (RCreate tempPath 420) ≫= check_ctx ("opening output file " +:+ tempPath);;
  copied ← rcall (RCopyBody tempPath);
  match copied with
  | Err e => rcall (RClose tempPath);; rcall (RRemove tempPath);; Throw (Wrap "writing backup file" e)
  | Ok _ =>
      rcall (RClose tempPath) ≫= or_remove tempPath ("closing output file " +:+ tempPath);;
      rcall (RRename tempPath outputPath) ≫= or_remove tempPath ("renaming " +:+ tempPath +:+ " to " +:+ outputPath)
  end.

Definition downloadAzureBlobToFile (client : azure_client) (container blob outputPath : string) : rprog unit :=
  rcall (RMkdirAll (Dir outputPath) 493) ≫= check_ctx "creating output directory";;
  let tempPath := outputPath +:+ ".tmp" in
  rcall (RCreate tempPath 420) ≫= check_ctx ("opening output file " +:+ tempPath);;
  downloaded ← rcall (RDownloadBlob client container blob tempPath);
  match downloaded with
  | Err e =>
      rcall (RClose tempPath);; rcall (RRemove tempPath);;
      Throw (Wrap ("downloading azure container " +:+ quoted container +:+ " blob " +:+ quoted blob) e)
  | Ok _ =>
      rcall (RClose tempPath) ≫= or_remove tempPath ("closing output file " +:+ tempPath);;
      rcall (RRename tempPath outputPath) ≫= or_remove tempPath ("renaming " +:+ tempPath +:+ " to " +:+ outputPath)
  end.

(** [objectDownloader] *)
Inductive downloader :=
| FromS3 (client : s3_client) (bucket key : string)
| FromAzure (client : azure_client) (container blob : string).

Definition download (d : downloader) (outputPath : string) : rprog unit :=
  match d with
  | FromS3 client bucket key => downloadObjectToFile client bucket key outputPath
  | FromAzure client container blob => downloadAzureBlobToFile client container blob outputPath
  end.

Definition newBackupDownloader (backup : RedisBackup) (backupPath secretName : string) (secret : gmap string string)
  : rprog downloader :=
  let destination := default (mkDestination None None) (bs_Destination (b_Spec backup)) in
  match bd_S3 destination, bd_Azure destination with
  | Some s3, _ =>
      location ← check_ctx "resolving backup location" (resolveBackupLocation (s3_Bucket s3) backupPath);
      creds ← check_ctx ("reading AWS credentials from secret " +:+ secretName) (readAWSCredentials secret);
      client ← with_ctx "creating S3 client" (newS3Client s3 creds);
      mret (FromS3 client location.1 location.2)
  | None, Some az =>
      location ← check_ctx "resolving backup location" (resolveAzureBlobLocation (az_Container az) backupPath);
      client ← with_ctx "creating Azure client" (newAzureBlobClient az (readAzureCredentials secret));
      mret (FromAzure client location.1 location.2)
  | None, None => Throw (Errorf "backup has no supported destination")
  end.

(** ** Extraction *)

Definition sanitizeArchivePath (baseDir archiveEntry : string) : res string :=
  let cleanEntry := Clean (TrimSpace archiveEntry) in
  let escapes := Errorf ("archive entry " +:+ quoted archiveEntry +:+ " escapes extraction root") in
  if bool_decide (cleanEntry = ".") || bool_decide (cleanEntry = "") then Err (Errorf "archive contains empty path entry")
  else if HasPrefix cleanEntry "/" || bool_decide (cleanEntry = "..") || HasPrefix cleanEntry "../" then Err escapes
  else
    let cleanBase := Clean baseDir in
    let cleanTarget := Clean (Join [baseDir; cleanEntry]) in
    if negb (bool_decide (cleanTarget = cleanBase)) && negb (HasPrefix cleanTarget (cleanBase +:+ "/")) then Err escapes
    else Ok cleanTarget.

Section extract.
Context (stagingDir : string) (extractLimit : Z).

Definition extract_dir (entryPath : string) : rprog unit :=
  rcall (RMkdirAll entryPath restoredAOFDirMode) ≫= check_ctx ("creating directory " +:+ entryPath);;
  rcall (RChmod entryPath restoredAOFDirMode) ≫= check_ctx ("setting permissions on directory " +:+ entryPath).

(** The bytes written. *)
Definition extract_file (entryPath : string) (size : Z) : rprog Z :=
  let parentDir := Dir entryPath in
  rcall (RMkdirAll parentDir restoredAOFDirMode) ≫= check_ctx ("creating parent directory for " +:+ entryPath);;
  rcall (RChmod parentDir restoredAOFDirMode) ≫= check_ctx ("setting permissions on parent directory " +:+ parentDir);;
  rcall (RCreate entryPath restoredAOFFileMode) ≫= check_ctx ("creating extracted file " +:+ entryPath);;
  copied ← rcall (RCopyEntry entryPath size);
  closed ← rcall (RClose entryPath);
  match copied with
  | (_, Some copyErr) => Throw (Wrap ("extracting file " +:+ entryPath) copyErr)
  | (written, None) =>
      check_ctx ("closing extracted file " +:+ entryPath) closed;;
      if negb (bool_decide (written = size))
      then Throw (Errorf ("extracted file " +:+ entryPath +:+ " truncated (wrote " +:+ itoa written +:+ " bytes, expected " +:+
                    itoa size +:+ ")"))
      else
        rcall (RChmod entryPath restoredAOFFileMode) ≫= check_ctx ("setting permissions on extracted file " +:+ entryPath);;
        mret written
  end.

(** The loop over the archive; [None] when the fuel ends before the archive. *)
Fixpoint extract_entries (fuel : nat) (extractedBytes : Z) : rprog (option unit) :=
  match fuel with
  | O => mret None
  | S fuel' =>
      next ← rcall RNext;
      match next with
      | TarEOF => mret (Some tt)
      | TarError e => Throw (Wrap "reading tar entry" e)
      | TarEntry header =>
          entryPath ← check (sanitizeArchivePath stagingDir (th_Name header));
          match th_Typeflag header with
          | TypeDir => extract_dir entryPath;; extract_entries fuel' extractedBytes
          | TypeReg =>
              written ← extract_file entryPath (th_Size header);
              let total := int64 (extractedBytes + written) in
              if bool_decide (extractLimit < total)
              then Throw (Errorf ("archive expands to " +:+ itoa total +:+ " bytes, exceeding limit " +:+ itoa extractLimit))
              else extract_entries fuel' total
          | TypeXHeader | TypeXGlobalHeader => extract_entries fuel' extractedBytes
          | TypeOther flag => Throw (Errorf ("unsupported tar entry type " +:+ itoa flag +:+ " for " +:+ quoted (th_Name header)))
          end
      end
  end.

(** After the last entry: the manifest must be there before the old directory is
    replaced. *)
Definition promote_staging (targetDir : string) : rprog unit :=
  let manifestPath := Join [stagingDir; defaultAOFManifest] in
  rcall (RStat manifestPath) ≫= check_ctx ("expected AOF manifest " +:+ manifestPath +:+ " is missing");;
  rcall (RRemoveAll targetDir) ≫= check_ctx ("removing old AOF directory " +:+ targetDir);;
  rcall (RRename stagingDir targetDir) ≫= check_ctx ("promoting staging directory " +:+ stagingDir +:+ " to " +:+ targetDir).
End extract.

Definition extract_limit (size : Z) : Z := Z.min (int64 (int64 (size * 100) + Z.shiftl 64 20)) maxExtractedBytes.

Definition aof_dir (dataDir : string) : string := Join [dataDir; defaultAOFDirectory].
Definition staging_dir (dataDir : string) : string := aof_dir dataDir +:+ ".restore-tmp".

(** Every failure once the staging directory exists removes it. *)
Definition extractTarGz (fuel : nat) (archivePath dataDir : string) : rprog (option unit) :=
  size ← rcall (RStat archivePath) ≫= check_ctx ("stat archive " +:+ archivePath);
  rcall (ROpen archivePath) ≫= check_ctx ("opening archive " +:+ archivePath);;
  rcall (RGzipReader archivePath) ≫= check_ctx ("creating gzip reader for " +:+ archivePath);;
  let targetDir := aof_dir dataDir in
  let stagingDir := staging_dir dataDir in
  rcall (RRemoveAll stagingDir) ≫= check_ctx ("cleaning staging directory " +:+ stagingDir);;
  rcall (RMkdirAll stagingDir restoredAOFDirMode) ≫= check_ctx ("creating staging directory " +:+ stagingDir);;
  rcall (RChmod stagingDir restoredAOFDirMode) ≫= check_ctx ("setting permissions on staging directory " +:+ stagingDir);;
  extracted ← catch (
    done ← extract_entries stagingDir (extract_limit size) fuel 0;
    match done with
    | None => mret None
    | Some _ => promote_staging stagingDir targetDir;; mret (Some tt)
    end);
  match extracted with
  | Ok done => mret done
  | Err e => rcall (RRemoveAll stagingDir);; Throw e
  end.

(** The temporary archive is removed however the extraction ends. *)
Definition downloadAndExtractAOFArchive (fuel : nat) (d : downloader) (dataDir : string) : rprog (option unit) :=
  archivePath ← rcall (RCreateTemp dataDir "aof-archive-*.tar.gz") ≫= check_ctx "creating temporary AOF archive file";
  rcall (RClose archivePath) ≫= or_remove archivePath ("closing temporary archive file " +:+ archivePath);;
  result ← catch (
    with_ctx ("downloading archive to " +:+ archivePath) (download d archivePath);;
    with_ctx ("extracting AOF archive " +:+ archivePath) (extractTarGz fuel archivePath dataDir));
  match result with
  | Ok None => mret None
  | Ok (Some _) => rcall (RRemove archivePath);; mret (Some tt)
  | Err e => rcall (RRemove archivePath);; Throw e
  end.

(** ** The whole command *)

(** This pod's artifact: its path and type; [None] for a replica of a shard. *)
Definition select_artifact (backup : RedisBackup) (cluster : RedisCluster) (podName artifactType : string)
  : res (option (string * string)) :=
  let status := b_Status backup in
  if bool_decide (Spec_Mode (Spec cluster) = ClusterModeCluster) && negb (bool_decide (bst_ShardArtifacts status = ∅)) then
    if bool_decide (podName = "") then Err (Errorf "pod name is required for cluster-mode restore when status.shardArtifacts is set")
    else
      match clusterShardFromPod (Name cluster) (Spec_ReplicasPerShard (Spec cluster)) podName with
      | Err e => Err (Wrap ("determining shard for pod " +:+ podName) e)
      | Ok (_, false) => Ok None
      | Ok (shardName, true) =>
          match bst_ShardArtifacts status !! shardName with
          | None => Err (Errorf ("RedisBackup " +:+ b_Name backup +:+ " has no shard artifact for " +:+ shardName))
          | Some a =>
              if bool_decide (sba_BackupPath a = "")
              then Err (Errorf ("RedisBackup " +:+ b_Name backup +:+ " shard " +:+ shardName +:+ " has empty backupPath"))
              else Ok (Some (sba_BackupPath a, if bool_decide (sba_ArtifactType a = "") then artifactType else sba_ArtifactType a))
          end
      end
  else Ok (Some (bst_BackupPath status, artifactType)).

Definition restore_artifact (fuel : nat) (dataDir backupPath artifactType : string) (d : downloader) : rprog (option unit) :=
  if bool_decide (artifactType = BackupArtifactTypeRDB) then
    let targetPath := Join [dataDir; defaultBackupFilename] in
    with_ctx ("downloading backup " +:+ quoted backupPath +:+ " to " +:+ targetPath) (download d targetPath);;
    mret (Some tt)
  else if bool_decide (artifactType = BackupArtifactTypeAOFArchive) then
    with_ctx ("restoring AOF archive from " +:+ quoted backupPath) (downloadAndExtractAOFArchive fuel d dataDir)
  else Throw (Errorf ("unsupported artifact type " +:+ quoted artifactType)).

Definition Run (fuel : nat) (clusterName backupName backupNamespace dataDir podName : string) : rprog (option unit) :=
  if bool_decide (clusterName = "") then Throw (Errorf "cluster name is required")
  else if bool_decide (backupName = "") then Throw (Errorf "backup name is required")
  else if bool_decide (backupNamespace = "") then Throw (Errorf "backup namespace is required")
  else if bool_decide (dataDir = "") then Throw (Errorf "data directory is required")
  else
    let what := "RedisBackup " +:+ backupNamespace +:+ "/" +:+ backupName in
    rcall RKubeConfig ≫= check_ctx "creating Kubernetes client: getting kubeconfig";;
    rcall RKubeClient ≫= check_ctx "creating Kubernetes client";;
    backup ← rcall (RGetBackup backupNamespace backupName) ≫= check_ctx ("fetching " +:+ what);
    if negb (bool_decide (bst_Phase (b_Status backup) = BackupPhaseCompleted)) then Throw (Errorf (what +:+ " is not completed"))
    else
      match Destination_Validate (bs_Destination (b_Spec backup)) with
      | Some _ => Throw (Errorf (what +:+ " has invalid destination"))
      | None =>
          cluster ← rcall (RGetCluster backupNamespace clusterName) ≫= check_ctx ("fetching RedisCluster " +:+ clusterName);
          artifactType ← check_ctx ("determining backup artifact type for " +:+ what) (resolveArtifactType backup);
          selected ← check (select_artifact backup cluster podName artifactType);
          match selected with
          | None => mret (Some tt)
          | Some (backupPath, artifactType) =>
              if bool_decide (backupPath = "") then Throw (Errorf (what +:+ " has empty status.backupPath"))
              else
                match Spec_BackupCredentialsSecret (Spec cluster) with
                | None => Throw (Errorf ("RedisCluster " +:+ clusterName +:+ " has no backupCredentialsSecret configured"))
                | Some secretName =>
                    secret ← rcall (RGetSecret backupNamespace secretName) ≫=
                               check_ctx ("fetching backup credentials secret " +:+ secretName);
                    d ← newBackupDownloader backup backupPath secretName secret;
                    restore_artifact fuel dataDir backupPath artifactType d
                end
          end
      end.
