(* ===== verification/InstanceFixtures.v ===== *)
(** * Concrete environments for the instance manager and the restore command

    Executable environments for the witnesses: a pod whose Redis, files, peers
    and API server answer what a small world records, and an archive given as
    the list of its entries. *)
From S2P Require Import Prelude GoStr Api Effects Kube Resources Replication Storage InstanceManager Restore.

Record inst_world := mkInstWorld {
  iw_cluster : res RedisCluster;
  iw_pod : res Pod;
  iw_pods : res (list Pod);
  iw_text : list string → res string;
  iw_keys : list (list string);
  iw_files : gmap string string;
  iw_walk : list walk_step;
  iw_peer : peer_event
}.

(** Commands succeed, each GETKEYSINSLOT answers with the next batch. *)
Definition inst_env : environment inst inst_world := λ w c,
  match c return inst_ret c * inst_world with
  | IEvent _ _ _ => (tt, w)
  | IMapOrder => (λ _, [], w)
  | IGetCluster => (iw_cluster w, w)
  | IGetPod _ => (iw_pod w, w)
  | IListPods _ => (iw_pods w, w)
  | IPatchStatus _ after => (Ok after, w)
  | ICmd _ _ => (Ok tt, w)
  | IText _ args => (iw_text w args, w)
  | IKeys _ _ =>
      match iw_keys w with
      | [] => (Ok (Some []), w)
      | batch :: rest =>
          (Ok (Some (Some <$> batch)),
           mkInstWorld (iw_cluster w) (iw_pod w) (iw_pods w) (iw_text w) rest (iw_files w) (iw_walk w) (iw_peer w))
      end
  | IInterrupt => (tt, w)
  | IGetenv _ => ("", w)
  | IReadFile path => (match iw_files w !! path with Some v => Ok v | None => Err (ENotFound path) end, w)
  | IWriteFile _ _ => (Ok tt, w)
  | IStat _ => (Ok 1024, w)
  | IMkdirAll _ => (Ok tt, w)
  | IRemove _ => (tt, w)
  | ICreateTemp _ => (Ok "/tmp/redis-backup-1.tar.gz", w)
  | IOpenArchive _ | IOpen _ | IClose _ => (Ok tt, w)
  | IWalkDir _ => (iw_walk w, w)
  | IWriteHeader _ | ICopyFile _ => (Ok tt, w)
  | ITick => (false, w)
  | IStartPeer _ _ => (tt, w)
  | INextPeer => (iw_peer w, w)
  | ILoadAWSConfig _ | ISharedKey _ _ | IAzureClient _ => (Ok tt, w)
  | IPutObject _ _ _ _ | IUploadBlob _ _ _ _ => (Ok tt, w)
  | IKubeConfig | IKubeClient | INewManager | ISetupReconciler => (Ok tt, w)
  | IStartServer _ | IStartManager | IStartWatch => (tt, w)
  | IStartProcess _ _ | IWaitProcess _ => (Ok tt, w)
  end.

(** What is left of the archive. *)
Definition rest_env (backup : RedisBackup) (cluster : RedisCluster) (secret : gmap string string)
  : environment rest (list tar_header) := λ w c,
  match c return rest_ret c * list tar_header with
  | RKubeConfig | RKubeClient => (Ok tt, w)
  | RGetBackup _ _ => (Ok backup, w)
  | RGetCluster _ _ => (Ok cluster, w)
  | RGetSecret _ _ => (Ok secret, w)
  | RLoadAWSConfig _ | RSharedKey _ _ | RAzureClient _ => (Ok tt, w)
  | RGetObject _ _ _ | RCopyBody _ | RDownloadBlob _ _ _ _ => (Ok tt, w)
  | RCreateTemp _ _ => (Ok "/data/aof-archive-1.tar.gz", w)
  | RStat _ => (Ok 1024, w)
  | ROpen _ | RGzipReader _ => (Ok tt, w)
  | RNext => match w with [] => (TarEOF, []) | h :: w' => (TarEntry h, w') end
  | RMkdirAll _ _ | RChmod _ _ | RCreate _ _ => (Ok tt, w)
  | RCopyEntry _ size => ((size, None), w)
  | RClose _ => (Ok tt, w)
  | RRemove _ => (tt, w)
  | RRemoveAll _ | RRename _ _ => (Ok tt, w)
  end.

Definition master_info : string :=
  "role:master" +:+ String CR (String LF ("connected_slaves:1" +:+ String CR (String LF "master_repl_offset:100"))).
