(* ===== verification/RestoreFacts.v ===== *)
(** * Restoring a backup: theorems

    An archive cannot write outside the staging directory, the existing data is
    replaced only by a complete extraction, and the extraction is bounded.  The
    objects a backup uploaded are found again from the recorded URL.  In cluster
    mode the pod a shard's artifact is restored into is not the pod the layout
    planner gives that shard to. *)
From S2P Require Import Prelude GoStr Api Effects History Kube Fixtures Resources Replication Url Storage Paths Restore.
From S2P Require Import Slots Layout InstanceManager Webserver BackupUpload InstanceFixtures.
From Stdlib Require Import Ascii.

Abbreviation rsafe G h p Q := (safe (S := rest) G h p Q).

(** One checked call: the guard, then the continuation after success. *)
Ltac rest_step :=
  lazymatch goal with
  | |- safe ?G ?h (mbind ?f (mbind ?chk (rcall ?c))) ?Q =>
      simple refine (safe_call (S := rest) G h c (λ r, prog_bind rest _ _ f (chk r)) Q _ _);
      [|intros [?|?]; [|exact I]; cbn beta; cbn [check_ctx check];
        lazymatch goal with |- safe ?G ?h' (prog_bind _ _ _ ?g (Ret ?a)) ?Q => change (safe G h' (g a) Q); cbn beta end]
  | |- safe ?G ?h (mbind ?chk (rcall ?c)) ?Q =>
      simple refine (safe_call (S := rest) G h c chk Q _ _); [|intros [?|?]; [cbn [check_ctx check]|exact I]]
  end.

(** ** Confinement *)

(** [p] is the directory with components [b] or lies below it. *)
Definition below (b : list string) (p : string) : Prop := ∃ e, Forall normal e ∧ p = path_text true (b ++ e).

Lemma sanitize_below b entry p :
  b ≠ [] → Forall normal b → sanitizeArchivePath (path_text true b) entry = Ok p →
  ∃ e, e ≠ [] ∧ Forall normal e ∧ p = path_text true (b ++ e).
Proof.
  intros Hb0 Hb. unfold sanitizeArchivePath. set (t := TrimSpace entry).
  destruct (clean_components_ok (HasPrefix t "/") (split_char t "/"%char)) as (k & e & Hc & He & Hk);
    [apply split_char_no_sep|].
  assert (Clean t = path_text (HasPrefix t "/") (replicate k ".." ++ e)) as -> by (unfold Clean; by rewrite Hc). clear Hc.
  destruct (HasPrefix t "/").
  { rewrite Hk by done. cbn [replicate app path_text].  destruct (bool_decide (_ = ".") || _); [done|].
    replace (HasPrefix ("/" +:+ String.concat "/" e) "/") with true by (by destruct (String.concat "/" e)). done. }
  destruct k as [|k].
  - cbn [replicate app]. change (path_text false e) with (if bool_decide (String.concat "/" e = "") then "." else String.concat "/" e).
    destruct (bool_decide_reflect (String.concat "/" e = "")) as [|Hne]; [by rewrite bool_decide_true|].
    destruct (bool_decide (_ = ".") || _); [done|]. destruct (_ || _ || _); [done|].
    assert (e ≠ []) as He0 by (by intros ->).
    rewrite Join_below, Clean_path_text by (done || by apply Forall_app).
    destruct (negb _ && negb _); [done|]. intros [= <-]. by exists e.
  - cbn [replicate app]. assert (path_text false (".." :: replicate k ".." ++ e) = String.concat "/" (".." :: replicate k ".." ++ e)) as ->.
    { unfold path_text. by rewrite bool_decide_false by (by destruct (replicate k ".." ++ e)). }
    destruct (bool_decide (_ = ".") || _); [done|].
    destruct (replicate k ".." ++ e) as [|c l].
    + rewrite (bool_decide_true (_ = "..")) by done. by rewrite orb_true_r.
    + rewrite concat_cons. replace (HasPrefix (".." +:+ "/" +:+ String.concat "/" (c :: l)) "../") with true; [by rewrite orb_true_r|].
      by destruct (String.concat "/" (c :: l)).
Qed.

Lemma Dir_below b e : b ≠ [] → Forall normal b → e ≠ [] → Forall normal e → below b (Dir (path_text true (b ++ e))).
Proof.
  intros Hb0 Hb He0 He. exists (removelast e). split.
  - apply Forall_forall. intros c Hc. eapply Forall_forall; [exact He|].
    destruct (exists_last He0) as (e' & x & ->). rewrite removelast_last in Hc. set_solver.
  - unfold Dir.
    replace (HasPrefix (path_text true (b ++ e)) "/") with true by (unfold path_text; by destruct (String.concat "/" (b ++ e))).
    change (split_char (path_text true (b ++ e))) with (split_char ("/" +:+ String.concat "/" (b ++ e))).
    rewrite rooted_components.
    rewrite clean_split by (by apply Forall_app). by rewrite removelast_app.
Qed.

(** A name appended to the last component. *)
Lemma path_text_suffix d x y : path_text true (d ++ [x]) +:+ y = path_text true (d ++ [x +:+ y]).
Proof.
  unfold path_text. rewrite append_assoc. f_equal. destruct d as [|c d]; [done|].
  rewrite !concat_app_sep by done. by rewrite !append_assoc.
Qed.

(** The data directory, the live AOF directory and the staging directory. *)
Section extraction.
Context (d : list string).
Hypothesis d_nonempty : d ≠ [].
Hypothesis d_normal : Forall normal d.

Definition live : list string := d ++ [defaultAOFDirectory].
Definition staging : list string := d ++ [defaultAOFDirectory +:+ ".restore-tmp"].

Lemma aof_dir_text : aof_dir (path_text true d) = path_text true live.
Proof. unfold aof_dir. apply (Join_below d [defaultAOFDirectory]); [done..|]. by repeat constructor. Qed.

Lemma staging_dir_text : staging_dir (path_text true d) = path_text true staging.
Proof. unfold staging_dir. rewrite aof_dir_text. apply path_text_suffix. Qed.

Lemma staging_ok : staging ≠ [] ∧ Forall normal staging.
Proof. split; [by intros [_ ?]%app_eq_nil|]. apply Forall_app. split; [done|]. by repeat constructor. Qed.

Definition manifest_path : string := path_text true (staging ++ [defaultAOFManifest]).

(** The archive was read to its end and has a manifest. *)
Definition complete (h : trace rest) : Prop :=
  rev_ RNext TarEOF ∈ h ∧ ∃ size, rev_ (RStat manifest_path) (Ok size) ∈ h.

(** What the extraction may do to the file system after the events [h]. *)
Definition extraction_guard (h : trace rest) (c : rest_op) : Prop :=
  match c with
  | RMkdirAll p _ | RChmod p _ | RCreate p _ | RCopyEntry p _ => below staging p
  | RRemoveAll p => p = path_text true staging ∨ (p = path_text true live ∧ complete h)
  | RRename old new =>
      old = path_text true staging ∧ new = path_text true live ∧ complete h ∧
      rev_ (RRemoveAll (path_text true live)) (Ok tt) ∈ h
  | RRemove _ | RCreateTemp _ _ => False
  | _ => True
  end.

Abbreviation xsafe h p Q := (safe (S := rest) extraction_guard h p Q).

Lemma below_self : below staging (path_text true staging).
Proof. exists []. split; [done|]. by rewrite app_nil_r. Qed.

Lemma extract_dir_safe h p : below staging p → xsafe h (extract_dir p) (λ h' _, h `prefix_of` h').
Proof. intros Hp. unfold extract_dir. rest_step; [done|]. rest_step; [done|]. simpl. rewrite <- app_assoc. by apply prefix_app_r. Qed.

Lemma extract_file_safe h e size :
  e ≠ [] → Forall normal e → xsafe h (extract_file (path_text true (staging ++ e)) size) (λ _ n, n = size).
Proof.
  intros He0 He. destruct staging_ok as [Hs0 Hs].
  assert (below staging (Dir (path_text true (staging ++ e)))) as Hd by (by apply Dir_below).
  assert (below staging (path_text true (staging ++ e))) as Hb by (by exists e).
  unfold extract_file. rest_step; [done|]. rest_step; [done|]. rest_step; [done|].
  apply (safe_call (S := rest)); [done|]. intros [written [err|]]; (apply (safe_call (S := rest)); [done|]); [done|].
  intros [[]|err]; [|done]. cbn [check_ctx]. change (safe ?G ?h (mbind ?f (Ret tt)) ?Q) with (safe G h (f tt) Q). cbn beta.
  case_bool_decide; [|done]. cbn [negb]. by rest_step.
Qed.

Lemma extract_entries_safe h limit fuel total :
  xsafe h (extract_entries (path_text true staging) limit fuel total) (λ h' x, x = Some tt → rev_ RNext TarEOF ∈ h').
Proof.
  revert h total; induction fuel as [|fuel IH]; intros h total; [done|]. cbn [extract_entries].
  apply (safe_call (S := rest)); [done|]. intros [|e|[name flag size]]; [|done|].
  { intros _. apply elem_of_app. right. apply list_elem_of_here. }
  destruct (sanitizeArchivePath _ _) as [p|e] eqn:Hp; [|done].
  apply sanitize_below in Hp as (e & He0 & He & ->); [|apply staging_ok..].
  change (safe ?G ?h (mbind ?f (check (Ok ?a))) ?Q) with (safe G h (f a) Q). cbn beta. cbn [th_Typeflag th_Size].
  destruct flag; [| |apply IH..|done].
  - eapply safe_bind; [apply extract_dir_safe; by exists e|]. intros h' [] _ _. apply IH.
  - eapply safe_bind; [by apply extract_file_safe|]. intros h' n _ _. cbn zeta. case_bool_decide; [done|]. apply IH.
Qed.

Lemma manifest_text : Join [path_text true staging; defaultAOFManifest] = manifest_path.
Proof. destruct staging_ok. apply (Join_below staging [defaultAOFManifest]); [done..|]. by repeat constructor. Qed.

Lemma promote_staging_safe h :
  rev_ RNext TarEOF ∈ h → xsafe h (promote_staging (path_text true staging) (path_text true live)) (λ _ _, True).
Proof.
  intros Heof. unfold promote_staging. rewrite manifest_text. cbn zeta. rest_step; [done|].
  assert (complete (h ++ [rev_ (RStat manifest_path) (Ok a)])) as Hc.
  { split; [apply elem_of_app; by left|]. exists a. apply elem_of_app. right. apply list_elem_of_here. }
  rest_step; [by right|]. rest_step; [|done]. split; [done|]. split; [done|]. split.
  - destruct Hc as [H1 [sz H2]]. split; [apply elem_of_app; by left|]. exists sz. apply elem_of_app; by left.
  - destruct a0. apply elem_of_app. right. apply list_elem_of_here.
Qed.

Lemma extractTarGz_safe fuel archivePath :
  xsafe [] (extractTarGz fuel archivePath (path_text true d)) (λ _ _, True).
Proof.
  unfold extractTarGz. rewrite aof_dir_text, staging_dir_text.
  rest_step; [done|]. rest_step; [done|]. rest_step; [done|]. cbn zeta.
  rest_step; [by left|]. rest_step; [apply below_self|]. rest_step; [apply below_self|].
  eapply (safe_bind _ _ _ _ (λ _ _, True)).
  { eapply safe_mono; [apply (safe_catch _ _ _ (λ _ _, True))|done]. eapply safe_bind; [apply extract_entries_safe|].
    intros h' [[]|] _ Hx; [|done]. eapply safe_bind; [apply promote_staging_safe; by apply Hx|]. done. }
  intros h' [x|e] _ _; [done|]. apply (safe_call (S := rest)); [by left|]. done.
Qed.
End extraction.

(** C19: An archive, whatever its entries are called, cannot touch the file system
    outside the staging directory, and the live AOF directory is removed and
    replaced only once the archive was read to its end and has a manifest. *)
Theorem extraction_confined d fuel archivePath tr1 e tr2 out :
  d ≠ [] → Forall normal d →
  runs (extractTarGz fuel archivePath (path_text true d)) (tr1 ++ e :: tr2) out →
  extraction_guard d tr1 (projT1 e).
Proof.
  intros Hd0 Hd Hr. exact (proj1 (safe_runs _ _ _ _ _ _ (extractTarGz_safe d Hd0 Hd fuel archivePath) Hr) tr1 e tr2 eq_refl).
Qed.

(** ** The size of an extraction *)

Definition view_copy (e : event rest) : option (Z * option error) :=
  let 'existT c r := e in
  match c return rest_ret c → option (Z * option error) with
  | RCopyEntry _ _ => Some
  | _ => λ _, None
  end r.

(** What a trace has written from the archive. *)
Definition bytes_of (e : event rest) : Z := match view_copy e with Some (n, _) => n | None => 0 end.
Definition extracted (tr : trace rest) : Z := foldr (λ e acc, bytes_of e + acc) 0 tr.

(** [io.Copy] of a limited reader: between nothing and the limit, here below
    four exbibytes so that the running sum does not wrap. *)
Definition copy_ok (e : event rest) : Prop := 0 ≤ bytes_of e < 2 ^ 62.

#[export] Instance copy_ok_dec e : Decision (copy_ok e) := _ : Decision (0 ≤ bytes_of e < 2 ^ 62).

Lemma extracted_snoc tr e : extracted (tr ++ [e]) = extracted tr + bytes_of e.
Proof. unfold extracted. induction tr as [|x tr IH]; simpl in *; lia. Qed.

Abbreviation anything := (λ (_ : trace rest) (_ : rest_op), True).

Lemma anything_safe {A} h (p : rprog A) : rsafe anything h p (λ _ _, True).
Proof. revert h; induction p as [a|e|c k IH]; intros h; [done..|]. split; [done|]. intros r. apply IH. Qed.

(** The part of the trace that matters for the sum. *)
Definition same_sum (h : trace rest) (h' : trace rest) : Prop :=
  Forall copy_ok h' → Forall copy_ok h ∧ extracted h' = extracted h.

Lemma same_sum_snoc h0 h e : bytes_of e = 0 → same_sum h0 h → same_sum h0 (h ++ [e]).
Proof.
  intros He Hs [Hh Hk]%Forall_app. destruct (Hs Hh) as [? Heq]. split; [done|].
  rewrite extracted_snoc, He, Heq. lia.
Qed.

Lemma extract_dir_sum h p : rsafe anything h (extract_dir p) (λ h' _, same_sum h h').
Proof. unfold extract_dir. rest_step; [done|]. rest_step; [done|]. by do 2 (apply same_sum_snoc; [done|]). Qed.

Lemma extract_file_sum h p size :
  rsafe anything h (extract_file p size) (λ h' n,
    Forall copy_ok h' → Forall copy_ok h ∧ extracted h' = extracted h + n ∧ 0 ≤ n < 2 ^ 62).
Proof.
  unfold extract_file. rest_step; [done|]. rest_step; [done|]. rest_step; [done|].
  apply (safe_call (S := rest)); [done|]. intros [written [err|]]; (apply (safe_call (S := rest)); [done|]); [done|].
  intros [[]|err]; [|done]. cbn [check_ctx]. change (safe ?G ?h (mbind ?f (Ret tt)) ?Q) with (safe G h (f tt) Q). cbn beta.
  case_bool_decide; [|done]. cbn [negb]. rest_step; [done|]. intros Hok. rewrite !Forall_app in Hok.
  destruct Hok as [[[[[[Hh _] _] _] Hw%Forall_inv] _] _]. split; [done|].
  rewrite !extracted_snoc. change (bytes_of (rev_ (RCopyEntry p size) (written, None))) with written in *.
  split; [|exact Hw]. change (bytes_of _) with 0. lia.
Qed.

Lemma int64_nonneg z : 0 ≤ z < 2 ^ 63 → int64 z = z.
Proof.
  intros Hz. unfold int64, wrap. rewrite Z.mod_small by lia. by rewrite bool_decide_true by lia.
Qed.

Lemma extract_entries_sum h stagingDir limit fuel total :
  limit < 2 ^ 62 → (Forall copy_ok h → extracted h = total ∧ 0 ≤ total ≤ limit) →
  rsafe anything h (extract_entries stagingDir limit fuel total) (λ h' x,
    Forall copy_ok h' → x = Some tt → 0 ≤ extracted h' ≤ limit).
Proof.
  intros Hlim. revert h total; induction fuel as [|fuel IH]; intros h total Hh; [done|]. cbn [extract_entries].
  assert (∀ r, bytes_of (rev_ RNext r) = 0) as Hn by done.
  apply (safe_call (S := rest)); [done|]. intros [|e|[name flag size]]; [|done|].
  { intros [Hk _]%Forall_app _. destruct (Hh Hk) as [Heq ?]. rewrite extracted_snoc, Hn. lia. }
  destruct (sanitizeArchivePath _ _) as [p|e]; [|done].
  change (safe ?G ?h (mbind ?f (check (Ok ?a))) ?Q) with (safe G h (f a) Q). cbn beta. cbn [th_Typeflag th_Size].
  assert (∀ r, Forall copy_ok (h ++ [rev_ RNext r]) → extracted (h ++ [rev_ RNext r]) = total ∧ 0 ≤ total ≤ limit) as Hh'.
  { intros r [Hk _]%Forall_app. destruct (Hh Hk) as [Heq ?]. rewrite extracted_snoc, Hn. lia. }
  destruct flag; [| |by apply IH, Hh'..|done].
  - eapply safe_bind; [apply extract_dir_sum|]. intros h' [] _ Hs. apply IH. intros Hk. destruct (Hs Hk) as [Hk' ->].
    by apply Hh'.
  - eapply safe_bind; [apply extract_file_sum|]. intros h' n _ Hs. cbn zeta. case_bool_decide as Hle; [done|]. apply IH.
    intros Hk. destruct (Hs Hk) as (Hk' & -> & Hn'). destruct (Hh' _ Hk') as [-> Ht].
    rewrite int64_nonneg in * by lia. lia.
Qed.

Lemma promote_sum h a b : rsafe anything h (promote_staging a b) (λ h' _, same_sum h h').
Proof.
  unfold promote_staging. cbn zeta. rest_step; [done|]. rest_step; [done|]. rest_step; [done|].
  by do 3 (apply same_sum_snoc; [done|]).
Qed.

Lemma extract_limit_small size : 0 ≤ size < 2 ^ 50 → extract_limit size = Z.min (100 * size + 2 ^ 26) (2 ^ 35).
Proof.
  intros Hs. unfold extract_limit, maxExtractedBytes. rewrite (int64_nonneg (size * 100)) by lia.
  change (Z.shiftl 64 20) with (2 ^ 26). change (Z.shiftl 32 30) with (2 ^ 35). rewrite int64_nonneg by lia. f_equal. lia.
Qed.

(** The archive's size was read first, and it bounds what was written. *)
Definition bounded_by_stat (archivePath : string) (tr : trace rest) : Prop :=
  ∃ size, head tr = Some (rev_ (RStat archivePath) (Ok size)) ∧
    (0 ≤ size < 2 ^ 50 → 0 ≤ extracted tr ≤ Z.min (100 * size + 2 ^ 26) (2 ^ 35)).

Lemma extractTarGz_sum fuel archivePath dataDir :
  rsafe anything [] (extractTarGz fuel archivePath dataDir) (λ h' x,
    Forall copy_ok h' → x = Some tt → bounded_by_stat archivePath h').
Proof.
  unfold extractTarGz. rest_step; [done|]. rename a into size.
  rest_step; [done|]. rest_step; [done|]. cbn zeta. rest_step; [done|]. rest_step; [done|]. rest_step; [done|].
  destruct (decide (0 ≤ size < 2 ^ 50)) as [Hsize|Hsize].
  - eapply (safe_bind _ _ _ _ (λ h' x, ∀ y, x = Ok y → Forall copy_ok h' → y = Some tt → 0 ≤ extracted h' ≤ extract_limit size)).
    { apply (safe_catch _ _ _ (λ h' y, Forall copy_ok h' → y = Some tt → 0 ≤ extracted h' ≤ extract_limit size)).
      eapply safe_bind; [apply extract_entries_sum; rewrite extract_limit_small by done; [lia|cbn; lia]|].
      intros h' [[]|] _ Hx; [|done]. eapply safe_bind; [apply promote_sum|]. intros h'' [] _ Hs Hk _.
      destruct (Hs Hk) as [Hk' ->]. by apply Hx. }
    intros h' [x|e] [k ->] Hx; [|done]. intros Hk Hs. exists size. split; [done|]. intros _.
    rewrite <- extract_limit_small by done. by eapply Hx.
  - eapply (safe_bind _ _ _ _ (λ _ _, True)); [apply anything_safe|].
    intros h' [x|e] [k ->] Hx; [|done]. intros Hk Hs. by exists size.
Qed.

(** C21: A successful extraction has written at most a hundred times the size of the
    archive and 64 MiB, and never more than 32 GiB. *)
Theorem extraction_bounded fuel archivePath dataDir tr :
  runs (extractTarGz fuel archivePath dataDir) tr (Ok (Some tt)) → Forall copy_ok tr → bounded_by_stat archivePath tr.
Proof.
  intros Hr Hok. by eapply (safe_runs _ _ _ _ _ _ (extractTarGz_sum fuel archivePath dataDir) Hr).
Qed.

(** *** Witnesses *)

Definition an_archive : list tar_header :=
  [mkHeader "appendonly.aof.1.base.rdb" TypeReg 700; mkHeader "appendonly.aof.manifest" TypeReg 90].

Definition idle_backup (status : RedisBackupStatus) (dest : option BackupDestination) : RedisBackup :=
  mkBackup "nightly" "default" ∅ 0 (mkBackupSpec "c" BackupTargetPrimary "" dest) status.

Definition done_backup : RedisBackup :=
  idle_backup (mkBackupStatus BackupPhaseCompleted "c-0" None None 790 "s3://b/nightly.aof.tar.gz" "aof-archive" ∅ "")
    (Some (mkDestination (Some (mkS3 "b" "" "" "")) None)).

Definition extraction_run := interp (rest_env done_backup three ∅) an_archive (extractTarGz 5 "/data/a.tar.gz" "/data").

Lemma extraction_confined_witness :
  extraction_run.1.2 = Ok (Some tt) ∧ extraction_guard ["data"] (take 23 extraction_run.1.1) (RRename "/data/appendonlydir.restore-tmp" "/data/appendonlydir").
Proof.
  split; [vm_compute; reflexivity|].
  apply (extraction_confined ["data"] 5 "/data/a.tar.gz" (take 23 extraction_run.1.1)
    (rev_ (RRename "/data/appendonlydir.restore-tmp" "/data/appendonlydir") (Ok tt)) [] (Ok (Some tt))).
  - done.
  - by repeat constructor.
  - apply (interp_runs (rest_env done_backup three ∅) an_archive _ _ _ []). vm_compute. reflexivity.
Defined.

Lemma extraction_bounded_witness : bounded_by_stat "/data/a.tar.gz" extraction_run.1.1 ∧ extracted extraction_run.1.1 = 790.
Proof.
  split; [|vm_compute; reflexivity]. apply (extraction_bounded 5 "/data/a.tar.gz" "/data").
  - apply (interp_runs (rest_env done_backup three ∅) an_archive _ _ _ []). vm_compute. reflexivity.
  - apply (bool_decide_eq_true_1 (Forall copy_ok extraction_run.1.1)). vm_compute. reflexivity.
Defined.

(** ** Shards *)

Definition fresh_cluster : RedisCluster := base_cluster (base_spec ClusterModeCluster 6 3 1) (base_status "" ∅).
Definition fresh_layout : shardLayout := default layout_empty (planShardLayout fresh_cluster [] ∅ (λ _, [])).

(** Three shards with a replica each, no pod yet: the planner makes [c-1] and
    [c-2] the primaries of the shards 1 and 2, whose labels they are created
    with; the restore command takes [c-1] for a replica of shard 0 and restores
    nothing, and puts the artifact of shard 1 into [c-2]. *)
Theorem restore_ignores_layout :
  planShardLayout fresh_cluster [] ∅ (λ _, []) = Some fresh_layout ∧
  primary_of fresh_layout 1 = "c-1" ∧ primary_of fresh_layout 2 = "c-2" ∧
  clusterShardFromPod (Name fresh_cluster) (Spec_ReplicasPerShard (Spec fresh_cluster)) "c-1" = Ok (shardName 0, false) ∧
  clusterShardFromPod (Name fresh_cluster) (Spec_ReplicasPerShard (Spec fresh_cluster)) "c-2" = Ok (shardName 1, true).
Proof. vm_compute. repeat split. Qed.

(** ** The archive *)

Lemma sanitize_plain b e :
  b ≠ [] → Forall normal b → e ≠ [] → Forall normal e → TrimSpace (String.concat "/" e) = String.concat "/" e →
  sanitizeArchivePath (path_text true b) (String.concat "/" e) = Ok (path_text true (b ++ e)).
Proof.
  intros Hb0 Hb He0 He Htrim. unfold sanitizeArchivePath. rewrite Htrim, Clean_relative by done.
  destruct (concat_no_prefix e "" He0 He) as [P1 N1]; [by intros [? _]|done|].
  destruct (concat_no_prefix e "." He0 He) as [_ N2]; [by intros (_ & ? & _)|done|].
  destruct (concat_no_prefix e ".." He0 He) as [P3 N3]; [by intros (_ & _ & ? & _)|done|].
  change ("" +:+ "/") with "/" in P1. change (".." +:+ "/") with "../" in P3.
  rewrite P1, P3, !bool_decide_false by done. cbn [orb].
  rewrite Join_below, !Clean_path_text by (done || by apply Forall_app).
  replace (HasPrefix (path_text true (b ++ e)) (path_text true b +:+ "/")) with true; [by rewrite andb_false_r|].
  unfold path_text. rewrite concat_app_sep by done. rewrite <- append_assoc. rewrite <- (append_assoc (_ +:+ _)).
  symmetry. apply HasPrefix_app.
Qed.

(** C20: What the backup archives, the restore puts in the same place: a file at
    some relative path below the AOF directory is entered in the archive under
    that path, and extracted to that path below the staging directory, which then
    becomes the AOF directory of the restored pod.  The paths are clean and
    absolute, and the relative path neither begins nor ends with white space:
    the restore trims the name of an entry. *)
Theorem archive_roundtrip b e d :
  b ≠ [] → Forall normal b → e ≠ [] → Forall normal e → d ≠ [] → Forall normal d →
  TrimSpace (String.concat "/" e) = String.concat "/" e →
  ∃ name, archive_name (path_text true b) (path_text true (b ++ e)) = Ok name ∧
    sanitizeArchivePath (staging_dir (path_text true d)) name = Ok (path_text true (staging d ++ e)).
Proof.
  intros Hb0 Hb He0 He Hd0 Hd Htrim. exists (String.concat "/" e). unfold archive_name. rewrite Rel_below by done.
  split; [done|]. rewrite staging_dir_text by done. destruct (staging_ok d Hd). by apply sanitize_plain.
Qed.

Lemma archive_roundtrip_witness :
  ∃ name, archive_name "/data/appendonlydir" "/data/appendonlydir/old/appendonly.aof.1.base.rdb" = Ok name ∧
    sanitizeArchivePath (staging_dir "/data") name = Ok "/data/appendonlydir.restore-tmp/old/appendonly.aof.1.base.rdb".
Proof.
  apply (archive_roundtrip ["data"; "appendonlydir"] ["old"; "appendonly.aof.1.base.rdb"] ["data"]);
    first [discriminate | by repeat constructor | vm_compute; reflexivity].
Defined.
