(* ===== verification/StorageFacts.v ===== *)
(** * Backup and restore agree

    [backup.go] and [restore.go] meet only in the object store and in the URL
    the backup's status records.  The object a restore downloads is the object
    the backup uploaded, provided the names need no escaping; and the two read
    the same credentials, one from the mounted secret, one from the API. *)
From S2P Require Import Prelude GoStr Api Effects History Kube Backups Resources Replication Url Storage Paths.
From S2P Require Import InstanceManager Webserver BackupUpload Restore Fixtures InstanceFixtures.
From Stdlib Require Import Ascii.

(** ** Locations *)

Lemma TrimPrefix_app p s : TrimPrefix (p +:+ s) p = s.
Proof.
  induction p as [|c p IH]; [by destruct s|]. change (String c p +:+ s) with (String c (p +:+ s)). cbn [TrimPrefix].
  change (String c (p +:+ s)) with (String c p +:+ s). by rewrite HasPrefix_app.
Qed.

Lemma trim_right_last s c : is_space c = false → trim_right (s +:+ String c "") = s +:+ String c "".
Proof.
  intros Hc. induction s as [|d s IH]; [change ("" +:+ String c "") with (String c ""); cbn [trim_right]; by rewrite Hc|].
  change (String d s +:+ String c "") with (String d (s +:+ String c "")). cbn [trim_right]. rewrite IH.
  by destruct s.
Qed.

Lemma TrimSpace_solid c s d :
  is_space c = false → is_space d = false → TrimSpace (String c s +:+ String d "") = String c s +:+ String d "".
Proof.
  intros Hc Hd. unfold TrimSpace. change (String c s +:+ String d "") with (String c (s +:+ String d "")).
  cbn [trim_left]. rewrite Hc. change (String c (s +:+ String d "")) with (String c s +:+ String d "").
  by apply trim_right_last.
Qed.

(** An object key ends with its extension. *)
Lemma buildObjectKey_last path name type : ∃ s d, buildObjectKey path name type = s +:+ String d "" ∧ is_space d = false.
Proof.
  unfold buildObjectKey. destruct (bool_decide (type = _)), (bool_decide (trim_char path "/"%char = "")).
  - exists (name +:+ ".aof.tar.g"), "z"%char. by rewrite append_assoc.
  - exists (trim_char path "/"%char +:+ "/" +:+ name +:+ ".aof.tar.g"), "z"%char. by rewrite !append_assoc.
  - exists (name +:+ ".rd"), "b"%char. by rewrite append_assoc.
  - exists (trim_char path "/"%char +:+ "/" +:+ name +:+ ".rd"), "b"%char. by rewrite !append_assoc.
Qed.

Lemma trim_char_chars P s c : all_chars P s = true → all_chars P (trim_char s c) = true.
Proof.
  intros Hs. unfold trim_char. assert (all_chars P (trim_char_left s c) = true) as Hl.
  { induction s as [|d s IH]; [done|]. cbn [trim_char_left]. destruct (bool_decide (d = c)); [|done].
    apply IH. cbn [all_chars] in Hs. by apply andb_true_iff in Hs as [_ ?]. }
  revert Hl. generalize (trim_char_left s c) as t. clear. induction t as [|d t IH]; [done|].
  cbn [all_chars trim_char_right]. intros [Hd Ht]%andb_true_iff. specialize (IH Ht).
  destruct (trim_char_right t c); [destruct (bool_decide (d = c)); [done|by cbn; rewrite Hd]|].
  cbn [all_chars]. by rewrite Hd.
Qed.

Lemma buildObjectKey_chars path name type :
  all_chars path_char path = true → all_chars path_char name = true →
  all_chars path_char (buildObjectKey path name type) = true.
Proof.
  intros Hp Hn. unfold buildObjectKey.
  assert (all_chars path_char (name +:+ (if bool_decide (type = BackupArtifactTypeAOFArchive) then ".aof.tar.gz" else ".rdb")) = true) as Ho.
  { rewrite all_chars_app, Hn. by destruct (bool_decide _). }
  destruct (bool_decide (trim_char _ _ = "")); [done|].
  by rewrite (all_chars_app _ (trim_char _ _)), (all_chars_app _ "/"), Ho, trim_char_chars by done.
Qed.

(** The URL of an object gives the object back. *)
Lemma resolve_location_url scheme kind object bucket key s d :
  scheme ≠ "" → is_space (default " "%char (String.get 0 scheme)) = false →
  bucket ≠ "" → all_chars bucket_char bucket = true → all_chars path_char key = true →
  key = s +:+ String d "" → is_space d = false →
  resolve_location scheme kind object bucket (scheme +:+ "://" +:+ bucket +:+ "/" +:+ key) = Ok (bucket, key).
Proof.
  intros Hs0 Hs Hb0 Hb Hk Hkey Hd. destruct scheme as [|c scheme]; [done|]. cbn in Hs. unfold resolve_location.
  assert (String c scheme +:+ "://" +:+ bucket +:+ "/" +:+ key =
          String c (scheme +:+ "://" +:+ bucket +:+ "/" +:+ s) +:+ String d "") as Htext.
  { rewrite Hkey. change (String c ?x +:+ ?y) with (String c (x +:+ y)). by rewrite !append_assoc. }
  rewrite Htext, TrimSpace_solid, <- Htext by done.
  rewrite (bool_decide_false (_ = "")) by done. rewrite <- append_assoc, HasPrefix_app, TrimPrefix_app.
  rewrite url_Parse_plain by done. rewrite (bool_decide_false (bucket = "")) by done. rewrite (bool_decide_true (bucket = bucket)) by done.
  cbn [negb andb]. rewrite TrimPrefix_app. rewrite bool_decide_false; [done|]. rewrite Hkey. by destruct s.
Qed.

(** ** The object uploaded and the object downloaded *)

Inductive object := S3Object (bucket key : string) | AzureBlob (container blob : string).
#[export] Instance object_eq_dec : EqDecision object.
Proof. solve_decision. Defined.

Definition uploaded_object (c : inst_op) : option object :=
  match c with
  | IPutObject _ bucket key _ => Some (S3Object bucket key)
  | IUploadBlob _ container blob _ => Some (AzureBlob container blob)
  | _ => None
  end.

Definition uploads (h : trace inst) : list object := omap (λ e, uploaded_object (projT1 e)) h.

Definition downloaded_object (d : downloader) : object :=
  match d with FromS3 _ bucket key => S3Object bucket key | FromAzure _ container blob => AzureBlob container blob end.

(** Names that mean the same in a URL as in the object store. *)
Definition plain_names (destination : BackupDestination) (backupName : string) : Prop :=
  all_chars path_char backupName = true ∧
  (∀ s3, bd_S3 destination = Some s3 → all_chars bucket_char (s3_Bucket s3) = true ∧ all_chars path_char (s3_Path s3) = true) ∧
  (∀ az, bd_Azure destination = Some az →
     all_chars bucket_char (az_Container az) = true ∧ all_chars path_char (az_Path az) = true).

Definition no_upload (c : inst_op) : bool := match uploaded_object c with Some _ => false | None => true end.

Abbreviation any_inst := (λ (_ : trace inst) (_ : inst_op), True).
Abbreviation usafe h p Q := (safe (S := inst) any_inst h p Q).

Lemma uploads_snoc h e : uploads (h ++ [e]) = uploads h ++ match uploaded_object (projT1 e) with Some o => [o] | None => [] end.
Proof. unfold uploads. rewrite omap_app. simpl. by destruct (uploaded_object (projT1 e)). Qed.

(** A program that uploads nothing keeps the uploads. *)
Lemma quiet_uploads {A} h (p : iprog A) : iissues no_upload p → usafe h p (λ h' _, uploads h' = uploads h).
Proof.
  revert h; induction p as [a|e|c k IH]; intros h Hp; [done..|]. destruct Hp as [Hc Hk]. split; [done|]. intros r.
  eapply safe_mono; [apply IH, Hk|]. intros h' a _ ->. rewrite uploads_snoc. cbn [projT1 ev].
  unfold no_upload in Hc. destruct (uploaded_object c); [done|]. apply app_nil_r.
Qed.

Lemma firstCredentialValue_quiet dir names : iissues no_upload (firstCredentialValue dir names).
Proof.
  induction names as [|n names IH]; [done|]. cbn [firstCredentialValue]. apply issues_bind; [done|]. intros [raw|e].
  - destruct (bool_decide _); [apply IH|done].
  - destruct (IsNotFound e); [apply IH|done].
Qed.

Lemma newS3Client_quiet dest creds : iissues no_upload (newS3Client dest creds).
Proof. unfold newS3Client. simpl. split; [done|]. by intros []. Qed.

Lemma newAzureBlobClient_quiet dest creds : iissues no_upload (newAzureBlobClient dest creds).
Proof.
  unfold newAzureBlobClient. repeat first
    [ progress cbn beta zeta | match goal with |- context [if ?b then _ else _] => destruct b end
    | apply issues_bind; [|intros] | apply issues_check | apply issues_check_ctx | done ].
Qed.
#[export] Hint Resolve firstCredentialValue_quiet newS3Client_quiet newAzureBlobClient_quiet : redis.

Lemma readAWSCredentialsFromDir_quiet dir : iissues no_upload (readAWSCredentialsFromDir dir).
Proof. unfold readAWSCredentialsFromDir. issues; auto with redis. Qed.

Lemma readAzureCredentialsFromDir_quiet dir : iissues no_upload (readAzureCredentialsFromDir dir).
Proof. unfold readAzureCredentialsFromDir. issues; auto with redis. Qed.
#[export] Hint Resolve readAWSCredentialsFromDir_quiet readAzureCredentialsFromDir_quiet : redis.

Lemma describe_safe h sha path type url key :
  usafe h (describe sha path type url key) (λ h' r, uploads h' = uploads h ∧ bp_BackupPath r = url ∧ bp_ObjectKey r = key).
Proof.
  unfold describe. inst_step; [done|]. inst_step; [done|]. split; [|done]. by rewrite !uploads_snoc, !app_nil_r.
Qed.

(** The answer names the one object that was uploaded. *)
Definition names_upload (destination : BackupDestination) (name type : string) (h : trace inst) (r : backupResponse) : Prop :=
  match bd_S3 destination, bd_Azure destination with
  | Some s3, _ =>
      let key := buildObjectKey (s3_Path s3) name type in
      uploads h = [S3Object (s3_Bucket s3) key] ∧ bp_BackupPath r = s3_url (s3_Bucket s3) key ∧ bp_ObjectKey r = key
  | None, Some az =>
      let key := buildObjectKey (az_Path az) name type in
      uploads h = [AzureBlob (az_Container az) key] ∧ bp_BackupPath r = azblob_url (az_Container az) key ∧ bp_ObjectKey r = key
  | None, None => False
  end.

Lemma uploadBackup_safe sha s name destination path type :
  usafe [] (uploadBackup sha s name destination path type) (names_upload destination name type).
Proof.
  unfold uploadBackup, names_upload. destruct (bd_S3 destination) as [s3|]; [|destruct (bd_Azure destination) as [az|]; [|done]].
  - eapply safe_bind; [apply quiet_uploads; auto with redis|]. intros h1 creds _ H1.
    eapply safe_bind; [apply safe_with_ctx, quiet_uploads; auto with redis|]. intros h2 client _ H2.
    inst_step; [done|]. inst_step; [done|]. eapply safe_mono; [apply describe_safe|].
    intros h' r _ (-> & -> & ->). rewrite !uploads_snoc, H2, H1. done.
  - eapply safe_bind; [apply quiet_uploads; auto with redis|]. intros h1 creds _ H1.
    eapply safe_bind; [apply quiet_uploads; auto with redis|]. intros h2 client _ H2.
    inst_step; [done|]. inst_step; [done|]. eapply safe_mono; [apply describe_safe|].
    intros h' r _ (-> & -> & ->). rewrite !uploads_snoc, H2, H1. done.
Qed.

(** What the downloader of a backup reads, for every answer of the store. *)
Lemma downloader_object backup backupPath secretName secret :
  let destination := default (mkDestination None None) (bs_Destination (b_Spec backup)) in
  does (S := rest) (λ _, True) (newBackupDownloader backup backupPath secretName secret) (λ d,
    match bd_S3 destination, bd_Azure destination with
    | Some s3, _ => ∃ b k, resolveBackupLocation (s3_Bucket s3) backupPath = Ok (b, k) ∧ downloaded_object d = S3Object b k
    | None, Some az => ∃ b k, resolveAzureBlobLocation (az_Container az) backupPath = Ok (b, k) ∧ downloaded_object d = AzureBlob b k
    | None, None => False
    end).
Proof.
  cbn zeta. unfold newBackupDownloader. set (dest := default _ _). clearbody dest.
  destruct (bd_S3 dest) as [s3|]; [|destruct (bd_Azure dest) as [az|]; [|done]].
  - destruct (resolveBackupLocation _ _) as [[b k]|e]; [|done]. cbn [check_ctx].
    change (does ?P (mbind ?f (Ret ?a)) ?Q) with (does P (f a) Q). cbn beta.
    eapply (does_bind _ _ _ (λ _, True)); [by apply does_check_ctx|]. intros creds _.
    eapply (does_bind _ _ _ (λ _, True)); [by apply does_any|]. intros client _. by exists b, k.
  - destruct (resolveAzureBlobLocation _ _) as [[b k]|e]; [|done]. cbn [check_ctx].
    change (does ?P (mbind ?f (Ret ?a)) ?Q) with (does P (f a) Q). cbn beta.
    eapply (does_bind _ _ _ (λ _, True)); [by apply does_any|]. intros client _. by exists b, k.
Qed.

(** C18: A restore downloads the object the backup uploaded: whatever the object
    store, the API server and the file system answer, a backup that succeeded
    uploaded one object, and a downloader built from the URL it reported reads
    that object, when bucket, path and name need no escaping. *)
Theorem restore_finds_backup sha s name destination path type tr resp backup secretName secret tr' d :
  Destination_Validate (Some destination) = None → plain_names destination name →
  runs (uploadBackup sha s name destination path type) tr (Ok resp) →
  bs_Destination (b_Spec backup) = Some destination →
  runs (newBackupDownloader backup (bp_BackupPath resp) secretName secret) tr' (Ok d) →
  uploads tr = [downloaded_object d].
Proof.
  intros Hval (Hname & Hs3 & Haz) Hup Hb Hdown.
  pose proof (proj2 (safe_runs _ _ _ _ _ _ (uploadBackup_safe sha s name destination path type) Hup) _ eq_refl) as Hn.
  pose proof (proj2 (does_runs _ _ _ _ _ (downloader_object backup (bp_BackupPath resp) secretName secret) Hdown) _ eq_refl) as Hd.
  rewrite Hb in Hd. change (default _ (Some destination)) with destination in Hd. cbn [app] in Hn. unfold names_upload in Hn.
  destruct (buildObjectKey_last (match bd_S3 destination, bd_Azure destination with
    | Some s3, _ => s3_Path s3 | None, Some az => az_Path az | _, _ => "" end) name type) as (pre & last & Hkey & Hlast).
  unfold Destination_Validate in Hval.
  destruct (bd_S3 destination) as [s3|]; [|destruct (bd_Azure destination) as [az|]; [|done]].
  - destruct Hn as (-> & Hpath & _), Hd as (b & k & Hloc & ->), (Hs3 _ eq_refl) as [Hbucket Hp]. rewrite Hpath in Hloc.
    unfold resolveBackupLocation in Hloc. change (s3_url ?x ?y) with ("s3" +:+ "://" +:+ x +:+ "/" +:+ y) in Hloc.
    erewrite resolve_location_url in Hloc; [by injection Hloc as <- <-|done..| |done|by apply buildObjectKey_chars|done|done].
    destruct (bd_Azure destination); [done|]. intros Hempty. cbn in Hval. by rewrite Hempty in Hval.
  - destruct Hn as (-> & Hpath & _), Hd as (b & k & Hloc & ->), (Haz _ eq_refl) as [Hbucket Hp]. rewrite Hpath in Hloc.
    unfold resolveAzureBlobLocation in Hloc. change (azblob_url ?x ?y) with ("azblob" +:+ "://" +:+ x +:+ "/" +:+ y) in Hloc.
    erewrite resolve_location_url in Hloc; [by injection Hloc as <- <-|done..| |done|by apply buildObjectKey_chars|done|done].
    intros Hempty. cbn in Hval. by rewrite Hempty in Hval.
Qed.

(** Names that need escaping are lost: the key is put into the URL as it is and
    decoded when it is read back. *)
Example unescaped_names_diverge :
  resolveBackupLocation "b" (s3_url "b" (buildObjectKey "nightly?full" "n" "rdb")) = Ok ("b", "nightly") ∧
  resolveBackupLocation "b" (s3_url "b" (buildObjectKey "team%41" "n" "rdb")) = Ok ("b", "teamA/n.rdb") ∧
  resolveBackupLocation "b" (s3_url "b" (buildObjectKey "50%/x" "n" "rdb")) =
    Err (Errorf ("parsing s3 backup path " +:+ quoted "s3://b/50%/x/n.rdb")).
Proof. vm_compute. repeat split. Qed.

(** ** Credentials *)

Definition view_read (e : event inst) : option (string * res string) :=
  let 'existT c r := e in
  match c return inst_ret c → option (string * res string) with
  | IReadFile path => λ r, Some (path, r)
  | _ => λ _, None
  end r.

Definition credential_names : list string :=
  access_key_names ++ secret_key_names ++ session_token_names ++ connection_string_names ++ account_name_names ++
  account_key_names ++ sas_token_names.

(** The secret is mounted at [dir]: a file per key. *)
Definition mounted (data : gmap string string) (dir : string) (e : event inst) : Prop :=
  match view_read e with
  | None => True
  | Some (path, r) =>
      Forall (λ name, path = Join [dir; name] →
        match data !! name with
        | Some v => r = Ok v
        | None => ∃ err, r = Err err ∧ IsNotFound err = true
        end) credential_names
  end.

Lemma firstCredentialValue_mounted data dir names :
  names ⊆ credential_names →
  returns (S := inst) (mounted data dir) (firstCredentialValue dir names) (λ v, v = secretValue data names).
Proof.
  induction names as [|name names IH]; intros Hsub; [done|]. cbn [firstCredentialValue secretValue].
  specialize (IH ltac:(intros x Hx; apply Hsub; by apply list_elem_of_further)).
  apply (returns_call (S := inst)). intros r Hr. cbn in Hr.
  assert (name ∈ credential_names) as Hin by (apply Hsub, list_elem_of_here).
  pose proof (proj1 (Forall_forall _ _) Hr name Hin eq_refl) as Hname. cbn beta in Hname. clear Hr. rename Hname into Hr. destruct (data !! name) as [v|].
  - subst r. by destruct (bool_decide (TrimSpace v = "")).
  - destruct Hr as (err & -> & ->). apply IH.
Qed.

Lemma returns_then {A B} E (p : iprog A) (f : A → iprog B) Q tr out :
  returns (S := inst) E p Q → runs (p ≫= f) tr out → Forall E tr →
  ∃ a tr', Q a ∧ runs (f a) tr' out ∧ Forall E tr'.
Proof.
  intros Hp Hr HE. apply runs_bind in Hr as [(e & Hr & _)|(a & tr1 & tr2 & -> & H1 & H2)].
  - destruct (returns_runs _ _ _ _ _ Hp Hr HE) as (? & ? & _). done.
  - apply Forall_app in HE as [HE1 HE2]. destruct (returns_runs _ _ _ _ _ Hp H1 HE1) as (a' & [= <-] & HQ). eauto.
Qed.

Ltac read_credential :=
  match goal with
  | Hr : runs (mbind _ (firstCredentialValue ?dir ?names)) ?tr _, Hm : Forall (mounted ?data ?dir) ?tr |- _ =>
      let v := fresh in let tr' := fresh "tr" in let Hv := fresh in let Hr' := fresh "Hr" in let Hm' := fresh "Hm" in
      let Hsub := fresh in
      assert (names ⊆ credential_names) as Hsub by (apply (bool_decide_eq_true_1 _); vm_compute; reflexivity);
      destruct (returns_then _ _ _ _ _ _ (firstCredentialValue_mounted data dir _ Hsub) Hr Hm) as (v & tr' & Hv & Hr' & Hm');
      subst v; clear Hr Hm Hsub; cbn beta in Hr'
  end.

(** The backup endpoint reads the mounted secret; the restore command reads the
    secret from the API server: both get the same credentials. *)
Theorem credentials_agree data dir tr :
  Forall (mounted data dir) tr →
  (∀ out, runs (readAWSCredentialsFromDir dir) tr out →
     ∀ creds, out = Ok creds ↔ readAWSCredentials data = Ok creds) ∧
  (∀ out, runs (readAzureCredentialsFromDir dir) tr out → out = Ok (readAzureCredentials data)).
Proof.
  intros Hm. split; intros out Hr.
  - unfold readAWSCredentialsFromDir in Hr. do 3 read_credential.
    intros creds. unfold readAWSCredentials. cbn zeta. destruct (_ || _); match goal with H : runs _ _ _ |- _ => destruct H as [_ ->] end; naive_solver.
  - unfold readAzureCredentialsFromDir in Hr. do 4 read_credential.
    match goal with H : runs _ _ _ |- _ => by destruct H as [_ ->] end.
Qed.

(** *** Witnesses *)

Definition aws_secret : gmap string string :=
  {[ "AWS_ACCESS_KEY_ID" := "AKIA "; "secretAccessKey" := "s3cr3t" ]}.

Definition backup_pod : inst_world :=
  mkInstWorld (Ok three) (Err (ENotFound "pod")) (Ok []) (λ _, Ok master_info) []
    {[ "/backup-credentials/AWS_ACCESS_KEY_ID" := "AKIA "; "/backup-credentials/secretAccessKey" := "s3cr3t";
       "/data/dump.rdb" := "REDIS" ]} [] (PeerDone "deadline").

Definition a_server : Server := NewServer true ":8080" (mret tt) (λ _ _, mret tt).
Definition a_destination : BackupDestination := mkDestination (Some (mkS3 "backups" "/prod/" "" "")) None.

Definition upload_run :=
  interp inst_env backup_pod (uploadBackup id a_server "nightly-s0" a_destination "/data/dump.rdb" BackupArtifactTypeRDB).

Definition a_backup : RedisBackup :=
  mkBackup "nightly" "default" ∅ 0 (mkBackupSpec "c" BackupTargetPrimary "" (Some a_destination))
    (mkBackupStatus BackupPhaseCompleted "c-0" None None 5 "s3://backups/prod/nightly-s0.rdb" "rdb" ∅ "").

Definition download_run :=
  interp (rest_env a_backup three aws_secret) []
    (newBackupDownloader a_backup "s3://backups/prod/nightly-s0.rdb" "creds" aws_secret).

Lemma restore_finds_backup_witness :
  uploads upload_run.1.1 = [S3Object "backups" "prod/nightly-s0.rdb"].
Proof.
  apply (restore_finds_backup id a_server "nightly-s0" a_destination "/data/dump.rdb" BackupArtifactTypeRDB upload_run.1.1
    (mkBackupResponse "rdb" "s3://backups/prod/nightly-s0.rdb" "prod/nightly-s0.rdb" 1024 "REDIS")
    a_backup "creds" aws_secret download_run.1.1
    (FromS3 (mkS3Client "us-east-1" (mkAWS "AKIA" "s3cr3t" "") None false) "backups" "prod/nightly-s0.rdb")).
  - vm_compute. reflexivity.
  - split; [vm_compute; reflexivity|]. split; [by intros ? [= <-]; vm_compute|by intros ? ?].
  - apply (interp_runs inst_env backup_pod _ _ _ backup_pod). vm_compute. reflexivity.
  - reflexivity.
  - apply (interp_runs (rest_env a_backup three aws_secret) [] _ _ _ []). vm_compute. reflexivity.
Defined.

Definition credentials_run := interp inst_env backup_pod (readAWSCredentialsFromDir "/backup-credentials").

Lemma credentials_agree_witness :
  Forall (mounted aws_secret "/backup-credentials") credentials_run.1.1 ∧
  readAWSCredentials aws_secret = Ok (mkAWS "AKIA" "s3cr3t" "").
Proof.
  assert (Forall (mounted aws_secret "/backup-credentials") credentials_run.1.1) as Hm.
  { let t := eval vm_compute in credentials_run.1.1 in change credentials_run.1.1 with t.
    repeat (apply Forall_cons; split); try apply Forall_nil_2;
      repeat (apply Forall_cons; split); try apply Forall_nil_2; vm_compute; try discriminate; eauto. }
  split; [exact Hm|].
  apply (proj1 (credentials_agree aws_secret "/backup-credentials" credentials_run.1.1 Hm) (Ok (mkAWS "AKIA" "s3cr3t" "")));
    [|reflexivity].
  apply (interp_runs inst_env backup_pod _ _ _ backup_pod). vm_compute. reflexivity.
Defined.
