(* ===== verification/WebserverFacts.v ===== *)
(** * The HTTP server: theorems

    The liveness probe fails a running server only when it is an isolated
    primary; the readiness probe is negative for a fenced pod; the status
    endpoint reports what Redis printed; slots are migrated in an order that
    loses no key, and a migration with a responsive Redis ends with every key
    moved. *)
From S2P Require Import Prelude GoStr Api Effects History Json Kube Fencing FencingFacts Resources Replication ReplicationFacts.
From S2P Require Import Paths InstanceManager Webserver Fixtures InstanceFixtures.
From Stdlib Require Import Ascii.

(** The continuation after an answer. *)
Ltac answered H :=
  cbn beta in H; change (runs (prog_bind _ _ _ ?f (Ret ?a))) with (runs (f a)) in H; cbn beta iota in H.

(** ** What a probe saw *)

Definition view_cluster (e : event inst) : option (res RedisCluster) :=
  let 'existT c r := e in
  match c return inst_ret c → option (res RedisCluster) with IGetCluster => Some | _ => λ _, None end r.

Definition view_peer (e : event inst) : option peer_event :=
  let 'existT c r := e in
  match c return inst_ret c → option peer_event with INextPeer => Some | _ => λ _, None end r.

Definition view_asked (e : event inst) : option (string * Z) :=
  match projT1 e with IStartPeer ip port => Some (ip, port) | _ => None end.

Definition view_text (e : event inst) : option (res string) :=
  let 'existT c r := e in
  match c return inst_ret c → option (res string) with IText _ _ => Some | _ => λ _, None end r.

Definition view_cmd (e : event inst) : option (redis_client * list string * res unit) :=
  let 'existT c r := e in
  match c return inst_ret c → option (redis_client * list string * res unit) with
  | ICmd cl args => λ r, Some (cl, args, r)
  | _ => λ _, None
  end r.

Definition failed {A} (r : res A) : bool := match r with Ok _ => false | Err _ => true end.
Definition not_ok (e : peer_event) : bool := match peer_failure e with Some _ => true | None => false end.

(** The one read of the cluster failed, or the server was not told what to read. *)
Definition api_silent (s : Server) (tr : trace inst) : Prop :=
  (∃ e, omap view_cluster tr = [Err e]) ∨
  (omap view_cluster tr = [] ∧ (sv_clusterName s = "" ∨ sv_namespace s = "")).

(** There are peers, all of them were asked, and either every one of them
    answered, or the time was up, without a 200 before. *)
Definition peers_silent (s : Server) (tr : trace inst) : Prop :=
  sv_cachedPeerTargets s ≠ [] ∧
  omap view_asked tr = (λ t, (t, if bool_decide (sv_peerStatusPort s ≤ 0) then 8080 else sv_peerStatusPort s))
    <$> sv_cachedPeerTargets s ∧
  (∀ t, PeerStatus t 200 ∉ omap view_peer tr) ∧
  (length (omap view_peer tr) = length (sv_cachedPeerTargets s) ∨ ∃ msg, PeerDone msg ∈ omap view_peer tr).

(** Redis is a primary, and neither the API server nor a peer answers. *)
Definition isolated (s : Server) (tr : trace inst) : Prop :=
  (∃ text, omap view_text tr = [Ok text] ∧ i_Role (parseInfo text) = "master") ∧ api_silent s tr ∧ peers_silent s tr.

Lemma not_ok_all l : forallb not_ok l = true ↔ ∀ t, PeerStatus t 200 ∉ l.
Proof.
  rewrite forallb_forall. setoid_rewrite <- list_elem_of_In. split.
  - intros Hl t Hin. by specialize (Hl _ Hin).
  - intros Hl e Hin. destruct e as [msg|t msg|t code]; [done|done|]. unfold not_ok. cbn.
    case_bool_decide as Hc; [|done]. subst. by destruct (Hl t).
Qed.

Lemma await_peers_runs n last tr o :
  runs (await_peers n last) tr (Ok o) →
  o ≠ NoPeerTargets ∧ (o = PeerReachable ↔ forallb not_ok (omap view_peer tr) = false) ∧
  omap view_cluster tr = [] ∧ omap view_text tr = [] ∧ omap view_asked tr = [] ∧
  (o ≠ PeerReachable → length (omap view_peer tr) = n ∨ ∃ msg, PeerDone msg ∈ omap view_peer tr).
Proof.
  revert last tr; induction n as [|n IH]; intros last tr.
  { intros [-> [= ->]]. split_and!; [done| |done..|by left]. by split. }
  cbn [await_peers]. intros (e & tr' & -> & Hr). answered Hr.
  cbn [omap list_omap view_peer view_cluster view_text view_asked ev projT1 length].
  assert (∀ x, (o ≠ PeerReachable → length (omap view_peer tr') = n ∨ ∃ msg, PeerDone msg ∈ omap view_peer tr') →
    o ≠ PeerReachable → S (length (omap view_peer tr')) = S n ∨ ∃ msg, PeerDone msg ∈ x :: omap view_peer tr') as Hmore.
  { intros x Hx Ho. destruct (Hx Ho) as [->|[msg Hm]]; [by left|]. right. exists msg. by apply list_elem_of_further. }
  destruct e as [msg|t msg|t code]; cbn [peer_failure] in Hr.
  - destruct Hr as [-> [= ->]]. split_and!; [done|by split|done..|]. intros _. right. exists msg. apply list_elem_of_here.
  - apply IH in Hr as (H1 & H2 & H3 & H4 & H5 & H6). split_and!; [done..|]. by apply Hmore.
  - assert (not_ok (PeerStatus t code) = negb (bool_decide (code = 200))) as Hn
      by (unfold not_ok; cbn; by destruct (bool_decide _)).
    cbn [forallb]. rewrite Hn. destruct (bool_decide (code = 200)).
    + destruct Hr as [-> [= ->]]. split_and!; [done|by split|done..].
    + apply IH in Hr as (H1 & H2 & H3 & H4 & H5 & H6). split_and!; [done..|]. by apply Hmore.
Qed.

Lemma start_peers_runs targets port tr :
  runs (for_each targets (λ t, icall (IStartPeer t port))) tr (Ok tt) →
  omap view_peer tr = [] ∧ omap view_cluster tr = [] ∧ omap view_text tr = [] ∧
  omap view_asked tr = (λ t, (t, port)) <$> targets.
Proof.
  revert tr; induction targets as [|t targets IH]; intros tr; [by intros [-> _]|].
  cbn [for_each]. intros ([] & tr' & -> & Hr). apply IH in Hr as (H1 & H2 & H3 & H4). cbn. by rewrite <- H4.
Qed.

Lemma checkAnyPeerReachable_runs s tr o :
  runs (checkAnyPeerReachable s) tr (Ok o) →
  (o = NoPeerTargets ↔ sv_cachedPeerTargets s = []) ∧
  (o = PeerReachable → forallb not_ok (omap view_peer tr) = false) ∧
  (∀ err, o = PeersUnreachable err → peers_silent s tr) ∧
  omap view_cluster tr = [] ∧ omap view_text tr = [].
Proof.
  unfold checkAnyPeerReachable. case_bool_decide as Ht.
  { intros [-> [= ->]]. split_and!; done. }
  intros Hr. unfold peers_silent. apply runs_bind in Hr as [(e & _ & ?)|([] & tr1 & tr2 & -> & H1 & H2)]; [done|].
  apply start_peers_runs in H1 as (P1 & P2 & P3 & P4). apply await_peers_runs in H2 as (A1 & A2 & A3 & A4 & A5 & A6).
  rewrite !omap_app, P1, P2, P3, P4, A3, A4, A5, app_nil_r. cbn [app]. split_and!; [by split|by apply A2| |done..].
  intros err ->. split_and!; [done|by case_bool_decide| |by apply A6].
  apply not_ok_all, not_false_is_true. intros Hf. by apply A2 in Hf.
Qed.

Lemma shouldRun_runs s tr b :
  runs (shouldRunPrimaryIsolationCheck s) tr (Ok b) →
  omap view_cluster tr = [] ∧ omap view_peer tr = [] ∧ omap view_asked tr = [] ∧ (b = true → sv_k8sClient s = true) ∧
  (b = true ↔ ∃ text, omap view_text tr = [Ok text] ∧ i_Role (parseInfo text) = "master").
Proof.
  unfold shouldRunPrimaryIsolationCheck. destruct (_ || _) eqn:E.
  - intros [-> [= ->]]. split_and!; [done..|]. split; [done|]. by intros (? & ? & _).
  - assert (sv_k8sClient s = true) as Hk by (destruct (sv_k8sClient s); [done|]; by rewrite !orb_true_r in E).
    intros (r & tr' & -> & Hr). destruct r as [text|e]; cbn in Hr; destruct Hr as [-> [= ->]].
    + split_and!; [done..|]. rewrite bool_decide_eq_true. split; [eauto|]. by intros (? & [= <-] & ?).
    + split_and!; [done..|]. split; [done|]. by intros (? & ? & _).
Qed.

Lemma checkAPI_runs s tr s' r :
  runs (checkAPIServerReachable s) tr (Ok (s', r)) →
  sv_k8sClient s = true →
  omap view_peer tr = [] ∧ omap view_text tr = [] ∧ omap view_asked tr = [] ∧
  (failed r = true ↔ api_silent s tr) ∧ (failed r = true → s' = s).
Proof.
  unfold checkAPIServerReachable, api_silent. intros Hr Hk. rewrite Hk in Hr. cbn [negb] in Hr.
  destruct (_ || _) eqn:E.
  { destruct Hr as [-> [= -> ->]]. apply orb_true_iff in E. rewrite !bool_decide_eq_true in E.
    split_and!; [done..| |done]. split; [auto|done]. }
  apply orb_false_iff in E as [E1%bool_decide_eq_false E2%bool_decide_eq_false].
  destruct Hr as (c & tr' & -> & Hr). answered Hr. destruct c as [c|e].
  - destruct Hr as (pods & tr2 & -> & Hr). destruct pods as [pods|e]; cbn in Hr; destruct Hr as [-> [= -> ->]];
      (split_and!; [done..| |done]; split; [done|]; by intros [[? [=]]|[[=] _]]).
  - destruct Hr as [-> [= -> ->]]. split_and!; [done..| |done]. split; [eauto|done].
Qed.

(** C10: The liveness probe of a running server answers 503, and so lets the
    kubelet restart the pod, exactly when the server is an isolated primary: its
    Redis reports the role master, the read of the cluster fails (or the server
    was not told its cluster), there are known peers, all of them were asked for
    their status, and either each of them answered with something other than 200
    or the time was up before one answered with 200.  In every other case it
    answers 200; an API outage alone, an unknown peer list or a failing INFO
    never restarts a primary. *)
Theorem liveness_fails_only_isolated s tr s' r :
  sv_redisCmd s = Running → runs (handleHealthz s) tr (Ok (s', r)) →
  (reply_code r = 503 ↔ isolated s tr) ∧ (reply_code r = 200 ∨ reply_code r = 503).
Proof.
  intros Hrun Hr. unfold handleHealthz in Hr. rewrite Hrun, bool_decide_true in Hr by done. cbn [negb] in Hr.
  apply runs_bind in Hr as [(e & _ & ?)|(b & tr1 & tr2 & -> & H1 & Hr)]; [done|].
  apply shouldRun_runs in H1 as (C1 & P1 & A1 & K1 & T1). unfold isolated, api_silent, peers_silent.
  setoid_rewrite omap_app. rewrite C1, P1, A1. cbn [app].
  destruct b; cbn [negb] in Hr.
  2:{ destruct Hr as [-> [= <- ->]]. split; [|by left]. split; [done|]. cbn [omap list_omap]. rewrite app_nil_r.
      intros [Hm%T1 _]. done. }
  destruct T1 as [(text & Ht & Hrole) _]; [done|]. rewrite Ht.
  apply runs_bind in Hr as [(e & _ & ?)|([s1 api] & tr3 & tr4 & -> & H2 & Hr)]; [done|].
  apply checkAPI_runs in H2 as (P2 & T2 & A2 & C2 & Hs); [|by apply K1]. rewrite !omap_app, P2, T2, A2. cbn [app].
  destruct api as [[]|e]; cbn [failed] in C2.
  - destruct Hr as [-> [= <- ->]]. split; [|by left]. split; [done|]. cbn. rewrite app_nil_r.
    intros (_ & Hap & _). by apply C2 in Hap.
  - rewrite (Hs eq_refl) in Hr. apply runs_bind in Hr as [(e' & _ & ?)|(o & tr5 & tr6 & -> & H3 & Hr)]; [done|].
    destruct Hr as [-> [= -> ->]]. apply checkAnyPeerReachable_runs in H3 as (O1 & O2 & O3 & C3 & T3).
    rewrite !app_nil_r, C3, T3, app_nil_r. destruct o as [| |err]; cbn [reply_code].
    + split; [|by left]. split; [done|]. intros (_ & _ & Hne & _). destruct Hne. by apply O1.
    + split; [|by left]. split; [done|]. intros (_ & _ & _ & _ & Hp & _). apply not_ok_all in Hp.
      by rewrite (O2 eq_refl) in Hp.
    + split; [|by right]. split; [|done]. intros _. split; [by exists text|]. split; [by apply C2|].
      exact (O3 err eq_refl).
Qed.

Definition primary_server : Server :=
  with_peer_targets ["10.0.0.2"; "10.0.0.3"]
    (SetPrimaryIsolationConfig true (mkIsolationConfig true "c" "default" "c-0" 0 0)
       (SetRedisCmd Running (NewServer true ":8080" (mret tt) (λ _ _, mret tt)))).

Definition cut_off : inst_world :=
  mkInstWorld (Err (EAPI "timeout")) (Err (EAPI "timeout")) (Err (EAPI "timeout")) (λ _, Ok master_info) [] ∅ []
    (PeerError "10.0.0.2" "connection refused").

Definition isolation_run := interp inst_env cut_off (handleHealthz primary_server).

Lemma liveness_fails_only_isolated_witness : isolated primary_server isolation_run.1.1.
Proof.
  apply (liveness_fails_only_isolated primary_server isolation_run.1.1 primary_server (Text 503 isolated_body)).
  - reflexivity.
  - apply (interp_runs inst_env cut_off _ _ _ cut_off). vm_compute. reflexivity.
  - reflexivity.
Defined.

(** ** Readiness *)

Lemma podIsFenced_isFenced cluster p : p ≠ "" → podIsFenced cluster p = isFenced p cluster.
Proof.
  intros Hp. unfold podIsFenced, isFenced. rewrite bool_decide_false by done.
  destruct (Annotations cluster !! FencingAnnotationKey) as [raw|]; [|done].
  change (default "" (Some raw)) with raw. by destruct (bool_decide_reflect (raw = "")) as [->|].
Qed.

(** The server knows its cluster, its pod and how to reach the API server. *)
Definition identified (s : Server) : Prop :=
  sv_k8sClient s = true ∧ sv_clusterName s ≠ "" ∧ sv_namespace s ≠ "" ∧ sv_podName s ≠ "".

(** C11: The readiness probe and the operator's fence agree.  A server that knows
    its cluster, namespace and pod and has a Kubernetes client answers 200
    exactly when it could read the cluster, its pod is not in the list of fenced
    pods the operator keeps there, and Redis answered a ping; a fenced pod is
    answered 503 and its Redis is not even asked.  A server without a client or
    without one of the names does not read the cluster and answers 200 exactly
    when Redis answered a ping. *)
Theorem readiness_respects_fence s tr r :
  runs (handleReadyz s) tr (Ok r) →
  (identified s →
    (reply_code r = 200 ↔
       (∃ cluster, omap view_cluster tr = [Ok cluster] ∧ sv_podName s ∉ getFencedPods cluster) ∧
       omap view_cmd tr = [(Local, ["ping"], Ok tt)]) ∧
    (∀ cluster, omap view_cluster tr = [Ok cluster] → sv_podName s ∈ getFencedPods cluster →
       reply_code r = 503 ∧ omap view_cmd tr = [])) ∧
  (¬ identified s →
    omap view_cluster tr = [] ∧ (reply_code r = 200 ↔ omap view_cmd tr = [(Local, ["ping"], Ok tt)])).
Proof.
  intros Hr. split.
  - intros (H1 & H2 & H3 & H4). revert Hr. unfold handleReadyz, isCurrentPodFenced.
    rewrite H1, !bool_decide_false by done.
    intros (c & tr' & -> & Hr). destruct c as [cluster|e]; cbn in Hr.
    2:{ destruct Hr as [-> [= ->]]. cbn. split; [|by intros ? [=]]. split; [done|]. by intros [(? & [=] & _) _]. }
    rewrite podIsFenced_isFenced, isFenced_getFencedPods in Hr by done. cbn [omap list_omap view_cluster view_cmd ev].
    destruct (bool_decide_reflect (sv_podName s ∈ getFencedPods cluster)) as [Hin|Hin].
    + destruct Hr as [-> [= ->]]. split; [|done]. split; [done|]. by intros [_ ?].
    + destruct Hr as (ping & tr2 & -> & Hr). destruct Hr as [-> [= ->]]. cbn. split.
      * destruct ping as [[]|e]; cbn; (split; [|done || by intros [_ ?]]); [intros _; split; [by exists cluster|done]|done].
      * by intros ? [= <-] ?.
  - intros Hn. revert Hr. unfold handleReadyz, isCurrentPodFenced.
    assert (negb (sv_k8sClient s) || bool_decide (sv_clusterName s = "") || bool_decide (sv_namespace s = "")
      || bool_decide (sv_podName s = "") = true) as ->.
    { apply not_false_is_true. rewrite !orb_false_iff, negb_false_iff, !bool_decide_eq_false. unfold identified in Hn. tauto. }
    intros (ping & tr' & -> & Hr). destruct Hr as [-> [= ->]]. cbn. split; [done|]. by destruct ping as [[]|e].
Qed.

Definition fenced_three : RedisCluster :=
  set_Annotations three {[ FencingAnnotationKey := marshal_strings ["c-0"] ]}.

Definition fenced_world : inst_world :=
  mkInstWorld (Ok fenced_three) (Err (EAPI "timeout")) (Err (EAPI "timeout")) (λ _, Ok master_info) [] ∅ [] (PeerDone "").

Definition readiness_run := interp inst_env fenced_world (handleReadyz primary_server).

Lemma readiness_respects_fence_witness :
  "c-0" ∈ getFencedPods fenced_three ∧ reply_code (http_Error "pod is fenced" 503) = 503 ∧
  omap view_cmd readiness_run.1.1 = [].
Proof.
  assert ("c-0" ∈ getFencedPods fenced_three) as Hin by (apply (bool_decide_eq_true_1 _); vm_compute; reflexivity).
  split; [exact Hin|].
  apply (proj2 (proj1 (readiness_respects_fence primary_server readiness_run.1.1 (http_Error "pod is fenced" 503)
    ltac:(apply (interp_runs inst_env fenced_world _ _ _ fenced_world); vm_compute; reflexivity)) ltac:(by split))
    fenced_three); [vm_compute; reflexivity|exact Hin].
Defined.

(** ** Status *)

Lemma findSelf_first before n after :
  Forall (λ x, hasNodeFlag (cn_Flags x) "myself" = false) before → hasNodeFlag (cn_Flags n) "myself" = true →
  findSelfClusterNode (before ++ n :: after) =
    (cn_ID n, if bool_decide (cn_MasterID n = "-") then "" else cn_MasterID n, cn_SlotRanges n).
Proof.
  intros Hb Hn. induction Hb as [|x before Hx Hb IH]; cbn [app findSelfClusterNode]; [by rewrite Hn|by rewrite Hx].
Qed.

(** The operator sees the node as Redis prints it: when Redis answers the
    status request of a cluster node with its CLUSTER NODES text, the operator
    decodes the id, the primary and exactly the slot ranges of the line Redis
    marks as its own, with the role and offset of the INFO text. *)
Theorem status_reports_own_node s tr r info cinfo before n after :
  sv_clusterMode s = true → runs (handleStatus s GET) tr (Ok (StatusJSON r)) →
  omap view_text tr = [Ok info; Ok cinfo; Ok (show_nodes (before ++ n :: after))] →
  Forall printed_ok (before ++ n :: after) →
  Forall (λ x : ClusterNode * (Z * Z * Z), hasNodeFlag (cn_Flags x.1) "myself" = false) before →
  hasNodeFlag (cn_Flags n.1) "myself" = true →
  let st := decode_status r in
  ps_NodeID st = cn_ID n.1 ∧ ps_SlotsServed st = cn_SlotRanges n.1 ∧
  ps_PrimaryNodeID st = (if bool_decide (cn_MasterID n.1 = "-") then "" else cn_MasterID n.1) ∧
  ps_Role st = i_Role (parseInfo info) ∧ ps_ReplicationOffset st = replication_offset (parseInfo info) ∧ ps_Connected st = true.
Proof.
  intros Hmode Hr Htext Hwf Hbefore Hself. unfold handleStatus in Hr. rewrite Hmode, bool_decide_true in Hr by done.
  cbn [negb] in Hr. destruct Hr as (r1 & tr1 & -> & Hr). destruct r1 as [t1|e]; [|by destruct Hr as [-> [=]]].
  destruct Hr as (r2 & tr2 & -> & Hr). destruct r2 as [t2|e]; [|by destruct Hr as [-> [=]]].
  destruct Hr as (r3 & tr3 & -> & Hr). destruct r3 as [t3|e]; [|by destruct Hr as [-> [=]]].
  assert (tr3 = [] ∧ StatusJSON r = (let '(nodeID, primaryID, slots) := findSelfClusterNode (parseClusterNodes t3) in
    StatusJSON (mkStatusResponse (i_Role (parseInfo t1)) (replication_offset (parseInfo t1)) (i_ConnectedReplicas (parseInfo t1))
      (i_MasterLinkStatus (parseInfo t1)) true nodeID primaryID (ci_State (parseClusterInfo t2)) slots
      (ci_CurrentEpoch (parseClusterInfo t2)) (ci_KnownNodes (parseClusterInfo t2)) (ci_SlotsAssigned (parseClusterInfo t2))))) as [-> Hresp].
  { cbn in Hr. destruct (findSelfClusterNode (parseClusterNodes t3)) as [[a b] c]. by destruct Hr as [-> [= ->]]. }
  cbn in Htext. injection Htext as -> -> ->.
  rewrite parse_show_nodes, fmap_app, fmap_cons, findSelf_first in Hresp by (done || by apply Forall_fmap).
  injection Hresp as ->. done.
Qed.

(** ** The order of a migration *)

Section migration_order.
Context (req : clusterMigrateRangePayload).

Let target := target_client req.
Let targetID := mg_TargetNodeID req.

Definition set_slot (slot verb node : string) : list string := ["CLUSTER"; "SETSLOT"; slot; verb; node].

(** The source has just said that it has no key in the slot. *)
Definition just_emptied (h : trace inst) (slot : string) : Prop :=
  ∃ count, last h = Some (iev (IKeys Local ["CLUSTER"; "GETKEYSINSLOT"; slot; count]) (Ok (Some []))).

(** What may be asked after the events [h]. *)
Definition migration_guard (h : trace inst) (c : inst_op) : Prop :=
  (∀ slot node, c = ICmd Local (set_slot slot "MIGRATING" node) →
     node = targetID ∧ iev (ICmd target (set_slot slot "IMPORTING" (mg_SourceNodeID req))) (Ok tt) ∈ h) ∧
  (∀ slot node, c = ICmd Local (set_slot slot "NODE" node) → node = targetID ∧ just_emptied h slot) ∧
  (∀ slot node, c = ICmd target (set_slot slot "NODE" node) →
     node = targetID ∧ iev (ICmd Local (set_slot slot "NODE" node)) (Ok tt) ∈ h) ∧
  (∀ cl args, c = ICmd cl ("MIGRATE" :: args) →
     cl = Local ∧ ∃ slot keys, keys ≠ [] ∧ args = tail (cmd_MigrateKeys (mg_TargetIP req) (mg_TargetPort req) (mg_TimeoutMS req) keys) ∧
       last h = Some (iev (IKeys Local (cmd_GetKeysInSlot slot (mg_BatchSize req))) (Ok (Some (Some <$> keys))))).

Abbreviation msafe h p Q := (safe (S := inst) migration_guard h p Q).

Lemma mapM_id_some {A} (l : list (option A)) k : mapM id l = Some k → l = Some <$> k.
Proof.
  revert k; induction l as [|x l IH]; intros k; [by intros [= <-]|]. cbn. destruct x as [a|]; [|done]. cbn.
  destruct (mapM id l) as [k'|] eqn:Hl; [|done]. intros [= <-]. cbn. f_equal. by apply IH.
Qed.

Lemma keys_safe h slot :
  msafe h (ClusterGetKeysInSlot Local slot (mg_BatchSize req)) (λ h' keys,
    last h' = Some (iev (IKeys Local (cmd_GetKeysInSlot slot (mg_BatchSize req))) (Ok (Some (Some <$> keys))))).
Proof.
  unfold ClusterGetKeysInSlot. inst_step; [by split_and!|]. destruct a as [values|]; [|done].
  destruct (mapM id values) as [keys|] eqn:Hk; [|done]. apply mapM_id_some in Hk as ->. simpl. by rewrite last_snoc.
Qed.

(** A command whose guard holds, with its success on record. *)
Lemma command_safe h ctx cl args :
  migration_guard h (ICmd cl args) →
  msafe h (with_ctx ctx (redis cl args)) (λ h' _, h' = h ++ [iev (ICmd cl args) (Ok tt)]).
Proof. intros Hg. apply safe_with_ctx. unfold redis. inst_step; [done|]. by destruct a. Qed.

Lemma set_slot_guard h cl slot verb node :
  (cl = Local → verb = "MIGRATING" → node = targetID ∧ iev (ICmd target (set_slot slot "IMPORTING" (mg_SourceNodeID req))) (Ok tt) ∈ h) →
  (cl = Local → verb = "NODE" → node = targetID ∧ just_emptied h slot) →
  (cl = target → verb = "NODE" → node = targetID ∧ iev (ICmd Local (set_slot slot "NODE" node)) (Ok tt) ∈ h) →
  migration_guard h (ICmd cl (set_slot slot verb node)).
Proof.
  intros H1 H2 H3. split; [|split; [|split]].
  - intros slot' node' [= -> -> -> ->]. by apply H1.
  - intros slot' node' [= -> -> -> ->]. by apply H2.
  - intros slot' node' [= -> -> -> ->]. by apply H3.
  - intros cl' args' [= -> ? ?].
Qed.

Lemma drain_safe h fuel slot :
  msafe h (drain_slot req fuel slot) (λ h' x, x = Some tt → h `prefix_of` h' ∧ just_emptied h' (itoa slot)).
Proof.
  revert h; induction fuel as [|fuel IH]; intros h; [done|]. cbn [drain_slot].
  eapply safe_bind; [apply safe_with_ctx, keys_safe|]. intros h1 keys Hp1 Hk. cbn beta.
  case_bool_decide as He.
  - subst keys. intros _. split; [done|]. by exists (itoa (mg_BatchSize req)).
  - unfold MigrateKeys. rewrite bool_decide_false by done.
    eapply safe_bind; [apply safe_with_ctx, command_safe|].
    + split; [by intros ? ? [=]|]. split; [by intros ? ? [=]|]. split; [by intros ? ? [=]|].
      intros cl args [= <- <-]. split; [done|]. by exists slot, keys.
    + intros h2 [] _ ->. eapply safe_mono; [apply IH|]. intros h' x _ Hx Hs. destruct (Hx Hs) as [Hp2 ?].
      split; [|done]. etrans; [exact Hp1|]. etrans; [by apply prefix_app_r|exact Hp2].
Qed.

Lemma migrate_slot_safe h fuel slot : target ≠ Local → msafe h (migrate_slot req fuel slot) (λ _ _, True).
Proof.
  intros Hne. unfold migrate_slot.
  eapply safe_bind; [apply command_safe, (set_slot_guard _ _ (itoa slot)); [by intros ?|by intros ?|by intros _ ?]|].
  intros h1 [] _ ->.
  eapply safe_bind; [apply command_safe, (set_slot_guard _ _ (itoa slot)); [|by intros _ ?|by intros <-]|].
  { intros _ _. split; [done|]. apply elem_of_app. right. apply list_elem_of_here. }
  intros h2 [] _ ->. eapply safe_bind; [apply drain_safe|]. intros h3 [[]|] _ Hd; [|done].
  destruct (Hd eq_refl) as [_ He].
  eapply safe_bind; [apply command_safe, (set_slot_guard _ _ (itoa slot)); [by intros _ ?|done|by intros <-]|].
  intros h4 [] _ ->.
  eapply safe_bind; [apply command_safe, (set_slot_guard _ _ (itoa slot)); [by intros ?|by intros ?|]|done].
  intros _ _. split; [done|]. apply elem_of_app. right. apply list_elem_of_here.
Qed.

Lemma migrate_slots_safe h fuel slot : target ≠ Local → msafe h (migrate_slots req fuel slot) (λ _ _, True).
Proof.
  intros Hne. revert h slot; induction fuel as [|fuel IH]; intros h slot; [done|]. cbn [migrate_slots].
  case_bool_decide; [|done]. eapply safe_bind; [by apply migrate_slot_safe|]. intros h' [[]|] _ _; [apply IH|done].
Qed.
End migration_order.

(** C12: A slot migration never gives a slot away while the source still has keys
    in it, whatever the two servers answer: the source is put into the migrating
    state only after the target accepted the import, keys are migrated exactly
    as the source just listed them, the slot is assigned on the source only when
    the source has just answered that it holds no key of it, and on the target
    only after the source accepted; a failing command ends the request. *)
Theorem migration_ordered fuel s m req req' tr1 e tr2 out :
  migrate_request req = inr req' →
  runs (handleClusterMigrateRange fuel s m (Some req)) (tr1 ++ e :: tr2) out →
  migration_guard req' tr1 (projT1 e).
Proof.
  intros Hreq Hr. assert (safe (S := inst) (migration_guard req') [] (handleClusterMigrateRange fuel s m (Some req)) (λ _ _, True)) as Hs.
  { unfold handleClusterMigrateRange. destruct (negb _); [done|]. destruct (negb _); [done|]. rewrite Hreq.
    eapply safe_bind; [by apply safe_catch, migrate_slots_safe|]. by intros h' [[[]|]|e'] _ _. }
  exact (proj1 (safe_runs _ _ _ _ _ _ Hs Hr) tr1 e tr2 eq_refl).
Qed.

Definition migration_world : inst_world :=
  mkInstWorld (Ok three) (Err (EAPI "timeout")) (Ok []) (λ _, Ok master_info) [["k1"; "k2"]; []] ∅ [] (PeerDone "").

Definition migration_request : clusterMigrateRangePayload := mkMigrate "10.0.0.2" 6379 "target" "source" 5 5 64 5000.

Definition migration_run :=
  interp inst_env migration_world (handleClusterMigrateRange 5 (SetClusterMode true primary_server) POST (Some migration_request)).

Lemma migration_ordered_witness :
  migration_run.1.2 = Ok (Some (Text 200 "ok")) ∧
  migration_guard migration_request (take 5 migration_run.1.1) (ICmd Local (cmd_SetSlotNode 5 "target")).
Proof.
  split; [vm_compute; reflexivity|].
  apply (migration_ordered 5 (SetClusterMode true primary_server) POST migration_request migration_request
    (take 5 migration_run.1.1) (iev (ICmd Local (cmd_SetSlotNode 5 "target")) (Ok tt)) (drop 6 migration_run.1.1)
    (Ok (Some (Text 200 "ok")))).
  - vm_compute. reflexivity.
  - apply (interp_runs inst_env migration_world _ _ _ (migration_run.2)). vm_compute. reflexivity.
Defined.

Definition status_world : inst_world :=
  mkInstWorld (Ok three) (Err (EAPI "timeout")) (Ok [])
    (λ args, Ok (if bool_decide (args = ["cluster"; "nodes"]) then show_nodes [(sample_node, (16379, 0, 12))]
                 else if bool_decide (args = ["cluster"; "info"]) then "cluster_state:ok" else master_info)) [] ∅ [] (PeerDone "").

Definition status_run := interp inst_env status_world (handleStatus (SetClusterMode true primary_server) GET).

Definition sample_status : StatusResponse :=
  mkStatusResponse "master" 100 1 "" true "07c37d" "" "ok" [mkSlotRange 0 5460; mkSlotRange 7000 7000] 0 0 0.

Lemma status_reports_own_node_witness :
  let st := decode_status sample_status in
  ps_NodeID st = "07c37d" ∧ ps_SlotsServed st = [mkSlotRange 0 5460; mkSlotRange 7000 7000] ∧
  ps_PrimaryNodeID st = "" ∧ ps_Role st = "master" ∧ ps_ReplicationOffset st = 100 ∧ ps_Connected st = true.
Proof.
  apply (status_reports_own_node (SetClusterMode true primary_server) status_run.1.1 sample_status master_info
    "cluster_state:ok" [] (sample_node, (16379, 0, 12)) []).
  - reflexivity.
  - apply (interp_runs inst_env status_world _ _ _ status_world). vm_compute. reflexivity.
  - vm_compute. reflexivity.
  - repeat constructor; done || (vm_compute; congruence).
  - constructor.
  - reflexivity.
Defined.
