(* ===== verification/Migration.v ===== *)
(** * A slot migration completes

    The handler of [/v1/cluster/migrate-range] against a Redis that behaves as
    documented: [RedisPair] states what [GETKEYSINSLOT], [MIGRATE] and [SETSLOT]
    do to the keys and the slots of the source and of the target.  The theorems hold
    for every such pair of servers. *)
From S2P Require Import Prelude GoStr Api Effects Kube Replication InstanceManager Webserver WebserverFacts Fixtures InstanceFixtures.

(** ** Runs that end well *)

Definition completes {W A} (env : environment inst W) (w : W) (p : iprog A) (a : A) (w' : W) : Prop :=
  ∃ tr, interp env w p = (tr, Ok a, w').

Section completes.
Context {W : Type} (env : environment inst W).

Lemma completes_ret {A} w (a : A) : completes env w (mret a) a w.
Proof. by exists []. Qed.

Lemma completes_bind {A B} w w1 w2 (p : iprog A) (f : A → iprog B) a b :
  completes env w p a w1 → completes env w1 (f a) b w2 → completes env w (p ≫= f) b w2.
Proof.
  revert w; induction p as [x|e|c k IH]; intros w [tr Hp] Hf; simpl in Hp; [|done|].
  - simplify_eq. exact Hf.
  - destruct (env w c) as [r w0] eqn:He. destruct (interp env w0 (k r)) as [[tr1 o1] w1'] eqn:Hk. simplify_eq.
    destruct (IH r w0 (ex_intro _ tr1 Hk) Hf) as [tr2 H2]. exists (iev c r :: tr2).
    change (interp env w (Do c k ≫= f)) with
      (let '(r0, w0) := env w c in let '(tr, out, w'') := interp env w0 (k r0 ≫= f) in (iev c r0 :: tr, out, w'')).
    by rewrite He, H2.
Qed.

Lemma completes_call w c r w' : env w c = (r, w') → completes env w (icall c) r w'.
Proof. intros He. exists [iev c r]. simpl. by rewrite He. Qed.

Lemma completes_with_ctx {A} ctx w (p : iprog A) a w' : completes env w p a w' → completes env w (with_ctx ctx p) a w'.
Proof.
  revert w; induction p as [x|e|c k IH]; intros w [tr Hp]; simpl in Hp; [by exists tr|done|].
  destruct (env w c) as [r w0] eqn:He. destruct (interp env w0 (k r)) as [[tr1 o1] w1'] eqn:Hk. simplify_eq.
  destruct (IH r w0 (ex_intro _ tr1 Hk)) as [tr2 H2]. exists (iev c r :: tr2). simpl. by rewrite He, H2.
Qed.

Lemma completes_catch {A} w (p : iprog A) a w' : completes env w p a w' → completes env w (catch p) (Ok a) w'.
Proof.
  revert w; induction p as [x|e|c k IH]; intros w [tr Hp]; simpl in Hp; [simplify_eq; by exists []|done|].
  destruct (env w c) as [r w0] eqn:He. destruct (interp env w0 (k r)) as [[tr1 o1] w1'] eqn:Hk. simplify_eq.
  destruct (IH r w0 (ex_intro _ tr1 Hk)) as [tr2 H2]. exists (iev c r :: tr2). simpl. by rewrite He, H2.
Qed.

Lemma completes_redis w cl args w' : env w (ICmd cl args) = (Ok tt, w') → completes env w (redis cl args) tt w'.
Proof. intros He. eapply completes_bind; [exact (completes_call w (ICmd cl args) _ _ He)|]. apply completes_ret. Qed.
End completes.

(** ** The servers *)

Definition valid_slot (slot : Z) : Prop := 0 ≤ slot < 16384.

(** Two cluster nodes as their documentation describes them: [keys w slot] are
    the keys the source holds in a slot, [taken w] those the target holds, and
    [owns w slot] says that the source owns the slot.  A command is promised to
    succeed only on one of the 16384 slots, for the ids of the two nodes:
    [IMPORTING] and [MIGRATING] while the source owns the slot, [MIGRATE] to the
    target's address for keys of the slot the target does not have, [NODE] on
    the source once the slot is empty. *)
Class RedisPair {W} (env : environment inst W) (sourceID targetID targetIP : string) (targetPort : Z)
    (keys : W → Z → list string) (taken : W → list string) (owns : W → Z → Prop) : Prop := {
  one_slot w s s' k : k ∈ keys w s → k ∈ keys w s' → s = s';
  getkeys_law w slot n : valid_slot slot → 0 < n → ∃ ks,
    env w (IKeys Local (cmd_GetKeysInSlot slot n)) = (Ok (Some (Some <$> ks)), w) ∧
    ks ⊆ keys w slot ∧ (keys w slot ≠ [] → ks ≠ []);
  migrate_law w slot ms ks : valid_slot slot → 0 < ms → ks ≠ [] → ks ⊆ keys w slot → (∀ k, k ∈ ks → k ∉ taken w) →
    ∃ w', env w (ICmd Local (cmd_MigrateKeys targetIP targetPort ms ks)) = (Ok tt, w') ∧
      (∀ s, keys w' s = filter (λ k, k ∉ ks) (keys w s)) ∧ taken w' = taken w ++ ks ∧ ∀ s, owns w' s ↔ owns w s;
  importing_law w slot : valid_slot slot → owns w slot → ∃ w',
    env w (ICmd (Remote targetIP targetPort) (cmd_SetSlotImporting slot sourceID)) = (Ok tt, w') ∧
      (∀ s, keys w' s = keys w s) ∧ taken w' = taken w ∧ ∀ s, owns w' s ↔ owns w s;
  migrating_law w slot : valid_slot slot → owns w slot → ∃ w',
    env w (ICmd Local (cmd_SetSlotMigrating slot targetID)) = (Ok tt, w') ∧
      (∀ s, keys w' s = keys w s) ∧ taken w' = taken w ∧ ∀ s, owns w' s ↔ owns w s;
  node_source_law w slot : valid_slot slot → keys w slot = [] → ∃ w',
    env w (ICmd Local (cmd_SetSlotNode slot targetID)) = (Ok tt, w') ∧
      (∀ s, keys w' s = keys w s) ∧ taken w' = taken w ∧ ¬ owns w' slot ∧ ∀ s, s ≠ slot → owns w' s ↔ owns w s;
  node_target_law w slot : valid_slot slot → ∃ w',
    env w (ICmd (Remote targetIP targetPort) (cmd_SetSlotNode slot targetID)) = (Ok tt, w') ∧
      (∀ s, keys w' s = keys w s) ∧ taken w' = taken w ∧ ∀ s, owns w' s ↔ owns w s
}.

Section migration.
Context {W : Type} {env : environment inst W} {sourceID targetID targetIP : string} {targetPort : Z}.
Context {keys : W → Z → list string} {taken : W → list string} {owns : W → Z → Prop}.
Context `{!RedisPair env sourceID targetID targetIP targetPort keys taken owns}.

(** The target holds no key of the source. *)
Definition apart (w : W) : Prop := ∀ s k, k ∈ keys w s → k ∉ taken w.

(** What a part of the migration may do: keys leave the source only for the
    target. *)
Record carried (w w' : W) : Prop := {
  carried_sub s : keys w' s ⊆ keys w s;
  carried_len s : (length (keys w' s) ≤ length (keys w s))%nat;
  carried_kept s k : k ∈ keys w s → k ∈ keys w' s ∨ k ∈ taken w';
  carried_taken : taken w ⊆ taken w';
  carried_apart : apart w → apart w'
}.

#[global] Instance carried_preorder : PreOrder carried.
Proof.
  split.
  - intros w. split; [done|intros s; lia|intros s k ?; by left|done|done].
  - intros w1 w2 w3 [S1 L1 K1 R1 A1] [S2 L2 K2 R2 A2]. split.
    + intros s. etrans; [apply S2|apply S1].
    + intros s. etrans; [apply L2|apply L1].
    + intros s k [Hk|Hk]%K1; [by apply K2|]. right. by apply R2.
    + by etrans.
    + auto.
Qed.

Lemma carried_same w w' : (∀ s, keys w' s = keys w s) → taken w' = taken w → carried w w'.
Proof.
  intros Hk Hr. split; [intros s; by rewrite Hk|intros s; by rewrite Hk|intros s k ?; left; by rewrite Hk|by rewrite Hr|].
  intros Ha s k. rewrite Hk, Hr. apply Ha.
Qed.

Lemma carried_empty w w' s : carried w w' → keys w s = [] → keys w' s = [].
Proof. intros [Hs _ _ _ _] He. specialize (Hs s). rewrite He in Hs. by apply list_nil_subseteq. Qed.

Context (req : clusterMigrateRangePayload).
Context (batch : 0 < mg_BatchSize req) (timeout : 0 < mg_TimeoutMS req).
Context (Hsource : mg_SourceNodeID req = sourceID) (Htarget : mg_TargetNodeID req = targetID).
Context (Hip : mg_TargetIP req = targetIP) (Hport : mg_TargetPort req = targetPort).

Lemma mapM_some_id {A} (l : list A) : mapM id (Some <$> l) = Some l.
Proof. induction l as [|x l IH]; [done|]. cbn. unfold mapM in IH |- *. cbn in *. by rewrite IH. Qed.

Lemma keys_completes w slot : valid_slot slot → ∃ ks,
  completes env w (ClusterGetKeysInSlot Local slot (mg_BatchSize req)) ks w ∧ ks ⊆ keys w slot ∧ (keys w slot ≠ [] → ks ≠ []).
Proof.
  intros Hv. destruct (getkeys_law w slot (mg_BatchSize req) Hv batch) as (ks & He & Hsub & Hne). exists ks. split; [|done].
  unfold ClusterGetKeysInSlot.
  eapply completes_bind; [eapply completes_bind; [exact (completes_call env w (IKeys Local (cmd_GetKeysInSlot slot (mg_BatchSize req))) _ _ He)|apply completes_ret]|].
  cbn beta iota. rewrite mapM_some_id. apply completes_ret.
Qed.

(** One batch: the keys listed go to the target. *)
Lemma batch_carried w w1 slot ks :
  ks ⊆ keys w slot → (∀ s, keys w1 s = filter (λ k, k ∉ ks) (keys w s)) → taken w1 = taken w ++ ks → carried w w1.
Proof.
  intros Hsub Hk Hr. split.
  - intros s k. rewrite Hk, list_elem_of_filter. by intros [_ ?].
  - intros s. rewrite Hk. apply length_filter.
  - intros s k Hin. rewrite Hk, Hr, list_elem_of_filter, elem_of_app. destruct (decide (k ∈ ks)); auto.
  - rewrite Hr. intros k Hin. apply elem_of_app. by left.
  - intros Ha s k. rewrite Hk, Hr, list_elem_of_filter, elem_of_app. intros [Hn Hin] [Ht|Ht]; [|done]. by eapply Ha.
Qed.

Lemma drain_completes fuel w slot :
  valid_slot slot → apart w → (length (keys w slot) < fuel)%nat →
  ∃ w', completes env w (drain_slot req fuel slot) (Some tt) w' ∧ carried w w' ∧ keys w' slot = [] ∧
    ∀ s, owns w' s ↔ owns w s.
Proof.
  intros Hv. revert w; induction fuel as [|fuel IH]; intros w Ha Hf; [lia|]. cbn [drain_slot].
  destruct (keys_completes w slot Hv) as (ks & Hc & Hsub & Hne).
  destruct (decide (ks = [])) as [->|Hks].
  - exists w. split_and!; [|done|destruct (decide (keys w slot = [])) as [|Hn]; [done|by destruct (Hne Hn)]|done].
    eapply completes_bind; [by apply completes_with_ctx|]. cbn beta. rewrite bool_decide_true by done. apply completes_ret.
  - destruct (migrate_law w slot (mg_TimeoutMS req) ks) as (w1 & He & Hk & Hr & Ho); [done..|intros k Hin; eapply Ha, Hsub, Hin|].
    assert (carried w w1) as Hcar by by eapply batch_carried.
    destruct (IH w1) as (w2 & H2 & Hcar2 & Hempty & Ho2); [by apply Hcar| |].
    { rewrite Hk. destruct ks as [|k ks]; [done|].
      assert (length (filter (λ x, x ∉ k :: ks) (keys w slot)) < length (keys w slot))%nat; [|lia].
      apply (length_filter_lt _ _ k); [apply Hsub, list_elem_of_here|]. intros Hn. apply Hn, list_elem_of_here. }
    exists w2. split_and!; [|by etrans|done|intros s; by rewrite Ho2, Ho].
    eapply completes_bind; [by apply completes_with_ctx|]. cbn beta. rewrite bool_decide_false by done.
    eapply completes_bind; [|exact H2]. apply completes_with_ctx. unfold MigrateKeys. rewrite bool_decide_false by done.
    rewrite Hip, Hport. by apply completes_with_ctx, completes_redis.
Qed.

Lemma set_slot_completes w ctx cl args w' :
  env w (ICmd cl args) = (Ok tt, w') → (∀ s, keys w' s = keys w s) → taken w' = taken w →
  completes env w (with_ctx ctx (redis cl args)) tt w' ∧ carried w w'.
Proof. intros He Hk Hr. split; [by apply completes_with_ctx, completes_redis|by apply carried_same]. Qed.

Lemma migrate_slot_completes fuel w slot :
  valid_slot slot → owns w slot → apart w → (length (keys w slot) < fuel)%nat →
  ∃ w', completes env w (migrate_slot req fuel slot) (Some tt) w' ∧ carried w w' ∧ keys w' slot = [] ∧
    ¬ owns w' slot ∧ ∀ s, s ≠ slot → owns w' s ↔ owns w s.
Proof.
  intros Hv Ho Ha Hf. unfold migrate_slot, target_client. rewrite Hsource, Htarget, Hip, Hport.
  destruct (importing_law w slot Hv Ho) as (w1 & E1 & K1 & R1 & O1).
  destruct (migrating_law w1 slot Hv) as (w2 & E2 & K2 & R2 & O2); [by apply O1|].
  destruct (set_slot_completes _ ("target importing slot " +:+ itoa slot) _ _ _ E1 K1 R1) as [H1 C1].
  destruct (set_slot_completes _ ("source migrating slot " +:+ itoa slot) _ _ _ E2 K2 R2) as [H2 C2].
  destruct (drain_completes fuel w2 slot) as (w3 & H3 & C3 & Hempty & O3); [done|by apply C2, C1|by rewrite K2, K1|].
  destruct (node_source_law w3 slot Hv Hempty) as (w4 & E4 & K4 & R4 & N4 & O4).
  destruct (node_target_law w4 slot Hv) as (w5 & E5 & K5 & R5 & O5).
  destruct (set_slot_completes _ ("source assign slot " +:+ itoa slot) _ _ _ E4 K4 R4) as [H4 C4].
  destruct (set_slot_completes _ ("target assign slot " +:+ itoa slot) _ _ _ E5 K5 R5) as [H5 C5].
  exists w5. split_and!.
  - eapply completes_bind; [exact H1|]. eapply completes_bind; [exact H2|]. eapply completes_bind; [exact H3|].
    eapply completes_bind; [exact H4|]. eapply completes_bind; [exact H5|]. apply completes_ret.
  - etrans; [exact C1|]. etrans; [exact C2|]. etrans; [exact C3|]. by etrans.
  - by rewrite K5, K4.
  - by rewrite O5.
  - intros s Hs. by rewrite O5, O4, O3, O2, O1.
Qed.

Lemma migrate_slots_completes fuel w slot :
  0 ≤ slot → mg_End req < 16384 → 0 < Z.of_nat fuel → mg_End req + 1 - slot < Z.of_nat fuel →
  (∀ s, slot ≤ s ≤ mg_End req → owns w s) → apart w →
  (∀ s, slot ≤ s ≤ mg_End req → s - slot + Z.of_nat (length (keys w s)) < Z.of_nat fuel) →
  ∃ w', completes env w (migrate_slots req fuel slot) (Some tt) w' ∧ carried w w' ∧
    (∀ s, slot ≤ s ≤ mg_End req → keys w' s = [] ∧ ¬ owns w' s) ∧
    (∀ s, ¬ slot ≤ s ≤ mg_End req → owns w' s ↔ owns w s).
Proof.
  revert w slot; induction fuel as [|fuel IH]; intros w slot Hs He Hpos Hfuel Ho Ha Hlen; [lia|]. cbn [migrate_slots].
  case_bool_decide as Hle.
  2:{ exists w. split_and!; [apply completes_ret|done|intros s ?; lia|done]. }
  destruct (migrate_slot_completes (S fuel) w slot) as (w1 & H1 & C1 & E1 & N1 & O1);
    [unfold valid_slot; lia|apply Ho; lia|done|specialize (Hlen slot); lia|].
  rewrite (int32_small (slot + 1)) by (unfold in_int32; lia).
  destruct (IH w1 (slot + 1)) as (w2 & H2 & C2 & E2 & O2); [lia|done|lia|lia| |by apply C1| |].
  { intros s Hr. apply O1; [lia|]. apply Ho. lia. }
  { intros s Hr. pose proof (carried_len _ _ C1 s). specialize (Hlen s). lia. }
  exists w2. split_and!; [|by etrans| |].
  - eapply completes_bind; [exact H1|]. exact H2.
  - intros s Hr. destruct (decide (s = slot)) as [->|]; [|apply E2; lia]. split; [by eapply carried_empty|].
    rewrite O2 by lia. done.
  - intros s Hr. rewrite O2 by lia. apply O1. lia.
Qed.
End migration.
Arguments apart {W} keys taken w.

(** The bound on the loop's iterations: one per slot and one per key of the
    fullest slot, with room for the last test of each loop. *)
Definition enough_fuel {W} (keys : W → Z → list string) (w : W) (start end_ : Z) (fuel : nat) : Prop :=
  end_ + 1 - start < Z.of_nat fuel ∧
  ∀ s, start ≤ s ≤ end_ → s - start + Z.of_nat (length (keys w s)) < Z.of_nat fuel.


(** *** A pair of nodes *)

(** The keys of the source and of the target, and the slots the source owns.  A
    key's slot is given by its length; one key is listed at a time. *)
Record pair := mkPair { source_keys : list string; target_keys : list string; owned : list Z }.

Definition toy_slot (k : string) : Z := 99 + Z.of_nat (String.length k).
Definition keys_in (w : pair) (slot : Z) : list string := filter (λ k, toy_slot k = slot) (source_keys w).
Definition owned_by_source (w : pair) (slot : Z) : Prop := slot ∈ owned w.
Definition refused : res unit := Err (EAPI "ERR").

(** [CLUSTER SETSLOT] on one of the nodes. *)
Definition toy_setslot (w : pair) (cl : redis_client) (slot : Z) (verb node : string) : res unit * pair :=
  match cl with
  | Local =>
      if bool_decide (node = "target") then
        if bool_decide (verb = "MIGRATING") then (if bool_decide (slot ∈ owned w) then Ok tt else refused, w)
        else if bool_decide (verb = "NODE") then
          if bool_decide (keys_in w slot = [])
          then (Ok tt, mkPair (source_keys w) (target_keys w) (filter (λ z, z ≠ slot) (owned w)))
          else (refused, w)
        else (refused, w)
      else (refused, w)
  | Remote _ _ =>
      if bool_decide (verb = "IMPORTING") then (if bool_decide (node = "source" ∧ slot ∈ owned w) then Ok tt else refused, w)
      else if bool_decide (verb = "NODE" ∧ node = "target") then (Ok tt, w)
      else (refused, w)
  end.

Definition toy_slot_of (s : string) : option Z :=
  match Atoi s with (z, None) => if bool_decide (0 ≤ z < 16384) then Some z else None | _ => None end.

Definition pair_env : environment inst pair := λ w c,
  match c return inst_ret c * pair with
  | ICmd cl ["CLUSTER"; "SETSLOT"; slot; verb; node] =>
      match toy_slot_of slot with Some z => toy_setslot w cl z verb node | None => (refused, w) end
  | ICmd Local ("MIGRATE" :: "10.0.0.2" :: "6379" :: "" :: "0" :: _ :: "KEYS" :: ks) =>
      if bool_decide (ks ⊆ source_keys w ∧ Forall (λ k, k ∉ target_keys w) ks)
      then (Ok tt, mkPair (filter (λ k, k ∉ ks) (source_keys w)) (target_keys w ++ ks) (owned w))
      else (refused, w)
  | ICmd _ _ => (refused, w)
  | IKeys _ args =>
      (match toy_slot_of (default "" (args !! 2%nat)) with
       | Some z => Ok (Some (Some <$> take 1 (keys_in w z)))
       | None => Err (EAPI "ERR")
       end, w)
  | c => ((inst_env cut_off c).1, w)
  end.

Lemma toy_slot_itoa slot : valid_slot slot → toy_slot_of (itoa slot) = Some slot.
Proof. intros Hv. unfold toy_slot_of, valid_slot in *. rewrite Atoi_itoa by lia. by rewrite bool_decide_true. Qed.

Lemma pair_setslot w cl slot verb node :
  valid_slot slot →
  pair_env w (ICmd cl ["CLUSTER"; "SETSLOT"; itoa slot; verb; node]) = toy_setslot w cl slot verb node.
Proof. intros Hv. destruct cl; cbn -[Atoi toy_slot_of toy_setslot]; by rewrite toy_slot_itoa. Qed.

#[global] Instance pair_nodes :
  RedisPair pair_env "source" "target" "10.0.0.2" 6379 keys_in target_keys owned_by_source.
Proof.
  split.
  - intros w s s' k [<- _]%list_elem_of_filter [<- _]%list_elem_of_filter. done.
  - intros w slot n Hv _. exists (take 1 (keys_in w slot)). split; [|split].
    + cbn [pair_env cmd_GetKeysInSlot]. change (default "" _) with (itoa slot). by rewrite toy_slot_itoa.
    + intros k Hk. rewrite <- (take_drop 1 (keys_in w slot)). apply elem_of_app. by left.
    + by destruct (keys_in w slot).
  - intros w slot ms ks Hv Hms Hne Hsub Hfresh.
    exists (mkPair (filter (λ k, k ∉ ks) (source_keys w)) (target_keys w ++ ks) (owned w)). split; [|split_and!; [|done..]].
    + cbn [pair_env cmd_MigrateKeys app]. change (itoa 6379) with "6379". rewrite bool_decide_true; [done|].
      split; [|by apply Forall_forall]. intros k [_ Hk]%Hsub%list_elem_of_filter. done.
    + intros s. unfold keys_in. cbn [source_keys]. rewrite !list_filter_filter. apply list_filter_iff. tauto.
  - intros w slot Hv Ho. exists w. split; [|done]. unfold cmd_SetSlotImporting. rewrite pair_setslot by done.
    unfold toy_setslot. by rewrite !bool_decide_true.
  - intros w slot Hv Ho. exists w. split; [|done]. unfold cmd_SetSlotMigrating. rewrite pair_setslot by done.
    unfold toy_setslot. by rewrite !bool_decide_true.
  - intros w slot Hv He. exists (mkPair (source_keys w) (target_keys w) (filter (λ z, z ≠ slot) (owned w))).
    unfold cmd_SetSlotNode. rewrite pair_setslot by done. unfold toy_setslot.
    rewrite (bool_decide_true (keys_in w slot = [])) by done. split; [done|]. split_and!; [done..| |].
    + by intros [? _]%list_elem_of_filter.
    + intros s Hs. unfold owned_by_source. cbn. rewrite list_elem_of_filter. tauto.
  - intros w slot Hv. exists w. split; [|done]. unfold cmd_SetSlotNode. by rewrite pair_setslot by done.
Qed.

Definition migrating_server : Server := SetClusterMode true primary_server.

Definition a_migration : clusterMigrateRangePayload := mkMigrate " 10.0.0.2 " 0 "target" "source" 100 102 0 0.

Definition a_pair : pair := mkPair ["a"; "bbb"; "ccc"; "another"] [] [100; 101; 102; 103].

