(* ===== verification/InstanceFacts.v ===== *)
(** * The instance manager's reconciler: theorems

    A fenced instance stops Redis and does nothing else; an instance changes its
    replication role only the way the cluster's status says; what it reports
    changes its own entry only. *)
From S2P Require Import Prelude GoStr Api Effects History Kube Fencing FencingFacts Resources Replication Paths.
From S2P Require Import InstanceManager Webserver WebserverFacts Fixtures InstanceFixtures.
From Stdlib Require Import Ascii.

(** ** Fencing *)

Lemma hardFence_spec p cluster :
  requiresHardFence p cluster = true ↔ p ∈ getFencedPods cluster ∧ handover_owner cluster ≠ p.
Proof.
  unfold requiresHardFence. rewrite andb_true_iff, isFenced_getFencedPods, bool_decide_eq_true, negb_true_iff, bool_decide_eq_false.
  done.
Qed.

(** C7: A pod the operator fenced stops Redis and does nothing else in that pass:
    the event, the interrupt, no Redis command, no status report; only a pod that
    owns a planned handover keeps running while it is in the list. *)
Theorem fenced_instance_stops p has sha known tr out cluster :
  runs (Reconcile_instance p has sha known) tr out → head (omap view_cluster tr) = Some (Ok cluster) →
  p ∈ getFencedPods cluster → handover_owner cluster ≠ p →
  projT1 <$> tr =
    [IGetCluster; IEvent EventWarning "InstanceFenced" ("Pod " +:+ p +:+ " is fenced, stopping redis-server")] ++
    (if has then [IInterrupt] else []) ∧ out = Ok (known, Ok tt).
Proof.
  intros (r & tr' & -> & Hr) Hc Hin Hho. answered Hr. cbn in Hc. injection Hc as ->.
  rewrite (proj2 (hardFence_spec p cluster)) in Hr by done.
  destruct Hr as ([] & tr2 & -> & Hr). answered Hr. unfold stopRedis in Hr. destruct has.
  - destruct Hr as ([] & tr3 & -> & Hr). by destruct Hr as [-> ->].
  - by destruct Hr as [-> ->].
Qed.

(** ** Roles *)

Section roles.
Context (podName : string) (has_process : bool) (sha256 : string → string).

(** The cluster the pass works with says that this pod is the primary. *)
Definition promotion_allowed (cluster : RedisCluster) : Prop := Status_CurrentPrimary (Status cluster) = podName.

(** The server to follow: the external source in replica mode, otherwise the pod
    the status records as primary, which is another one. *)
Definition follow_allowed (h : trace inst) (cluster : RedisCluster) (host port : string) : Prop :=
  (replicaModeEnabled cluster = true ∧ ∃ p, replicaModeSourceEndpoint cluster = Ok (host, p) ∧ port = itoa p) ∨
  (replicaModeEnabled cluster = false ∧ Status_CurrentPrimary (Status cluster) ≠ podName ∧ port = itoa 6379 ∧
   ∃ pod, iev (IGetPod (Status_CurrentPrimary (Status cluster))) (Ok pod) ∈ h ∧ p_PodIP pod = host ∧ host ≠ "").

(** What a role command needs. *)
Definition role_guard (h : trace inst) (c : inst_op) : Prop :=
  ∀ cl a b, c = ICmd cl ["slaveof"; a; b] →
    cl = Local ∧ ∃ cluster, iev IGetCluster (Ok cluster) ∈ h ∧ requiresHardFence podName cluster = false ∧
      Spec_Mode (Spec cluster) ≠ ClusterModeCluster ∧
      (([a; b] = ["NO"; "ONE"] ∧ promotion_allowed cluster) ∨ follow_allowed h cluster a b).

Abbreviation osafe h p Q := (safe (S := inst) role_guard h p Q).

(** Operations that are no role command. *)
Definition no_role (c : inst_op) : bool :=
  match c with ICmd _ (verb :: _) => negb (bool_decide (verb = "slaveof")) | _ => true end.

Lemma no_role_guard h c : no_role c = true → role_guard h c.
Proof. intros Hn cl a b ->. cbn in Hn. by rewrite bool_decide_true in Hn. Qed.

Lemma quiet_role {A} h (p : iprog A) : iissues no_role p → osafe h p (λ h' _, h `prefix_of` h').
Proof. intros Hp. by eapply (safe_issues (S := inst)); [exact Hp|apply no_role_guard|]. Qed.

Lemma getPodIP_safe h name :
  osafe h (getPodIP name) (λ h' ip, h `prefix_of` h' ∧ ip ≠ "" ∧ ∃ pod, iev (IGetPod name) (Ok pod) ∈ h' ∧ p_PodIP pod = ip).
Proof.
  unfold getPodIP. inst_step; [by intros ? ? ?|]. case_bool_decide as Hip; [done|]. split; [by apply prefix_app_r|].
  split; [done|]. exists a. split; [|done]. apply elem_of_app. right. apply list_elem_of_here.
Qed.

Lemma role_event h (ty : event_type) reason msg args :
  role_guard (h ++ [iev (IEvent ty reason msg) tt]) (ICmd Local args) →
  osafe h (icall (IEvent ty reason msg);; redis Local args) (λ _ _, True).
Proof.
  intros Hg. apply (safe_call (S := inst)); [by intros ? ? ?|]. intros [].
  change (safe ?G ?h (mbind ?f (Ret ?a)) ?Q) with (safe G h (f a) Q). unfold redis. by inst_step.
Qed.

Lemma role_guard_intro h cluster (x : event inst) a b :
  iev IGetCluster (Ok cluster) ∈ h → requiresHardFence podName cluster = false →
  Spec_Mode (Spec cluster) ≠ ClusterModeCluster →
  (([a; b] = ["NO"; "ONE"] ∧ promotion_allowed cluster) ∨ follow_allowed h cluster a b) →
  role_guard (h ++ [x]) (ICmd Local ["slaveof"; a; b]).
Proof.
  intros Hin Hf Hm Hr cl a' b' [= <- <- <-]. split; [done|]. exists cluster. split; [apply elem_of_app; by left|].
  split; [done|]. split; [done|]. destruct Hr as [?|[?|(? & ? & ? & pod & ? & ?)]]; [by left|by right; left|].
  right. right. split_and!; [done..|]. exists pod. split; [apply elem_of_app; by left|done].
Qed.

Lemma instance_replica_mode_safe h cluster info :
  iev IGetCluster (Ok cluster) ∈ h → requiresHardFence podName cluster = false →
  Spec_Mode (Spec cluster) ≠ ClusterModeCluster → replicaModeEnabled cluster = true →
  osafe h (reconcile_replica_mode podName cluster info) (λ _ _, True).
Proof.
  intros Hin Hf Hm Hrm. unfold reconcile_replica_mode.
  destruct (replicaModeSourceEndpoint cluster) as [[host port]|e] eqn:He; [|done].
  change (safe ?G ?h (mbind ?f (check (Ok ?a))) ?Q) with (safe G h (f a) Q). cbn beta iota.
  destruct (promote_requested cluster && _) eqn:Hp.
  - apply andb_true_iff in Hp as [_ Hp%bool_decide_eq_true]. case_bool_decide; [|done].
    apply role_event. eapply role_guard_intro; [done..|]. by left.
  - destruct (_ || _ || _); [|done]. apply role_event. eapply role_guard_intro; [done..|]. right. left. eauto.
Qed.

Lemma reconcileRole_safe h cluster :
  iev IGetCluster (Ok cluster) ∈ h → requiresHardFence podName cluster = false →
  osafe h (reconcileRole podName cluster) (λ _ _, True).
Proof.
  intros Hin Hf. unfold reconcileRole. case_bool_decide as Hm; [done|].
  eapply safe_bind; [apply safe_with_ctx, quiet_role; unfold GetInfo, icall; issues|].
  intros h1 info [k ->] _. destruct (replicaModeEnabled cluster) eqn:Hrm.
  { apply instance_replica_mode_safe; try done. apply elem_of_app; by left. }
  cbn zeta. destruct (bool_decide_reflect (Status_CurrentPrimary (Status cluster) = podName)) as [Hp|Hp].
  { case_bool_decide; [|done]. apply role_event. eapply role_guard_intro; [|done..|by left]. apply elem_of_app; by left. }
  assert (∀ h2 ip, (h ++ k `prefix_of` h2 ∧ ip ≠ "" ∧
      ∃ pod, iev (IGetPod (Status_CurrentPrimary (Status cluster))) (Ok pod) ∈ h2 ∧ p_PodIP pod = ip) →
    ∀ x, role_guard (h2 ++ [x]) (ICmd Local (cmd_SetReplicaOf ip defaultReplicaModePort))) as Hfollow.
  { intros h2 ip ([k2 ->] & Hip & pod & Hpod & Heq) x. apply (role_guard_intro _ cluster); [|done..|].
    - apply elem_of_app; left. apply elem_of_app; by left.
    - right. right. split_and!; [done..|]. eauto. }
  case_bool_decide.
  - eapply safe_bind; [apply safe_with_ctx, getPodIP_safe|]. intros h2 ip _ H2. by apply role_event, Hfollow.
  - case_bool_decide; [|done]. eapply safe_bind; [apply safe_with_ctx, getPodIP_safe|]. intros h2 ip _ H2.
    destruct (_ || _); [|done]. by apply role_event, Hfollow.
Qed.
End roles.

(** ** The rest of the pass *)

Lemma config_set_no_role key val : iissues no_role (config_set key val).
Proof. unfold config_set, redis, icall. issues. Qed.

Lemma readSecretKey_no_role name key : iissues no_role (readSecretKey name key).
Proof. unfold readSecretKey, resolveProjectedSecretsDir, resolve_path, icall. issues. Qed.
#[export] Hint Resolve config_set_no_role readSecretKey_no_role : redis.

Lemma reconcileConfig_no_role cluster : iissues no_role (reconcileConfig cluster).
Proof.
  unfold reconcileConfig. apply issues_bind; [done|]. intros ord. apply issues_bind.
  { apply issues_for_each. intros kv. destruct (requiresRestart _); (done || auto with redis). }
  intros _. apply issues_bind; [destruct (ResolveMaxMemoryBytes _); (auto with redis || done)|].
  intros _. cbn zeta. destruct (bool_decide _); (done || auto with redis).
Qed.

Lemma reconcile_auth_no_role cluster : iissues no_role (reconcile_auth cluster).
Proof. unfold reconcile_auth. issues; auto with redis. Qed.

Lemma reconcile_acl_no_role cluster : iissues no_role (reconcile_acl cluster).
Proof. unfold reconcile_acl, resolveACLFilePath, resolve_path, redis, icall. issues; auto with redis. Qed.
#[export] Hint Resolve reconcileConfig_no_role reconcile_auth_no_role reconcile_acl_no_role : redis.

Lemma reconcileInstanceSecrets_no_role cluster : iissues no_role (reconcileInstanceSecrets cluster).
Proof. unfold reconcileInstanceSecrets, redis, icall. issues; auto with redis. Qed.

Lemma readTLSCertChecksums_no_role sha : iissues no_role (readTLSCertChecksums sha).
Proof.
  unfold readTLSCertChecksums. apply issues_bind; [done|]. intros ord. generalize (∅ : gmap string string) as sums.
  induction (range_map _ _) as [|[k p] files IH]; intros sums; [done|]. unfold icall. issues. apply IH.
Qed.
#[export] Hint Resolve reconcileInstanceSecrets_no_role readTLSCertChecksums_no_role : redis.

Lemma reconcileTLSCerts_no_role sha known cluster : iissues no_role (reconcileTLSCerts sha known cluster).
Proof.
  unfold reconcileTLSCerts. destruct (negb _); [done|].
  apply issues_bind; [apply issues_catch, readTLSCertChecksums_no_role|]. intros [current|e]; [|done].
  destruct (bool_decide _); [done|]. destruct (bool_decide _); [done|].
  apply issues_bind; [apply issues_catch, issues_for_each; intros kv _; apply config_set_no_role|]. by intros [[]|e].
Qed.

Lemma reportStatus_no_role p cluster : iissues no_role (reportStatus p cluster).
Proof. unfold reportStatus, GetInfo, icall. issues. Qed.
#[export] Hint Resolve reconcileTLSCerts_no_role reportStatus_no_role : redis.

(** After the role: nothing more is asked of the replication. *)
Lemma after_role_no_role p sha known cluster :
  iissues no_role
    (config ← catch (reconcileConfig cluster);
     match config with
     | Ok _ => if bool_decide (Spec_Redis (Spec cluster) = ∅) then mret tt
               else icall (IEvent EventNormal "ConfigReloaded" "Redis configuration reloaded")
     | Err _ => mret tt
     end;;
     secrets ← catch (reconcileInstanceSecrets cluster);
     match secrets with
     | Err e =>
         if fallback_unavailable e then mret (known, Err e)
         else
           tls ← reconcileTLSCerts sha known cluster;
           status ← catch (reportStatus p cluster);
           mret (tls.1, status)
     | Ok _ =>
         tls ← reconcileTLSCerts sha known cluster;
         status ← catch (reportStatus p cluster);
         mret (tls.1, status)
     end : iprog (gmap string string * res unit)).
Proof.
  apply issues_bind; [apply issues_catch, reconcileConfig_no_role|]. intros config.
  apply issues_bind; [by destruct config; [destruct (bool_decide _)|]|]. intros _.
  apply issues_bind; [apply issues_catch, reconcileInstanceSecrets_no_role|].
  assert (iissues no_role (tls ← reconcileTLSCerts sha known cluster; status ← catch (reportStatus p cluster); mret (tls.1, status)))
    as Htail.
  { apply issues_bind; [apply reconcileTLSCerts_no_role|]. intros tls.
    apply issues_bind; [apply issues_catch, reportStatus_no_role|done]. }
  intros [[]|e]; [done|]. by destruct (fallback_unavailable e).
Qed.

(** C8: An instance changes its replication role only the way the status of the
    cluster it just read says.  It makes itself a primary (SLAVEOF NO ONE) only
    when the status names its own pod, so of two instances that read the same
    status at most one does; it follows the external source in replica mode, and
    otherwise the address of the pod the status names, which is not its own.  A
    fenced instance and an instance of a Redis Cluster issue no such command. *)
Theorem roles_follow_status p has sha known tr1 e tr2 out :
  runs (Reconcile_instance p has sha known) (tr1 ++ e :: tr2) out → role_guard p tr1 (projT1 e).
Proof.
  intros Hr. assert (safe (S := inst) (role_guard p) [] (Reconcile_instance p has sha known) (λ _ _, True)) as Hs.
  { apply (safe_call (S := inst)); [by intros ? ? ?|]. intros [cluster|err]; [|done].
    destruct (requiresHardFence p cluster) eqn:Hf.
    { eapply safe_mono; [apply quiet_role; unfold stopRedis, icall; issues|done]. }
    eapply (safe_bind _ _ _ _ (λ _ _, True)).
    { eapply safe_mono; [apply (safe_catch _ _ _ (λ _ _, True)), reconcileRole_safe; [apply list_elem_of_here|done]|done]. }
    intros h [[]|err] _ _; [|done]. eapply safe_mono; [apply quiet_role, after_role_no_role|done]. }
  exact (proj1 (safe_runs _ _ _ _ _ _ Hs Hr) tr1 e tr2 eq_refl).
Qed.

(** *** Witnesses *)

Definition fenced_run := interp inst_env fenced_world (Reconcile_instance "c-0" true id ∅).

Lemma fenced_instance_stops_witness :
  "c-0" ∈ getFencedPods fenced_three ∧
  projT1 <$> fenced_run.1.1 =
    [IGetCluster; IEvent EventWarning "InstanceFenced" "Pod c-0 is fenced, stopping redis-server"; IInterrupt] ∧
  fenced_run.1.2 = Ok (∅, Ok tt).
Proof.
  assert ("c-0" ∈ getFencedPods fenced_three) as Hin by (apply (bool_decide_eq_true_1 _); vm_compute; reflexivity).
  split; [exact Hin|].
  apply (fenced_instance_stops "c-0" true id ∅ fenced_run.1.1 fenced_run.1.2 fenced_three).
  - apply (interp_runs inst_env fenced_world _ _ _ fenced_run.2). vm_compute. reflexivity.
  - vm_compute. reflexivity.
  - exact Hin.
  - vm_compute. discriminate.
Defined.

(** A former primary that comes back as [c-1] while [c-0] is the primary. *)
Definition returning_world : inst_world :=
  mkInstWorld (Ok three) (Ok (mk_pod "c-0" "10.0.0.1" ∅ true)) (Ok []) (λ _, Ok master_info) [] ∅ [] (PeerDone "").

Definition returning_run := interp inst_env returning_world (Reconcile_instance "c-1" true id ∅).

Lemma roles_follow_status_witness :
  role_guard "c-1" (take 4 returning_run.1.1) (ICmd Local ["slaveof"; "10.0.0.1"; "6379"]) ∧
  projT1 <$> returning_run.1.1 !! 4%nat = Some (ICmd Local ["slaveof"; "10.0.0.1"; "6379"]).
Proof.
  split; [|vm_compute; reflexivity].
  apply (roles_follow_status "c-1" true id ∅ (take 4 returning_run.1.1)
    (iev (ICmd Local ["slaveof"; "10.0.0.1"; "6379"]) (Ok tt)) (drop 5 returning_run.1.1) returning_run.1.2).
  apply (interp_runs inst_env returning_world _ _ _ returning_run.2). vm_compute. reflexivity.
Defined.
