(* ===== verification/Startup.v ===== *)
(** * Starting Redis and Sentinel in a pod ([internal/instance-manager/run])

    [run.go] decides, from the cluster's status, whether the server starts as a
    primary or as a replica, writes [redis.conf] and the ACL file, starts
    redis-server, and then serves HTTP and reconciles until the server exits.
    [sentinel.go] does the same for a Sentinel pod and reloads its certificates.
    The HTTP server and the controller manager run concurrently with the wait
    for the process; [IStartServer] and [IStartManager] start them, and [IStartWatch]
    starts [watchSentinelTLSCerts] beside a Sentinel that uses TLS. *)
From S2P Require Import Prelude GoStr Paths Api Effects Kube Fencing Resources Replication InstanceManager Webserver.
From Stdlib Require Import Ascii.

Definition dataDir := "/data".
Definition redisConfPath := "/data/redis.conf".
Definition sentinelConfPath := "/data/sentinel.conf".
Definition tlsCertPath := "/tls/tls.crt".
Definition tlsKeyPath := "/tls/tls.key".
Definition tlsCAPath := "/tls/ca.crt".
Definition redisPort : Z := 6379.
Definition httpListenAddr := ":8080".
Definition defaultPrimaryIsolationTimeout : Z := 5 * 10 ^ 9.
Definition SentinelQuorum : Z := 2.

(** ** Settings *)

Definition replicaModeSourcePort (source : ReplicaSourceSpec) : Z :=
  if bool_decide (rs_Port source ≤ 0) then 6379 else rs_Port source.

Definition primaryIsolationEnabled (cfg : option PrimaryIsolationSpec) : bool :=
  match cfg ≫= pi_Enabled with Some enabled => enabled | None => true end.

Definition isolation_timeout (t : option Z) : Z :=
  match t with
  | Some d => if bool_decide (d ≤ 0) then defaultPrimaryIsolationTimeout else d
  | None => defaultPrimaryIsolationTimeout
  end.
Definition primaryIsolationAPIServerTimeout (cfg : option PrimaryIsolationSpec) : Z :=
  isolation_timeout (cfg ≫= pi_APIServerTimeout).
Definition primaryIsolationPeerTimeout (cfg : option PrimaryIsolationSpec) : Z :=
  isolation_timeout (cfg ≫= pi_PeerTimeout).

Definition redisConfigValue (cluster : RedisCluster) (key defaultValue : string) : string :=
  match Spec_Redis (Spec cluster) !! key with
  | Some value => if bool_decide (TrimSpace value = "") then defaultValue else value
  | None => defaultValue
  end.

Definition readProjectedSecretPassword (secretName : string) : iprog string :=
  dir ← resolveProjectedSecretsDir;
  content ← icall (IReadFile (Join [dir; secretName; "password"])) ≫= check;
  mret (TrimSpace content).

Definition resolveLocalAuthPassword (cluster : RedisCluster) : iprog string :=
  let authSecretName := effectiveAuthSecretName cluster in
  if bool_decide (authSecretName = "") then mret ""
  else with_ctx ("reading projected auth secret " +:+ authSecretName +:+ "/password") (readProjectedSecretPassword authSecretName).

Definition resolvePodIP (podName namespace : string) : iprog string :=
  pod ← icall (IGetPod podName) ≫= check_ctx ("getting pod " +:+ namespace +:+ "/" +:+ podName +:+ " for IP resolution");
  if bool_decide (p_PodIP pod = "") then Throw (Errorf ("pod " +:+ namespace +:+ "/" +:+ podName +:+ " has no IP assigned yet"))
  else mret (p_PodIP pod).

(** ** Configuration files *)

Definition tls_lines (port : Z) : list string :=
  ["tls-port " +:+ itoa port; "port 0"; "tls-cert-file " +:+ tlsCertPath; "tls-key-file " +:+ tlsKeyPath;
   "tls-ca-cert-file " +:+ tlsCAPath; "tls-auth-clients optional"; "tls-replication yes"].

Definition listen_lines (cluster : RedisCluster) (port : Z) : list string :=
  if isTLSEnabled cluster then tls_lines port else ["port " +:+ itoa port].

Definition cluster_lines (cluster : RedisCluster) (podIP : string) : list string :=
  if bool_decide (Spec_Mode (Spec cluster) = ClusterModeCluster) then
    ["cluster-enabled yes"; "cluster-config-file " +:+ Join [dataDir; "nodes.conf"];
     "cluster-node-timeout " +:+ redisConfigValue cluster "cluster-node-timeout" "15000";
     "cluster-announce-port 6379"; "cluster-announce-bus-port 16379"] ++
    (if bool_decide (podIP = "") then [] else ["cluster-announce-ip " +:+ podIP])
  else [].

Definition optional_line (present : bool) (line : string) : list string := if present then [line] else [].

Definition redis_conf_lines (cluster : RedisCluster) (replicaOfDirective masterAuth podIP : string) (picks : list nat)
  : list string :=
  ["bind 0.0.0.0"; "dir " +:+ dataDir; "appendonly yes"; "aof-use-rdb-preamble yes"; "appenddirname appendonlydir";
   "save 900 1"; "save 300 10"; "save 60 10000"] ++
  listen_lines cluster redisPort ++
  cluster_lines cluster podIP ++
  optional_line (negb (bool_decide (replicaOfDirective = ""))) replicaOfDirective ++
  optional_line (negb (bool_decide (masterAuth = ""))) ("masterauth " +:+ masterAuth) ++
  ((λ kv, kv.1 +:+ " " +:+ kv.2) <$> range_map picks (Spec_Redis (Spec cluster))) ++
  match ResolveMaxMemoryBytes (Spec cluster) with Some bytes => ["maxmemory " +:+ itoa bytes] | None => [] end ++
  optional_line (negb (bool_decide (EffectiveMaxMemoryPolicy (Spec cluster) = "")))
    ("maxmemory-policy " +:+ EffectiveMaxMemoryPolicy (Spec cluster)) ++
  optional_line (bool_decide (is_Some (Spec_ACLConfigSecret (Spec cluster)))) ("aclfile " +:+ Join [dataDir; "users.acl"]).

Definition file_of (lines : list string) : string := String.concat nl lines +:+ nl.

Definition writeRedisConf (cluster : RedisCluster) (replicaOfDirective masterAuth podIP : string) : iprog unit :=
  icall (IMkdirAll dataDir) ≫= check_ctx "creating data directory";;
  ord ← icall IMapOrder;
  icall (IWriteFile redisConfPath (file_of (redis_conf_lines cluster replicaOfDirective masterAuth podIP (ord 0%nat)))) ≫= check.

(** A secret that is not projected yet leaves an empty file. *)
Definition seedACLFile (cluster : RedisCluster) : iprog unit :=
  match Spec_ACLConfigSecret (Spec cluster) with
  | None => mret tt
  | Some name =>
      let target := Join [dataDir; "users.acl"] in
      dir ← resolveProjectedSecretsDir;
      content ← icall (IReadFile (Join [dir; name; "acl"]));
      match content with
      | Ok content => icall (IWriteFile target content) ≫= check
      | Err e =>
          if IsNotFound e then icall (IWriteFile target "") ≫= check
          else Throw (Wrap ("reading projected ACL secret " +:+ name +:+ "/acl") e)
      end
  end.

Section run.
(** Whether a PEM text has a certificate ([AppendCertsFromPEM]), the chain check
    of [x509.Certificate.Verify], and SHA-256 in hexadecimal. *)
Context (has_certificates : string → bool) (sha256 : string → string).
Context (cert : Type) (Verify : string → list cert → cert → res unit).

(** The certificate pool is the text it was read from. *)
Definition loadRootCAsFromFile (path : string) : iprog string :=
  caCert ← icall (IReadFile path) ≫= check_ctx ("reading CA certificate " +:+ path);
  if negb (has_certificates caCert) then Throw (Errorf ("parsing CA certificate " +:+ path)) else mret caCert.

(** [None] without TLS. *)
Definition redisTLSConfig (cluster : RedisCluster) : iprog (option string) :=
  if negb (isTLSEnabled cluster) then mret None
  else rootCAs ← loadRootCAsFromFile tlsCAPath; mret (Some rootCAs).

(** [VerifyConnection]: the CA is read again for every handshake. *)
Definition verifyConnection (peerCertificates : list cert) : iprog unit :=
  match peerCertificates with
  | [] => Throw (Errorf "redis server did not present a certificate")
  | leaf :: intermediates =>
      roots ← with_ctx "reloading CA certificate for Redis TLS verification" (loadRootCAsFromFile tlsCAPath);
      check_ctx "verifying redis server certificate chain" (Verify roots intermediates leaf)
  end.

(** ** Data pods *)

(** The [replicaof] line and the password for it. *)
Definition replication_settings (cluster : RedisCluster) (podName namespace : string) : iprog (string * string) :=
  if replicaModeEnabled cluster then
    match replicaModeSource cluster with
    | None => Throw (Errorf "replica mode is enabled but source.host is missing")
    | Some source =>
        if bool_decide (TrimSpace (rs_Host source) = "") then Throw (Errorf "replica mode is enabled but source.host is missing")
        else
          let directive := "replicaof " +:+ rs_Host source +:+ " " +:+ itoa (replicaModeSourcePort source) in
          if bool_decide (rs_AuthSecretName source = "") then mret (directive, "")
          else
            password ← with_ctx ("reading replica mode auth secret " +:+ rs_AuthSecretName source +:+ "/password")
                         (readProjectedSecretPassword (rs_AuthSecretName source));
            mret (directive, password)
    end
  else if bool_decide (Spec_Mode (Spec cluster) = ClusterModeCluster) then mret ("", "")
  else
    let primary := Status_CurrentPrimary (Status cluster) in
    if bool_decide (primary = podName) || bool_decide (primary = "") then mret ("", "")
    else
      primaryIP ← with_ctx "resolving primary IP for split-brain guard" (resolvePodIP primary namespace);
      mret ("replicaof " +:+ primaryIP +:+ " " +:+ itoa redisPort, "").

(** The HTTP server of a data pod. *)
Definition data_server (cluster : RedisCluster) (clusterName podName namespace : string) : Server :=
  let iso := Spec_PrimaryIsolation (Spec cluster) in
  SetRedisCmd Running
    (SetPrimaryIsolationConfig true
       (mkIsolationConfig (primaryIsolationEnabled iso) clusterName namespace podName (primaryIsolationAPIServerTimeout iso)
          (primaryIsolationPeerTimeout iso))
       (SetClusterMode (bool_decide (Spec_Mode (Spec cluster) = ClusterModeCluster))
          (SetMetricsIdentity clusterName namespace podName
             (NewServer true httpListenAddr (redis Local cmd_Promote) (λ ip port, redis Local (cmd_SetReplicaOf ip port)))))).

Definition Run (clusterName podName namespace : string) : iprog unit :=
  icall IKubeConfig ≫= check_ctx "getting kubeconfig";;
  icall IKubeClient ≫= check_ctx "creating Kubernetes client";;
  cluster ← icall IGetCluster ≫= check_ctx ("fetching RedisCluster " +:+ namespace +:+ "/" +:+ clusterName);
  settings ← replication_settings cluster podName namespace;
  podIP ← icall (IGetenv "POD_IP");
  with_ctx "writing redis.conf" (writeRedisConf cluster settings.1 settings.2 podIP);;
  with_ctx "seeding ACL file" (seedACLFile cluster);;
  icall (IStartProcess "redis-server" redisConfPath) ≫= check_ctx "starting redis-server";;
  with_ctx "building redis client TLS config" (redisTLSConfig cluster);;
  with_ctx "resolving local auth password" (resolveLocalAuthPassword cluster);;
  icall (IStartServer (sv_listenAddr (data_server cluster clusterName podName namespace)));;
  icall INewManager ≫= check_ctx "creating controller manager for instance reconciler";;
  icall ISetupReconciler ≫= check_ctx "setting up instance reconciler";;
  icall IStartManager;;
  icall (IWaitProcess "redis-server") ≫= check_ctx "redis-server exited".

(** ** Sentinel pods *)

Definition sentinel_conf_lines (cluster : RedisCluster) (primaryIP authPass : string) : list string :=
  ["bind 0.0.0.0"; "dir " +:+ dataDir] ++
  listen_lines cluster SentinelPort ++
  ["sentinel monitor " +:+ Name cluster +:+ " " +:+ primaryIP +:+ " " +:+ itoa redisPort +:+ " " +:+ itoa SentinelQuorum;
   "sentinel down-after-milliseconds " +:+ Name cluster +:+ " 5000";
   "sentinel failover-timeout " +:+ Name cluster +:+ " 60000";
   "sentinel parallel-syncs " +:+ Name cluster +:+ " 1"] ++
  optional_line (negb (bool_decide (authPass = ""))) ("sentinel auth-pass " +:+ Name cluster +:+ " " +:+ authPass).

Definition writeSentinelConf (cluster : RedisCluster) (primaryIP authPass : string) : iprog unit :=
  icall (IMkdirAll dataDir) ≫= check_ctx "creating data directory";;
  icall (IWriteFile sentinelConfPath (file_of (sentinel_conf_lines cluster primaryIP authPass))) ≫= check.

Definition resolveSentinelAuthPassword (cluster : RedisCluster) : iprog string :=
  match Spec_AuthSecret (Spec cluster) with
  | None => mret ""
  | Some name => with_ctx ("reading projected auth secret " +:+ name +:+ "/password") (readProjectedSecretPassword name)
  end.

Definition sentinel_client : redis_client := Remote "127.0.0.1" SentinelPort.

(** A checksum over the three files, in this order. *)
Definition tlsCertsChecksum : iprog string :=
  (fix go (paths : list string) (acc : string) : iprog string :=
     match paths with
     | [] => mret (sha256 acc)
     | path :: rest =>
         data ← icall (IReadFile path) ≫= check_ctx ("reading TLS file " +:+ path);
         go rest (acc +:+ data)
     end) [tlsCertPath; tlsKeyPath; tlsCAPath] "".

Definition reloadSentinelTLSCerts : iprog unit :=
  for_each tls_files (λ kv, with_ctx ("CONFIG SET " +:+ kv.1) (redis sentinel_client (cmd_ConfigSet kv.1 kv.2))).

(** One tick of the watch: the checksum to remember. *)
Definition tls_tick (lastSum : string) : iprog string :=
  sum ← catch tlsCertsChecksum;
  match sum with
  | Err _ => mret lastSum
  | Ok sum =>
      if bool_decide (sum = lastSum) then mret lastSum
      else
        reloaded ← catch reloadSentinelTLSCerts;
        mret (match reloaded with Ok _ => sum | Err _ => lastSum end)
  end.

(** The watch until the context ends; [fuel] ticks. *)
Fixpoint watch_ticks (fuel : nat) (lastSum : string) : iprog (option unit) :=
  match fuel with
  | O => mret None
  | S fuel' =>
      ended ← icall ITick;
      if (ended : bool) then mret (Some tt) else lastSum ← tls_tick lastSum; watch_ticks fuel' lastSum
  end.

Definition watchSentinelTLSCerts (fuel : nat) : iprog (option unit) :=
  initial ← catch tlsCertsChecksum;
  watch_ticks fuel (match initial with Ok sum => sum | Err _ => "" end).

Definition RunSentinel (clusterName podName namespace : string) : iprog unit :=
  icall IKubeConfig ≫= check_ctx "getting kubeconfig";;
  icall IKubeClient ≫= check_ctx "creating Kubernetes client";;
  cluster ← icall IGetCluster ≫= check_ctx ("fetching RedisCluster " +:+ namespace +:+ "/" +:+ clusterName);
  let primary := Status_CurrentPrimary (Status cluster) in
  if bool_decide (primary = "") then Throw (Errorf "currentPrimary is not set; cannot start sentinel")
  else
    primaryIP ← with_ctx "resolving primary IP for sentinel monitor" (resolvePodIP primary namespace);
    authPass ← with_ctx "resolving sentinel auth password" (resolveSentinelAuthPassword cluster);
    with_ctx "writing sentinel.conf" (writeSentinelConf cluster primaryIP authPass);;
    icall (IStartProcess "redis-sentinel" sentinelConfPath) ≫= check_ctx "starting redis-sentinel";;
    with_ctx "building sentinel client TLS config" (redisTLSConfig cluster);;
    icall (IStartServer (sv_listenAddr (NewSentinelServer true httpListenAddr Running)));;
    (if isTLSEnabled cluster then icall IStartWatch else mret tt);;
    icall (IWaitProcess "redis-sentinel") ≫= check_ctx "redis-sentinel exited".
End run.
