(* ===== verification/StartupFacts.v ===== *)
(** * Starting Redis: theorems

    A server is started only after its configuration is on disk, and a pod that
    is not the recorded primary only with the line that makes it a replica of
    the primary; a Sentinel monitors the recorded primary. *)
From S2P Require Import Prelude GoStr Paths Api Effects History Kube Fencing Resources Replication InstanceManager Webserver Startup.
From S2P Require Import Fixtures InstanceFixtures.
From Stdlib Require Import Ascii.

Abbreviation no_certificates := (λ _ : string, false).

(** The split-brain guard: the directive a pod must start with. *)
Definition start_directive (h : trace inst) (podName : string) (cluster : RedisCluster) (directive : string) : Prop :=
  let primary := Status_CurrentPrimary (Status cluster) in
  if replicaModeEnabled cluster then
    ∃ source, replicaModeSource cluster = Some source ∧ TrimSpace (rs_Host source) ≠ "" ∧
      directive = "replicaof " +:+ rs_Host source +:+ " " +:+ itoa (replicaModeSourcePort source)
  else if bool_decide (Spec_Mode (Spec cluster) = ClusterModeCluster) then directive = ""
  else if bool_decide (primary = podName) || bool_decide (primary = "") then directive = ""
  else ∃ pod, iev (IGetPod primary) (Ok pod) ∈ h ∧ p_PodIP pod ≠ "" ∧ directive = "replicaof " +:+ p_PodIP pod +:+ " 6379".

(** What the configuration of a pod must say: where the data is, the directive
    if there is one, and the ACL file when the spec asks for one. *)
Definition configured (cluster : RedisCluster) (directive : string) (lines : list string) : Prop :=
  "dir /data" ∈ lines ∧ (directive ≠ "" → directive ∈ lines) ∧
  (Spec_ACLConfigSecret (Spec cluster) ≠ None → "aclfile /data/users.acl" ∈ lines).

(** The files on disk when redis-server starts: a configuration of newline
    terminated lines, and the ACL file when the spec asks for one. *)
Definition start_guard (podName : string) (h : trace inst) (c : inst_op) : Prop :=
  ∀ conf, c = IStartProcess "redis-server" conf →
    conf = "/data/redis.conf" ∧ ∃ cluster directive lines,
      iev IGetCluster (Ok cluster) ∈ h ∧ start_directive h podName cluster directive ∧
      configured cluster directive lines ∧
      iev (IWriteFile conf (String.concat (String "010" "") lines +:+ String "010" "")) (Ok tt) ∈ h ∧
      (Spec_ACLConfigSecret (Spec cluster) ≠ None → ∃ acl, iev (IWriteFile "/data/users.acl" acl) (Ok tt) ∈ h).

Lemma conf_lines_configured cluster directive auth podIP picks :
  configured cluster directive (redis_conf_lines cluster directive auth podIP picks).
Proof.
  unfold redis_conf_lines. split; [|split].
  - apply elem_of_app; left. apply list_elem_of_further, list_elem_of_here.
  - intros Hd. do 3 (apply elem_of_app; right). apply elem_of_app; left.
    rewrite bool_decide_false by done. apply list_elem_of_here.
  - intros Ha. do 8 (apply elem_of_app; right). rewrite bool_decide_true; [apply list_elem_of_here|].
    by destruct (Spec_ACLConfigSecret (Spec cluster)).
Qed.

Section guard.
Context (podName : string).
Abbreviation gsafe h p Q := (safe (S := inst) (start_guard podName) h p Q).

Definition no_start (c : inst_op) : bool := match c with IStartProcess _ _ => false | _ => true end.

Lemma quiet_start {A} h (p : iprog A) : iissues no_start p → gsafe h p (λ h' _, h `prefix_of` h').
Proof. intros Hp. eapply (safe_issues (S := inst)); [exact Hp| |done]. intros h' c Hc conf ->. done. Qed.

Lemma password_no_start name : iissues no_start (readProjectedSecretPassword name).
Proof. unfold readProjectedSecretPassword, resolveProjectedSecretsDir, resolve_path, icall. issues. Qed.

Lemma resolvePodIP_start h name ns :
  gsafe h (resolvePodIP name ns) (λ h' ip, h `prefix_of` h' ∧ ∃ pod, iev (IGetPod name) (Ok pod) ∈ h' ∧ p_PodIP pod ≠ "" ∧ ip = p_PodIP pod).
Proof.
  unfold resolvePodIP. inst_step; [by intros ?|]. case_bool_decide; [done|]. split; [by apply prefix_app_r|].
  exists a. split; [|done]. apply elem_of_app. right. apply list_elem_of_here.
Qed.

Lemma settings_start h cluster ns :
  gsafe h (replication_settings cluster podName ns) (λ h' x, h `prefix_of` h' ∧ start_directive h' podName cluster x.1).
Proof.
  unfold replication_settings, start_directive. destruct (replicaModeEnabled cluster).
  - destruct (replicaModeSource cluster) as [source|]; [|done]. case_bool_decide as Hh; [done|]. cbn zeta.
    case_bool_decide; [split; [done|]; by exists source|].
    eapply safe_bind; [apply safe_with_ctx, quiet_start, password_no_start|]. intros h' pw Hp _. split; [done|]. by exists source.
  - case_bool_decide; [done|]. cbn zeta. destruct (_ || _); [done|].
    eapply safe_bind; [apply safe_with_ctx, resolvePodIP_start|]. intros h' ip _ (Hp & pod & Hin & Hne & ->).
    split; [done|]. by exists pod.
Qed.

Lemma write_start h cluster directive auth podIP :
  gsafe h (writeRedisConf cluster directive auth podIP) (λ h' _, h `prefix_of` h' ∧
    ∃ picks, iev (IWriteFile redisConfPath (file_of (redis_conf_lines cluster directive auth podIP picks))) (Ok tt) ∈ h').
Proof.
  unfold writeRedisConf. inst_step; [by intros ?|]. apply (safe_call (S := inst)); [by intros ?|]. intros ord.
  change (safe ?G ?h (mbind ?f (Ret ?a)) ?Q) with (safe G h (f a) Q). cbn beta. inst_step; [by intros ?|]. split.
  - rewrite <- !app_assoc. by apply prefix_app_r.
  - exists (ord 0%nat). destruct a0. apply elem_of_app. right. apply list_elem_of_here.
Qed.

Lemma seed_start h cluster :
  gsafe h (seedACLFile cluster) (λ h' _, h `prefix_of` h' ∧
    (Spec_ACLConfigSecret (Spec cluster) ≠ None → ∃ acl, iev (IWriteFile "/data/users.acl" acl) (Ok tt) ∈ h')).
Proof.
  unfold seedACLFile. destruct (Spec_ACLConfigSecret (Spec cluster)) as [name|]; [|done].
  change (Join [dataDir; "users.acl"]) with "/data/users.acl". cbn zeta.
  eapply safe_bind; [apply quiet_start; unfold resolveProjectedSecretsDir, resolve_path, icall; issues|].
  intros h1 dir Hp1 _. apply (safe_call (S := inst)); [by intros ?|]. intros content.
  assert (∀ r acl, gsafe (h1 ++ [iev (IReadFile (Join [dir; name; "acl"])) r]) (icall (IWriteFile "/data/users.acl" acl) ≫= check)
    (λ h' _, h `prefix_of` h' ∧ (Some name ≠ None → ∃ acl, iev (IWriteFile "/data/users.acl" acl) (Ok tt) ∈ h'))) as Hw.
  { intros r acl. inst_step; [by intros ?|]. split.
    - etrans; [exact Hp1|]. rewrite <- !app_assoc. by apply prefix_app_r.
    - intros _. exists acl. destruct a. apply elem_of_app. right. apply list_elem_of_here. }
  change (safe ?G ?h (mbind ?f (Ret ?a)) ?Q) with (safe G h (f a) Q). cbn beta.
  destruct content as [content|e]; [apply Hw|]. destruct (IsNotFound e); [apply Hw|done].
Qed.

Lemma run_safe valid clusterName ns : gsafe [] (Run valid clusterName podName ns) (λ _ _, True).
Proof.
  unfold Run. inst_step; [by intros ?|]. inst_step; [by intros ?|]. inst_step; [by intros ?|]. rename a1 into cluster.
  eapply safe_bind; [apply settings_start|]. intros h1 [directive auth] _ [Hp1 Hd]. cbn [fst snd] in *.
  apply (safe_call (S := inst)); [by intros ?|]. intros podIP. change (safe ?G ?h (mbind ?f (Ret ?a)) ?Q) with (safe G h (f a) Q). cbn beta.
  eapply safe_bind; [apply safe_with_ctx, write_start|]. intros h2 [] _ [Hp2 [picks Hw]].
  eapply safe_bind; [apply safe_with_ctx, seed_start|]. intros h3 [] _ [Hp3 Hacl].
  assert (h1 `prefix_of` h3) as Hp13 by (etrans; [by apply prefix_app_r|]; by etrans).
  inst_step.
  - intros conf [= <-]. split; [done|]. exists cluster, directive, (redis_conf_lines cluster directive auth podIP picks).
    split_and!; [| |apply conf_lines_configured| |done].
    + eapply elem_of_prefix; [|exact Hp13]. eapply elem_of_prefix; [|exact Hp1]. apply elem_of_app. right. apply list_elem_of_here.
    + revert Hd. unfold start_directive. destruct (replicaModeEnabled cluster); [done|].
      destruct (bool_decide _); [done|]. destruct (_ || _); [done|]. intros (pod & Hin & ?). exists pod. split; [|done].
      by eapply elem_of_prefix.
    + by eapply elem_of_prefix.
  - eapply safe_mono; [apply quiet_start|done]. unfold redisTLSConfig, loadRootCAsFromFile, resolveLocalAuthPassword, icall.
    issues.
Qed.
End guard.

(** C9: redis-server is started only once its files are written for the cluster
    that was read: the configuration, with the ACL file the spec asks for, and
    for a pod that is not the recorded primary (outside cluster mode) with the
    line that makes it a replica of the primary's address, in replica mode of
    the external source.  A pod whose
    primary cannot be resolved does not start a server, so a former primary
    never comes back as a second one. *)
Theorem server_starts_guarded valid clusterName podName ns tr1 conf r tr2 out :
  runs (Run valid clusterName podName ns) (tr1 ++ iev (IStartProcess "redis-server" conf) r :: tr2) out →
  start_guard podName tr1 (IStartProcess "redis-server" conf).
Proof.
  intros Hr. exact (proj1 (safe_runs _ _ _ _ _ _ (run_safe podName valid clusterName ns) Hr) tr1 _ tr2 eq_refl).
Qed.

Definition returning_start : inst_world :=
  mkInstWorld (Ok three) (Ok (mk_pod "c-0" "10.0.0.1" ∅ true)) (Ok []) (λ _, Ok master_info) []
    {[ "/projected/c-auth/password" := "pw" ]} [] (PeerDone "").

Definition start_run := interp inst_env returning_start (Run no_certificates "c" "c-1" "default").

Lemma server_starts_guarded_witness :
  start_guard "c-1" (take 8 start_run.1.1) (IStartProcess "redis-server" redisConfPath) ∧ start_run.1.2 = Ok tt.
Proof.
  split; [|vm_compute; reflexivity].
  apply (server_starts_guarded no_certificates "c" "c-1" "default" (take 8 start_run.1.1) redisConfPath (Ok tt)
    (drop 9 start_run.1.1) (Ok tt)).
  apply (interp_runs inst_env returning_start _ _ _ start_run.2). vm_compute. reflexivity.
Defined.
