(* ===== verification/Pki.v ===== *)
(** * Webhook certificates and operator start-up ([internal/cmd/manager/controller])

    [pki.go]: the certificate authority and the serving certificate of the
    admission webhooks, kept in two secrets, and the CA bundle of the webhook
    configurations.  [pki_reconciler.go] repeats the pass periodically;
    [controller.go] computes its options and starts the manager.

    Keys, X.509 and PEM are the cryptography of Go's library: [Crypto] is what
    the code calls.  Generating a key and signing a certificate use randomness
    and are operations of the signature [pki]. *)
From S2P Require Import Prelude GoStr Api Effects.
From Stdlib Require Import Ascii.

Definition caSecretName := "redis-operator-ca-secret".
Definition webhookCertSecret := "redis-operator-webhook-cert".
Definition certValidityDays : Z := 365.
Definition caValidityDays : Z := 3650.
Definition hour : Z := 3600 * 10 ^ 9.
Definition renewalThreshold : Z := 30 * 24 * hour.

(** ** Certificates *)

Inductive key_usage := KeyUsageDigitalSignature | KeyUsageKeyEncipherment | KeyUsageCertSign | KeyUsageCRLSign.
Inductive ext_key_usage := ExtKeyUsageServerAuth.

(** The fields of [x509.Certificate] the code sets or reads. *)
Record Certificate := mkCertificate {
  c_SerialNumber : Z;
  c_Organization : list string;
  c_CommonName : string;
  c_DNSNames : list string;
  c_NotBefore : Z;
  c_NotAfter : Z;
  c_IsCA : bool;
  c_KeyUsage : list key_usage;
  c_ExtKeyUsage : list ext_key_usage;
  c_BasicConstraintsValid : bool;
  c_Raw : string
}.

Class Crypto := {
  PrivateKey : Type;
  PublicKey : Type;
  public : PrivateKey → PublicKey;
  MarshalECPrivateKey : PrivateKey → res string;
  ParseECPrivateKey : string → res PrivateKey;
  ParseCertificate : string → res Certificate;
  (** [pem.EncodeToMemory] of a block without headers; the bytes of the first
      block [pem.Decode] finds. *)
  pem_EncodeToMemory : string → string → string;
  pem_Decode : string → option string;
  (** [t.Format(time.RFC3339)] in UTC *)
  FormatRFC3339 : Z → string
}.

(** ** Operations *)

(** A webhook configuration: the CA bundle of each of its webhooks. *)
Record WebhookConfiguration := mkWebhookConfiguration {
  wc_Name : string;
  wc_CABundles : list string
}.

Record ManagerOptions := mkManagerOptions {
  mo_MetricsBindAddress : string;
  mo_HealthProbeBindAddress : string;
  mo_PprofBindAddress : string;
  mo_LeaderElection : bool;
  mo_LeaderElectionID : string;
  mo_WebhookPort : option Z
}.

(** [EventRecorder] is a flag: whether it is set. *)
Record WebhookPKIOptions := mkPKIOptions {
  o_Namespace : string;
  o_ServiceName : string;
  o_PodName : string;
  o_MutatingWebhookConfigurationName : string;
  o_ValidatingWebhookConfigurationName : string;
  o_EventRecorder : bool
}.

(** What start-up registers with the manager. *)
Inductive registration :=
| RegCluster (maxConcurrentReconciles : Z) | RegBackup | RegScheduledBackup
| RegDefaulter | RegValidator | RegScheduledValidator
| RegPKI (o : WebhookPKIOptions) (interval : Z) | RegHealthz | RegReadyz.

Section pki.
Context `{Crypto}.

Inductive pki_op :=
| PGetSecret (ns name : string)
| PCreateSecret (ns : string) (sec : Secret)
| PUpdateSecret (ns : string) (sec : Secret)
| PGetMutating (name : string)
| PUpdateMutating (cfg : WebhookConfiguration)
| PGetValidating (name : string)
| PUpdateValidating (cfg : WebhookConfiguration)
| PGetPod (ns name : string)
| PEvent (pod : Pod) (reason message : string)
| PNow
| PGenerateKey
| PCreateCertificate (template parent : Certificate) (pub : PublicKey) (key : PrivateKey)
| PWait (interval : Z)
| PGetenv (name : string)
| PReadFile (path : string)
| PNewManager (opts : ManagerOptions)
| PNewClient
| PRegister (what : registration)
| PStartManager.

(** [PWait]: true for a tick, false when the context is cancelled. *)
Definition pki_ret (c : pki_op) : Type :=
  match c with
  | PGetSecret _ _ => res Secret
  | PGetMutating _ | PGetValidating _ => res WebhookConfiguration
  | PGetPod _ _ => res Pod
  | PEvent _ _ _ => unit
  | PNow => Z
  | PGenerateKey => res PrivateKey
  | PCreateCertificate _ _ _ _ => res string
  | PWait _ => bool
  | PGetenv _ => string
  | PReadFile _ => res string
  | _ => res unit
  end.

Definition pki : sig := mkSig pki_op pki_ret.
Definition pcall (c : pki_op) : prog pki (pki_ret c) := call (S := pki) c.

(** ** Secrets *)

(** [t.Sub(u)]: the difference saturates at the bounds of a duration. *)
Definition time_Sub (t u : Z) : Z := Z.max (- 2 ^ 63) (Z.min (2 ^ 63 - 1) (t - u)).

Definition data_of (sec : Secret) (key : string) : string := default "" (sec_Data sec !! key).

Definition parseCAFromSecret (secret : Secret) : res (PrivateKey * Certificate) :=
  match pem_Decode (data_of secret "tls.key") with
  | None => Err (Errorf "no PEM block found in CA key")
  | Some keyBytes =>
      match ParseECPrivateKey keyBytes with
      | Err e => Err (Wrap "parsing CA key" e)
      | Ok key =>
          match pem_Decode (data_of secret "tls.crt") with
          | None => Err (Errorf "no PEM block found in CA cert")
          | Some certBytes =>
              match ParseCertificate certBytes with
              | Err e => Err (Wrap "parsing CA cert" e)
              | Ok cert => Ok (key, cert)
              end
          end
      end
  end.

Definition needsRenewal (secret : Secret) : prog pki bool :=
  match sec_Data secret !! "tls.crt" with
  | None => mret true
  | Some certPEM =>
      match pem_Decode certPEM with
      | None => mret true
      | Some bytes =>
          match ParseCertificate bytes with
          | Err _ => mret true
          | Ok cert =>
              now ← pcall PNow;
              mret (bool_decide (time_Sub (c_NotAfter cert) now < renewalThreshold))
          end
      end
  end.

Definition cert_pem (der : string) : string := pem_EncodeToMemory "CERTIFICATE" der.
Definition key_pem (der : string) : string := pem_EncodeToMemory "EC PRIVATE KEY" der.

Definition tls_secret (name certPEM keyPEM caPEM : string) : Secret := {|
  sec_Name := name; sec_Labels := ∅; sec_Controller := None; sec_ResourceVersion := "";
  sec_Type := "kubernetes.io/tls";
  sec_Data := {[ "tls.crt" := certPEM; "tls.key" := keyPEM; "ca.crt" := caPEM ]}
|}.

Definition caTemplate (notBefore notAfter : Z) : Certificate := {|
  c_SerialNumber := 1; c_Organization := ["redis-operator"]; c_CommonName := "redis-operator-ca";
  c_DNSNames := []; c_NotBefore := notBefore; c_NotAfter := notAfter; c_IsCA := true;
  c_KeyUsage := [KeyUsageCertSign; KeyUsageCRLSign]; c_ExtKeyUsage := [];
  c_BasicConstraintsValid := true; c_Raw := ""
|}.

Definition ensureCA (ns : string) : prog pki (PrivateKey * Certificate) :=
  r ← pcall (PGetSecret ns caSecretName);
  match r with
  | Ok secret => check (parseCAFromSecret secret)
  | Err e =>
      if negb (IsNotFound e) then Throw (Wrap "getting CA secret" e) else
      caKey ← pcall PGenerateKey ≫= check_ctx "generating CA key";
      notBefore ← pcall PNow;
      now ← pcall PNow;
      let template := caTemplate notBefore (now + caValidityDays * 24 * hour) in
      caCertDER ← pcall (PCreateCertificate template template (public caKey) caKey)
        ≫= check_ctx "creating CA certificate";
      caCert ← check_ctx "parsing CA certificate" (ParseCertificate caCertDER);
      keyDER ← check_ctx "marshaling CA key" (MarshalECPrivateKey caKey);
      let certPEM := cert_pem caCertDER in
      pcall (PCreateSecret ns (tls_secret caSecretName certPEM (key_pem keyDER) certPEM))
        ≫= check_ctx "creating CA secret";;
      mret (caKey, caCert)
  end.

Definition serverNames (ns serviceName : string) : list string :=
  [serviceName;
   serviceName +:+ "." +:+ ns;
   serviceName +:+ "." +:+ ns +:+ ".svc";
   serviceName +:+ "." +:+ ns +:+ ".svc.cluster.local"].

Definition serverTemplate (ns serviceName : string) (notBefore notAfter : Z) : Certificate := {|
  c_SerialNumber := 2; c_Organization := ["redis-operator"]; c_CommonName := serviceName;
  c_DNSNames := serverNames ns serviceName; c_NotBefore := notBefore; c_NotAfter := notAfter;
  c_IsCA := false; c_KeyUsage := [KeyUsageDigitalSignature; KeyUsageKeyEncipherment];
  c_ExtKeyUsage := [ExtKeyUsageServerAuth]; c_BasicConstraintsValid := false; c_Raw := ""
|}.

(** [time.Time{}] *)
Definition zero_time : Z := -62135596800 * 10 ^ 9.

Definition with_data (sec : Secret) (data : gmap string string) : Secret := {|
  sec_Name := sec_Name sec; sec_Labels := sec_Labels sec; sec_Controller := sec_Controller sec;
  sec_ResourceVersion := sec_ResourceVersion sec; sec_Type := sec_Type sec; sec_Data := data
|}.

(** The secret to be replaced, [None] when there is none, and whether the
    serving certificate is still good. *)
Definition currentWebhookCert (ns : string) : prog pki (option Secret * bool) :=
  r ← pcall (PGetSecret ns webhookCertSecret);
  match r with
  | Ok secret => due ← needsRenewal secret; mret (Some secret, negb due)
  | Err e => if negb (IsNotFound e) then Throw (Wrap "getting webhook cert secret" e) else mret (None, false)
  end.

Definition ensureWebhookCert (ns serviceName : string) (caKey : PrivateKey) (caCert : Certificate)
  : prog pki (bool * Z) :=
  '(current, good) ← currentWebhookCert ns;
  if good : bool then mret (false, zero_time) else
  serverKey ← pcall PGenerateKey ≫= check_ctx "generating server key";
  notBefore ← pcall PNow;
  now ← pcall PNow;
  let template := serverTemplate ns serviceName notBefore (now + certValidityDays * 24 * hour) in
  serverCertDER ← pcall (PCreateCertificate template caCert (public serverKey) caKey)
    ≫= check_ctx "creating server certificate";
  keyDER ← check_ctx "marshaling server key" (MarshalECPrivateKey serverKey);
  let newSecret := tls_secret webhookCertSecret (cert_pem serverCertDER) (key_pem keyDER) (cert_pem (c_Raw caCert)) in
  match current with
  | None => pcall (PCreateSecret ns newSecret) ≫= check;; mret (false, c_NotAfter template)
  | Some secret =>
      pcall (PUpdateSecret ns (with_data secret (sec_Data newSecret))) ≫= check;;
      mret (true, c_NotAfter template)
  end.

(** ** Webhook configurations *)

(** The loop over the webhooks; the flag tells whether a bundle changed. *)
Fixpoint set_bundles (caCertPEM : string) (bundles : list string) : list string * bool :=
  match bundles with
  | [] => ([], false)
  | b :: bundles' =>
      let '(l, updated) := set_bundles caCertPEM bundles' in
      if bool_decide (b = caCertPEM) then (b :: l, updated) else (caCertPEM :: l, true)
  end.

Definition patchMutatingWebhookConfiguration (name caCertPEM : string) : prog pki unit :=
  r ← pcall (PGetMutating name);
  match r with
  | Err e =>
      if IsNotFound e then mret tt
      else Throw (Wrap ("getting mutating webhook configuration " +:+ quoted name) e)
  | Ok cfg =>
      let '(bundles, updated) := set_bundles caCertPEM (wc_CABundles cfg) in
      if negb updated then mret tt else
      pcall (PUpdateMutating (mkWebhookConfiguration (wc_Name cfg) bundles))
        ≫= check_ctx ("updating mutating webhook configuration " +:+ quoted name)
  end.

Definition patchValidatingWebhookConfiguration (name caCertPEM : string) : prog pki unit :=
  r ← pcall (PGetValidating name);
  match r with
  | Err e =>
      if IsNotFound e then mret tt
      else Throw (Wrap ("getting validating webhook configuration " +:+ quoted name) e)
  | Ok cfg =>
      let '(bundles, updated) := set_bundles caCertPEM (wc_CABundles cfg) in
      if negb updated then mret tt else
      pcall (PUpdateValidating (mkWebhookConfiguration (wc_Name cfg) bundles))
        ≫= check_ctx ("updating validating webhook configuration " +:+ quoted name)
  end.

Definition patchWebhookConfigurations (caCertPEM mutatingName validatingName : string) : prog pki unit :=
  (if bool_decide (mutatingName = "") then mret tt
   else patchMutatingWebhookConfiguration mutatingName caCertPEM);;
  (if bool_decide (validatingName = "") then mret tt
   else patchValidatingWebhookConfiguration validatingName caCertPEM).

(** ** A pass *)

Definition emitRotationEvent (o : WebhookPKIOptions) (notAfter : Z) : prog pki unit :=
  if negb (o_EventRecorder o) then mret tt
  else if bool_decide (o_PodName o = "") then mret tt
  else
    r ← pcall (PGetPod (o_Namespace o) (o_PodName o));
    match r with
    | Err _ => mret tt
    | Ok pod =>
        pcall (PEvent pod "CertRotated"
          ("Webhook TLS certificate rotated; new expiry: " +:+ FormatRFC3339 notAfter))
    end.

Definition EnsureWebhookPKI (o : WebhookPKIOptions) : prog pki unit :=
  '(caKey, caCert) ← with_ctx "ensuring CA" (ensureCA (o_Namespace o));
  '(rotated, notAfter) ← with_ctx "ensuring webhook cert"
    (ensureWebhookCert (o_Namespace o) (o_ServiceName o) caKey caCert);
  with_ctx "patching webhook configurations"
    (patchWebhookConfigurations (cert_pem (c_Raw caCert))
      (o_MutatingWebhookConfigurationName o) (o_ValidatingWebhookConfigurationName o));;
  if rotated : bool then emitRotationEvent o notAfter else mret tt.

(** ** The periodic reconciler *)

Definition defaultWebhookPKIReconcileInterval : Z := hour.

Definition NewWebhookPKIReconciler (interval : Z) : Z :=
  if bool_decide (interval ≤ 0) then defaultWebhookPKIReconcileInterval else interval.

Definition reconcileOnce (o : WebhookPKIOptions) : prog pki unit :=
  catch (EnsureWebhookPKI o) ≫= λ _, mret tt.

(** [Start]: one pass, then one per tick until the context is cancelled; [None]
    while it is still running after [fuel] ticks. *)
Fixpoint pki_ticks (fuel : nat) (o : WebhookPKIOptions) (interval : Z) : prog pki (option unit) :=
  match fuel with
  | 0%nat => mret None
  | S fuel =>
      tick ← pcall (PWait interval);
      if tick : bool then reconcileOnce o;; pki_ticks fuel o interval else mret (Some tt)
  end.

Definition pki_Start (fuel : nat) (o : WebhookPKIOptions) (interval : Z) : prog pki (option unit) :=
  reconcileOnce o;; pki_ticks fuel o interval.

(** ** Start-up ([controller.go]) *)

Definition leaderElectionID := "redis-operator-leader".
Definition defaultOperatorNamespace := "redis-operator-system".
Definition defaultWebhookServiceName := "redis-operator-webhook-service".
Definition webhookServiceSuffix := "-webhook-service".
Definition mutatingWebhookSuffix := "-mutating-webhook".
Definition validatingWebhookSuffix := "-validating-webhook".
Definition serviceAccountNamespacePath := "/var/run/secrets/kubernetes.io/serviceaccount/namespace".

Definition getenv_trimmed (name : string) : prog pki string :=
  v ← pcall (PGetenv name); mret (TrimSpace v).

Definition webhookConfigurationName (serviceName suffix : string) : string :=
  let prefix := TrimSuffix serviceName webhookServiceSuffix in
  (if bool_decide (prefix = "") then serviceName else prefix) +:+ suffix.

Definition operatorNamespace : prog pki string :=
  ns ← getenv_trimmed "POD_NAMESPACE";
  if negb (bool_decide (ns = "")) then mret ns else
  r ← pcall (PReadFile serviceAccountNamespacePath);
  match r with
  | Ok bytes =>
      let ns := TrimSpace bytes in
      if negb (bool_decide (ns = "")) then mret ns else mret defaultOperatorNamespace
  | Err _ => mret defaultOperatorNamespace
  end.

Definition webhookPKIOptions (recorder : bool) : prog pki WebhookPKIOptions :=
  s ← getenv_trimmed "WEBHOOK_SERVICE_NAME";
  let serviceName := if bool_decide (s = "") then defaultWebhookServiceName else s in
  m ← getenv_trimmed "MUTATING_WEBHOOK_CONFIGURATION_NAME";
  let mutatingName := if bool_decide (m = "") then webhookConfigurationName serviceName mutatingWebhookSuffix else m in
  v ← getenv_trimmed "VALIDATING_WEBHOOK_CONFIGURATION_NAME";
  let validatingName :=
    if bool_decide (v = "") then webhookConfigurationName serviceName validatingWebhookSuffix else v in
  p ← getenv_trimmed "POD_NAME";
  podName ← (if bool_decide (p = "") then getenv_trimmed "HOSTNAME" else mret p);
  ns ← operatorNamespace;
  mret (mkPKIOptions ns serviceName podName mutatingName validatingName recorder).

(** [time.ParseDuration] is an argument: [None] for a string it refuses. *)
Definition webhookPKIReconcileInterval (ParseDuration : string → option Z) : prog pki Z :=
  val ← getenv_trimmed "WEBHOOK_PKI_RECONCILE_INTERVAL";
  if bool_decide (val = "") then mret defaultWebhookPKIReconcileInterval else
  match ParseDuration val with
  | None => mret defaultWebhookPKIReconcileInterval
  | Some interval => mret (if bool_decide (interval ≤ 0) then defaultWebhookPKIReconcileInterval else interval)
  end.

Definition managerOptions (metricsAddr pprofBindAddr : string) (enableLeaderElection enableWebhooks : bool)
  : ManagerOptions := {|
  mo_MetricsBindAddress := metricsAddr;
  mo_HealthProbeBindAddress := ":8080";
  mo_PprofBindAddress := pprofBindAddr;
  mo_LeaderElection := enableLeaderElection;
  mo_LeaderElectionID := leaderElectionID;
  mo_WebhookPort := if enableWebhooks then Some 9443 else None
|}.

Definition register (ctx : string) (what : registration) : prog pki unit :=
  pcall (PRegister what) ≫= check_ctx ctx.

Definition RunController (ParseDuration : string → option Z) (metricsAddr pprofBindAddr : string)
  (maxConcurrentReconciles : Z) (enableLeaderElection enableWebhooks : bool) : prog pki unit :=
  pcall (PNewManager (managerOptions metricsAddr pprofBindAddr enableLeaderElection enableWebhooks))
    ≫= check_ctx "creating manager";;
  (if enableWebhooks then
     pcall PNewClient ≫= check_ctx "creating direct API client for webhook PKI";;
     o ← webhookPKIOptions true;
     with_ctx "ensuring webhook PKI" (EnsureWebhookPKI o)
   else mret tt);;
  register "setting up ClusterReconciler" (RegCluster maxConcurrentReconciles);;
  register "setting up BackupReconciler" RegBackup;;
  register "setting up ScheduledBackupReconciler" RegScheduledBackup;;
  (if enableWebhooks then
     register "setting up RedisCluster defaulter webhook" RegDefaulter;;
     register "setting up RedisCluster validator webhook" RegValidator;;
     register "setting up RedisScheduledBackup validator webhook" RegScheduledValidator;;
     pcall PNewClient ≫= check_ctx "creating direct API client for periodic webhook PKI reconciliation";;
     o ← webhookPKIOptions true;
     interval ← webhookPKIReconcileInterval ParseDuration;
     register "adding periodic webhook PKI reconciler" (RegPKI o (NewWebhookPKIReconciler interval))
   else mret tt);;
  register "setting up health check" RegHealthz;;
  register "setting up readiness check" RegReadyz;;
  pcall PStartManager ≫= check_ctx "manager exited with error".
End pki.
