(* ===== verification/PkiFacts.v ===== *)
(** * Webhook certificates: theorems

    A serving certificate is written only when the authority of the pass signed
    it for the names of the service, and the bundles published are that
    authority's; a pass leaves nothing for the next one to do; an authority that
    is created again is published although the serving certificate was signed by
    the former one. *)
From S2P Require Import Prelude GoStr Api Effects History Pki.
From Stdlib Require Import Ascii.

(** One call; after a checked call only success goes on. *)
Ltac pki_step :=
  lazymatch goal with
  | |- safe ?G ?h (mbind ?f (mbind ?chk (pcall ?c))) ?Q =>
      simple refine (safe_call (S := pki) G h c (λ r, prog_bind pki _ _ f (chk r)) Q _ _);
      [|intros [?|?]; [|exact I]; cbn beta; cbn [check_ctx check];
        lazymatch goal with |- safe ?G ?h' (prog_bind _ _ _ ?g (Ret ?a)) ?Q => change (safe G h' (g a) Q); cbn beta end]
  | |- safe ?G ?h (mbind ?f (pcall ?c)) ?Q =>
      simple refine (safe_call (S := pki) G h c f Q _ _); [|let r := fresh "r" in intros r]
  | |- safe ?G ?h (mbind ?f (check_ctx _ ?r)) ?Q =>
      let a := fresh "a" in destruct r as [a|?] eqn:?; [change (safe G h (f a) Q); cbn beta|exact I]
  end; repeat match goal with u : unit |- _ => destruct u end; cbn beta zeta.

Ltac in_history :=
  first [ apply elem_of_app; right; apply list_elem_of_here
        | apply elem_of_app; left; in_history | eassumption ].

(** ** Every run *)

Section safety.
Context `{Crypto} (o : WebhookPKIOptions).

Definition pev (c : pki_op) (r : pki_ret c) : event pki := existT (P := ret pki) c r.

(** The authority a pass works with: read from its secret, or signed by its own
    fresh key and stored. *)
Definition authority (h : trace pki) (key : PrivateKey) (cert : Certificate) : Prop :=
  (∃ sec, pev (PGetSecret (o_Namespace o) caSecretName) (Ok sec) ∈ h ∧ parseCAFromSecret sec = Ok (key, cert)) ∨
  (∃ template der sec,
     pev (PCreateCertificate template template (public key) key) (Ok der) ∈ h ∧
     pev (PCreateSecret (o_Namespace o) sec) (Ok tt) ∈ h ∧
     c_IsCA template = true ∧ ParseCertificate der = Ok cert ∧
     sec_Name sec = caSecretName ∧ sec_Data sec !! "tls.crt" = Some (cert_pem der)).

(** A certificate to be signed for the service, valid for a year from the clock
    readings of the pass. *)
Definition serving_template (h : trace pki) (t : Certificate) : Prop :=
  c_DNSNames t = [o_ServiceName o; o_ServiceName o +:+ "." +:+ o_Namespace o;
                  o_ServiceName o +:+ "." +:+ o_Namespace o +:+ ".svc";
                  o_ServiceName o +:+ "." +:+ o_Namespace o +:+ ".svc.cluster.local"] ∧
  c_CommonName t = o_ServiceName o ∧ c_IsCA t = false ∧ c_ExtKeyUsage t = [ExtKeyUsageServerAuth] ∧
  pev PNow (c_NotBefore t) ∈ h ∧ pev PNow (c_NotAfter t - 365 * 24 * 3600 * 10 ^ 9) ∈ h.

(** [data] holds a certificate for the service, signed by the authority, its
    key, and the authority's certificate. *)
Definition serving_data (h : trace pki) (data : gmap string string) : Prop :=
  ∃ key cert serverKey der keyDER template,
    authority h key cert ∧ serving_template h template ∧ pev PGenerateKey (Ok serverKey) ∈ h ∧
    pev (PCreateCertificate template cert (public serverKey) key) (Ok der) ∈ h ∧
    MarshalECPrivateKey serverKey = Ok keyDER ∧
    data = {[ "tls.crt" := cert_pem der; "tls.key" := key_pem keyDER; "ca.crt" := cert_pem (c_Raw cert) ]}.

(** [sec] holds a certificate that expires thirty days after [now] or later. *)
Definition unexpired (sec : Secret) (now : Z) : Prop :=
  ∃ pem bytes cert, sec_Data sec !! "tls.crt" = Some pem ∧ pem_Decode pem = Some bytes ∧
    ParseCertificate bytes = Ok cert ∧ 30 * 24 * 3600 * 10 ^ 9 ≤ time_Sub (c_NotAfter cert) now.

(** The serving secret that was read has an unexpired certificate, or one with a
    new certificate was stored, in place of the one read when there was one. *)
Definition serving_settled (h : trace pki) : Prop :=
  (∃ sec now, pev (PGetSecret (o_Namespace o) webhookCertSecret) (Ok sec) ∈ h ∧ pev PNow now ∈ h ∧ unexpired sec now) ∨
  (∃ sec, sec_Name sec = webhookCertSecret ∧ serving_data h (sec_Data sec) ∧
     pev (PCreateSecret (o_Namespace o) sec) (Ok tt) ∈ h) ∨
  (∃ old data, serving_data h data ∧ pev (PGetSecret (o_Namespace o) webhookCertSecret) (Ok old) ∈ h ∧
     pev (PUpdateSecret (o_Namespace o) (with_data old data)) (Ok tt) ∈ h).

Definition bundles_published (h : trace pki) (bundles : list string) : Prop :=
  serving_settled h ∧ ∃ key cert, authority h key cert ∧ Forall (.= cert_pem (c_Raw cert)) bundles.

(** What an operation may do after the events [h]. *)
Definition pki_guard (h : trace pki) (c : pki_op) : Prop :=
  match c with
  | PCreateSecret ns sec =>
      ns = o_Namespace o ∧
      (sec_Name sec = caSecretName ∧ (∃ e, pev (PGetSecret ns caSecretName) (Err e) ∈ h ∧ IsNotFound e = true) ∨
       sec_Name sec = webhookCertSecret ∧ serving_data h (sec_Data sec) ∧
         ∃ e, pev (PGetSecret ns webhookCertSecret) (Err e) ∈ h ∧ IsNotFound e = true)
  | PUpdateSecret ns sec =>
      ns = o_Namespace o ∧ serving_data h (sec_Data sec) ∧
      ∃ old, pev (PGetSecret ns webhookCertSecret) (Ok old) ∈ h ∧ sec = with_data old (sec_Data sec)
  | PUpdateMutating cfg | PUpdateValidating cfg => bundles_published h (wc_CABundles cfg)
  | PRegister _ | PStartManager => False
  | _ => True
  end.

Abbreviation psafe h p Q := (safe (S := pki) pki_guard h p Q).

Lemma authority_mono h h' key cert : authority h key cert → authority (h ++ h') key cert.
Proof.
  intros [(sec & ? & ?)|(t & der & sec & ? & ? & ?)]; [left|right].
  - exists sec. set_solver.
  - exists t, der, sec. set_solver.
Qed.

Lemma serving_data_mono h h' data : serving_data h data → serving_data (h ++ h') data.
Proof.
  intros (key & cert & sk & der & kd & t & Ha & (? & ? & ? & ? & ? & ?) & ? & ? & ? & ?).
  exists key, cert, sk, der, kd, t. split; [by apply authority_mono|].
  split; [split_and!; try done; apply elem_of_app; by left|]. split; [apply elem_of_app; by left|].
  split; [apply elem_of_app; by left|done].
Qed.

Lemma settled_mono h h' : serving_settled h → serving_settled (h ++ h').
Proof.
  intros [(sec & now & ? & ? & ?)|[(sec & ? & Hd & ?)|(old & data & Hd & ? & ?)]]; [left|right; left|right; right].
  - exists sec, now. split_and!; try done; apply elem_of_app; by left.
  - exists sec. split; [done|]. split; [by apply serving_data_mono|]. apply elem_of_app; by left.
  - exists old, data. split; [by apply serving_data_mono|]. split; apply elem_of_app; by left.
Qed.

Lemma set_bundles_all pem bundles : Forall (.= pem) (set_bundles pem bundles).1.
Proof.
  induction bundles as [|b bundles IH]; simpl; [constructor|].
  destruct (set_bundles pem bundles) as [l u]. simpl in IH. case_bool_decide; by constructor.
Qed.

Lemma safe_ensureCA h :
  psafe h (ensureCA (o_Namespace o)) (λ h '(key, cert), authority h key cert).
Proof.
  unfold ensureCA. pki_step; [exact I|]. destruct r as [sec|e]; cbn beta iota.
  { apply safe_check. intros [key cert] Hp. left. exists sec. split; [in_history|done]. }
  destruct (IsNotFound e) eqn:Hnf; [|exact I]. cbn [negb]. cbn beta iota.
  pki_step; [exact I|]. pki_step; [exact I|]. pki_step; [exact I|]. pki_step; [exact I|].
  pki_step. pki_step. pki_step; [split; [done|]; left; split; [done|]; exists e; split; [in_history|done]|].
  right. eexists _, _, _. split; [in_history|]. split; [in_history|]. by eauto.
Qed.

Lemma safe_currentWebhookCert h :
  psafe h (currentWebhookCert (o_Namespace o)) (λ h' '(current, good),
    match current with
    | Some sec => pev (PGetSecret (o_Namespace o) webhookCertSecret) (Ok sec) ∈ h' ∧
        (good = true → ∃ now, pev PNow now ∈ h' ∧ unexpired sec now)
    | None => good = false ∧ ∃ e, pev (PGetSecret (o_Namespace o) webhookCertSecret) (Err e) ∈ h' ∧ IsNotFound e = true
    end).
Proof.
  unfold currentWebhookCert. pki_step; [exact I|]. destruct r as [sec|e]; cbn beta iota.
  - unfold needsRenewal. destruct (sec_Data sec !! "tls.crt") as [pem|] eqn:Hd; [|split; [in_history|done]].
    destruct (pem_Decode pem) as [bytes|] eqn:Hb; [|split; [in_history|done]].
    destruct (ParseCertificate bytes) as [cert|e] eqn:Hc; [|split; [in_history|done]].
    split; [exact I|]. intros now. split; [in_history|]. intros Hg%negb_true_iff%bool_decide_eq_false.
    exists now. split; [in_history|]. exists pem, bytes, cert. do 3 (split; [done|]).
    exact (proj1 (Z.nlt_ge _ _) Hg).
  - destruct (IsNotFound e) eqn:Hnf; [|exact I]. split; [done|]. exists e. split; [in_history|done].
Qed.

(** What a pass knows once it signed a certificate. *)
Lemma serving_data_signed h key cert serverKey der keyDER notBefore now :
  authority h key cert → pev PGenerateKey (Ok serverKey) ∈ h → pev PNow notBefore ∈ h → pev PNow now ∈ h →
  pev (PCreateCertificate (serverTemplate (o_Namespace o) (o_ServiceName o) notBefore (now + certValidityDays * 24 * hour))
         cert (public serverKey) key) (Ok der) ∈ h →
  MarshalECPrivateKey serverKey = Ok keyDER →
  serving_data h (sec_Data (tls_secret webhookCertSecret (cert_pem der) (key_pem keyDER) (cert_pem (c_Raw cert)))).
Proof.
  intros Ha Hk Hb Hn Hs Hm. eexists key, cert, serverKey, der, keyDER, _. split; [done|].
  split; [|by split_and!]. split_and!; try done. simpl. unfold certValidityDays, hour.
  by replace (now + 365 * 24 * (3600 * 10 ^ 9) - 365 * 24 * 3600 * 10 ^ 9) with now by lia.
Qed.

Lemma safe_ensureWebhookCert h key cert :
  authority h key cert →
  psafe h (ensureWebhookCert (o_Namespace o) (o_ServiceName o) key cert)
    (λ h' _, authority h' key cert ∧ serving_settled h').
Proof.
  intros Ha. unfold ensureWebhookCert.
  eapply safe_bind; [apply safe_currentWebhookCert|]. intros h' [current good] [l ->] Hc.
  assert (Ha' := authority_mono h l key cert Ha). clear Ha. revert Hc Ha'. generalize (h ++ l). intros h1 Hc Ha.
  destruct good; cbn beta iota.
  { split; [done|]. destruct current as [sec|]; [|by destruct Hc]. destruct Hc as [Hs [now [Hn Hu]]]; [done|].
    left. by exists sec, now. }
  pki_step; [exact I|]. pki_step; [exact I|]. pki_step; [exact I|]. pki_step; [exact I|]. pki_step.
  match goal with |- safe _ ?h2 _ _ =>
    assert (Hd : serving_data h2 (sec_Data (tls_secret webhookCertSecret (cert_pem a0) (key_pem a1) (cert_pem (c_Raw cert)))))
      by (apply (serving_data_signed _ key cert a a0 a1 r r0); [by repeat apply authority_mono|in_history..|done])
  end.
  destruct current as [sec|]; pki_step.
  - split; [done|]. split; [exact Hd|]. exists sec. split; [|done]. destruct Hc. in_history.
  - split; [by repeat apply authority_mono|]. right; right. eexists sec, _.
    split; [by apply serving_data_mono|]. split; [destruct Hc; in_history|in_history].
  - split; [done|]. right. split; [done|]. split; [exact Hd|].
    destruct Hc as (_ & e & He & Hnf). exists e. split; [in_history|done].
  - split; [by repeat apply authority_mono|]. right; left. eexists. split; [|split; [|in_history]]; [done|].
    by apply serving_data_mono.
Qed.

Lemma safe_patchMutating h name pem :
  (∀ bundles l, Forall (.= pem) bundles → bundles_published (h ++ l) bundles) →
  psafe h (patchMutatingWebhookConfiguration name pem) (λ _ _, True).
Proof.
  intros Hp. unfold patchMutatingWebhookConfiguration. pki_step; [exact I|].
  destruct r as [cfg|e]; [|by destruct (IsNotFound e)].
  destruct (set_bundles pem (wc_CABundles cfg)) as [bundles [|]] eqn:Hb; [|done].
  cbn [negb]. cbn beta iota. split; [|by intros [[]|e]].
  apply Hp. generalize (set_bundles_all pem (wc_CABundles cfg)). by rewrite Hb.
Qed.

Lemma safe_patchValidating h name pem :
  (∀ bundles l, Forall (.= pem) bundles → bundles_published (h ++ l) bundles) →
  psafe h (patchValidatingWebhookConfiguration name pem) (λ _ _, True).
Proof.
  intros Hp. unfold patchValidatingWebhookConfiguration. pki_step; [exact I|].
  destruct r as [cfg|e]; [|by destruct (IsNotFound e)].
  destruct (set_bundles pem (wc_CABundles cfg)) as [bundles [|]] eqn:Hb; [|done].
  cbn [negb]. cbn beta iota. split; [|by intros [[]|e]].
  apply Hp. generalize (set_bundles_all pem (wc_CABundles cfg)). by rewrite Hb.
Qed.

Lemma safe_patchConfigurations h key cert m v :
  authority h key cert → serving_settled h →
  psafe h (patchWebhookConfigurations (cert_pem (c_Raw cert)) m v) (λ _ _, True).
Proof.
  intros Ha Hs.
  assert (Hp : ∀ bundles l, Forall (.= cert_pem (c_Raw cert)) bundles → bundles_published (h ++ l) bundles).
  { intros bundles l Hb. split; [by apply settled_mono|]. exists key, cert. split; [by apply authority_mono|done]. }
  unfold patchWebhookConfigurations. eapply (safe_bind _ _ _ _ (λ _ _, True)).
  { case_bool_decide; [done|]. by apply safe_patchMutating. }
  intros h' [] [l ->] _. case_bool_decide; [done|]. apply safe_patchValidating.
  intros bundles l'. rewrite <-app_assoc. apply Hp.
Qed.

Lemma safe_EnsureWebhookPKI h : psafe h (EnsureWebhookPKI o) (λ h' _, serving_settled h').
Proof.
  unfold EnsureWebhookPKI.
  eapply safe_bind; [apply safe_with_ctx, safe_ensureCA|]. intros h1 [key cert] _ Ha.
  eapply safe_bind; [apply safe_with_ctx, safe_ensureWebhookCert, Ha|]. intros h2 [rotated notAfter] _ [Ha2 Hs].
  eapply safe_bind; [by eapply safe_with_ctx, safe_patchConfigurations|]. intros h3 [] [l ->] _.
  apply (settled_mono _ l) in Hs. destruct rotated; [|done]. unfold emitRotationEvent.
  destruct (negb (o_EventRecorder o)); [done|]. case_bool_decide; [done|].
  pki_step; [exact I|]. destruct r as [pod|e]; [|by apply settled_mono].
  split; [exact I|]. intros []. by do 2 apply settled_mono.
Qed.
End safety.

(** ** Start-up *)

Section startup.
Context `{Crypto}.

(** With webhooks, nothing is registered and the manager does not start before a
    pass over the certificates succeeded. *)
Definition startup_guard (webhooks : bool) (h : trace pki) (c : pki_op) : Prop :=
  match c with
  | PRegister _ | PStartManager => webhooks = true → ∃ o, serving_settled o h
  | _ => ∃ o, pki_guard o h c
  end.

Abbreviation ssafe b h p Q := (safe (S := pki) (startup_guard b) h p Q).

Lemma pki_startup_guard o b h c : pki_guard o h c → startup_guard b h c.
Proof. destruct c; simpl; try done; intros Hc; by exists o. Qed.

Definition any_options : WebhookPKIOptions := mkPKIOptions "" "" "" "" "" false.

Lemma safe_getenv b h name : ssafe b h (getenv_trimmed name) (λ _ _, True).
Proof. unfold getenv_trimmed. pki_step; [by exists any_options|done]. Qed.

Lemma safe_options b h r : ssafe b h (webhookPKIOptions r) (λ _ _, True).
Proof.
  unfold webhookPKIOptions, operatorNamespace.
  do 4 (eapply safe_bind; [apply safe_getenv|]; intros ? ? _ _; cbn beta zeta).
  eapply (safe_bind _ _ _ _ (λ _ _, True)); [case_bool_decide; [apply safe_getenv|done]|]. intros ? ? _ _.
  eapply (safe_bind _ _ _ _ (λ _ _, True)); [|done].
  eapply safe_bind; [apply safe_getenv|]. intros ? ? _ _. destruct (negb _); [done|].
  pki_step; [by exists any_options|]. destruct r0 as [bytes|e]; [|done]. cbn zeta. by destruct (negb _).
Qed.

Lemma safe_interval b h parse : ssafe b h (webhookPKIReconcileInterval parse) (λ _ _, True).
Proof.
  unfold webhookPKIReconcileInterval. eapply safe_bind; [apply safe_getenv|]. intros ? v _ _.
  case_bool_decide; [done|]. by destruct (parse v).
Qed.

(** Ready to register. *)
Definition started (b : bool) (h : trace pki) : Prop := b = true → ∃ o, serving_settled o h.

Lemma started_mono b h h' : h `prefix_of` h' → started b h → started b h'.
Proof. intros [l ->] Hs Hb. destruct (Hs Hb) as [o Ho]. exists o. by apply settled_mono. Qed.

Lemma safe_register b h ctx what : started b h → ssafe b h (register ctx what) (λ h' _, started b h').
Proof.
  intros Hs. split; [exact Hs|]. intros [[]|e]; [|done]. eapply started_mono; [by eexists|done].
Qed.

Lemma safe_RunController parse m p n le b :
  ssafe b [] (RunController parse m p n le b) (λ _ _, True).
Proof.
  unfold RunController. pki_step; [by exists any_options|].
  eapply (safe_bind _ _ _ _ (λ h _, started b h)).
  { destruct b; [|by intros ?]. pki_step; [by exists any_options|].
    eapply safe_bind; [apply safe_options|]. intros h' o _ _. apply safe_with_ctx.
    eapply safe_impl; [apply (pki_startup_guard o)|].
    eapply safe_mono; [apply safe_EnsureWebhookPKI|]. intros h2 u _ Hs _. by exists o. }
  intros h1 [] _ Hs. do 3 (eapply safe_bind; [by apply safe_register|]; clear Hs; intros ? [] _ Hs).
  eapply (safe_bind _ _ _ _ (λ h _, started b h)).
  { destruct b; [|done].
    do 3 (eapply safe_bind; [by apply safe_register|]; clear Hs; intros ? [] _ Hs).
    pki_step; [by exists any_options|].
    eapply safe_bind; [apply safe_options|]. intros ? o Hp1 _.
    eapply safe_bind; [apply safe_interval|]. intros ? iv Hp2 _. apply safe_register.
    eapply started_mono; [exact Hp2|]. eapply started_mono; [exact Hp1|].
    eapply started_mono; [by eexists|done]. }
  clear Hs. intros ? [] _ Hs. do 2 (eapply safe_bind; [by apply safe_register|]; clear Hs; intros ? [] _ Hs).
  split; [done|]. by intros [[]|e].
Qed.
End startup.

(** ** An API server that stores what it is sent *)

(** What the cryptography promises: encoded keys and blocks are read back, and a
    signed certificate carries the expiry of its template up to the second the
    encoding rounds to. *)
Class CryptoLaws `{Crypto} := {
  generate : nat → PrivateKey;
  sign : Certificate → Certificate → PublicKey → PrivateKey → nat → string;
  pem_law type bytes : pem_Decode (pem_EncodeToMemory type bytes) = Some bytes;
  key_law n : ∃ der, MarshalECPrivateKey (generate n) = Ok der ∧ ParseECPrivateKey der = Ok (generate n);
  sign_law t p pub key n : ∃ cert, ParseCertificate (sign t p pub key n) = Ok cert ∧
    c_NotAfter t - 10 ^ 9 < c_NotAfter cert
}.

Record pki_world := mkPkiWorld {
  pw_secrets : gmap (string * string) Secret;
  pw_mutating : gmap string WebhookConfiguration;
  pw_validating : gmap string WebhookConfiguration;
  pw_now : Z;
  pw_fresh : nat
}.

Section stored.
Context `{CryptoLaws}.

Definition with_secret (w : pki_world) (ns : string) (sec : Secret) : pki_world :=
  mkPkiWorld (<[(ns, sec_Name sec) := sec]> (pw_secrets w)) (pw_mutating w) (pw_validating w) (pw_now w) (pw_fresh w).

Definition lookup_res {A} (what : string) (x : option A) : res A :=
  match x with Some a => Ok a | None => Err (ENotFound what) end.

Definition pki_env : environment pki pki_world := λ w c,
  match c return pki_ret c * pki_world with
  | PGetSecret ns name => (lookup_res name (pw_secrets w !! (ns, name)), w)
  | PCreateSecret ns sec =>
      match pw_secrets w !! (ns, sec_Name sec) with
      | Some _ => (Err (EAPI "already exists"), w)
      | None => (Ok tt, with_secret w ns sec)
      end
  | PUpdateSecret ns sec => (Ok tt, with_secret w ns sec)
  | PGetMutating name => (lookup_res name (pw_mutating w !! name), w)
  | PUpdateMutating cfg =>
      (Ok tt, mkPkiWorld (pw_secrets w) (<[wc_Name cfg := cfg]> (pw_mutating w)) (pw_validating w) (pw_now w) (pw_fresh w))
  | PGetValidating name => (lookup_res name (pw_validating w !! name), w)
  | PUpdateValidating cfg =>
      (Ok tt, mkPkiWorld (pw_secrets w) (pw_mutating w) (<[wc_Name cfg := cfg]> (pw_validating w)) (pw_now w) (pw_fresh w))
  | PGetPod _ name => (Err (ENotFound name), w)
  | PEvent _ _ _ => (tt, w)
  | PNow => (pw_now w, w)
  | PGenerateKey =>
      (Ok (generate (pw_fresh w)), mkPkiWorld (pw_secrets w) (pw_mutating w) (pw_validating w) (pw_now w) (S (pw_fresh w)))
  | PCreateCertificate t p pub key =>
      (Ok (sign t p pub key (pw_fresh w)),
       mkPkiWorld (pw_secrets w) (pw_mutating w) (pw_validating w) (pw_now w) (S (pw_fresh w)))
  | PWait _ => (false, w)
  | PGetenv _ => ("", w)
  | PReadFile path => (Err (ENotFound path), w)
  | PNewManager _ | PNewClient | PRegister _ | PStartManager => (Ok tt, w)
  end.

Definition is_write (c : pki_op) : bool :=
  match c with
  | PCreateSecret _ _ | PUpdateSecret _ _ | PUpdateMutating _ | PUpdateValidating _ => true
  | _ => false
  end.

(** The stored objects carry the names they are stored under. *)
Definition named (w : pki_world) : Prop :=
  (∀ ns name sec, pw_secrets w !! (ns, name) = Some sec → sec_Name sec = name) ∧
  (∀ name cfg, pw_mutating w !! name = Some cfg → wc_Name cfg = name) ∧
  (∀ name cfg, pw_validating w !! name = Some cfg → wc_Name cfg = name).

(** ** A settled state *)

Definition ca_stored (w : pki_world) (ns : string) (key : PrivateKey) (cert : Certificate) : Prop :=
  ∃ sec, pw_secrets w !! (ns, caSecretName) = Some sec ∧ parseCAFromSecret sec = Ok (key, cert).

(** The serving certificate is present and not due for renewal at [now]. *)
Definition not_due (w : pki_world) (ns : string) (now : Z) : Prop :=
  ∃ sec pem bytes cert, pw_secrets w !! (ns, webhookCertSecret) = Some sec ∧
    sec_Data sec !! "tls.crt" = Some pem ∧ pem_Decode pem = Some bytes ∧ ParseCertificate bytes = Ok cert ∧
    renewalThreshold ≤ time_Sub (c_NotAfter cert) now.

Definition bundled (cfgs : gmap string WebhookConfiguration) (name pem : string) : Prop :=
  name ≠ "" → ∀ cfg, cfgs !! name = Some cfg → Forall (.= pem) (wc_CABundles cfg).

Record settled (o : WebhookPKIOptions) (w : pki_world) (key : PrivateKey) (cert : Certificate) : Prop := {
  st_ca : ca_stored w (o_Namespace o) key cert;
  st_mutating : bundled (pw_mutating w) (o_MutatingWebhookConfigurationName o) (cert_pem (c_Raw cert));
  st_validating : bundled (pw_validating w) (o_ValidatingWebhookConfigurationName o) (cert_pem (c_Raw cert))
}.

Abbreviation quiet := (λ c, negb (is_write c)).

Lemma set_bundles_same pem bundles : Forall (.= pem) bundles → set_bundles pem bundles = (bundles, false).
Proof. induction 1 as [|b l -> _ IH]; simpl; [done|]. rewrite IH. by rewrite bool_decide_true by done. Qed.

Lemma set_bundles_unchanged pem bundles l : set_bundles pem bundles = (l, false) → bundles = l.
Proof.
  revert l; induction bundles as [|b bs IH]; simpl; intros l; [by intros [= <-]|].
  destruct (set_bundles pem bs) as [l' u]. case_bool_decide; [|done]. intros [= <- ->]. by rewrite <-(IH l').
Qed.

Lemma quiet_ensureCA w ns key cert :
  ca_stored w ns key cert →
  executes (S := pki) quiet pki_env w (ensureCA ns) (λ out w', out = Ok (key, cert) ∧ w' = w).
Proof. intros (sec & Hs & Hp). split; [done|]. simpl. rewrite Hs. simpl. by rewrite Hp. Qed.

Lemma quiet_ensureWebhookCert w ns svc key cert :
  not_due w ns (pw_now w) →
  executes (S := pki) quiet pki_env w (ensureWebhookCert ns svc key cert) (λ out w', out = Ok (false, zero_time) ∧ w' = w).
Proof.
  intros (sec & pem & bytes & c & Hs & Hd & Hb & Hc & Hn). apply executes_bind. split; [done|]. simpl.
  rewrite Hs. simpl. unfold needsRenewal. rewrite Hd, Hb, Hc. split; [done|]. simpl.
  rewrite bool_decide_false; [done|]. lia.
Qed.

Lemma quiet_patch o w key cert :
  settled o w key cert →
  executes (S := pki) quiet pki_env w
    (patchWebhookConfigurations (cert_pem (c_Raw cert)) (o_MutatingWebhookConfigurationName o)
       (o_ValidatingWebhookConfigurationName o)) (λ out w', out = Ok tt ∧ w' = w).
Proof.
  intros [_ Hm Hv]. apply executes_bind. eapply (executes_mono _ _ _ _ (λ out w', out = Ok tt ∧ w' = w)).
  - case_bool_decide; [done|]. split; [done|]. simpl.
    destruct (pw_mutating w !! _) as [cfg|] eqn:E; simpl; [|done]. by rewrite set_bundles_same by eauto.
  - intros out w' [-> ->]. case_bool_decide; [done|]. split; [done|]. simpl.
    destruct (pw_validating w !! _) as [cfg|] eqn:E; simpl; [|done]. by rewrite set_bundles_same by eauto.
Qed.

(** A pass over a settled state reads, and changes nothing. *)
Lemma quiet_pass o w key cert :
  settled o w key cert → not_due w (o_Namespace o) (pw_now w) →
  executes (S := pki) quiet pki_env w (EnsureWebhookPKI o) (λ out w', out = Ok tt ∧ w' = w).
Proof.
  intros Hs Hn. apply executes_bind, executes_with_ctx.
  eapply executes_mono; [by eapply quiet_ensureCA, st_ca|]. intros out w' [-> ->].
  apply executes_bind, executes_with_ctx. eapply executes_mono; [by apply quiet_ensureWebhookCert|].
  intros out w' [-> ->]. apply executes_bind, executes_with_ctx.
  eapply executes_mono; [by eapply quiet_patch|]. by intros out w' [-> ->].
Qed.
(** ** A pass settles the state *)

Abbreviation any := (λ _, true).

(** Nothing changed but the secret [name]. *)
Record changes_secret (ns name : string) (w w' : pki_world) : Prop := {
  cs_others k : k ≠ (ns, name) → pw_secrets w' !! k = pw_secrets w !! k;
  cs_mutating : pw_mutating w' = pw_mutating w;
  cs_validating : pw_validating w' = pw_validating w;
  cs_now : pw_now w' = pw_now w;
  cs_named : named w → named w'
}.

Lemma changes_refl ns name w : changes_secret ns name w w.
Proof. done. Qed.

Lemma changes_insert ns w w0 sec :
  pw_secrets w0 = pw_secrets w → pw_mutating w0 = pw_mutating w → pw_validating w0 = pw_validating w →
  pw_now w0 = pw_now w → changes_secret ns (sec_Name sec) w (with_secret w0 ns sec).
Proof.
  intros E1 E2 E3 E4. split; simpl; rewrite ?E1, ?E2, ?E3, ?E4; [|done..|].
  - intros k Hk. by rewrite lookup_insert_ne.
  - intros (N1 & N2 & N3). unfold named, with_secret. cbn [pw_secrets pw_mutating pw_validating].
    rewrite E1, E2, E3. split; [|done]. intros ns' name sec' Hl.
    apply lookup_insert_Some in Hl as [[[= <- <-] <-]|[_ Hl]]; eauto.
Qed.

Lemma settles_ensureCA w ns :
  executes (S := pki) any pki_env w (ensureCA ns) (λ out w', ∀ key cert, out = Ok (key, cert) →
    ca_stored w' ns key cert ∧ changes_secret ns caSecretName w w' ∧
    (pw_secrets w !! (ns, caSecretName) = None → key = generate (pw_fresh w))).
Proof.
  split; [done|]. simpl. destruct (pw_secrets w !! (ns, caSecretName)) as [sec|] eqn:Hs; simpl.
  - destruct (parseCAFromSecret sec) as [[key cert]|e] eqn:Hp; simpl; [|done].
    intros ? ? [= <- <-]. split; [by exists sec|]. done.
  - repeat (split; [done|]); simpl.
    destruct (key_law (pw_fresh w)) as (der & Hm & Hk).
    match goal with |- context [sign ?t ?p ?pub ?k ?n] => destruct (sign_law t p pub k n) as (cert & Hc & _) end.
    rewrite Hc, Hm. split; [done|]. simpl. rewrite Hs. intros ? ? [= <- <-]. cbn [snd].
    split; [|split; [by apply (changes_insert ns w _ (tls_secret caSecretName _ _ _))|done]].
    eexists. split; [apply lookup_insert_eq|]. unfold parseCAFromSecret, data_of, tls_secret. cbn [sec_Data].
    rewrite lookup_insert_ne, lookup_insert_eq by done. cbn [default id]. unfold key_pem. rewrite pem_law, Hk.
    rewrite lookup_insert_eq. cbn [default id]. unfold cert_pem. by rewrite pem_law, Hc.
Qed.

Lemma reads_currentWebhookCert w ns :
  executes (S := pki) any pki_env w (currentWebhookCert ns) (λ out w', w' = w ∧ ∀ current good,
    out = Ok (current, good) → current = pw_secrets w !! (ns, webhookCertSecret) ∧
      (good = true ↔ not_due w ns (pw_now w))).
Proof.
  split; [done|]. simpl. unfold not_due.
  destruct (pw_secrets w !! (ns, webhookCertSecret)) as [sec|]; simpl.
  2:{ split; [done|]. intros ? ? [= <- <-]. split; [done|]. split; [done|].
      intros (? & ? & ? & ? & ? & ? & ? & ? & ?). congruence. }
  unfold needsRenewal. destruct (sec_Data sec !! "tls.crt") as [pem|] eqn:Hd; simpl.
  2:{ split; [done|]. intros ? ? [= <- <-]. split; [done|]. split; [done|].
      intros (? & ? & ? & ? & ? & ? & ? & ? & ?). congruence. }
  destruct (pem_Decode pem) as [bytes|] eqn:Hb; simpl.
  2:{ split; [done|]. intros ? ? [= <- <-]. split; [done|]. split; [done|].
      intros (? & ? & ? & ? & ? & ? & ? & ? & ?). congruence. }
  destruct (ParseCertificate bytes) as [cert|e] eqn:Hc; simpl.
  2:{ split; [done|]. intros ? ? [= <- <-]. split; [done|]. split; [done|].
      intros (? & ? & ? & ? & ? & ? & ? & ? & ?). congruence. }
  split; [done|]. split; [done|]. intros ? ? [= <- <-]. split; [done|]. rewrite negb_true_iff, bool_decide_eq_false. split.
  - intros Hn. exists sec, pem, bytes, cert. do 4 (split; [done|]). exact (proj1 (Z.nlt_ge _ _) Hn).
  - intros (? & ? & ? & ? & ? & ? & ? & Hc' & Hn). simplify_eq. rewrite Hc in Hc'. injection Hc' as <-. exact (proj2 (Z.nlt_ge _ _) Hn).
Qed.

Lemma fresh_not_due w ns sec svc parent pub key n notBefore :
  sec_Name sec = webhookCertSecret →
  sec_Data sec !! "tls.crt" =
    Some (cert_pem (sign (serverTemplate ns svc notBefore (pw_now w + certValidityDays * 24 * hour)) parent pub key n)) →
  not_due (with_secret w ns sec) ns (pw_now w).
Proof.
  intros Hname Hd.
  destruct (sign_law (serverTemplate ns svc notBefore (pw_now w + certValidityDays * 24 * hour)) parent pub key n)
    as (cert & Hc & Hn). simpl in Hn.
  eexists sec, _, _, cert. simpl. rewrite <-Hname, lookup_insert_eq. do 2 (split; [done|]).
  split; [apply pem_law|]. split; [exact Hc|].
  unfold time_Sub, renewalThreshold, certValidityDays, hour in *. lia.
Qed.

Lemma settles_ensureWebhookCert w ns svc key cert :
  named w →
  executes (S := pki) any pki_env w (ensureWebhookCert ns svc key cert) (λ out w', ∀ r, out = Ok r →
    not_due w' ns (pw_now w') ∧ changes_secret ns webhookCertSecret w w' ∧
    (not_due w ns (pw_now w) → w' = w)).
Proof.
  intros Hnamed. unfold ensureWebhookCert. apply executes_bind.
  eapply executes_mono; [apply reads_currentWebhookCert|]. intros out w' [-> Hr].
  destruct out as [[current good]|e]; [|done]. destruct (Hr _ _ eq_refl) as [-> Hgood]. clear Hr.
  destruct good; [intros r _; split; [by apply Hgood|done]|].
  assert (Hdue : ¬ not_due w ns (pw_now w)) by (intros Hn; by apply Hgood in Hn). clear Hgood.
  repeat (split; [done|]); simpl. destruct (key_law (pw_fresh w)) as (der & Hm & _). rewrite Hm. simpl.
  destruct (pw_secrets w !! (ns, webhookCertSecret)) as [sec|] eqn:Hs; (split; [done|]); simpl.
  - intros r _. assert (Hname : sec_Name sec = webhookCertSecret) by (by eapply Hnamed).
    split; [by eapply (fresh_not_due (mkPkiWorld (pw_secrets w) (pw_mutating w) _ _ _) ns); [|apply lookup_insert_eq]|].
    split; [|done].
    rewrite <-Hname at 1. by apply (changes_insert ns w _ (with_data sec _)).
  - rewrite Hs. intros r _. cbn [snd].
    split; [by eapply (fresh_not_due (mkPkiWorld (pw_secrets w) (pw_mutating w) _ _ _) ns); [|apply lookup_insert_eq]|].
    split; [|done].
    by apply (changes_insert ns w _ (tls_secret webhookCertSecret _ _ _)).
Qed.
Lemma bundled_insert cfgs cfg name pem :
  Forall (.= pem) (wc_CABundles cfg) → wc_Name cfg = name → bundled (<[wc_Name cfg := cfg]> cfgs) name pem.
Proof. intros Hf <- _ cfg' Hl. rewrite lookup_insert_eq in Hl. by injection Hl as <-. Qed.

(** What a patch of the configurations leaves alone. *)
Record keeps_secrets (w w' : pki_world) : Prop := {
  ks_secrets : pw_secrets w' = pw_secrets w;
  ks_now : pw_now w' = pw_now w
}.

Lemma settles_patchMutating w name pem :
  named w →
  executes (S := pki) any pki_env w (patchMutatingWebhookConfiguration name pem) (λ out w',
    out = Ok tt → keeps_secrets w w' ∧ pw_validating w' = pw_validating w ∧ bundled (pw_mutating w') name pem ∧ named w').
Proof.
  intros Hn. split; [done|]. simpl.
  destruct (pw_mutating w !! name) as [cfg|] eqn:Hl; simpl.
  2:{ intros _. do 2 (split; [done|]). split; [|done]. intros _ cfg. by rewrite Hl. }
  generalize (set_bundles_all pem (wc_CABundles cfg)).
  destruct (set_bundles pem (wc_CABundles cfg)) as [bundles [|]] eqn:Hb; simpl; intros Hall.
  - split; [done|]. intros _. destruct Hn as (N1 & N2 & N3). do 2 (split; [done|]). split.
    + apply (bundled_insert _ (mkWebhookConfiguration _ _)); [done|]. simpl. by apply N2.
    + split; [done|]. split; [|done]. intros n c Hc. simpl in Hc.
      apply lookup_insert_Some in Hc as [[<- <-]|[_ Hc]]; [done|]. by apply N2.
  - intros _. do 2 (split; [done|]). split; [|done]. intros _ cfg' Hl'. rewrite Hl in Hl'. injection Hl' as <-.
    by rewrite (set_bundles_unchanged _ _ _ Hb).
Qed.

Lemma settles_patchValidating w name pem :
  named w →
  executes (S := pki) any pki_env w (patchValidatingWebhookConfiguration name pem) (λ out w',
    out = Ok tt → keeps_secrets w w' ∧ pw_mutating w' = pw_mutating w ∧ bundled (pw_validating w') name pem ∧ named w').
Proof.
  intros Hn. split; [done|]. simpl.
  destruct (pw_validating w !! name) as [cfg|] eqn:Hl; simpl.
  2:{ intros _. do 2 (split; [done|]). split; [|done]. intros _ cfg. by rewrite Hl. }
  generalize (set_bundles_all pem (wc_CABundles cfg)).
  destruct (set_bundles pem (wc_CABundles cfg)) as [bundles [|]] eqn:Hb; simpl; intros Hall.
  - split; [done|]. intros _. destruct Hn as (N1 & N2 & N3). do 2 (split; [done|]). split.
    + apply (bundled_insert _ (mkWebhookConfiguration _ _)); [done|]. simpl. by apply N3.
    + split; [done|]. split; [done|]. intros n c Hc. simpl in Hc.
      apply lookup_insert_Some in Hc as [[<- <-]|[_ Hc]]; [done|]. by apply N3.
  - intros _. do 2 (split; [done|]). split; [|done]. intros _ cfg' Hl'. rewrite Hl in Hl'. injection Hl' as <-.
    by rewrite (set_bundles_unchanged _ _ _ Hb).
Qed.

Lemma settles_patch w m v pem :
  named w →
  executes (S := pki) any pki_env w (patchWebhookConfigurations pem m v) (λ out w',
    out = Ok tt → keeps_secrets w w' ∧ bundled (pw_mutating w') m pem ∧ bundled (pw_validating w') v pem).
Proof.
  intros Hn. unfold patchWebhookConfigurations. apply executes_bind.
  eapply (executes_mono _ _ _ _ (λ out w', out = Ok tt →
    keeps_secrets w w' ∧ pw_validating w' = pw_validating w ∧ bundled (pw_mutating w') m pem ∧ named w')).
  { case_bool_decide; [|by apply settles_patchMutating]. intros _. do 2 (split; [done|]). split; [|done]. by intros ?. }
  intros [[]|e] w1 Hm; [|done]. destruct (Hm eq_refl) as ([K1 K2] & Kv & Hb & Hn1).
  eapply (executes_mono _ _ _ _ (λ out w', out = Ok tt →
    keeps_secrets w1 w' ∧ pw_mutating w' = pw_mutating w1 ∧ bundled (pw_validating w') v pem ∧ named w')).
  { case_bool_decide; [|by apply settles_patchValidating]. intros _. do 2 (split; [done|]). split; [|done]. by intros ?. }
  intros out w2 Hv Ho. destruct (Hv Ho) as ([K3 K4] & Km & Hb2 & _).
  split; [split; congruence|]. by rewrite Km.
Qed.

Lemma settled_not_due w w' ns t : pw_secrets w' = pw_secrets w → not_due w ns t → not_due w' ns t.
Proof. unfold not_due. by intros ->. Qed.

(** After a pass that succeeded. *)
Lemma pass_settled o w :
  named w →
  executes (S := pki) any pki_env w (EnsureWebhookPKI o) (λ out w', out = Ok tt → ∃ key cert,
    settled o w' key cert ∧ not_due w' (o_Namespace o) (pw_now w') ∧
    (pw_secrets w !! (o_Namespace o, caSecretName) = None → key = generate (pw_fresh w)) ∧
    (not_due w (o_Namespace o) (pw_now w) →
     pw_secrets w' !! (o_Namespace o, webhookCertSecret) = pw_secrets w !! (o_Namespace o, webhookCertSecret))).
Proof.
  intros Hn. apply executes_bind, executes_with_ctx.
  eapply executes_mono; [apply settles_ensureCA|]. intros [[key cert]|e] w1 H1; [|done].
  destruct (H1 _ _ eq_refl) as (Hca & C1 & Hfresh). clear H1.
  apply executes_bind, executes_with_ctx.
  eapply executes_mono; [apply settles_ensureWebhookCert; by apply (cs_named _ _ _ _ C1)|].
  intros [[rotated na]|e] w2 H2; [|done]. destruct (H2 _ eq_refl) as (Hd & C2 & Hsame). clear H2.
  apply executes_bind, executes_with_ctx.
  eapply executes_mono; [apply settles_patch; by apply (cs_named _ _ _ _ C2), (cs_named _ _ _ _ C1)|].
  intros [[]|e] w3 H3; [|done]. destruct (H3 eq_refl) as ([K1 K2] & Hm & Hv). clear H3.
  assert (Hca3 : ca_stored w3 (o_Namespace o) key cert).
  { destruct Hca as (sec & Hs & Hp). exists sec. split; [|done].
    rewrite K1, (cs_others _ _ _ _ C2); [done|]. by intros [=]. }
  assert (Hend : ∃ key cert, settled o w3 key cert ∧ not_due w3 (o_Namespace o) (pw_now w3) ∧
    (pw_secrets w !! (o_Namespace o, caSecretName) = None → key = generate (pw_fresh w)) ∧
    (not_due w (o_Namespace o) (pw_now w) →
     pw_secrets w3 !! (o_Namespace o, webhookCertSecret) = pw_secrets w !! (o_Namespace o, webhookCertSecret))).
  { exists key, cert. split; [done|]. split; [by rewrite K2; eapply settled_not_due|]. split; [done|].
    assert (E : pw_secrets w1 !! (o_Namespace o, webhookCertSecret) = pw_secrets w !! (o_Namespace o, webhookCertSecret))
      by (apply (cs_others _ _ _ _ C1); by intros [=]).
    intros Hnd. rewrite K1, <-E. rewrite Hsame; [done|]. rewrite (cs_now _ _ _ _ C1).
    destruct Hnd as (sec & pem & bytes & c & Hs & Hr). exists sec, pem, bytes, c. by rewrite E. }
  destruct rotated; [|by intros _]. unfold emitRotationEvent.
  destruct (negb (o_EventRecorder o)); [by intros _|]. case_bool_decide; [by intros _|]. by split; [|intros _].
Qed.
End stored.

(** ** A toy cryptography, for the witnesses *)

Fixpoint pos_str (p : positive) : string :=
  match p with xH => "" | xO p => String "0" (pos_str p) | xI p => String "1" (pos_str p) end.

Fixpoint str_pos (s : string) : positive :=
  match s with
  | EmptyString => xH
  | String c s => if bool_decide (c = "0"%char) then xO (str_pos s) else xI (str_pos s)
  end.

Lemma str_pos_str p : str_pos (pos_str p) = p.
Proof. induction p as [p IH|p IH|]; simpl; [by rewrite IH..|done]. Qed.

Definition toy_cert (notAfter : Z) (raw : string) : Certificate :=
  mkCertificate 0 [] "" [] 0 notAfter false [] [] false raw.

#[export] Instance toy_crypto : Crypto := {|
  PrivateKey := nat; PublicKey := nat; public := λ k, k;
  MarshalECPrivateKey := λ k, Ok (pos_str (encode k));
  ParseECPrivateKey := λ s, match decode (str_pos s) with Some k => Ok k | None => Err (Errorf "key") end;
  ParseCertificate := λ s,
    match decode (A := Z * nat) (str_pos s) with Some (t, _) => Ok (toy_cert t s) | None => Err (Errorf "cert") end;
  pem_EncodeToMemory := λ _ b, String "-" b;
  pem_Decode := λ s, match s with String _ b => Some b | EmptyString => None end;
  FormatRFC3339 := itoa
|}.

#[export] Program Instance toy_laws : CryptoLaws (H := toy_crypto) := {|
  generate := λ n, n;
  sign := λ t _ _ _ n, pos_str (encode (c_NotAfter t, n))
|}.
Next Obligation. done. Qed.
Next Obligation. intros n. exists (pos_str (encode n)). split; [done|]. simpl. by rewrite str_pos_str, decode_encode. Qed.
Next Obligation.
  intros t p pub key n. eexists. cbn [ParseCertificate toy_crypto]. rewrite str_pos_str, decode_encode.
  split; [done|]. simpl. lia.
Qed.

Definition toy_options : WebhookPKIOptions := mkPKIOptions "op" "hooks" "op-0" "mut" "val" true.

Definition toy_world (secrets : gmap (string * string) Secret) : pki_world :=
  mkPkiWorld secrets {[ "mut" := mkWebhookConfiguration "mut" [""; ""] ]}
    {[ "val" := mkWebhookConfiguration "val" [""] ]} (1000 * 24 * hour) 7.

(** The state a pass leaves an empty API server in. *)
Definition toy_settled : pki_world := Eval vm_compute in
  (interp pki_env (toy_world ∅) (EnsureWebhookPKI toy_options)).2.

(** ** Theorems *)

(** C37: Whatever the API server, the key generator and the signer answer, a pass
    over the webhook certificates writes only the following.  A new authority,
    when its secret was not found.  A serving secret, created when none was found
    or updated in place, whose certificate was signed by the authority read or
    stored in this pass for the service's four DNS names (name, name.namespace,
    name.namespace.svc and name.namespace.svc.cluster.local), as a server
    certificate valid for 365 days from the clock read in the pass, together with
    the key generated for it and that authority's certificate.  And configurations
    all of whose bundles are that authority's certificate, once the serving
    secret that was read has a certificate at least thirty days from its expiry
    or the new secret was stored without error. *)
Theorem serving_certificate_signed `{Crypto} o tr out :
  runs (S := pki) (EnsureWebhookPKI o) tr out →
  ∀ tr1 e tr2, tr = tr1 ++ e :: tr2 → pki_guard o tr1 (projT1 e).
Proof. intros Hr. by apply (safe_runs (S := pki) _ [] _ _ _ _ (safe_EnsureWebhookPKI o []) Hr). Qed.

Lemma serving_certificate_signed_witness :
  let '(tr, out, _) := interp pki_env (toy_world ∅) (EnsureWebhookPKI toy_options) in
  out = Ok tt ∧ length tr = 16%nat ∧ ∀ tr1 e tr2, tr = tr1 ++ e :: tr2 → pki_guard toy_options tr1 (projT1 e).
Proof.
  destruct (interp pki_env (toy_world ∅) (EnsureWebhookPKI toy_options)) as [[tr out] w'] eqn:E.
  assert (Hr := interp_runs (S := pki) _ _ _ _ _ _ E).
  split; [|split; [|exact (serving_certificate_signed toy_options tr out Hr)]].
  - change out with (tr, out, w').1.2. rewrite <-E. vm_compute. reflexivity.
  - change tr with (tr, out, w').1.1. rewrite <-E. vm_compute. reflexivity.
Defined.

(** C38: Against an API server that stores what it is sent, a pass that succeeds
    leaves nothing to do: repeated at the same time, or at any later time at
    which the serving certificate is not within thirty days of its expiry, it
    succeeds, writes nothing and changes nothing. *)
Theorem pki_pass_idempotent `{CryptoLaws} o w tr w' :
  named w → interp pki_env w (EnsureWebhookPKI o) = (tr, Ok tt, w') →
  ∀ t, (t = pw_now w' ∨ not_due w' (o_Namespace o) t) →
  let later := mkPkiWorld (pw_secrets w') (pw_mutating w') (pw_validating w') t (pw_fresh w') in
  ∃ tr2, interp pki_env later (EnsureWebhookPKI o) = (tr2, Ok tt, later) ∧
    Forall (λ e, is_write (projT1 e) = false) tr2.
Proof.
  intros Hn Hi t Ht later.
  destruct (executes_interp (S := pki) _ _ _ _ _ _ _ _ (pass_settled o w Hn) Hi) as [_ Hs].
  destruct (Hs eq_refl) as (key & cert & [S1 S2 S3] & Hd & _).
  assert (Hq : not_due later (o_Namespace o) (pw_now later)).
  { destruct Ht as [->|Ht]; [exact Hd|exact Ht]. }
  assert (Hs' : settled o later key cert) by (by split).
  assert (Hp := quiet_pass o later key cert Hs' Hq).
  destruct (interp pki_env later (EnsureWebhookPKI o)) as [[tr2 out] w2] eqn:E.
  destruct (executes_interp (S := pki) _ _ _ _ _ _ _ _ Hp E) as [Hw [-> ->]].
  exists tr2. split; [done|]. eapply Forall_impl; [exact Hw|]. intros e. apply negb_true_iff.
Qed.

Lemma toy_named secrets : (∀ k sec, secrets !! k = Some sec → sec_Name sec = k.2) → named (toy_world secrets).
Proof.
  intros Hs. split; [intros ns name sec Hl; by apply Hs in Hl|].
  split; intros name cfg Hl; cbn [pw_mutating pw_validating toy_world] in Hl;
    by apply lookup_singleton_Some in Hl as [<- <-].
Qed.

(** Three hundred days after the first pass. *)
Lemma pki_pass_idempotent_witness :
  let later := mkPkiWorld (pw_secrets toy_settled) (pw_mutating toy_settled) (pw_validating toy_settled)
                 (1300 * 24 * hour) (pw_fresh toy_settled) in
  ∃ tr2, interp pki_env later (EnsureWebhookPKI toy_options) = (tr2, Ok tt, later) ∧
    Forall (λ e, is_write (projT1 e) = false) tr2.
Proof.
  destruct (interp pki_env (toy_world ∅) (EnsureWebhookPKI toy_options)) as [[tr out] w'] eqn:E.
  assert (Ho : out = Ok tt) by (change out with (tr, out, w').1.2; rewrite <-E; vm_compute; reflexivity).
  assert (Hw : w' = toy_settled) by (change w' with (tr, out, w').2; rewrite <-E; vm_compute; reflexivity).
  subst out w'.
  apply (pki_pass_idempotent toy_options (toy_world ∅) tr toy_settled); [by apply toy_named|exact E|].
  right. eexists _, _, _, _. split; [vm_compute; reflexivity|]. split; [vm_compute; reflexivity|].
  split; [vm_compute; reflexivity|]. split; [vm_compute; reflexivity|]. vm_compute. discriminate.
Defined.

(** C39: When the authority's secret is missing and the serving certificate is not
    due, a successful pass stores a new authority, made from a key generated in
    this pass, and publishes it in every named configuration, while the serving
    secret stays as it was: the certificate the webhooks serve was signed by an
    authority that is no longer published. *)
Theorem new_authority_orphans_certificate `{CryptoLaws} o w tr w' :
  named w → pw_secrets w !! (o_Namespace o, caSecretName) = None →
  not_due w (o_Namespace o) (pw_now w) →
  interp pki_env w (EnsureWebhookPKI o) = (tr, Ok tt, w') →
  pw_secrets w' !! (o_Namespace o, webhookCertSecret) = pw_secrets w !! (o_Namespace o, webhookCertSecret) ∧
  ∃ cert, settled o w' (generate (pw_fresh w)) cert.
Proof.
  intros Hn Hca Hd Hi.
  destruct (executes_interp (S := pki) _ _ _ _ _ _ _ _ (pass_settled o w Hn) Hi) as [_ Hs].
  destruct (Hs eq_refl) as (key & cert & Hset & _ & Hkey & Hsame).
  split; [by apply Hsame|]. exists cert. by rewrite <-Hkey.
Qed.

(** The settled state after the authority's secret is removed. *)
Definition toy_orphaned : pki_world :=
  mkPkiWorld (delete ("op", caSecretName) (pw_secrets toy_settled)) (pw_mutating toy_settled)
    (pw_validating toy_settled) (pw_now toy_settled) (pw_fresh toy_settled).

Lemma toy_orphaned_named : named toy_orphaned.
Proof.
  split; [|split].
  - intros ns name sec Hl. unfold toy_orphaned in Hl. cbn [pw_secrets] in Hl. apply lookup_delete_Some in Hl as [_ Hl]. revert Hl.
    assert (Ha : map_Forall (λ k s, sec_Name s = k.2) (pw_secrets toy_settled))
      by (apply (bool_decide_eq_true_1 _); vm_compute; reflexivity).
    apply (Ha (ns, name)).
  - assert (Ha : map_Forall (λ k c, wc_Name c = k) (pw_mutating toy_settled))
      by (apply (bool_decide_eq_true_1 _); vm_compute; reflexivity).
    exact Ha.
  - assert (Ha : map_Forall (λ k c, wc_Name c = k) (pw_validating toy_settled))
      by (apply (bool_decide_eq_true_1 _); vm_compute; reflexivity).
    exact Ha.
Qed.

Lemma new_authority_orphans_certificate_witness :
  let w' := (interp pki_env toy_orphaned (EnsureWebhookPKI toy_options)).2 in
  (pw_secrets w' !! ("op", webhookCertSecret) = pw_secrets toy_orphaned !! ("op", webhookCertSecret) ∧
   ∃ cert, settled toy_options w' (generate (pw_fresh toy_orphaned)) cert) ∧
  (sec_Data <$> pw_secrets w' !! ("op", webhookCertSecret)) ≫= (.!! "ca.crt") ≠
  (sec_Data <$> pw_secrets w' !! ("op", caSecretName)) ≫= (.!! "tls.crt").
Proof.
  destruct (interp pki_env toy_orphaned (EnsureWebhookPKI toy_options)) as [[tr out] w'] eqn:E. cbn [snd]. cbn zeta.
  assert (Ho : out = Ok tt) by (change out with (tr, out, w').1.2; rewrite <-E; vm_compute; reflexivity).
  subst out. split.
  - apply (new_authority_orphans_certificate toy_options toy_orphaned tr w'); [apply toy_orphaned_named|reflexivity| |exact E].
    eexists _, _, _, _. split; [vm_compute; reflexivity|]. split; [vm_compute; reflexivity|].
    split; [vm_compute; reflexivity|]. split; [vm_compute; reflexivity|]. vm_compute. discriminate.
  - change w' with (tr, Ok (E := error) tt, w').2. rewrite <-E. vm_compute. discriminate.
Defined.

(** With webhooks enabled the operator registers its controllers and webhooks
    and starts only after a pass over the certificates put the serving secret in
    place. *)
Theorem startup_after_certificates `{Crypto} parse m p n leader b tr out :
  runs (S := pki) (RunController parse m p n leader b) tr out →
  ∀ tr1 e tr2, tr = tr1 ++ e :: tr2 → startup_guard b tr1 (projT1 e).
Proof. intros Hr. by apply (safe_runs (S := pki) _ [] _ _ _ _ (safe_RunController parse m p n leader b) Hr). Qed.
