(* ===== verification/Collector.v ===== *)
(** * The Prometheus collector ([internal/instance-manager/metrics])

    A scrape asks Redis for [PING] and [INFO all] and sends one metric per
    recognised field.  [prom] is its signature; sending on the channel is an
    operation.  [Float64] is what the code uses of floating-point numbers,
    [MetricNames] and [MetricClient] what it calls of the Prometheus client
    library, and [ClientLaws] the documented behaviour it relies on.

    The theorem: a scrape sends only described metrics, each at most once, and
    cannot panic on ASCII replies. *)
From S2P Require Import Prelude GoStr Api Json Effects Replication.
From Stdlib Require Import Ascii.

Class Float64 := {
  float64 : Type;
  f_zero : float64;
  f_one : float64;
  f_sub : float64 → float64 → float64;
  f_ltb : float64 → float64 → bool;
  (** [None] is its error *)
  ParseFloat : string → option float64
}.

(** ** Descriptors *)

Definition metricNamespace := "redis".
Definition unknownRole := "unknown".
Definition metricLabels : list string := ["namespace"; "cluster"; "pod"; "role"].

Record Desc := mkDesc {
  d_fqName : string;
  d_help : string;
  d_variableLabels : list string
}.
#[export] Instance Desc_eq_dec : EqDecision Desc.
Proof. solve_decision. Defined.

(** [prometheus.BuildFQName(namespace, subsystem, name)] *)
Class MetricNames := { BuildFQName : string → string → string → string }.

Section descriptors.
Context `{MetricNames}.

Definition newDesc (name help : string) (labels : list string) : Desc :=
  mkDesc (BuildFQName metricNamespace "" name) help labels.

Definition upDesc : Desc := newDesc "up"
  "Whether Redis is up (1) or down (0), based on PING." metricLabels.
Definition instanceInfoDesc : Desc := newDesc "instance_info"
  "Static Redis instance information." (metricLabels ++ ["redis_version"; "os"]).
Definition connectedClientsDesc : Desc := newDesc "connected_clients"
  "Number of client connections." metricLabels.
Definition blockedClientsDesc : Desc := newDesc "blocked_clients"
  "Number of clients pending on a blocking call." metricLabels.
Definition rejectedConnectionsDesc : Desc := newDesc "rejected_connections_total"
  "Total number of connections rejected due to maxclients or other limits." metricLabels.
Definition usedMemoryDesc : Desc := newDesc "used_memory_bytes"
  "Total memory used by Redis in bytes." metricLabels.
Definition usedMemoryRSSDesc : Desc := newDesc "used_memory_rss_bytes"
  "Resident set size memory used by Redis in bytes." metricLabels.
Definition usedMemoryPeakDesc : Desc := newDesc "used_memory_peak_bytes"
  "Peak memory consumed by Redis in bytes." metricLabels.
Definition maxMemoryDesc : Desc := newDesc "maxmemory_bytes"
  "Configured maxmemory in bytes." metricLabels.
Definition memFragmentationRatioDesc : Desc := newDesc "mem_fragmentation_ratio"
  "Memory fragmentation ratio." metricLabels.
Definition evictedKeysDesc : Desc := newDesc "evicted_keys_total"
  "Total number of evicted keys." metricLabels.
Definition totalCommandsProcessedDesc : Desc := newDesc "total_commands_processed"
  "Total number of commands processed by the server." metricLabels.
Definition commandCallsDesc : Desc := newDesc "command_calls_total"
  "Total number of calls for a specific Redis command." (metricLabels ++ ["command"]).
Definition instantaneousOpsPerSecDesc : Desc := newDesc "instantaneous_ops_per_sec"
  "Number of operations per second over the last sampling interval." metricLabels.
Definition keyspaceHitsDesc : Desc := newDesc "keyspace_hits_total"
  "Number of successful lookup of keys." metricLabels.
Definition keyspaceMissesDesc : Desc := newDesc "keyspace_misses_total"
  "Number of failed lookup of keys." metricLabels.
Definition connectedReplicasDesc : Desc := newDesc "connected_replicas"
  "Number of connected replicas." metricLabels.
Definition replicationOffsetDesc : Desc := newDesc "replication_offset"
  "Replication offset for the primary." metricLabels.
Definition replicaReplOffsetDesc : Desc := newDesc "replica_repl_offset"
  "Replication offset for the replica." metricLabels.
Definition replicationLagBytesDesc : Desc := newDesc "replication_lag_bytes"
  "Replication lag in bytes between master and replica offsets." metricLabels.
Definition masterLinkUpDesc : Desc := newDesc "master_link_up"
  "Whether the replica link to master is up (1) or down (0)." metricLabels.
Definition rdbLastSaveTimestampDesc : Desc := newDesc "rdb_last_save_timestamp"
  "Last successful RDB save time (unix timestamp)." metricLabels.
Definition rdbLastBgsaveDurationDesc : Desc := newDesc "rdb_last_bgsave_duration_seconds"
  "Duration of the last RDB background save in seconds." metricLabels.
Definition aofLastRewriteDurationDesc : Desc := newDesc "aof_last_rewrite_duration_seconds"
  "Duration of the last AOF rewrite in seconds." metricLabels.
Definition rdbChangesSinceLastSaveDesc : Desc := newDesc "rdb_changes_since_last_save"
  "Number of changes since the last RDB save." metricLabels.
Definition loadingDesc : Desc := newDesc "loading"
  "Whether Redis is loading data from disk (1) or not (0)." metricLabels.
Definition fencedDesc : Desc := newDesc "fenced"
  "Whether this Redis instance is fenced (1) or not (0)." metricLabels.
Definition uptimeDesc : Desc := newDesc "uptime_seconds"
  "Number of seconds since Redis server start." metricLabels.

(** [Describe] *)
Definition Describe : list Desc :=
  [upDesc; instanceInfoDesc; connectedClientsDesc; blockedClientsDesc;
   rejectedConnectionsDesc; usedMemoryDesc; usedMemoryRSSDesc; usedMemoryPeakDesc;
   maxMemoryDesc; memFragmentationRatioDesc; evictedKeysDesc; totalCommandsProcessedDesc;
   commandCallsDesc; instantaneousOpsPerSecDesc; keyspaceHitsDesc; keyspaceMissesDesc;
   connectedReplicasDesc; replicationOffsetDesc; replicaReplOffsetDesc; replicationLagBytesDesc;
   masterLinkUpDesc; rdbLastSaveTimestampDesc; rdbLastBgsaveDurationDesc; aofLastRewriteDurationDesc;
   rdbChangesSinceLastSaveDesc; loadingDesc; fencedDesc; uptimeDesc].
End descriptors.

(** The identity labels, and whether a fence check is configured. *)
Record RedisCollector := mkRedisCollector {
  rc_namespace : string;
  rc_cluster : string;
  rc_pod : string;
  rc_fencedCheck : bool
}.

(** ** Replies *)

Definition normalizeRole (role : string) : string :=
  if bool_decide (TrimSpace role = "") then unknownRole else role.

Definition info_insert (values : gmap string string) (line : string) : gmap string string :=
  if bool_decide (line = "") || HasPrefix line "#" then values
  else match cut_char line ":"%char with
       | Some (key, value) => <[key := value]> values
       | None => values
       end.

Definition parse_info_map (infoRaw : string) : gmap string string := foldl info_insert ∅ (split_crlf infoRaw).

(** [utf8.ValidString]; [fuel] of at least the length is enough. *)
Fixpoint valid_utf8 (fuel : nat) (s : string) : bool :=
  match s, fuel with
  | EmptyString, _ => true
  | String _ _, O => false
  | String c s', S fuel =>
      if bool_decide (byte_val c < 128) then valid_utf8 fuel s'
      else match rune_bytes s with Some (_, rest) => valid_utf8 fuel rest | None => false end
  end.
Definition ValidString (s : string) : bool := valid_utf8 (String.length s) s.

Section replies.
Context `{Float64}.

Definition parseFloatKey (values : gmap string string) (key : string) : option float64 :=
  match values !! key with
  | None => None
  | Some raw => if bool_decide (raw = "") then None else ParseFloat raw
  end.

(** The loop over the entries ends at the first one named [calls]. *)
Fixpoint calls_entry (entries : list string) : option float64 :=
  match entries with
  | [] => None
  | entry :: entries' =>
      match cut_char entry "="%char with
      | Some (key, value) => if bool_decide (key = "calls") then ParseFloat value else calls_entry entries'
      | None => calls_entry entries'
      end
  end.

Definition parseCommandCalls (raw : string) : option float64 :=
  if bool_decide (TrimSpace raw = "") then None else calls_entry (split_char raw ","%char).

(** ** Operations *)

Inductive ValueType := GaugeValue | CounterValue.

Record Metric := mkMetric {
  m_desc : Desc;
  m_type : ValueType;
  m_value : float64;
  m_labels : list string
}.

Inductive prom_op := MPing | MInfo (section : string) | MFenced | MSend (m : Metric).

Definition prom_ret (o : prom_op) : Type :=
  match o with MPing => res unit | MInfo _ => res string | MFenced => res bool | MSend _ => unit end.

Definition prom : sig := mkSig prom_op prom_ret.
Definition mcall (o : prom_op) : prog prom (prom_ret o) := call (S := prom) o.

End replies.

(** [prometheus.MustNewConstMetric]; [None] is its panic. *)
Class MetricClient `{Float64} := {
  MustNewConstMetric : Desc → ValueType → float64 → list string → option Metric
}.

Section collector.
Context `{MetricNames, Float64, !MetricClient} (c : RedisCollector).

(** [ch <- prometheus.MustNewConstMetric(...)] *)
Definition send (desc : Desc) (t : ValueType) (value : float64) (labels : list string) : prog prom unit :=
  match MustNewConstMetric desc t value labels with
  | Some m => mcall (MSend m)
  | None => Throw (Panicked "prometheus.MustNewConstMetric")
  end.

Definition baseLabelValues (role : string) : list string :=
  [rc_namespace c; rc_cluster c; rc_pod c; normalizeRole role].

Definition emitFromKey (desc : Desc) (t : ValueType) (info : gmap string string) (key : string) (labels : list string)
  : prog prom unit :=
  match parseFloatKey info key with
  | None => mret tt
  | Some value => send desc t value labels
  end.

Definition emitCommandCalls (info : gmap string string) (labels : list string) : prog prom unit :=
  for_each ["get"; "set"; "del"] (λ command,
    match info !! ("cmdstat_" +:+ command) with
    | None => mret tt
    | Some raw =>
        match parseCommandCalls raw with
        | None => mret tt
        | Some calls => send commandCallsDesc CounterValue calls (labels ++ [command])
        end
    end).

Definition Collect : prog prom unit :=
  ping ← mcall MPing;
  let up := match ping with Ok _ => f_one | Err _ => f_zero end in
  raw ← mcall (MInfo "all");
  let info := match raw with Ok infoRaw => parse_info_map infoRaw | Err _ => ∅ end in
  let role := match raw with
              | Ok infoRaw => normalizeRole (default "" (parse_info_map infoRaw !! "role"))
              | Err _ => unknownRole
              end in
  let labels := baseLabelValues role in
  send upDesc GaugeValue up labels;;
  fenced ← (if rc_fencedCheck c then
              isFenced ← mcall MFenced;
              mret (match isFenced with Ok true => f_one | _ => f_zero end)
            else mret f_zero);
  send fencedDesc GaugeValue fenced labels;;
  match raw with
  | Err _ => mret tt
  | Ok _ =>
      let version := default "" (info !! "redis_version") in
      let osName := default "" (info !! "os") in
      send instanceInfoDesc GaugeValue f_one (labels ++ [version; osName]);;
      emitFromKey connectedClientsDesc GaugeValue info "connected_clients" labels;;
      emitFromKey blockedClientsDesc GaugeValue info "blocked_clients" labels;;
      emitFromKey rejectedConnectionsDesc CounterValue info "rejected_connections" labels;;
      emitFromKey usedMemoryDesc GaugeValue info "used_memory" labels;;
      emitFromKey usedMemoryRSSDesc GaugeValue info "used_memory_rss" labels;;
      emitFromKey usedMemoryPeakDesc GaugeValue info "used_memory_peak" labels;;
      emitFromKey maxMemoryDesc GaugeValue info "maxmemory" labels;;
      emitFromKey memFragmentationRatioDesc GaugeValue info "mem_fragmentation_ratio" labels;;
      emitFromKey evictedKeysDesc CounterValue info "evicted_keys" labels;;
      emitFromKey totalCommandsProcessedDesc CounterValue info "total_commands_processed" labels;;
      emitCommandCalls info labels;;
      emitFromKey instantaneousOpsPerSecDesc GaugeValue info "instantaneous_ops_per_sec" labels;;
      emitFromKey keyspaceHitsDesc CounterValue info "keyspace_hits" labels;;
      emitFromKey keyspaceMissesDesc CounterValue info "keyspace_misses" labels;;
      emitFromKey connectedReplicasDesc GaugeValue info "connected_slaves" labels;;
      emitFromKey replicationOffsetDesc GaugeValue info "master_repl_offset" labels;;
      emitFromKey replicaReplOffsetDesc GaugeValue info "slave_repl_offset" labels;;
      emitFromKey rdbLastSaveTimestampDesc GaugeValue info "rdb_last_save_time" labels;;
      emitFromKey rdbLastBgsaveDurationDesc GaugeValue info "rdb_last_bgsave_time_sec" labels;;
      emitFromKey aofLastRewriteDurationDesc GaugeValue info "aof_last_rewrite_time_sec" labels;;
      emitFromKey rdbChangesSinceLastSaveDesc GaugeValue info "rdb_changes_since_last_save" labels;;
      emitFromKey loadingDesc GaugeValue info "loading" labels;;
      emitFromKey uptimeDesc GaugeValue info "uptime_in_seconds" labels;;
      send masterLinkUpDesc GaugeValue
        (if EqualFold (default "" (info !! "master_link_status")) "up" then f_one else f_zero) labels;;
      match parseFloatKey info "master_repl_offset", parseFloatKey info "slave_repl_offset" with
      | Some masterOffset, Some slaveOffset =>
          let lag := f_sub masterOffset slaveOffset in
          send replicationLagBytesDesc GaugeValue (if f_ltb lag f_zero then f_zero else lag) labels
      | _, _ => mret tt
      end
  end.
End collector.

(** ** The client library *)

Definition is_letter (x : ascii) : bool :=
  bool_decide (65 ≤ byte_val x ≤ 90) || bool_decide (97 ≤ byte_val x ≤ 122).

(** A name of letters, digits and underscores that does not start with a digit. *)
Definition valid_name (s : string) : bool :=
  match String.list_ascii_of_string s with
  | [] => false
  | x :: l => negb (is_digit x) && forallb (λ y, is_digit y || is_letter y || bool_decide (y = "_"%char)) (x :: l)
  end.

(** A descriptor the library accepts. *)
Definition valid_desc (d : Desc) : bool :=
  valid_name (d_fqName d) && forallb valid_name (d_variableLabels d) && bool_decide (NoDup (d_variableLabels d)).

(** The name joins its non-empty parts with an underscore; a metric is made of a
    valid descriptor and one valid label value for each of its labels. *)
Class ClientLaws `{MetricNames, Float64, !MetricClient} := {
  fq_law ns name : ns ≠ "" → name ≠ "" → BuildFQName ns "" name = ns +:+ "_" +:+ name;
  metric_law desc t v labels :
    valid_desc desc = true → length labels = length (d_variableLabels desc) → forallb ValidString labels = true →
    MustNewConstMetric desc t v labels = Some (mkMetric desc t v labels)
}.

(** ** ASCII replies give valid labels *)

Lemma valid_ascii fuel s : (String.length s ≤ fuel)%nat → is_ascii s = true → valid_utf8 fuel s = true.
Proof.
  revert fuel; induction s as [|d s IH]; intros [|fuel]; simpl; [done|done|lia|].
  intros Hl. rewrite andb_true_iff. intros [-> Hs]. apply IH; [lia|done].
Qed.

Lemma ascii_ValidString s : is_ascii s = true → ValidString s = true.
Proof. by apply valid_ascii. Qed.

Lemma cut_char_ascii s d a b : cut_char s d = Some (a, b) → is_ascii s = true → is_ascii b = true.
Proof.
  revert a b; induction s as [|x s IH]; intros a b; simpl; [done|]. rewrite andb_true_iff.
  case_bool_decide; [intros [= <- <-]; by intros [_ ?]|].
  destruct (cut_char s d) as [[a' b']|]; [|done]. intros [= <- <-] [_ Hs]. by eapply IH.
Qed.

Lemma split_crlf_ascii n s :
  (String.length s < n)%nat → is_ascii s = true → Forall (λ l, is_ascii l = true) (split_crlf s).
Proof.
  revert s; induction n as [|n IH]; intros s Hn; [lia|].
  destruct s as [|x [|y s]]; simpl in *; [intros _|intros Hx|].
  { by apply Forall_singleton. }
  { by apply Forall_singleton. }
  rewrite !andb_true_iff. intros (Hx & Hy & Hs).
  assert (Hrest := IH (String y s) ltac:(simpl; lia) ltac:(simpl; by rewrite Hy, Hs)). simpl in Hrest.
  destruct (bool_decide (x = CR) && bool_decide (y = LF)).
  - constructor; [done|]. apply IH; [lia|done].
  - inversion Hrest as [|w ws Hw Hws E]; constructor; simpl; rewrite ?Hx; done.
Qed.

Lemma info_insert_ascii m line :
  map_Forall (λ _ v, is_ascii v = true) m → is_ascii line = true →
  map_Forall (λ _ v, is_ascii v = true) (info_insert m line).
Proof.
  intros Hm Hl. unfold info_insert. destruct (_ || _); [done|].
  destruct (cut_char line ":") as [[k v]|] eqn:E; [|done]. apply map_Forall_insert_2; [|done]. by eapply cut_char_ascii.
Qed.

Lemma parse_info_ascii raw :
  is_ascii raw = true → map_Forall (λ _ v, is_ascii v = true) (parse_info_map raw).
Proof.
  intros Hr. unfold parse_info_map.
  assert (Hl := split_crlf_ascii (S (String.length raw)) raw ltac:(lia) Hr).
  assert (Hm : map_Forall (λ _ v, is_ascii v = true) (∅ : gmap string string)) by apply map_Forall_empty.
  revert Hm Hl. generalize (∅ : gmap string string). generalize (split_crlf raw).
  intros l; induction l as [|x l IH]; intros m Hm Hl; [done|]. apply Forall_cons in Hl as [Hx Hl].
  apply IH; [by apply info_insert_ascii|done].
Qed.

Lemma default_ascii raw k : is_ascii raw = true → is_ascii (default "" (parse_info_map raw !! k)) = true.
Proof.
  intros Hr. destruct (parse_info_map raw !! k) as [v|] eqn:E; [|done]. exact (parse_info_ascii raw Hr k v E).
Qed.

Lemma normalizeRole_ascii r : is_ascii r = true → is_ascii (normalizeRole r) = true.
Proof. intros Hr. unfold normalizeRole. by case_bool_decide. Qed.

(** ** What a scrape sends *)

Section scrape.
Context {names : MetricNames} {floats : Float64} {client : MetricClient} {laws : ClientLaws} (c : RedisCollector).

Lemma newDesc_name name help labels : name ≠ "" → newDesc name help labels = mkDesc ("redis_" +:+ name) help labels.
Proof. intros Hn. unfold newDesc. by rewrite fq_law. Qed.

Lemma described_valid d : d ∈ Describe → valid_desc d = true.
Proof.
  assert (Forall (λ d, valid_desc d = true) Describe) as Hall; [|rewrite Forall_forall in Hall; apply Hall].
  unfold Describe. repeat constructor; (etrans; [apply (f_equal valid_desc); by apply newDesc_name|]); by vm_compute.
Qed.

Ltac described := unfold Describe; repeat first [apply list_elem_of_here | apply list_elem_of_further].

Definition view_send (e : event prom) : option Metric :=
  match e with existT (MSend m) _ => Some m | _ => None end.
Definition sent (tr : trace prom) : list Metric := omap view_send tr.

(** What a registry tells metrics apart by: the name and the labels after the
    identity. *)
Definition metric_key (m : Metric) : string * list string := (d_fqName (m_desc m), drop 4 (m_labels m)).

Definition ascii_reply (e : event prom) : Prop :=
  match e with existT (MInfo _) (Ok raw) => is_ascii raw = true | _ => True end.

Definition well_labelled (m : Metric) : Prop :=
  m_desc m ∈ Describe ∧ length (m_labels m) = length (d_variableLabels (m_desc m)) ∧
  take 3 (m_labels m) = [rc_namespace c; rc_cluster c; rc_pod c].

(** [p] cannot panic and sends a selection of the metrics [L], in this order. *)
Definition emits (p : prog prom unit) (L : list (string * list string)) : Prop :=
  ∀ tr out, Forall ascii_reply tr → runs p tr out →
  out = Ok tt ∧ metric_key <$> sent tr `sublist_of` L ∧ Forall well_labelled (sent tr).

Lemma emits_nothing L : emits (mret tt) L.
Proof. intros tr out _ [-> ->]. split; [done|]. split; [apply sublist_nil_l|constructor]. Qed.

Lemma emits_then p q L1 L2 : emits p L1 → emits q L2 → emits (p;; q) (L1 ++ L2).
Proof.
  intros Hp Hq tr out Ha Hr. apply runs_bind in Hr as [(e & He & ->)|([] & tr1 & tr2 & -> & H1 & H2)].
  - destruct (Hp _ _ Ha He) as [? _]. done.
  - apply Forall_app in Ha as [A1 A2]. destruct (Hp _ _ A1 H1) as (_ & S1 & F1), (Hq _ _ A2 H2) as (-> & S2 & F2).
    unfold sent in *. rewrite omap_app, fmap_app. split; [done|]. split; [by apply sublist_app|by apply Forall_app].
Qed.

Lemma emits_call (o : prom_op) f L :
  (∀ r, ascii_reply (existT (P := ret prom) o r) → emits (f r) L) → (∀ m, o ≠ MSend m) → emits (mcall o ≫= f) L.
Proof.
  intros Hf Ho tr out Ha (r & tr' & -> & Hr). apply Forall_cons in Ha as [A1 A2].
  destruct (Hf r A1 tr' out A2 Hr) as (-> & HS & HF). destruct o; [done|done|done|]. by destruct (Ho m).
Qed.

Lemma emits_send desc t v labels :
  desc ∈ Describe → length labels = length (d_variableLabels desc) →
  Forall (λ l, is_ascii l = true) labels → take 3 labels = [rc_namespace c; rc_cluster c; rc_pod c] →
  emits (send desc t v labels) [(d_fqName desc, drop 4 labels)].
Proof.
  intros Hd Hl Ha Ht tr out _. unfold send. rewrite metric_law; [|by apply described_valid|done|].
  - intros (r & tr' & -> & -> & ->). split; [by destruct r|]. split; [done|]. by apply (Forall_singleton well_labelled).
  - apply forallb_forall. intros l Hin. apply ascii_ValidString.
    rewrite Forall_forall in Ha. apply Ha. by apply list_elem_of_In.
Qed.

Definition identity_ok (labels : list string) : Prop :=
  length labels = 4%nat ∧ Forall (λ l, is_ascii l = true) labels ∧
  take 3 labels = [rc_namespace c; rc_cluster c; rc_pod c].

(** One label value per identity label, as the descriptors without further labels want. *)
Lemma emits_plain desc t v labels :
  desc ∈ Describe → d_variableLabels desc = metricLabels → identity_ok labels →
  emits (send desc t v labels) [(d_fqName desc, [])].
Proof.
  intros Hd Hv (Hl & Ha & Ht). rewrite <-(drop_ge labels 4) by lia. apply emits_send; [done| |done|done].
  by rewrite Hv.
Qed.

Lemma emits_extra desc t v labels extra :
  desc ∈ Describe → length (d_variableLabels desc) = (4 + length extra)%nat → identity_ok labels →
  Forall (λ l, is_ascii l = true) extra →
  emits (send desc t v (labels ++ extra)) [(d_fqName desc, extra)].
Proof.
  intros Hd Hv (Hl & Ha & Ht) He.
  replace extra with (drop 4 (labels ++ extra)) at 2 by (rewrite <-Hl; apply drop_app_length).
  apply emits_send; [done|rewrite length_app; lia|by apply Forall_app|].
  rewrite take_app_le by lia. done.
Qed.

Lemma emits_key desc t info key labels :
  desc ∈ Describe → d_variableLabels desc = metricLabels → identity_ok labels →
  emits (emitFromKey desc t info key labels) [(d_fqName desc, [])].
Proof. intros. unfold emitFromKey. destruct (parseFloatKey info key); [by apply emits_plain|apply emits_nothing]. Qed.

Lemma emits_commands info labels :
  identity_ok labels →
  emits (emitCommandCalls info labels)
    ((λ x, (d_fqName commandCallsDesc, [x])) <$> ["get"; "set"; "del"]).
Proof.
  intros Hi. unfold emitCommandCalls.
  assert (Hc : Forall (λ x, is_ascii x = true) ["get"; "set"; "del"]) by (apply (bool_decide_eq_true_1 _); reflexivity).
  revert Hc. generalize ["get"; "set"; "del"]. intros l. induction l as [|x l IH]; intros Hc; [apply emits_nothing|].
  apply Forall_cons in Hc as [Hx Hc].
  apply (emits_then _ _ [(d_fqName commandCallsDesc, [x])]); [|by apply IH].
  destruct (info !! _) as [raw|]; [|apply emits_nothing].
  destruct (parseCommandCalls raw); [|apply emits_nothing].
  apply emits_extra; [|done|done|by apply Forall_singleton]. described.
Qed.

(** The keys a scrape can send, in the order of [Collect]. *)
Definition scrape_keys (version os : string) : list (string * list string) :=
  let plain d := [(d_fqName d, [])] in
  plain upDesc ++ plain fencedDesc ++ [(d_fqName instanceInfoDesc, [version; os])] ++
  plain connectedClientsDesc ++ plain blockedClientsDesc ++ plain rejectedConnectionsDesc ++
  plain usedMemoryDesc ++ plain usedMemoryRSSDesc ++ plain usedMemoryPeakDesc ++ plain maxMemoryDesc ++
  plain memFragmentationRatioDesc ++ plain evictedKeysDesc ++ plain totalCommandsProcessedDesc ++
  ((λ x, (d_fqName commandCallsDesc, [x])) <$> ["get"; "set"; "del"]) ++
  plain instantaneousOpsPerSecDesc ++ plain keyspaceHitsDesc ++ plain keyspaceMissesDesc ++
  plain connectedReplicasDesc ++ plain replicationOffsetDesc ++ plain replicaReplOffsetDesc ++
  plain rdbLastSaveTimestampDesc ++ plain rdbLastBgsaveDurationDesc ++ plain aofLastRewriteDurationDesc ++
  plain rdbChangesSinceLastSaveDesc ++ plain loadingDesc ++ plain uptimeDesc ++
  plain masterLinkUpDesc ++ plain replicationLagBytesDesc.

Lemma scrape_keys_NoDup version os : NoDup (scrape_keys version os).
Proof.
  assert (Hn : NoDup ((λ k, (k.1, match k.2 with [x] => x | _ => "" end)) <$> scrape_keys version os)).
  { unfold scrape_keys, upDesc, fencedDesc, instanceInfoDesc, connectedClientsDesc, blockedClientsDesc,
      rejectedConnectionsDesc, usedMemoryDesc, usedMemoryRSSDesc, usedMemoryPeakDesc, maxMemoryDesc,
      memFragmentationRatioDesc, evictedKeysDesc, totalCommandsProcessedDesc, commandCallsDesc,
      instantaneousOpsPerSecDesc, keyspaceHitsDesc, keyspaceMissesDesc, connectedReplicasDesc, replicationOffsetDesc,
      replicaReplOffsetDesc, rdbLastSaveTimestampDesc, rdbLastBgsaveDurationDesc, aofLastRewriteDurationDesc,
      rdbChangesSinceLastSaveDesc, loadingDesc, uptimeDesc, masterLinkUpDesc, replicationLagBytesDesc.
    rewrite !newDesc_name by done. apply (bool_decide_eq_true_1 _). vm_compute. reflexivity. }
  by apply NoDup_fmap_1 in Hn.
Qed.

Lemma scrape_mono p L L' : L `sublist_of` L' → emits p L → emits p L'.
Proof.
  intros HL Hp tr out Ha Hr. destruct (Hp tr out Ha Hr) as (-> & HS & HF). split; [done|]. split; [|done].
  by etrans.
Qed.

Hypothesis identity_ascii : Forall (λ l, is_ascii l = true) [rc_namespace c; rc_cluster c; rc_pod c].

Lemma base_ok role : is_ascii role = true → identity_ok (baseLabelValues c role).
Proof.
  intros Hr. split; [done|]. split; [|done]. apply (Forall_app _ [_; _; _] [_]). split; [done|].
  apply Forall_singleton. by apply normalizeRole_ascii.
Qed.

Lemma emits_fenced f L :
  (∀ v, emits (f v) L) →
  emits ((if rc_fencedCheck c then
            isFenced ← mcall MFenced; mret (match isFenced with Ok true => f_one | _ => f_zero end)
          else mret f_zero) ≫= f) L.
Proof.
  intros Hf. destruct (rc_fencedCheck c); [|apply Hf].
  refine (emits_call MFenced (λ r, f (match r with Ok true => f_one | _ => f_zero end)) L _ _); [|done].
  intros r _. apply Hf.
Qed.

(** The program after the two replies; with an error only the first two
    metrics are sent. *)
Ltac emits_step :=
  first [ apply emits_then;
            [first [ apply emits_plain; [described|done|assumption] | apply emits_key; [described|done|assumption]
                   | by apply emits_commands ]|]
        | apply emits_fenced; intros ? ].

Lemma emits_collect tr out :
  Forall ascii_reply tr → runs (Collect c) tr out →
  ∃ version os, out = Ok tt ∧ metric_key <$> sent tr `sublist_of` scrape_keys version os ∧
    Forall well_labelled (sent tr).
Proof.
  intros Ha Hr. unfold Collect in Hr. destruct Hr as (ping & tr1 & -> & raw & tr2 & -> & Hr).
  apply Forall_cons in Ha as [_ Ha]. apply Forall_cons in Ha as [Hraw Ha]. cbn beta zeta in Hr.
  change (sent (_ :: _ :: tr2)) with (sent tr2).
  destruct raw as [s|e]; cbn beta iota in Hr.
  - exists (default "" (parse_info_map s !! "redis_version")), (default "" (parse_info_map s !! "os")).
    revert tr2 out Ha Hr. assert (Hi := base_ok _ (normalizeRole_ascii _ (default_ascii s "role" Hraw))).
    unfold scrape_keys. cbn zeta. repeat emits_step.
    apply emits_then.
    { apply emits_extra; [described|done|done|]. apply (Forall_app _ [_] [_]).
      split; apply Forall_singleton; by apply default_ascii. }
    repeat emits_step. destruct (parseFloatKey (parse_info_map s) "master_repl_offset"), (parseFloatKey (parse_info_map s) "slave_repl_offset"); try apply emits_nothing.
    apply emits_plain; [described|done|assumption].
  - exists "", "". assert (Hi := base_ok unknownRole eq_refl).
    revert tr2 out Ha Hr. unfold scrape_keys. cbn zeta. repeat emits_step. apply emits_nothing.
Qed.
End scrape.

(** ** The theorem *)

#[export] Instance Z_float64 : Float64 := {|
  float64 := Z; f_zero := 0; f_one := 1; f_sub := Z.sub; f_ltb := Z.ltb;
  ParseFloat := λ s, match Atoi s with (z, None) => Some z | _ => None end
|}.

#[export] Instance joined_names : MetricNames := {|
  BuildFQName := λ ns sub name,
    if bool_decide (name = "") then ""
    else (if bool_decide (ns = "") then "" else ns +:+ "_") +:+ (if bool_decide (sub = "") then "" else sub +:+ "_") +:+ name
|}.

#[export] Instance strict_client : MetricClient (H := Z_float64) := {|
  MustNewConstMetric := λ desc t v labels,
    if valid_desc desc && bool_decide (length labels = length (d_variableLabels desc)) && forallb ValidString labels
    then Some (mkMetric desc t v labels) else None
|}.

#[export] Instance strict_laws : ClientLaws (H := joined_names) (H0 := Z_float64).
Proof.
  split.
  - intros ns name Hns Hn. cbn [BuildFQName joined_names]. rewrite !bool_decide_false by done. by rewrite string_app_assoc.
  - intros desc t v labels Hd Hl Hs. cbn [MustNewConstMetric strict_client]. by rewrite Hd, Hs, bool_decide_true.
Defined.

(** C40: A scrape cannot panic when the pod's identity and Redis' replies are ASCII;
    every metric it sends is described, has one label value per label and
    carries the pod's identity; and no two of them have the same name and
    labels, so that the registry accepts them. *)
Theorem scrape_well_formed `{ClientLaws} c tr out :
  Forall (λ l, is_ascii l = true) [rc_namespace c; rc_cluster c; rc_pod c] →
  Forall ascii_reply tr → runs (Collect c) tr out →
  out = Ok tt ∧ Forall (well_labelled c) (sent tr) ∧ NoDup (metric_key <$> sent tr).
Proof.
  intros Hid Ha Hr. destruct (emits_collect c Hid tr out Ha Hr) as (version & os & -> & HS & HF).
  split; [done|]. split; [done|]. exact (sublist_NoDup _ _ (scrape_keys_NoDup version os) HS).
Qed.

Definition toy_info : string :=
  "# Server" +:+ String CR (String LF ("role:slave" +:+ String CR (String LF ("master_repl_offset:40" +:+
  String CR (String LF ("slave_repl_offset:50" +:+ String CR (String LF "cmdstat_get:calls=3,usec=9"))))))).

Definition toy_redis : environment prom unit := λ w o,
  match o return prom_ret o * unit with
  | MPing => (Ok tt, w) | MInfo _ => (Ok toy_info, w) | MFenced => (Ok true, w) | MSend _ => (tt, w)
  end.

Definition toy_collector : RedisCollector := mkRedisCollector "ns" "c" "c-0" true.

Lemma scrape_well_formed_witness :
  let '(tr, out, _) := interp toy_redis tt (Collect toy_collector) in
  (out = Ok tt ∧ Forall (well_labelled toy_collector) (sent tr) ∧ NoDup (metric_key <$> sent tr)) ∧
  (λ m, (d_fqName (m_desc m), m_value m, drop 3 (m_labels m))) <$> sent tr =
    [("redis_up", 1, ["slave"]); ("redis_fenced", 1, ["slave"]); ("redis_instance_info", 1, ["slave"; ""; ""]);
     ("redis_command_calls_total", 3, ["slave"; "get"]); ("redis_replication_offset", 40, ["slave"]);
     ("redis_replica_repl_offset", 50, ["slave"]); ("redis_master_link_up", 0, ["slave"]);
     ("redis_replication_lag_bytes", 0, ["slave"])].
Proof.
  destruct (interp toy_redis tt (Collect toy_collector)) as [[tr out] w'] eqn:E. split.
  - apply scrape_well_formed; [by apply (bool_decide_eq_true_1 _)| |exact (interp_runs (S := prom) _ _ _ _ _ _ E)].
    change tr with (tr, out, w').1.1. rewrite <-E. repeat constructor.
  - change tr with (tr, out, w').1.1. rewrite <-E. vm_compute. reflexivity.
Defined.
