(* ===== verification/Metrics.v ===== *)
(** * The controller's metrics ([internal/controller/cluster/metrics.go])

    Four vectors of the registry: instance counts, the phase as one-hot gauges,
    durations and failovers.  A gauge that was never set is absent.  Values are
    integers here: the code converts integers to [float64], and a duration to
    seconds; the histogram keeps the observed durations.

    The theorems: after a pass the gauge of the current phase is one and every
    other phase the metric knows is zero; the phase [Replicating] is not among
    them and its gauge stays at one when the cluster has left it. *)
From S2P Require Import Prelude GoStr Api Fixtures.

Definition unknownPhase := "Unknown".

Definition knownClusterPhases : list string :=
  [ClusterPhaseCreating; ClusterPhaseHealthy; ClusterPhaseDegraded;
   ClusterPhaseFailingOver; ClusterPhaseScaling; ClusterPhaseUpdating;
   ClusterPhaseWaitingForUser; ClusterPhaseDeleting; ClusterPhaseHibernating;
   unknownPhase].

(** The vectors, keyed by their label values. *)
Record registry := mkRegistry {
  redisClusterInstancesTotal : gmap (string * string * string) Z;
  redisClusterPhase : gmap (string * string * string) Z;
  redisReconcileDurationSeconds : gmap (string * string) (list Z);
  redisFailoverTotal : gmap (string * string) Z
}.

(** A nil cluster is [None]. *)
Definition clusterMetricIdentity (cluster : option RedisCluster) : option (string * string) :=
  match cluster with
  | None => None
  | Some cl =>
      if bool_decide (Namespace cl = "") || bool_decide (Name cl = "") then None else Some (Namespace cl, Name cl)
  end.

Definition observeReconcileDurationMetric (cluster : option RedisCluster) (duration : Z) (r : registry) : registry :=
  match clusterMetricIdentity cluster with
  | None => r
  | Some id =>
      mkRegistry (redisClusterInstancesTotal r) (redisClusterPhase r)
        (<[id := default [] (redisReconcileDurationSeconds r !! id) ++ [duration]]> (redisReconcileDurationSeconds r))
        (redisFailoverTotal r)
  end.

Definition setClusterInstancesMetrics (cluster : option RedisCluster) (actual : Z) (r : registry) : registry :=
  match cluster, clusterMetricIdentity cluster with
  | Some cl, Some (ns, name) =>
      mkRegistry
        (<[(ns, name, "actual") := actual]>
          (<[(ns, name, "desired") := DesiredDataInstances (Spec cl)]> (redisClusterInstancesTotal r)))
        (redisClusterPhase r) (redisReconcileDurationSeconds r) (redisFailoverTotal r)
  | _, _ => r
  end.

(** The label of the current phase. *)
Definition phase_label (cl : RedisCluster) : string :=
  let phase := Status_Phase (Status cl) in
  if bool_decide (phase = "") then unknownPhase else phase.

Definition setClusterPhaseMetric (cluster : option RedisCluster) (r : registry) : registry :=
  match cluster, clusterMetricIdentity cluster with
  | Some cl, Some (ns, name) =>
      let zeroed := foldl (λ m phase, <[(ns, name, phase) := 0]> m) (redisClusterPhase r) knownClusterPhases in
      mkRegistry (redisClusterInstancesTotal r) (<[(ns, name, phase_label cl) := 1]> zeroed)
        (redisReconcileDurationSeconds r) (redisFailoverTotal r)
  | _, _ => r
  end.

Definition incrementFailoverMetric (cluster : option RedisCluster) (r : registry) : registry :=
  match clusterMetricIdentity cluster with
  | None => r
  | Some id =>
      mkRegistry (redisClusterInstancesTotal r) (redisClusterPhase r) (redisReconcileDurationSeconds r)
        (<[id := default 0 (redisFailoverTotal r !! id) + 1]> (redisFailoverTotal r))
  end.

(** ** One-hot phases *)

Lemma foldl_zero (ns name : string) (l : list string) (m : gmap (string * string * string) Z) (k : string * string * string) :
  foldl (λ m phase, <[(ns, name, phase) := 0]> m) m l !! k =
  if bool_decide (k.1 = (ns, name) ∧ k.2 ∈ l) then Some 0 else m !! k.
Proof.
  revert m; induction l as [|p l IH]; intros m; simpl.
  { rewrite bool_decide_false; [done|]. set_solver. }
  rewrite IH. destruct k as [[kn kc] kp]. simpl.
  destruct (decide ((kn, kc) = (ns, name))) as [[= -> ->]|Hne].
  2:{ rewrite !bool_decide_false by naive_solver. rewrite lookup_insert_ne; [done|]. by intros [= -> -> ->]. }
  destruct (decide (kp ∈ l)) as [Hin|Hout]; [by rewrite !bool_decide_true by set_solver|].
  rewrite bool_decide_false by naive_solver. destruct (decide (kp = p)) as [->|Hp].
  - by rewrite lookup_insert_eq, bool_decide_true by set_solver.
  - rewrite lookup_insert_ne by congruence. rewrite bool_decide_false by set_solver. done.
Qed.

(** The gauge of a phase of a cluster after the update. *)
Lemma phase_gauge cl r phase :
  Namespace cl ≠ "" → Name cl ≠ "" →
  redisClusterPhase (setClusterPhaseMetric (Some cl) r) !! (Namespace cl, Name cl, phase) =
  if bool_decide (phase = phase_label cl) then Some 1
  else if bool_decide (phase ∈ knownClusterPhases) then Some 0
  else redisClusterPhase r !! (Namespace cl, Name cl, phase).
Proof.
  intros Hn Hc. unfold setClusterPhaseMetric, clusterMetricIdentity.
  rewrite (bool_decide_false (Namespace cl = "")), (bool_decide_false (Name cl = "")) by done. cbn [orb redisClusterPhase].
  case_bool_decide as E; [subst; by rewrite lookup_insert_eq|].
  rewrite lookup_insert_ne by congruence. rewrite foldl_zero. simpl.
  repeat case_bool_decide; naive_solver.
Qed.

(** After the update the gauge of the cluster's phase is one, and every other
    gauge of the cluster is zero or was never set, provided the gauge of
    [Replicating] was not at one before, or that is the phase. *)
Theorem phase_one_hot cl r phase :
  Namespace cl ≠ "" → Name cl ≠ "" →
  (∀ p, p ∉ knownClusterPhases → p ≠ phase_label cl →
    redisClusterPhase r !! (Namespace cl, Name cl, p) ∈ [None; Some 0]) →
  redisClusterPhase (setClusterPhaseMetric (Some cl) r) !! (Namespace cl, Name cl, phase_label cl) = Some 1 ∧
  (phase ≠ phase_label cl →
   redisClusterPhase (setClusterPhaseMetric (Some cl) r) !! (Namespace cl, Name cl, phase) ∈ [None; Some 0]).
Proof.
  intros Hn Hc Hr. rewrite !phase_gauge by done. rewrite bool_decide_true by done. split; [done|].
  intros Hp. rewrite bool_decide_false by done. case_bool_decide; [set_solver|]. by apply Hr.
Qed.

Lemma phase_one_hot_witness :
  let r := mkRegistry ∅ {[ (Namespace three, Name three, "Healthy") := 1 ]} ∅ ∅ in
  let cl := set_Phase three ClusterPhaseDegraded in
  redisClusterPhase (setClusterPhaseMetric (Some cl) r) !! (Namespace cl, Name cl, "Degraded") = Some 1 ∧
  ("Healthy" ≠ "Degraded" →
   redisClusterPhase (setClusterPhaseMetric (Some cl) r) !! (Namespace cl, Name cl, "Healthy") ∈ [None; Some 0]).
Proof.
  cbn zeta. apply (phase_one_hot (set_Phase three ClusterPhaseDegraded)); [done|done|].
  intros p Hp Hne. cbn [redisClusterPhase]. rewrite lookup_singleton_ne; [set_solver|]. intros [= <-]. apply Hp.
  apply (bool_decide_eq_true_1 _). reflexivity.
Defined.

(** A cluster that leaves the phase [Replicating] keeps its gauge at one, beside
    the gauge of the phase it entered. *)
Theorem replicating_gauge_sticks cl r p :
  Namespace cl ≠ "" → Name cl ≠ "" → Status_Phase (Status cl) = ClusterPhaseReplicating → p ≠ ClusterPhaseReplicating →
  let r1 := setClusterPhaseMetric (Some cl) r in
  let r2 := setClusterPhaseMetric (Some (set_Phase cl p)) r1 in
  phase_label (set_Phase cl p) ≠ "Replicating" ∧
  redisClusterPhase r2 !! (Namespace cl, Name cl, "Replicating") = Some 1 ∧
  redisClusterPhase r2 !! (Namespace cl, Name cl, phase_label (set_Phase cl p)) = Some 1.
Proof.
  intros Hn Hc Hp Hne. cbn zeta.
  assert (Hl : phase_label (set_Phase cl p) ≠ "Replicating") by (by destruct p).
  assert (Hl1 : phase_label cl = "Replicating") by (unfold phase_label; by rewrite Hp).
  assert (G := phase_gauge (set_Phase cl p) (setClusterPhaseMetric (Some cl) r)).
  change (Namespace (set_Phase cl p)) with (Namespace cl) in G. change (Name (set_Phase cl p)) with (Name cl) in G.
  split; [done|]. rewrite !G by done. split; [|by rewrite bool_decide_true].
  rewrite bool_decide_false by done. rewrite bool_decide_false by (apply (bool_decide_eq_false_1 _); reflexivity).
  rewrite phase_gauge by done. by rewrite bool_decide_true.
Qed.

Lemma replicating_gauge_sticks_witness :
  let r1 := setClusterPhaseMetric (Some (set_Phase three ClusterPhaseReplicating)) (mkRegistry ∅ ∅ ∅ ∅) in
  let r2 := setClusterPhaseMetric (Some (set_Phase (set_Phase three ClusterPhaseReplicating) ClusterPhaseHealthy)) r1 in
  phase_label (set_Phase (set_Phase three ClusterPhaseReplicating) ClusterPhaseHealthy) ≠ "Replicating" ∧
  redisClusterPhase r2 !! (Namespace three, Name three, "Replicating") = Some 1 ∧
  redisClusterPhase r2 !! (Namespace three, Name three, "Healthy") = Some 1.
Proof.
  apply (replicating_gauge_sticks (set_Phase three ClusterPhaseReplicating)
    (mkRegistry ∅ ∅ ∅ ∅) ClusterPhaseHealthy); done.
Defined.
