(* ===== verification/Commands.v ===== *)
(** * The command line ([cmd/manager/main.go])

    What each subcommand does with its flags: the instance manager and the
    restore command fall back to the environment and refuse to start without
    their names; [copy-binary] installs the binary and the certificate bundle
    for the instance manager's container.  The parsing of the flags is Cobra's;
    the values here are those the flags end up with. *)
From S2P Require Import Prelude GoStr Paths Api Effects InstanceManager Startup Restore Pki.

(** ** Running *)

Section commands.
Context (Getenv : string → string).

Definition or_env (flag name : string) : string := if bool_decide (flag = "") then Getenv name else flag.

Section instance.
Context (has_certificates : string → bool).

Definition instanceCmd (clusterName podName podNamespace role : string) : iprog unit :=
  let clusterName := or_env clusterName "CLUSTER_NAME" in
  let podName := or_env podName "POD_NAME" in
  let podNamespace := or_env podNamespace "POD_NAMESPACE" in
  if bool_decide (clusterName = "") || bool_decide (podName = "") || bool_decide (podNamespace = "")
  then Throw (Errorf "--cluster-name, --pod-name, and --pod-namespace are required (or set CLUSTER_NAME, POD_NAME, POD_NAMESPACE env vars)")
  else if bool_decide (role = "data") then Startup.Run has_certificates clusterName podName podNamespace
  else if bool_decide (role = "sentinel") then RunSentinel has_certificates clusterName podName podNamespace
  else Throw (Errorf ("invalid --role " +:+ quoted role +:+ ": must be one of data,sentinel")).
End instance.

Definition restoreCmd (fuel : nat) (clusterName backupName backupNamespace dataDir podName : string)
  : rprog (option unit) :=
  let backupNamespace := or_env backupNamespace "POD_NAMESPACE" in
  let clusterName := or_env clusterName "CLUSTER_NAME" in
  if bool_decide (clusterName = "") || bool_decide (backupName = "") || bool_decide (backupNamespace = "") ||
     bool_decide (dataDir = "")
  then Throw (Errorf "--cluster-name, --backup-name, --backup-namespace, and --data-dir are required (or set CLUSTER_NAME/POD_NAMESPACE env vars)")
  else
    let podName := or_env podName "POD_NAME" in
    Restore.Run fuel clusterName backupName backupNamespace dataDir podName.
End commands.

(** The defaults of the controller's flags. *)
Record controller_flags := mkControllerFlags {
  fl_metricsAddr : string;
  fl_pprofBindAddr : string;
  fl_maxConcurrentReconciles : Z;
  fl_enableLeaderElection : bool;
  fl_enableWebhooks : bool
}.
Definition default_controller_flags : controller_flags := mkControllerFlags ":9090" "" 5 true true.

Definition controllerCmd `{Crypto} (ParseDuration : string → option Z) (f : controller_flags) : prog pki unit :=
  RunController ParseDuration (fl_metricsAddr f) (fl_pprofBindAddr f) (fl_maxConcurrentReconciles f)
    (fl_enableLeaderElection f) (fl_enableWebhooks f).

(** ** Installing the binary *)

(** [CCopy] is [io.Copy] from the open source to the open destination. *)
Inductive copy_op :=
| CExecutable
| CStat (path : string)
| COpen (path : string)
| CCreate (path : string) (perm : Z)
| CCopy (src dst : string)
| CClose (path : string).

Definition copy_ret (c : copy_op) : Type := match c with CExecutable => res string | _ => res unit end.
Definition copy : sig := mkSig copy_op copy_ret.
Definition ccall (c : copy_op) : prog copy (copy_ret c) := call (S := copy) c.

Definition systemCACertBundlePath := "/etc/ssl/certs/ca-certificates.crt".

(** A failed copy closes the destination and reports the copy's error; the error
    of the last close is reported too. *)
Definition copyFile (src dst : string) (perm : Z) : prog copy unit :=
  ccall (COpen src) ≫= check_ctx ("opening source " +:+ src);;
  ccall (CCreate dst perm) ≫= check_ctx ("opening destination " +:+ dst);;
  r ← ccall (CCopy src dst);
  match r with
  | Err e => ccall (CClose dst) ≫= λ _, Throw (Wrap "copying binary" e)
  | Ok _ => ccall (CClose dst) ≫= check_ctx ("flushing destination " +:+ dst)
  end.

Definition copyBinary (src dst : string) : prog copy unit := copyFile src dst (7 * 64 + 5 * 8 + 5).

Definition stageCACertBundle (src dst : string) : prog copy unit :=
  ccall (CStat src) ≫= check_ctx ("stat CA bundle " +:+ src);;
  copyFile src dst (6 * 64 + 4 * 8 + 4).

Definition copyBinaryCmd (destination : string) : prog copy unit :=
  src ← ccall CExecutable ≫= check_ctx "resolving executable path";
  copyBinary src destination;;
  let caDst := Join [Dir destination; "ca-certificates.crt"] in
  with_ctx "staging CA bundle" (stageCACertBundle systemCACertBundlePath caDst).

(** ** A file system *)

Record files := mkFiles {
  f_self : string;
  f_content : gmap string (string * Z);
  f_writable : string → bool;
  f_room : string → bool
}.

(** An existing file keeps its permissions and is truncated; a copy fails after
    writing a part when there is no room. *)
Definition fs_env : environment copy files := λ w c,
  match c return copy_ret c * files with
  | CExecutable => (Ok (f_self w), w)
  | CStat path | COpen path =>
      (match f_content w !! path with Some _ => Ok tt | None => Err (ENotFound path) end, w)
  | CCreate path perm =>
      if f_writable w path then
        let perm := match f_content w !! path with Some (_, p) => p | None => perm end in
        (Ok tt, mkFiles (f_self w) (<[path := ("", perm)]> (f_content w)) (f_writable w) (f_room w))
      else (Err (EAPI "permission denied"), w)
  | CCopy src dst =>
      match f_content w !! src, f_content w !! dst with
      | Some (data, _), Some (_, perm) =>
          if f_room w dst then
            (Ok tt, mkFiles (f_self w) (<[dst := (data, perm)]> (f_content w)) (f_writable w) (f_room w))
          else (Err (EAPI "no space left on device"), w)
      | _, _ => (Err (ENotFound src), w)
      end
  | CClose _ => (Ok tt, w)
  end.

Definition content (w : files) (path : string) : option string := fst <$> f_content w !! path.

Lemma copyFile_copies w src dst perm :
  src ≠ dst →
  executes (S := copy) (λ _, true) fs_env w (copyFile src dst perm) (λ out w', ∀ u, out = Ok u →
    is_Some (content w src) ∧ content w' dst = content w src ∧ f_self w' = f_self w ∧
    ∀ path, path ≠ dst → f_content w' !! path = f_content w !! path).
Proof.
  intros Hne. unfold copyFile, content. split; [done|]. simpl.
  destruct (f_content w !! src) as [[data p]|] eqn:Hs; simpl; [|done].
  split; [done|]. simpl. destruct (f_writable w dst); simpl; [|done].
  split; [done|]. simpl. rewrite lookup_insert_ne by done. rewrite Hs, lookup_insert_eq.
  destruct (f_room w dst); simpl; (split; [done|]); simpl; intros u Hu; [|done].
  split; [done|]. rewrite lookup_insert_eq. split; [done|]. split; [done|].
  intros path Hp. by rewrite !lookup_insert_ne.
Qed.

(** A successful [copy-binary] leaves the running binary at the destination and
    the system's certificate bundle beside it. *)
Theorem copy_binary_installs w destination tr w' :
  let caDst := Join [Dir destination; "ca-certificates.crt"] in
  f_self w ≠ destination → caDst ≠ destination → destination ≠ systemCACertBundlePath → systemCACertBundlePath ≠ caDst →
  interp fs_env w (copyBinaryCmd destination) = (tr, Ok tt, w') →
  is_Some (content w' destination) ∧ content w' destination = content w (f_self w) ∧
  is_Some (content w' caDst) ∧ content w' caDst = content w systemCACertBundlePath.
Proof.
  intros caDst H1 H2 H3 H4 Hi.
  assert (He : executes (S := copy) (λ _, true) fs_env w (copyBinaryCmd destination) (λ out w', ∀ u, out = Ok u →
    is_Some (content w' destination) ∧ content w' destination = content w (f_self w) ∧
    is_Some (content w' caDst) ∧ content w' caDst = content w systemCACertBundlePath)).
  { unfold copyBinaryCmd. apply executes_bind. split; [done|]. cbn -[copyBinary stageCACertBundle with_ctx mbind].
    apply executes_bind. eapply executes_mono; [by apply copyFile_copies|].
    intros [u|e] w1 Hc; [|done]. destruct (Hc u eq_refl) as (Hs & Hd & _ & Hk). clear Hc.
    apply executes_with_ctx. unfold stageCACertBundle. apply executes_bind. split; [done|].
    cbn -[copyFile]. destruct (f_content w1 !! systemCACertBundlePath) as [x|] eqn:Hx; cbn -[copyFile]; [|done].
    eapply executes_mono; [by apply copyFile_copies|]. intros [u'|e] w2 Hc; [|done].
    destruct (Hc u' eq_refl) as (Hs2 & Hd2 & _ & Hk2). intros _ _.
    fold caDst in Hd2, Hk2. unfold content in *. rewrite (Hk2 destination) by done. rewrite Hd, Hd2.
    rewrite (Hk systemCACertBundlePath) in * by done. done. }
  destruct (executes_interp (S := copy) _ _ _ _ _ _ _ _ He Hi) as [_ HQ]. by apply (HQ tt).
Qed.

(** A pod that names neither its cluster nor itself does nothing. *)
Theorem instance_needs_identity Getenv certs cluster pod ns role tr out :
  runs (S := inst) (instanceCmd Getenv certs cluster pod ns role) tr out →
  (or_env Getenv cluster "CLUSTER_NAME" = "" ∨ or_env Getenv pod "POD_NAME" = "" ∨
   or_env Getenv ns "POD_NAMESPACE" = "" ∨ role ∉ ["data"; "sentinel"]) →
  tr = [] ∧ ∃ e, out = Err e.
Proof.
  unfold instanceCmd. cbn zeta. intros Hr Hc.
  destruct (bool_decide _ || bool_decide _ || bool_decide _) eqn:E; [destruct Hr as [-> ->]; eauto|].
  apply orb_false_iff in E as [E E3]. apply orb_false_iff in E as [E1 E2].
  apply bool_decide_eq_false_1 in E1, E2, E3. destruct Hc as [?|[?|[?|Hrole]]]; [done..|].
  rewrite !bool_decide_false in Hr by set_solver. destruct Hr as [-> ->]. eauto.
Qed.

Definition toy_files : files :=
  mkFiles "/manager" {[ "/manager" := ("binary", 493); systemCACertBundlePath := ("bundle", 420) ]} (λ _, true) (λ _, true).

Example copy_binary_example :
  let '(_, out, w') := interp fs_env toy_files (copyBinaryCmd "/shared/manager") in
  out = Ok tt ∧ f_content w' !! "/shared/manager" = Some ("binary", 493) ∧
  f_content w' !! "/shared/ca-certificates.crt" = Some ("bundle", 420).
Proof. vm_compute. done. Qed.
